(** * Synchronator: a shallow embedding of [Synchronator.py]

    The program keeps a local file tree and a Dropbox app folder in step.
    Its state is the pair of dictionaries of [DropboxState]; everything
    else it touches is outside of it: the local file system ([os],
    [open]), the Dropbox client object [dbx], the console and [input].

    The embedding threads all of these through one machine state and
    writes every method of the script as a computation in a small
    state-and-exception monad, statement by statement.  The Dropbox SDK is
    not part of the script, so the client is an interface ([Client]) and
    every result that does not say otherwise holds for all its
    implementations. *)

From stdpp Require Import base option list gmap strings pretty.
From Stdlib Require Import Ascii ZArith Lia.

Open Scope Z_scope.

(** ** Python strings and [os.path] *)

Module Py.

(** [s.startswith(p)] *)
Definition startswith (s p : string) : bool := String.prefix p s.

(** [s.endswith(p)] *)
Definition endswith (s p : string) : bool :=
  String.prefix (String.rev p) (String.rev s).

(** [s[1:]] *)
Definition tail (s : string) : string :=
  match s with
  | EmptyString => EmptyString
  | String _ r => r
  end.

(** [len(s)] *)
Definition len (s : string) : Z := Z.of_nat (String.length s).

Definition slash : ascii := "/"%char.

Definition is_slash (c : ascii) : bool := bool_decide (c = slash).

(** every character of [s] is a separator: [s == '/' * len(s)] *)
Fixpoint all_slashes (s : string) : bool :=
  match s with
  | EmptyString => true
  | String c r => is_slash c && all_slashes r
  end.

(** [s.rstrip('/')] *)
Fixpoint rstrip (s : string) : string :=
  match s with
  | EmptyString => EmptyString
  | String c r =>
      match rstrip r with
      | EmptyString => if is_slash c then EmptyString else String c EmptyString
      | r' => String c r'
      end
  end.

(** [(p[:i], p[i:])] for [i = p.rfind('/') + 1] *)
Fixpoint cut (p : string) : string * string :=
  match p with
  | EmptyString => (EmptyString, EmptyString)
  | String c r =>
      let '(h, t) := cut r in
      match h with
      | EmptyString =>
          if is_slash c then (String c EmptyString, r)
          else (EmptyString, String c r)
      | _ => (String c h, t)
      end
  end.

(** [posixpath.split] *)
Definition split (p : string) : string * string :=
  let '(h, t) := cut p in
  (if all_slashes h then h else rstrip h, t).

(** [os.path.dirname] *)
Definition dirname (p : string) : string := fst (split p).

(** [os.path.basename] *)
Definition basename (p : string) : string := snd (split p).

(** [os.path.join(a, b)] *)
Definition join (a b : string) : string :=
  if startswith b "/" then b
  else if bool_decide (a = "") || endswith a "/" then a +:+ b
  else a +:+ "/" +:+ b.

(** [s.split('/')] *)
Fixpoint segments (s : string) : list string :=
  match s with
  | EmptyString => [EmptyString]
  | String c r =>
      if is_slash c then EmptyString :: segments r
      else match segments r with
           | [] => [String c EmptyString]
           | x :: xs => String c x :: xs
           end
  end.

End Py.

(** ** The local file system

    The tree below the sync root, keyed by the path relative to it, the
    way the script names files (["notes/a.txt"]).  The root itself is
    ["."] and always a directory.  Content is represented by its size:
    the script never inspects bytes, it only counts them. *)

Inductive node :=
| File (mtime size : Z) (locked : bool)
| Dir (mtime : Z).

Record LocalFS := mkLocalFS {
  nodes : gmap string node;
  root_mtime : Z;
  now : Z
}.

Module Os.

(** A [None] stands for a raised [OSError]. *)

Definition node_at (fs : LocalFS) (p : string) : option node :=
  if bool_decide (p = ".") then Some (Dir (root_mtime fs)) else nodes fs !! p.

(** [os.path.exists] *)
Definition exists_ (fs : LocalFS) (p : string) : bool :=
  match node_at fs p with Some _ => true | None => false end.

(** [os.path.isfile] *)
Definition isfile (fs : LocalFS) (p : string) : bool :=
  match node_at fs p with Some (File _ _ _) => true | _ => false end.

(** [os.path.isdir] *)
Definition isdir (fs : LocalFS) (p : string) : bool :=
  match node_at fs p with Some (Dir _) => true | _ => false end.

(** [os.path.getmtime] *)
Definition getmtime (fs : LocalFS) (p : string) : option Z :=
  match node_at fs p with
  | Some (File t _ _) | Some (Dir t) => Some t
  | None => None
  end.

(** [os.path.getsize]; the size of a directory entry is immaterial here
    (it is far below any transfer threshold) and reads as 0. *)
Definition getsize (fs : LocalFS) (p : string) : option Z :=
  match node_at fs p with
  | Some (File _ n _) => Some n
  | Some (Dir _) => Some 0
  | None => None
  end.

(** the directory an entry lives in, as the script computes it:
    [os.path.dirname(p)], with [''] read as ['.'] *)
Definition parent (p : string) : string :=
  let d := Py.dirname p in if bool_decide (d = "") then "." else d.

(** the entries directly inside directory [d] *)
Definition inside (fs : LocalFS) (d : string) : list (string * node) :=
  filter (λ kv, parent kv.1 = d ∧ kv.1 ≠ ".") (map_to_list (nodes fs)).

(** [os.listdir] *)
Definition listdir (fs : LocalFS) (d : string) : option (list string) :=
  if isdir fs d then Some ((λ kv, Py.basename kv.1) <$> inside fs d) else None.

(** [os.remove]: refused for directories, missing paths and files the
    operating system does not let go of ([locked]) *)
Definition remove (fs : LocalFS) (p : string) : option LocalFS :=
  match nodes fs !! p with
  | Some (File _ _ false) => Some (mkLocalFS (delete p (nodes fs)) (root_mtime fs) (now fs))
  | _ => None
  end.

(** [os.rmdir] *)
Definition rmdir (fs : LocalFS) (d : string) : option LocalFS :=
  match nodes fs !! d with
  | Some (Dir _) =>
      if bool_decide (d = ".") then None
      else match inside fs d with
           | [] => Some (mkLocalFS (delete d (nodes fs)) (root_mtime fs) (now fs))
           | _ => None
           end
  | _ => None
  end.

(** the upward loop of [os.removedirs]: stops at the first directory
    that cannot be removed *)
Fixpoint prune (n : nat) (fs : LocalFS) (head tail : string) : LocalFS :=
  match n with
  | O => fs
  | S n' =>
      if bool_decide (head ≠ "") && bool_decide (tail ≠ "") then
        match rmdir fs head with
        | Some fs' => let '(h, t) := Py.split head in prune n' fs' h t
        | None => fs
        end
      else fs
  end.

(** [os.removedirs] *)
Definition removedirs (fs : LocalFS) (name : string) : option LocalFS :=
  match rmdir fs name with
  | None => None
  | Some fs1 =>
      let '(h, t) := Py.split name in
      let '(h, t) := if bool_decide (t = "") then Py.split h else (h, t) in
      Some (prune (String.length name) fs1 h t)
  end.

(** [os.mkdir] *)
Definition mkdir (fs : LocalFS) (p : string) : option LocalFS :=
  if bool_decide (p = "") || exists_ fs p then None
  else if isdir fs (parent p)
       then Some (mkLocalFS (<[p := Dir (now fs)]> (nodes fs)) (root_mtime fs) (now fs + 1))
       else None.

(** [os.makedirs(name)], with [exist_ok] left at [False] *)
Fixpoint makedirs_go (n : nat) (fs : LocalFS) (name : string) : option LocalFS :=
  match n with
  | O => mkdir fs name
  | S n' =>
      let '(h, t) := Py.split name in
      let '(h, t) := if bool_decide (t = "") then Py.split h else (h, t) in
      if bool_decide (h ≠ "") && bool_decide (t ≠ "") && negb (exists_ fs h) then
        match makedirs_go n' fs h with
        | None => None
        | Some fs' => if bool_decide (t = ".") then Some fs' else mkdir fs' name
        end
      else mkdir fs name
  end.

Definition makedirs (fs : LocalFS) (name : string) : option LocalFS :=
  makedirs_go (String.length name) fs name.

(** [open(p, 'rb')]: the number of bytes that can be read *)
Definition open_rb (fs : LocalFS) (p : string) : option Z :=
  match node_at fs p with
  | Some (File _ n _) => Some n
  | _ => None
  end.

(** [open(p, 'wb')], write [size] bytes, close *)
Definition write (fs : LocalFS) (p : string) (size : Z) : option LocalFS :=
  if bool_decide (p = "") || isdir fs p || negb (isdir fs (parent p)) then None
  else
    let keep := match nodes fs !! p with Some (File _ _ l) => l | _ => false end in
    Some (mkLocalFS (<[p := File (now fs) size keep]> (nodes fs)) (root_mtime fs) (now fs + 1)).

(** the length of the longest path of the tree *)
Definition longest (fs : LocalFS) : nat :=
  map_fold (λ k _ n, Nat.max (String.length k) n) 0%nat (nodes fs).

(** [os.walk(top)], top-down; [key] is the name of [top] relative to the
    root.  The nesting depth of a tree is bounded by the length of its
    longest path. *)
Fixpoint walk_go (n : nat) (fs : LocalFS) (top key : string)
  : list (string * list string * list string) :=
  match n with
  | O => []
  | S n' =>
      let es := inside fs key in
      let dirnames :=
        omap (λ kv, match kv.2 with Dir _ => Some (Py.basename kv.1) | _ => None end) es in
      let filenames :=
        omap (λ kv, match kv.2 with File _ _ _ => Some (Py.basename kv.1) | _ => None end) es in
      (top, dirnames, filenames)
        :: mjoin ((λ d, walk_go n' fs (Py.join top d)
                          (if bool_decide (key = ".") then d else Py.join key d))
                    <$> dirnames)
  end.

Definition walk (fs : LocalFS) : list (string * list string * list string) :=
  walk_go (S (longest fs)) fs "." ".".

End Os.

Definition demo_fs : LocalFS :=
  mkLocalFS (list_to_map [("a", Dir 1); ("a/b", Dir 2); ("a/b/c.txt", File 3 10 false);
                     ("top.py", File 4 20 false); (".git", Dir 5);
                     (".git/config", File 6 30 true)]) 0 7.

(** ** The Dropbox client

    The objects of [dropbox.files] the script builds or reads, and the
    methods of the client object [dbx] it calls.  Revisions, cursors and
    session identifiers are opaque strings.  Data read from a local file
    is the byte range it covers. *)

Record bytes := mkBytes { b_off : Z; b_len : Z }.

Inductive WriteMode := add | overwrite | update.

Record CommitInfo := mkCommitInfo {
  commit_path : string;
  commit_mode : WriteMode;
  commit_mute : bool
}.

Record UploadSessionCursor := mkUploadSessionCursor {
  session_id : string;
  offset : Z
}.

Inductive Metadata :=
| FileMetadata (path_display : string) (rev : string)
| FolderMetadata (path_display : string)
| DeletedMetadata (path_display : string).

Record ListFolderResult := mkListFolderResult {
  entries : list Metadata;
  cursor : string;
  has_more : bool
}.

(** A reply of [None] stands for an exception raised by the SDK (an
    [ApiError], a dropped connection).  [files_download] is the request
    half of [files_download_to_file]: it yields the revision and the size
    of the content, which is then written to the local file. *)
Class Client (R : Type) := {
  files_list_folder : string → bool → R → option ListFolderResult * R;
  files_list_folder_continue : string → R → option ListFolderResult * R;
  files_delete : string → R → option unit * R;
  files_download : string → R → option (string * Z) * R;
  files_upload : bytes → string → WriteMode → bool → R → option string * R;
  files_upload_session_start : bytes → bool → R → option string * R;
  files_upload_session_append_v2 :
    bytes → option UploadSessionCursor → bool → R → option unit * R;
  files_upload_session_finish :
    bytes → option UploadSessionCursor → CommitInfo → R → option string * R
}.

(** ** What a run shows to the outside *)

Inductive request :=
| ListFolder (path : string) (recursive : bool)
| ListFolderContinue (cursor : string)
| Delete (path : string)
| DownloadToFile (download_path path : string)
| Upload (data : bytes) (path : string) (mode : WriteMode) (mute : bool)
| SessionStart (data : bytes) (close : bool)
| SessionAppend (data : bytes) (cursor : option UploadSessionCursor) (close : bool)
| SessionFinish (data : bytes) (cursor : option UploadSessionCursor) (commit : CommitInfo).

Inductive line :=
| Uploading (path because : string)
| Downloading (path because : string)
| DeletingLocally (path : string)
| DeletingOnDropbox (path : string)
| RemoteDeleteFailed
| FolderEmpty (path : string)
| RemoteFolderEmpty (dir : string)
| MakingDirectory (path : string)
| CannotFindStateFile
| FailedToInitialize
| SyncComplete.

Inductive event :=
| Request (r : request)
| Print (l : line)
| Prompt (path : string).

Global Instance bytes_eq_dec : EqDecision bytes.
Proof. solve_decision. Defined.
Global Instance WriteMode_eq_dec : EqDecision WriteMode.
Proof. solve_decision. Defined.
Global Instance CommitInfo_eq_dec : EqDecision CommitInfo.
Proof. solve_decision. Defined.
Global Instance UploadSessionCursor_eq_dec : EqDecision UploadSessionCursor.
Proof. solve_decision. Defined.
Global Instance request_eq_dec : EqDecision request.
Proof. solve_decision. Defined.
Global Instance line_eq_dec : EqDecision line.
Proof. solve_decision. Defined.
Global Instance event_eq_dec : EqDecision event.
Proof. solve_decision. Defined.

(** ** The state of the script *)

Record meta := mkMeta { meta_rev : string; modified : Z }.

Global Instance meta_eq_dec : EqDecision meta.
Proof. solve_decision. Defined.

Record DropboxState := mkDropboxState {
  local_files : gmap string meta;
  remote_files : gmap string meta
}.

(** [DropboxState.__init__] *)
Definition DropboxState_init : DropboxState := mkDropboxState ∅ ∅.

Definition STATE_FILENAME : string := ".dropbox_state".

Inductive exn := KeyError | OSError | AttributeError | ApiError | EOFError.

Global Instance exn_eq_dec : EqDecision exn.
Proof. solve_decision. Defined.

(** How a computation ends: it returns, it raises, or a [while] loop is
    still going round when the budget of iterations is used up. *)
Inductive outcome (A : Type) :=
| Done (a : A)
| Raised (e : exn)
| Spinning.
Arguments Done {A} a.
Arguments Raised {A} e.
Arguments Spinning {A}.

(** Computations over a state [Σ] that may raise. *)
Definition Prog (Σ A : Type) : Type := Σ → outcome A * Σ.

Definition ret {Σ A} (a : A) : Prog Σ A := λ m, (Done a, m).

Definition bind {Σ A B} (c : Prog Σ A) (k : A → Prog Σ B) : Prog Σ B :=
  λ m, match c m with
       | (Done a, m') => k a m'
       | (Raised e, m') => (Raised e, m')
       | (Spinning, m') => (Spinning, m')
       end.

Definition raise {Σ A} (e : exn) : Prog Σ A := λ m, (Raised e, m).

Definition spin {Σ A} : Prog Σ A := λ m, (Spinning, m).

(** [try: c  except: ...]: a bare [except] clause catches every
    exception; what [c] changed before raising stays changed. *)
Definition try {Σ A} (c : Prog Σ A) : Prog Σ (option A) :=
  λ m, match c m with
       | (Done a, m') => (Done (Some a), m')
       | (Raised _, m') => (Done None, m')
       | (Spinning, m') => (Spinning, m')
       end.

(** [try: c  except OSError: pass] *)
Definition try_OSError {Σ} (c : Prog Σ unit) : Prog Σ unit :=
  λ m, match c m with
       | (Raised OSError, m') => (Done (), m')
       | r => r
       end.

Declare Scope prog_scope.
Delimit Scope prog_scope with prog.
Notation "x ← c ; k" := (bind c (λ x, k))
  (at level 20, c at level 100, k at level 200, only parsing) : prog_scope.
Notation "' x ← c ; k" := (bind c (λ x, k))
  (at level 20, x pattern, c at level 100, k at level 200, only parsing) : prog_scope.
Notation "c ;; k" := (bind c (λ _, k))
  (at level 100, k at level 200, only parsing, right associativity) : prog_scope.
Open Scope prog_scope.

(** [for x in l: body] *)
Fixpoint for_each {Σ A} (l : list A) (body : A → Prog Σ unit) : Prog Σ unit :=
  match l with
  | [] => ret ()
  | x :: l' => body x ;; for_each l' body
  end.

Section Machine.

Context {R : Type} `{!Client R}.

(** Everything a statement can read or change: the [DropboxState] object,
    the local tree, the pickled state as last saved (if it can be read
    back), the remote store behind [dbx], the lines waiting on standard
    input, and what has been printed and requested so far. *)
Record Machine := mkMachine {
  state : DropboxState;
  disk : LocalFS;
  pickled : option DropboxState;
  dbx : R;
  stdin : list string;
  trace : list event
}.

Local Abbreviation M := (Prog Machine).

Definition with_state (f : DropboxState → DropboxState) : M unit :=
  λ m, (Done (), mkMachine (f (state m)) (disk m) (pickled m) (dbx m) (stdin m) (trace m)).

Definition emit (e : event) : M unit :=
  λ m, (Done (), mkMachine (state m) (disk m) (pickled m) (dbx m) (stdin m) (trace m ++ [e])).

Definition print (l : line) : M unit := emit (Print l).

(** a query of the local tree; [None] raises [OSError] *)
Definition os_get {A} (f : LocalFS → option A) : M A :=
  λ m, match f (disk m) with
       | Some a => (Done a, m)
       | None => (Raised OSError, m)
       end.

(** a query of the local tree that cannot fail *)
Definition os_read {A} (f : LocalFS → A) : M A := λ m, (Done (f (disk m)), m).

(** a change of the local tree; [None] raises [OSError] *)
Definition os_do (f : LocalFS → option LocalFS) : M unit :=
  λ m, match f (disk m) with
       | Some fs => (Done (), mkMachine (state m) fs (pickled m) (dbx m) (stdin m) (trace m))
       | None => (Raised OSError, m)
       end.

(** a method call on [dbx]: the request goes out, the reply comes back
    or the SDK raises *)
Definition call {A} (r : request) (f : R → option A * R) : M A :=
  λ m, let '(reply, d) := f (dbx m) in
       let m' := mkMachine (state m) (disk m) (pickled m) d (stdin m)
                           (trace m ++ [Request r]) in
       match reply with
       | Some a => (Done a, m')
       | None => (Raised ApiError, m')
       end.

(** [path in self.local_files], [self.local_files[path]],
    [self.local_files[path] = meta], [del self.local_files[path]], and
    the same for [self.remote_files] *)
Definition in_local (path : string) : M bool :=
  λ m, (Done (bool_decide (is_Some (local_files (state m) !! path))), m).

Definition in_remote (path : string) : M bool :=
  λ m, (Done (bool_decide (is_Some (remote_files (state m) !! path))), m).

Definition get_local (path : string) : M meta :=
  λ m, match local_files (state m) !! path with
       | Some x => (Done x, m)
       | None => (Raised KeyError, m)
       end.

Definition set_local (path : string) (x : meta) : M unit :=
  with_state (λ s, mkDropboxState (<[path := x]> (local_files s)) (remote_files s)).

Definition set_remote (path : string) (x : meta) : M unit :=
  with_state (λ s, mkDropboxState (local_files s) (<[path := x]> (remote_files s))).

Definition del_local (path : string) : M unit :=
  tracked ← in_local path;
  if tracked then with_state (λ s, mkDropboxState (delete path (local_files s)) (remote_files s))
  else raise KeyError.

Definition del_remote (path : string) : M unit :=
  tracked ← in_remote path;
  if tracked then with_state (λ s, mkDropboxState (local_files s) (delete path (remote_files s)))
  else raise KeyError.

(** ** [class DropboxState]

    The console colours, the progress dots of a chunked upload and the
    banner lines are presentation and are not recorded; every other
    statement is. *)

(** [reprompt(prompt, responses)]: [input] is called until the answer is
    one of [responses].  Returns how many times the prompt was shown, the
    accepted answer ([None]: end of input, [input] raises [EOFError]) and
    the lines left on standard input. *)
Fixpoint reprompt_go (responses lines : list string) : nat * option string * list string :=
  match lines with
  | [] => (1%nat, None, [])
  | answer :: rest =>
      if bool_decide (answer ∈ responses) then (1%nat, Some answer, rest)
      else let '(k, r, rest') := reprompt_go responses rest in (S k, r, rest')
  end.

Definition reprompt (path : string) (responses : list string) : M string :=
  λ m, let '(k, r, rest) := reprompt_go responses (stdin m) in
       let m' := mkMachine (state m) (disk m) (pickled m) (dbx m) rest
                           (trace m ++ replicate k (Prompt path)) in
       match r with
       | Some answer => (Done answer, m')
       | None => (Raised EOFError, m')
       end.

(** [check_local_update(self, path)] *)
Definition check_local_update (path : string) : M bool :=
  mtime ← os_get (λ fs, Os.getmtime fs path);
  x ← get_local path;
  ret (bool_decide (mtime > modified x)).

(** the [while not close] loop of [upload]; [total] and [pos] are the
    length of the open file and the position of the reader.  Returns the
    last [data] read and the [session_cursor]. *)
Fixpoint upload_session (n : nat) (total pos : Z) (data : bytes) (close : bool)
    (session_id : option string) (session_cursor : option UploadSessionCursor)
    (offset : Z) : M (bytes * option UploadSessionCursor) :=
  if close then ret (data, session_cursor)
  else match n with
       | O => spin
       | S n' =>
           sid ← match session_id with
                 | None => call (SessionStart data close)
                                (files_upload_session_start data close)
                 | Some sid =>
                     call (SessionAppend data session_cursor close)
                          (files_upload_session_append_v2 data session_cursor close);;
                     ret sid
                 end;
           let offset := offset + b_len data in
           let session_cursor := Some (mkUploadSessionCursor sid offset) in
           let data := mkBytes pos (Z.min 10000000 (total - pos)) in
           let close := bool_decide (b_len data < 10000000) in
           upload_session n' total (pos + b_len data) data close
                          (Some sid) session_cursor offset
       end.

(** [upload(self, dbx, path, because)] *)
Definition upload (path because : string) : M unit :=
  print (Uploading path because);;
  size ← os_get (λ fs, Os.getsize fs path);
  result_rev ←
    (if bool_decide (size > 140000000) then
       total ← os_get (λ fs, Os.open_rb fs path);
       let data := mkBytes 0 (Z.min 10000000 total) in
       let close := bool_decide (b_len data < 10000000) in
       '(data, session_cursor) ←
          upload_session (Z.to_nat (total / 10000000) + 1) total (b_len data)
                         data close None None 0;
       let mode := overwrite in
       let commit_info := mkCommitInfo (Py.join "/" path) mode true in
       call (SessionFinish data session_cursor commit_info)
            (files_upload_session_finish data session_cursor commit_info)
     else
       total ← os_get (λ fs, Os.open_rb fs path);
       let data := mkBytes 0 total in
       let mode := overwrite in
       call (Upload data (Py.join "/" path) mode true)
            (files_upload data (Py.join "/" path) mode true));
  mtime ← os_get (λ fs, Os.getmtime fs path);
  let meta := mkMeta result_rev mtime in
  set_local path meta;;
  set_remote path meta.

(** [check_state(self, dbx, path)] *)
Definition check_state (path : string) : M unit :=
  tracked ← in_remote path;
  if negb tracked then upload path "-- Not Found Remotely"
  else
    changed ← check_local_update path;
    if changed then upload path "-- Local File Changed" else ret ().

(** [delete_local(self, path)] *)
Definition delete_local (path : string) : M unit :=
  print (DeletingLocally path);;
  try_OSError (os_do (λ fs, Os.remove fs path));;
  del_local path;;
  del_remote path;;
  let dir := Py.dirname path in
  let dir := if bool_decide (dir = "") then "." else dir in
  there ← os_read (λ fs, Os.exists_ fs dir);
  empty ← (if there then
             names ← os_get (λ fs, Os.listdir fs dir);
             ret (bool_decide (names = []))
           else ret false);
  if empty then
    print (FolderEmpty path);;
    os_do (λ fs, Os.removedirs fs dir)
  else ret ().

(** the [while] loop at the end of [delete_remote] *)
Fixpoint delete_remote_folders (n : nat) (dir : string) : M unit :=
  if bool_decide (Py.len dir > 1) then
    match n with
    | O => spin
    | S n' =>
        listing ← call (ListFolder dir false) (files_list_folder dir false);
        if bool_decide (entries listing = []) then
          print (RemoteFolderEmpty dir);;
          deleted ← try (call (Delete dir) (files_delete dir));
          match deleted with
          | None => print RemoteDeleteFailed
          | Some _ => delete_remote_folders n' (Py.dirname dir)
          end
        else ret ()
    end
  else ret ().

(** [delete_remote(self, dbx, path)] *)
Definition delete_remote (n : nat) (path : string) : M unit :=
  print (DeletingOnDropbox path);;
  deleted ← try (call (Delete ("/" +:+ path)) (files_delete ("/" +:+ path));;
                 del_local path;;
                 del_remote path);
  match deleted with
  | None => print RemoteDeleteFailed
  | Some _ =>
      let dir := Py.dirname path in
      let dir := if bool_decide (dir = "") then "." else dir in
      there ← os_read (λ fs, Os.exists_ fs dir);
      empty ← (if there then
                 names ← os_get (λ fs, Os.listdir fs dir);
                 ret (bool_decide (names = []))
               else ret false);
      (if empty then
         print (FolderEmpty dir);;
         os_do (λ fs, Os.removedirs fs dir)
       else ret ());;
      let dir := "/" +:+ dir in
      delete_remote_folders n dir
  end.

(** [download_remote(self, dbx, path, because)] *)
Definition download_remote (path because : string) : M unit :=
  print (Downloading path because);;
  let '(head, tail) := Py.split path in
  missing ← os_read (λ fs, negb (Os.exists_ fs head));
  (if bool_decide (head ≠ "") && missing
   then os_do (λ fs, Os.makedirs fs head) else ret ());;
  '(result_rev, size) ← call (DownloadToFile path (Py.join "/" path))
                             (files_download (Py.join "/" path));
  os_do (λ fs, Os.write fs path size);;
  mtime ← os_get (λ fs, Os.getmtime fs path);
  let meta := mkMeta result_rev mtime in
  set_local path meta;;
  set_remote path meta.

(** [make_local_dir(self, path)]; the [os] module has no attribute
    [makedir], so evaluating [os.makedir] raises [AttributeError] *)
Definition make_local_dir (path : string) : M unit :=
  there ← os_read (λ fs, Os.exists_ fs path);
  if negb there then os_do (λ fs, Os.makedirs fs path)
  else
    isfile ← os_read (λ fs, Os.isfile fs path);
    if isfile then
      os_do (λ fs, Os.remove fs path);;
      del_local path;;
      raise AttributeError
    else ret ().

(** [handle_conflict(self, dbx, path, prefer_remote)].  The call the
    method makes to itself passes a [prefer_remote] that is not [None],
    so it runs the first branch; [resolve] is that branch. *)
Definition resolve (path : string) (prefer_remote : bool) : M (option bool) :=
  (if prefer_remote then download_remote path "-- Preferring Remote File"
   else upload path "-- Preferring Local File");;
  ret (Some prefer_remote).

Definition handle_conflict (path : string) (prefer_remote : option bool) : M (option bool) :=
  match prefer_remote with
  | Some side => resolve path side
  | None =>
      answer ← reprompt path ["l"; "r"; "la"; "ra"];
      let action := Py.startswith answer "r" in
      resolve path action;;
      if Py.endswith answer "a" then ret (Some action) else ret None
  end.

(** the body of the [for entry in entries] loop of
    [__process_remote_entries], with the loop variable [prefer_remote]
    and the set [current_remote_file_paths] passed along.  The method
    reads [dbx] as a global: it is the script's one client object. *)
Definition process_remote_entry (entry : Metadata) (prefer_remote : option bool)
    (current_remote_file_paths : gset string) : M (option bool * gset string) :=
  match entry with
  | FileMetadata path_display rev =>
      let path := Py.tail path_display in
      tracked ← in_local path;
      prefer_remote ←
        (if negb tracked then
           download_remote path "-- Not Found Locally";; ret prefer_remote
         else
           x ← get_local path;
           if bool_decide (rev ≠ meta_rev x) then
             changed ← check_local_update path;
             if changed then handle_conflict path prefer_remote
             else download_remote path "-- Remote File Changed";; ret prefer_remote
           else ret prefer_remote);
      ret (prefer_remote, {[path]} ∪ current_remote_file_paths)
  | FolderMetadata path_display =>
      let path := Py.tail path_display in
      there ← os_read (λ fs, Os.exists_ fs path);
      (if negb there then print (MakingDirectory path);; make_local_dir path
       else ret ());;
      ret (prefer_remote, current_remote_file_paths)
  | DeletedMetadata _ => ret (prefer_remote, current_remote_file_paths)
  end.

Fixpoint process_remote_entries_from (entries : list Metadata) (prefer_remote : option bool)
    (current_remote_file_paths : gset string) : M (gset string) :=
  match entries with
  | [] => ret current_remote_file_paths
  | entry :: rest =>
      '(prefer_remote, current) ←
         process_remote_entry entry prefer_remote current_remote_file_paths;
      process_remote_entries_from rest prefer_remote current
  end.

(** [__process_remote_entries(self, entries, current_remote_file_paths)] *)
Definition process_remote_entries (entries : list Metadata)
    (current_remote_file_paths : gset string) : M (gset string) :=
  let prefer_remote := None in
  process_remote_entries_from entries prefer_remote current_remote_file_paths.

(** the [while True] loop of [execute_delta] *)
Fixpoint execute_delta_pages (n : nat) (results : ListFolderResult)
    (current_remote_file_paths : gset string) : M (gset string) :=
  let cursor := cursor results in
  current ← process_remote_entries (entries results) current_remote_file_paths;
  if negb (has_more results) then ret current
  else match n with
       | O => spin
       | S n' =>
           results ← call (ListFolderContinue cursor) (files_list_folder_continue cursor);
           execute_delta_pages n' results current
       end.

(** the [for path in remote_files_keys] loop of [execute_delta] *)
Definition execute_delta_deletions (current_remote_file_paths : gset string) : M unit :=
  remote_files_keys ← (λ m, (Done (map_to_list (remote_files (state m))).*1, m));
  for_each remote_files_keys (λ path,
    if bool_decide (path ∉ current_remote_file_paths) then
      tracked ← in_local path;
      if tracked then delete_local path else ret ()
    else ret ()).

(** the first half of [execute_delta]: the listing, from
    [files_list_folder] to the [break] *)
Definition execute_delta_listing (n : nat) : M (gset string) :=
  let current_remote_file_paths := ∅ in
  results ← call (ListFolder "" true) (files_list_folder "" true);
  execute_delta_pages n results current_remote_file_paths.

(** [execute_delta(self, dbx)] *)
Definition execute_delta (n : nat) : M unit :=
  current_remote_file_paths ← execute_delta_listing n;
  execute_delta_deletions current_remote_file_paths.

(** ** The module-level functions *)

(** [valid_dir_for_upload(dir)] *)
Definition valid_dir_for_upload (dir : string) : bool :=
  if bool_decide (dir = ".") then true
  else
    let path := Py.segments dir in
    if bool_decide (1 < length path)%nat then
      let second := default "" (path !! 1%nat) in
      let last := default "" (last path) in
      if Py.startswith second "site" then false
      else if bool_decide (second ∈ ["temp"; "Examples"]) then false
      else if bool_decide (last ≠ ".") && Py.startswith last "." then false
      else true
    else true.

(** [valid_filename_for_upload(filename)] *)
Definition valid_filename_for_upload (filename : string) : bool :=
  negb (bool_decide (filename = STATE_FILENAME)
        || Py.startswith filename "."
        || Py.startswith filename "@"
        || Py.endswith filename "~"
        || Py.endswith filename ".pyc"
        || Py.endswith filename ".pyo").

(** the [for root, dirnames, filenames in os.walk('.')] loop of
    [check_local], with [filelist] and [invaliddirs] passed along *)
Fixpoint check_local_walk (walk : list (string * list string * list string))
    (filelist : list string) (invaliddirs : gset string) : list string :=
  match walk with
  | [] => filelist
  | (root, dirnames, filenames) :: rest =>
      if bool_decide (root ∈ invaliddirs) then
        check_local_walk rest filelist
          (invaliddirs ∪ list_to_set (Py.join root <$> dirnames))
      else if valid_dir_for_upload root then
        check_local_walk rest
          (filelist ++ ((λ filename, Py.tail (Py.tail (Py.join root filename)))
                          <$> filter (λ filename, valid_filename_for_upload filename = true)
                                     filenames))
          invaliddirs
      else
        check_local_walk rest filelist
          (({[root]} ∪ invaliddirs) ∪ list_to_set (Py.join root <$> dirnames))
  end.

(** [check_local(dbx, state)] *)
Definition check_local (n : nat) : M unit :=
  walk ← os_read Os.walk;
  let filelist := check_local_walk walk [] ∅ in
  for_each filelist (λ path, check_state path);;
  oldlist ← (λ m, (Done (map_to_list (local_files (state m))).*1, m));
  for_each oldlist (λ file,
    if bool_decide (file ∉ filelist) then delete_remote n file else ret ()).

(** [check_remote(dbx, state)] *)
Definition check_remote (n : nat) : M unit := execute_delta n.

(** [load_state()]: any failure to read the pickle back gives a new
    [DropboxState] *)
Definition load_state : M unit :=
  λ m, let readable := Os.isfile (disk m) STATE_FILENAME in
       match (if readable then pickled m else None) with
       | Some s => (Done (), mkMachine s (disk m) (pickled m) (dbx m) (stdin m) (trace m))
       | None =>
           (Done (), mkMachine DropboxState_init (disk m) (pickled m) (dbx m) (stdin m)
                               (trace m ++ [Print CannotFindStateFile]))
       end.

(** [save_state(state)]: [open(STATE_FILENAME, 'wb')], then
    [pickle.dump].  The length of the pickle plays no part and is
    recorded as the number of entries. *)
Definition save_state : M unit :=
  s ← (λ m, (Done (state m), m));
  os_do (λ fs, Os.write fs STATE_FILENAME (Z.of_nat (size (local_files s))));;
  (λ m, (Done (), mkMachine (state m) (disk m) (Some s) (dbx m) (stdin m) (trace m))).

(** [DropboxSetup] is a module of its own and a parameter here; of its
    two functions the script only looks at whether [init] hands back a
    client ([true]) or [None], and at the token [get_access_token]
    returns.  Either may raise instead. *)
Record DropboxSetup := mkDropboxSetup {
  init : string → option string → exn + bool;
  get_access_token : exn + option string
}.

(** a call into [DropboxSetup] *)
Definition setup_call {A} (r : exn + A) : M A :=
  λ m, match r with
       | inl e => (Raised e, m)
       | inr a => (Done a, m)
       end.

(** [init_dropbox()]; [true] when there is a client object *)
Definition init_dropbox (setup : DropboxSetup) : M bool :=
  dbx ← setup_call (init setup "Synchronator_Token" None);
  if negb dbx then
    access_token ← setup_call (get_access_token setup);
    dbx ←
      match access_token with
      | Some token =>
          if bool_decide (token ≠ "")
          then setup_call (init setup "Synchronator_Token" (Some token))
          else ret dbx
      | None => ret dbx
      end;
    (if negb dbx then print FailedToInitialize else ret ());;
    ret dbx
  else ret dbx.

(** Where the script is started: [sys.argv], [os.path.expanduser],
    [os.path.isdir], and for [os.chdir] what lies below a directory that
    can be entered: its tree and the state its state file holds, if it
    can be read back. *)
Record Host := mkHost {
  argv : list string;
  expanduser : string → string;
  host_isdir : string → bool;
  host_tree : string → option (LocalFS * option DropboxState)
}.

(** the directory the script works in: [sys.argv[1]] if it names a
    directory, [~/Documents] otherwise *)
Definition rootdir (host : Host) : string :=
  let rootdir := expanduser host "~/Documents" in
  if bool_decide (1 < length (argv host))%nat then
    let path := expanduser host (default "" (argv host !! 1%nat)) in
    if host_isdir host path then path else rootdir
  else rootdir.

(** [os.chdir(rootdir)]: from here on the tree is the one below
    [rootdir] *)
Definition os_chdir (host : Host) (rootdir : string) : M unit :=
  λ m, match host_tree host rootdir with
       | Some (fs, saved) =>
           (Done (), mkMachine (state m) fs saved (dbx m) (stdin m) (trace m))
       | None => (Raised OSError, m)
       end.

(** the body of [if __name__ == '__main__'], from [init_dropbox()] on *)
Definition main (setup : DropboxSetup) (n : nat) : M unit :=
  dbx ← init_dropbox setup;
  if dbx then
    load_state;;
    check_remote n;;
    save_state;;
    check_local n;;
    save_state;;
    print SyncComplete
  else ret ().

(** the body of [if __name__ == '__main__'] *)
Definition script (host : Host) (setup : DropboxSetup) (n : nat) : M unit :=
  os_chdir host (rootdir host);;
  main setup n.

(** The exit status of the interpreter: 0 when the script runs to its
    end, 1 when an exception is not caught; none while it is looping. *)
Definition exit_status {A} (r : outcome A) : option Z :=
  match r with
  | Done _ => Some 0
  | Raised _ => Some 1
  | Spinning => None
  end.

End Machine.

Arguments Machine R : clear implicits.
Arguments mkMachine {R}.

(** ** A remote store

    One implementation of [Client], used to run the script on concrete
    inputs: a store of files and folders by path, which hands out a new
    revision with every write, serves listings page by page, checks the
    offset of every chunk of an upload session against what it has
    received, and can be told in advance which of the coming calls to
    fail ([faults]). *)

Record Store := mkStore {
  objects : gmap string (string * Z);
  folders : gset string;
  listings : gmap string (list (list Metadata));
  sessions : gmap string Z;
  page_size : nat;
  serial : N;
  faults : list bool
}.

Module Store.

Definition with_faults (s : Store) (f : list bool) : Store :=
  mkStore (objects s) (folders s) (listings s) (sessions s) (page_size s) (serial s) f.

(** the next call fails if the plan says so *)
Definition guarded {A} (f : Store → option A * Store) (s : Store) : option A * Store :=
  match faults s with
  | true :: rest => (None, with_faults s rest)
  | false :: rest => f (with_faults s rest)
  | [] => f s
  end.

Definition token (tag : string) (s : Store) : string := tag +:+ pretty (serial s).

Fixpoint paginate_go {A} (n k : nat) (l : list A) : list (list A) :=
  match n with
  | O => []
  | S n' =>
      match l with
      | [] => []
      | _ => take (S k) l :: paginate_go n' k (drop (S k) l)
      end
  end.

(** [l] cut into pages of [S k] entries *)
Definition paginate {A} (k : nat) (l : list A) : list (list A) :=
  paginate_go (length l) k l.

Definition under (dir path : string) : bool := Py.startswith path (dir +:+ "/").

Definition selected (dir : string) (recursive : bool) (path : string) : bool :=
  if recursive then under dir path
  else bool_decide (Py.dirname path = if bool_decide (dir = "") then "/" else dir).

Definition contents (s : Store) (dir : string) (recursive : bool) : list Metadata :=
  (FolderMetadata <$> filter (λ p, selected dir recursive p = true) (elements (folders s)))
  ++ ((λ kv, FileMetadata kv.1 kv.2.1)
        <$> filter (λ kv, selected dir recursive kv.1 = true) (map_to_list (objects s))).

Definition serve (s : Store) (cur : string) (pages : list (list Metadata))
  : option ListFolderResult * Store :=
  match pages with
  | [] => (Some (mkListFolderResult [] cur false), s)
  | page :: rest =>
      (Some (mkListFolderResult page cur (bool_decide (rest ≠ []))),
       mkStore (objects s) (folders s) (<[cur := rest]> (listings s)) (sessions s)
               (page_size s) (serial s) (faults s))
  end.

Definition list_folder (dir : string) (recursive : bool) (s : Store)
  : option ListFolderResult * Store :=
  if bool_decide (dir = "") || bool_decide (dir ∈ folders s) then
    let cur := token "cursor-" s in
    let s' := mkStore (objects s) (folders s) (listings s) (sessions s)
                      (page_size s) (serial s + 1) (faults s) in
    serve s' cur (paginate (page_size s) (contents s dir recursive))
  else (None, s).

Definition list_folder_continue (cur : string) (s : Store)
  : option ListFolderResult * Store :=
  match listings s !! cur with
  | Some (page :: rest) => serve s cur (page :: rest)
  | _ => (None, s)
  end.

Definition remove (path : string) (s : Store) : option unit * Store :=
  if bool_decide (is_Some (objects s !! path)) then
    (Some (), mkStore (delete path (objects s)) (folders s) (listings s) (sessions s)
                      (page_size s) (serial s) (faults s))
  else if bool_decide (path ∈ folders s) then
    (Some (), mkStore (filter (λ kv, under path kv.1 = false) (objects s))
                      (filter (λ p, p ≠ path ∧ under path p = false) (folders s))
                      (listings s) (sessions s) (page_size s) (serial s) (faults s))
  else (None, s).

Definition download (path : string) (s : Store) : option (string * Z) * Store :=
  (objects s !! path, s).

(** the folders a path lies in, nearest first *)
Fixpoint ancestors_go (n : nat) (path : string) : list string :=
  match n with
  | O => []
  | S n' =>
      let d := Py.dirname path in
      if bool_decide (d = "") || Py.all_slashes d then []
      else d :: ancestors_go n' d
  end.

Definition ancestors (path : string) : list string :=
  ancestors_go (String.length path) path.

(** write [size] bytes at [path]: refused where a folder is, or below a
    file; missing parent folders come into being *)
Definition commit (path : string) (size : Z) (s : Store) : option string * Store :=
  if bool_decide (path ∈ folders s)
     || bool_decide (Exists (λ d, is_Some (objects s !! d)) (ancestors path))
  then (None, s)
  else
    let r := token "rev-" s in
    (Some r, mkStore (<[path := (r, size)]> (objects s))
                     (list_to_set (ancestors path) ∪ folders s)
                     (listings s) (sessions s) (page_size s) (serial s + 1) (faults s)).

Definition upload (data : bytes) (path : string) (mode : WriteMode) (mute : bool)
    (s : Store) : option string * Store :=
  commit path (b_len data) s.

Definition session_start (data : bytes) (close : bool) (s : Store) : option string * Store :=
  let sid := token "session-" s in
  (Some sid, mkStore (objects s) (folders s) (listings s)
                     (<[sid := b_len data]> (sessions s))
                     (page_size s) (serial s + 1) (faults s)).

(** the session named by the cursor, if the cursor's offset is the
    number of bytes the store has received for it *)
Definition session_at (c : option UploadSessionCursor) (s : Store) : option string :=
  match c with
  | Some c =>
      match sessions s !! session_id c with
      | Some received => if bool_decide (received = offset c) then Some (session_id c) else None
      | None => None
      end
  | None => None
  end.

Definition session_append (data : bytes) (c : option UploadSessionCursor) (close : bool)
    (s : Store) : option unit * Store :=
  match session_at c s with
  | Some sid =>
      (Some (), mkStore (objects s) (folders s) (listings s)
                        (alter (λ received, received + b_len data) sid (sessions s))
                        (page_size s) (serial s) (faults s))
  | None => (None, s)
  end.

Definition session_finish (data : bytes) (c : option UploadSessionCursor)
    (info : CommitInfo) (s : Store) : option string * Store :=
  match session_at c s with
  | Some sid =>
      let received := default 0 (sessions s !! sid) in
      commit (commit_path info) (received + b_len data)
             (mkStore (objects s) (folders s) (listings s) (delete sid (sessions s))
                      (page_size s) (serial s) (faults s))
  | None => (None, s)
  end.

End Store.

Global Instance Store_client : Client Store := {
  files_list_folder dir recursive := Store.guarded (Store.list_folder dir recursive);
  files_list_folder_continue cur := Store.guarded (Store.list_folder_continue cur);
  files_delete path := Store.guarded (Store.remove path);
  files_download path := Store.guarded (Store.download path);
  files_upload data path mode mute := Store.guarded (Store.upload data path mode mute);
  files_upload_session_start data close := Store.guarded (Store.session_start data close);
  files_upload_session_append_v2 data c close :=
    Store.guarded (Store.session_append data c close);
  files_upload_session_finish data c info :=
    Store.guarded (Store.session_finish data c info)
}.

(** ** Vocabulary for the properties *)

(** [c], started in a state where [P] holds, ends in an outcome and a
    state related by [Q] *)
Definition hoare {Σ A} (P : Σ → Prop) (c : Prog Σ A) (Q : outcome A → Σ → Prop) : Prop :=
  ∀ m, P m → Q (c m).1 (c m).2.

(** [c] never leaves the relation [Rel] between the state it starts in
    and the state it ends in, however it ends *)
Definition keeps {Σ A} (Rel : Σ → Σ → Prop) (c : Prog Σ A) : Prop := ∀ m, Rel m (c m).2.

(** the requests sent to the store, in order *)
Definition requests (t : list event) : list request :=
  omap (λ e, match e with Request r => Some r | _ => None end) t.

Definition is_start (r : request) : bool :=
  match r with SessionStart _ _ => true | _ => false end.
Definition is_append (r : request) : bool :=
  match r with SessionAppend _ _ _ => true | _ => false end.
Definition is_finish (r : request) : bool :=
  match r with SessionFinish _ _ _ => true | _ => false end.
Definition is_simple_upload (r : request) : bool :=
  match r with Upload _ _ _ _ => true | _ => false end.

(** the data a request carries and the offset its cursor names *)
Definition data_of (r : request) : option bytes :=
  match r with
  | Upload d _ _ _ | SessionStart d _ | SessionAppend d _ _ | SessionFinish d _ _ => Some d
  | _ => None
  end.
Definition cursor_offset (r : request) : option Z :=
  match r with
  | SessionAppend _ c _ | SessionFinish _ c _ => offset <$> c
  | _ => None
  end.

(** every cursor of a session names exactly the number of bytes sent
    before it, [sent] being the number sent so far *)
Fixpoint offsets_exact (sent : Z) (rs : list request) : bool :=
  match rs with
  | [] => true
  | r :: rs' =>
      (if is_append r || is_finish r then bool_decide (cursor_offset r = Some sent) else true)
      && offsets_exact (sent + default 0 (b_len <$> data_of r)) rs'
  end.

(** the append of chunk number [k], counted from 0 *)
Definition append_at (sid : string) (k : Z) : request :=
  SessionAppend (mkBytes (k * 10000000) 10000000)
                (Some (mkUploadSessionCursor sid (k * 10000000))) false.

(** the requests of a chunked upload of [total] bytes to [path] in
    session [sid], written out: one start, an append for every further
    full chunk, a finish with what is left *)
Definition session_requests (sid path : string) (total : Z) : list request :=
  let q := total / 10000000 in
  SessionStart (mkBytes 0 10000000) false
  :: (append_at sid <$> seqZ 1 (q - 1))
  ++ [SessionFinish (mkBytes (q * 10000000) (total - q * 10000000))
                    (Some (mkUploadSessionCursor sid (q * 10000000)))
                    (mkCommitInfo path overwrite true)].

(** the events a run has added to the trace of [m] when it is in [m'] *)
Definition since {R} (m m' : Machine R) : list event :=
  drop (length (trace m)) (trace m').

(** the trace only grows, and by events that satisfy [P] *)
Definition trace_grows {R} (P : event → Prop) (m m' : Machine R) : Prop :=
  ∃ evs, trace m' = trace m ++ evs ∧ Forall P evs.

Definition count_if {A} (f : A → bool) (l : list A) : nat :=
  length (filter (λ x, f x = true) l).

(** what a step of an upload session may do: send a start or an append,
    and nothing else *)
Definition session_event (e : event) : Prop :=
  ∃ r, e = Request r ∧ is_start r || is_append r = true.

Definition session_step {R} (m m' : Machine R) : Prop :=
  trace_grows session_event m m' ∧ state m' = state m ∧ disk m' = disk m.

(** nothing from the first call of a session on is a one-request upload *)
Definition not_simple (e : event) : Prop := ∀ r, e = Request r → is_simple_upload r = false.

(** the two ways [upload] can send a file *)
Definition sent_simple (rs : list request) : Prop :=
  ∃ data path, rs = [Upload data path overwrite true].
Definition sent_chunked (rs : list request) : Prop :=
  ∃ data rest, rs = SessionStart data false :: rest.

(** the choice between them, with the threshold counted to the chunked
    side *)
Definition upload_mode_as_stated (size : Z) (rs : list request) : Prop :=
  if bool_decide (size < 140000000) then sent_simple rs else sent_chunked rs.

(** the requests of a file of [N] full chunks with an append per chunk:
    [N] appends, one finish, and the finish under the offset of the last
    chunk *)
Definition chunk_boundary_as_stated (N : Z) (rs : list request) : Prop :=
  count_if is_append rs = Z.to_nat N
  ∧ count_if is_finish rs = 1%nat
  ∧ last rs ≫= cursor_offset = Some (N * 10000000 - 10000000).

(** every regular file of [fs] is still a regular file in [fs'] *)
Definition files_kept (fs fs' : LocalFS) : Prop :=
  ∀ p, Os.isfile fs p = true → Os.isfile fs' p = true.

(** an event that is no deletion, neither announced nor requested *)
Definition quiet (e : event) : Prop :=
  match e with
  | Print (DeletingLocally _) | Print (DeletingOnDropbox _) | Request (Delete _) => False
  | _ => True
  end.

Definition is_prompt (e : event) : bool :=
  match e with Prompt _ => true | _ => false end.

(** an event that is neither a deletion nor a question to the user *)
Definition silent (e : event) : Prop := quiet e ∧ is_prompt e = false.

(** between [m] and [m'] no entry left either table, no local file
    disappeared, and all that happened satisfies [P] *)
Definition kept {R} (P : event → Prop) (m m' : Machine R) : Prop :=
  (∀ p, is_Some (local_files (state m) !! p) → is_Some (local_files (state m') !! p))
  ∧ (∀ p, is_Some (remote_files (state m) !! p) → is_Some (remote_files (state m') !! p))
  ∧ files_kept (disk m) (disk m')
  ∧ trace_grows P m m'.

(** ... and nothing was deleted on either side *)
Definition nothing_lost {R} (m m' : Machine R) : Prop := kept quiet m m'.

(** the two tables are as they were *)
Definition state_kept {R} (m m' : Machine R) : Prop := state m' = state m.

(** ** Concrete inputs *)

Definition new_store : Store := mkStore ∅ ∅ ∅ ∅ 0 0 [].

Definition boot (s : DropboxState) (fs : LocalFS) (d : Store) (lines : list string)
  : Machine Store :=
  mkMachine s fs None d lines [].

(** a tree that holds the single file ["big.bin"] of [size] bytes *)
Definition big_machine (size : Z) : Machine Store :=
  boot DropboxState_init (mkLocalFS {["big.bin" := File 1 size false]} 0 2) new_store [].

(** the exit status the way the claim words it: other than 0 exactly
    when no client could be constructed *)
Definition exit_status_as_stated (constructed : bool) (status : Z) : Prop :=
  status ≠ 0 ↔ constructed = false.

(** a tracked file that the operating system will not unlink *)
Definition locked_machine : Machine Store :=
  boot (mkDropboxState {["keep.txt" := mkMeta "r1" 5]} {["keep.txt" := mkMeta "r1" 5]})
       (mkLocalFS {["keep.txt" := File 5 3 true]} 0 6) new_store [].

(** a local file ["docs"], untracked *)
Definition docs_disk : LocalFS := mkLocalFS {["docs" := File 5 3 false]} 0 6.

(** a host where the script is started without arguments and
    [~/Documents] is the tree [docs_disk], with no state file yet *)
Definition docs_host : Host :=
  mkHost ["Synchronator.py"] (λ p, p) (λ _, false)
         (λ p, if bool_decide (p = "~/Documents") then Some (docs_disk, None) else None).

(** a root, given by name, whose file ["d/f"] was deleted since the last
    run, and a store that still holds the file and refuses the second
    call it gets *)
Definition trimmed_host : Host :=
  mkHost ["Synchronator.py"; "~/sync"] (λ p, p) (λ p, bool_decide (p = "~/sync"))
         (λ p, if bool_decide (p = "~/sync")
               then Some (mkLocalFS (list_to_map [("d", Dir 1);
                                                  (".dropbox_state", File 1 1 false)]) 0 9,
                          Some (mkDropboxState {["d/f" := mkMeta "r1" 5]}
                                               {["d/f" := mkMeta "r1" 5]}))
               else None).

Definition refusing_machine : Machine Store :=
  boot DropboxState_init docs_disk
       (mkStore {["/d/f" := ("r1", 4)]} {["/d"]} ∅ ∅ 3 0 [false; true]) [].

(** a setup that never yields a client, and one that always does *)
Definition no_client : DropboxSetup := mkDropboxSetup (λ _ _, inr false) (inr None).
Definition with_client : DropboxSetup := mkDropboxSetup (λ _ _, inr true) (inr None).

(** a store with two files that serves one entry per page *)
Definition two_page_store (faults : list bool) : Store :=
  mkStore (list_to_map [("/a.txt", ("r1", 5)); ("/b.txt", ("r2", 7))]) ∅ ∅ ∅ 0 0 faults.

(** a state that still tracks ["old.txt"], which is on disk but no
    longer in the store *)
Definition stale_machine (faults : list bool) : Machine Store :=
  boot (mkDropboxState {["old.txt" := mkMeta "r0" 3]} {["old.txt" := mkMeta "r0" 3]})
       (mkLocalFS {["old.txt" := File 3 9 false]} 0 4) (two_page_store faults) [].

(** both files of the store tracked at an older revision and changed
    locally since: two conflicts, on two pages when [per_page] is 0 and
    on one page when it is 1 *)
Definition conflict_machine (per_page : nat) (answers : list string) : Machine Store :=
  let old := mkMeta "r0" 1 in
  boot (mkDropboxState (list_to_map [("a.txt", old); ("b.txt", old)])
                       (list_to_map [("a.txt", old); ("b.txt", old)]))
       (mkLocalFS (list_to_map [("a.txt", File 5 5 false); ("b.txt", File 5 7 false)]) 0 6)
       (mkStore (list_to_map [("/a.txt", ("r1", 5)); ("/b.txt", ("r2", 7))])
                ∅ ∅ ∅ per_page 0 [])
       answers.

(** two new local files and an empty store *)
Definition fresh_machine (faults : list bool) : Machine Store :=
  boot DropboxState_init
       (mkLocalFS (list_to_map [("a.txt", File 5 5 false); ("b.txt", File 5 7 false)]) 0 6)
       (mkStore ∅ ∅ ∅ ∅ 0 0 faults) [].

(** ** Paths the two sides agree on *)

(** no character of [s] is a separator *)
Fixpoint slash_free (s : string) : bool :=
  match s with
  | EmptyString => true
  | String c r => negb (Py.is_slash c) && slash_free r
  end.

(** the name of a directory entry *)
Definition wf_name (s : string) : Prop :=
  s ≠ "" ∧ s ≠ "." ∧ slash_free s = true.

(** a relative path in the form the script builds it: names joined by
    single separators *)
Inductive wf_path : string → Prop :=
| wf_path_name name : wf_name name → wf_path name
| wf_path_sub d name : wf_path d → wf_name name → wf_path (d +:+ "/" +:+ name).

(** a string that ends in a name: it is not empty, does not end in a
    separator and is more than separators *)
Definition clean (s : string) : Prop :=
  ∃ pre name, s = pre +:+ name ∧ slash_free name = true ∧ name ≠ "".

(** the name [os.walk('.')] shows for the directory with key [k] *)
Definition top_of (k : string) : string :=
  if bool_decide (k = ".") then "." else "./" +:+ k.

(** ** Well-formed trees and what [check_local] lists *)

(** every entry has a well-formed key and lives in a directory *)
Definition wf_fs (fs : LocalFS) : Prop :=
  ∀ k x, nodes fs !! k = Some x → wf_path k ∧ Os.isdir fs (Os.parent k) = true.

(** [below k j]: [j] is [k] or lies somewhere under it *)
Inductive below (k : string) : string → Prop :=
| below_refl : below k k
| below_step j : wf_path j → below k (Os.parent j) → below k j.

(** every directory from [k] down to [d] is one [check_local] uploads
    from *)
Definition open_from (k d : string) : Prop :=
  ∀ a, below k a → below a d → valid_dir_for_upload (top_of a) = true.

(** the files [check_local] would hand to [check_state] *)
Definition listed (fs : LocalFS) (p : string) : Prop :=
  (∃ t s l, nodes fs !! p = Some (File t s l))
  ∧ valid_filename_for_upload (Py.basename p) = true
  ∧ open_from "." (Os.parent p).

(** the length of a key, the root counting for nothing *)
Definition measure (k : string) : nat :=
  if bool_decide (k = ".") then 0%nat else String.length k.

(** the keys of the directories and of the files directly inside [k] *)
Definition dirkeys (fs : LocalFS) (k : string) : list string :=
  omap (λ kv, match kv.2 with Dir _ => Some kv.1 | _ => None end) (Os.inside fs k).

Definition filekeys (fs : LocalFS) (k : string) : list string :=
  omap (λ kv, match kv.2 with File _ _ _ => Some kv.1 | _ => None end) (Os.inside fs k).

(** what the walk from directory [k] down finds *)
Definition found (fs : LocalFS) (k p : string) : Prop :=
  (∃ t s l, nodes fs !! p = Some (File t s l))
  ∧ valid_filename_for_upload (Py.basename p) = true
  ∧ below k (Os.parent p)
  ∧ open_from k (Os.parent p).

(** the walk of the directory with key [j] *)
Definition walk_at (fs : LocalFS) (n : nat) (j : string)
  : list (string * list string * list string) :=
  Os.walk_go n fs (top_of j) j.

(** the regular files of two trees are the same, the state file apart *)
Definition files_same (fs fs' : LocalFS) : Prop :=
  ∀ p, p ≠ STATE_FILENAME →
    ∀ t s l, nodes fs !! p = Some (File t s l) ↔ nodes fs' !! p = Some (File t s l).

(** ** Well-formed stores *)

(** the path of an entry of the store: a well-formed relative path
    behind the separator of the root *)
Definition remote_key (pd : string) : Prop := ∃ p, pd = "/" +:+ p ∧ wf_path p.

(** something is stored under the key of [p] *)
Definition stored (s : Store) (p : string) : Prop :=
  is_Some (objects s !! ("/" +:+ p)) ∨ "/" +:+ p ∈ folders s.

(** the store holds files and folders under well-formed keys, nothing is
    both, everything below the root lies in a folder, and no call is
    planned to fail *)
Definition wf_store (s : Store) : Prop :=
  (∀ pd x, objects s !! pd = Some x → remote_key pd)
  ∧ (∀ pd, pd ∈ folders s → remote_key pd)
  ∧ (∀ pd, pd ∈ folders s → objects s !! pd = None)
  ∧ (∀ p, stored s p → wf_path p → Os.parent p ≠ "." → "/" +:+ Os.parent p ∈ folders s)
  ∧ faults s = [].

(** an entry of a listing that the store holds as listed *)
Definition entry_of (s : Store) (e : Metadata) : Prop :=
  match e with
  | FileMetadata pd rev => ∃ sz, objects s !! pd = Some (rev, sz)
  | FolderMetadata pd => pd ∈ folders s
  | DeletedMetadata _ => False
  end.

(** the pages [left] of a listing are what the store will serve behind
    the result [res] *)
Definition listing_state (s : Store) (res : ListFolderResult)
    (left : list (list Metadata)) : Prop :=
  if has_more res then listings s !! cursor res = Some left ∧ left ≠ []
  else left = [].

(** the two stores hold the same files and folders *)
Definition same_content (s s' : Store) : Prop :=
  objects s' = objects s ∧ folders s' = folders s ∧ faults s' = faults s
  ∧ page_size s' = page_size s.

(** ** Runs that return *)

(** when [c], started where [P] holds, returns, [Q] holds of the result
    and the state *)
Definition triple {Σ A} (P : Σ → Prop) (c : Prog Σ A) (Q : A → Σ → Prop) : Prop :=
  ∀ m a m', P m → c m = (Done a, m') → Q a m'.

(** [c] never leaves [I], however it ends *)
Definition stays {Σ A} (I : Σ → Prop) (c : Prog Σ A) : Prop :=
  ∀ m, I m → I (c m).2.

(** ... and what it returns satisfies [Q] *)
Definition stays_with {Σ A} (I : Σ → Prop) (c : Prog Σ A) (Q : A → Σ → Prop) : Prop :=
  ∀ m, I m → I (c m).2 ∧ ∀ a, (c m).1 = Done a → Q a (c m).2.

(** ** What a run leaves behind *)

(** the two tables have the same keys *)
Definition agree (st : DropboxState) : Prop :=
  ∀ p, is_Some (local_files st !! p) ↔ is_Some (remote_files st !! p).

(** the tree and the store are well-formed and the tables go together *)
Definition sound (m : Machine Store) : Prop :=
  wf_fs (disk m) ∧ wf_store (dbx m) ∧ agree (state m).

(** [self.local_files[p] = x; self.remote_files[p] = x], and the two
    [del] statements *)
Definition track (p : string) (x : meta) (st : DropboxState) : DropboxState :=
  mkDropboxState (<[p := x]> (local_files st)) (<[p := x]> (remote_files st)).

Definition untrack (p : string) (st : DropboxState) : DropboxState :=
  mkDropboxState (delete p (local_files st)) (delete p (remote_files st)).

(** the file [p] was sent or fetched: both tables now hold the revision
    the store holds and the time of the local file *)
Definition transferred (p : string) (m m' : Machine Store) : Prop :=
  ∃ x sz, state m' = track p x (state m)
    ∧ objects (dbx m') !! ("/" +:+ p) = Some (meta_rev x, sz)
    ∧ (∀ pd, pd ≠ "/" +:+ p → objects (dbx m') !! pd = objects (dbx m) !! pd)
    ∧ listings (dbx m') = listings (dbx m)
    ∧ Os.getmtime (disk m') p = Some (modified x)
    ∧ pickled m' = pickled m
    ∧ sound m'.

(** the state, the tree and the files of the store are as they were *)
Definition session_like (m m' : Machine Store) : Prop :=
  state m' = state m ∧ disk m' = disk m ∧ pickled m' = pickled m
  ∧ same_content (dbx m) (dbx m') ∧ listings (dbx m') = listings (dbx m).

(** what handling one entry of a listing does when it returns: a file is
    either tracked at the listed revision and left alone, or transferred;
    a folder changes neither the tables nor the store *)
Definition entry_effect (e : Metadata) (cur cur' : gset string)
    (m m' : Machine Store) : Prop :=
  match e with
  | FileMetadata pd rev =>
      cur' = {[Py.tail pd]} ∪ cur
      ∧ ((state m' = state m ∧ dbx m' = dbx m ∧ disk m' = disk m ∧ pickled m' = pickled m
          ∧ ∃ x, local_files (state m) !! Py.tail pd = Some x ∧ meta_rev x = rev)
         ∨ transferred (Py.tail pd) m m')
  | _ =>
      cur' = cur ∧ state m' = state m ∧ dbx m' = dbx m ∧ pickled m' = pickled m
      ∧ sound m'
  end.

(** the path of an entry is a key of the store *)
Definition entry_wf (e : Metadata) : Prop :=
  match e with
  | FileMetadata pd _ | FolderMetadata pd => remote_key pd
  | DeletedMetadata _ => True
  end.

(** the table of local files holds the revision the store holds for [pd] *)
Definition ok_key (m : Machine Store) (pd : string) : Prop :=
  ∀ rev sz, objects (dbx m) !! pd = Some (rev, sz) →
    ∃ x, local_files (state m) !! Py.tail pd = Some x ∧ meta_rev x = rev.

(** the invariant of the loops over a listing: every file of the store
    is either dealt with, and then tracked at its revision and in the
    set [cur], or still among the entries [rem] to come; and an entry to
    come is as the store holds it unless its file is dealt with *)
Definition listing_inv (m : Machine Store) (rem : list Metadata) (cur : gset string) : Prop :=
  sound m
  ∧ (∀ pd, is_Some (objects (dbx m) !! pd) →
       (ok_key m pd ∧ Py.tail pd ∈ cur) ∨ ∃ rev, FileMetadata pd rev ∈ rem)
  ∧ (∀ pd rev, FileMetadata pd rev ∈ rem →
       (∃ sz, objects (dbx m) !! pd = Some (rev, sz)) ∨ ok_key m pd)
  ∧ (∀ e, e ∈ rem →
       entry_wf e
       ∧ match e with
         | FileMetadata pd _ => is_Some (objects (dbx m) !! pd)
         | _ => True
         end)
  ∧ (∀ p, p ∈ cur → is_Some (objects (dbx m) !! ("/" +:+ p))).

(** the tables mirror the store: every file of the store is tracked at
    its revision, and every tracked path is a file of the store *)
Definition mirror (m : Machine Store) : Prop :=
  (∀ pd, ok_key m pd)
  ∧ (∀ p, is_Some (remote_files (state m) !! p) → is_Some (objects (dbx m) !! ("/" +:+ p))).

(** the file [p] of the tree [fs] is tracked and not newer than recorded *)
Definition up_to_date (fs : LocalFS) (m : Machine Store) (p : string) : Prop :=
  is_Some (remote_files (state m) !! p)
  ∧ ∃ x t, local_files (state m) !! p = Some x
           ∧ Os.getmtime fs p = Some t ∧ t ≤ modified x.

(** where the script starts: a well-formed tree and store, and a saved
    state whose tables go together *)
Definition world_ok (m : Machine Store) : Prop :=
  wf_fs (disk m) ∧ wf_store (dbx m) ∧ ∀ st, pickled m = Some st → agree st.

(** where a completed run ends: the state is saved, the tables mirror
    the store, and the tracked paths are exactly the files [check_local]
    lists, none of them newer than recorded *)
Definition settled (m : Machine Store) : Prop :=
  sound m ∧ mirror m
  ∧ pickled m = Some (state m) ∧ Os.isfile (disk m) STATE_FILENAME = true
  ∧ (∀ p, is_Some (local_files (state m) !! p) → listed (disk m) p)
  ∧ (∀ p, listed (disk m) p → up_to_date (disk m) m p).

(** an upload, a download or a deletion, announced or requested *)
Definition is_transfer (e : event) : bool :=
  match e with
  | Request (Upload _ _ _ _) | Request (SessionStart _ _) | Request (SessionAppend _ _ _)
  | Request (SessionFinish _ _ _) | Request (DownloadToFile _ _) | Request (Delete _)
  | Print (Uploading _ _) | Print (Downloading _ _)
  | Print (DeletingLocally _) | Print (DeletingOnDropbox _) => true
  | _ => false
  end.

Definition calm (e : event) : Prop := is_transfer e = false.

(** [m] is what a settled [m0] has become without any transfer: the
    same tables and saved state, the same files in the store and in the
    tree *)
Definition steady (m0 m : Machine Store) : Prop :=
  settled m0
  ∧ state m = state m0 ∧ pickled m = pickled m0
  ∧ same_content (dbx m0) (dbx m)
  ∧ files_same (disk m0) (disk m) ∧ files_kept (disk m0) (disk m) ∧ wf_fs (disk m)
  ∧ trace_grows calm m0 m.

(** the two passes of a run that has a client *)
Definition passes {R} `{!Client R} (n : nat) : Prog (Machine R) unit :=
  load_state;;
  check_remote n;;
  save_state;;
  check_local n;;
  save_state;;
  print SyncComplete.

(** whether [init_dropbox] ends up with a client *)
Definition has_client (setup : DropboxSetup) : bool :=
  match init setup "Synchronator_Token" None with
  | inr true => true
  | inr false =>
      match get_access_token setup with
      | inr (Some token) =>
          bool_decide (token ≠ "")
          && bool_decide (init setup "Synchronator_Token" (Some token) = inr true)
      | _ => false
      end
  | inl _ => false
  end.

(** ** Checking that a world is well-formed *)

Definition wf_nameb (s : string) : bool :=
  negb (bool_decide (s = "")) && negb (bool_decide (s = ".")) && slash_free s.

(** names joined by separators *)
Fixpoint unsegments (l : list string) : string :=
  match l with
  | [] => ""
  | [x] => x
  | x :: l' => x +:+ "/" +:+ unsegments l'
  end.

Definition wf_pathb (p : string) : bool := forallb wf_nameb (Py.segments p).

Definition wf_fsb (fs : LocalFS) : bool :=
  forallb (λ kv : string * node, wf_pathb kv.1 && Os.isdir fs (Os.parent kv.1))
          (map_to_list (nodes fs)).

Definition remote_keyb (s : Store) (pd : string) : bool :=
  Py.startswith pd "/" && wf_pathb (Py.tail pd)
  && (bool_decide (Os.parent (Py.tail pd) = ".")
      || bool_decide ("/" +:+ Os.parent (Py.tail pd) ∈ folders s)).

Definition wf_storeb (s : Store) : bool :=
  forallb (λ kv : string * (string * Z), remote_keyb s kv.1) (map_to_list (objects s))
  && forallb (λ pd, remote_keyb s pd && bool_decide (objects s !! pd = None))
             (elements (folders s))
  && bool_decide (faults s = []).

Definition agreeb (st : DropboxState) : bool :=
  bool_decide (dom (local_files st) = dom (remote_files st)).

Definition world_okb (m : Machine Store) : bool :=
  wf_fsb (disk m) && wf_storeb (dbx m)
  && match pickled m with Some st => agreeb st | None => true end.

Definition soundb (m : Machine Store) : bool :=
  wf_fsb (disk m) && wf_storeb (dbx m) && agreeb (state m).

(** the first directory of a path *)
Definition first_dir (a : string) : string := default "" (head (Py.segments a)).

(** a sync root with a new file in a directory, a directory and a file
    the script ignores, a file whose remote copy is gone, and the state
    file of an earlier run; in the store a file nobody has here and one
    that was deleted here *)
Definition home_state : DropboxState :=
  let t := list_to_map [("old.txt", mkMeta "r1" 3); ("gone/x.txt", mkMeta "r2" 4)] in
  mkDropboxState t t.

Definition home_disk : LocalFS :=
  mkLocalFS (list_to_map [("notes", Dir 1); ("notes/new.txt", File 7 12 false);
                     (".git", Dir 2); (".git/config", File 2 9 false);
                     ("draft~", File 8 1 false);
                     ("old.txt", File 3 5 false); ("gone", Dir 4);
                     (".dropbox_state", File 5 2 false)]) 0 9.

Definition home_store : Store :=
  mkStore (list_to_map [("/gone/x.txt", ("r2", 6)); ("/docs/r.txt", ("r3", 8))])
          (list_to_set ["/gone"; "/docs"]) ∅ ∅ 0 0 [].

Definition home_machine : Machine Store :=
  mkMachine DropboxState_init home_disk (Some home_state) home_store [] [].

(** what the local deletions show: the deletion of a path that
    satisfies [ok], or the removal of an emptied directory; nothing is
    sent *)
Definition deletes_only (ok : string → Prop) (e : event) : Prop :=
  match e with
  | Print (DeletingLocally p) => ok p
  | Print (FolderEmpty _) => True
  | _ => False
  end.

(** between [m] and [m'] the paths that satisfy [keep] have kept their
    entries in both tables and their files, and all that happened are
    local deletions of other paths *)
Definition spared {R} (keep : string → Prop) (m m' : Machine R) : Prop :=
  (∀ p, keep p →
     local_files (state m') !! p = local_files (state m) !! p
     ∧ remote_files (state m') !! p = remote_files (state m) !! p
     ∧ ∀ t s l, nodes (disk m) !! p = Some (File t s l) →
                nodes (disk m') !! p = Some (File t s l))
  ∧ trace_grows (deletes_only (λ p, ¬ keep p)) m m'.

(** the machine of a run that has loaded [home_state] *)
Definition home_loaded : Machine Store :=
  mkMachine home_state home_disk (Some home_state) home_store [] [].

(** the directories on the way from the sync root to [p] *)
Definition dirs_of (p : string) : list string := removelast (Py.segments p).

(** none of the directories is hidden, and the first one is neither a
    [site...] directory nor [temp] nor [Examples] *)
Definition open_dirs (dirs : list string) : bool :=
  match dirs with
  | [] => true
  | first :: _ =>
      negb (Py.startswith first "site")
      && negb (bool_decide (first ∈ ["temp"; "Examples"]))
      && forallb (λ name, negb (Py.startswith name ".")) dirs
  end.

(** [home_loaded] with a store whose next call fails *)
Definition home_refusing : Machine Store :=
  mkMachine home_state home_disk (Some home_state) (Store.with_faults home_store [true]) [] [].

(** [home_loaded] with a user at the keyboard *)
Definition home_asked : Machine Store :=
  mkMachine home_state home_disk (Some home_state) home_store ["x"; "la"; "r"] [].

(** tables that have lost the local entry of ["old.txt"] *)
Definition home_lopsided : Machine Store :=
  mkMachine (mkDropboxState ∅ {["old.txt" := mkMeta "r1" 3]}) home_disk None home_store [] [].

(** neither a deletion in the store nor its announcement *)
Definition no_remote_delete (e : event) : Prop :=
  match e with
  | Request (Delete _) | Print (DeletingOnDropbox _) => False
  | _ => True
  end.

(** [fs'] is [fs] without some of its directories: nothing is new, and
    every regular file is as it was *)
Definition only_pruned (fs fs' : LocalFS) : Prop :=
  (∀ p x, nodes fs' !! p = Some x → nodes fs !! p = Some x)
  ∧ (∀ p t s l, nodes fs !! p = Some (File t s l) → nodes fs' !! p = Some (File t s l)).

Definition tree_pruned {R} (m m' : Machine R) : Prop := only_pruned (disk m) (disk m').

(** ["old.txt"] tracked and in the store, at the top of the sync root *)
Definition home_top : Machine Store :=
  mkMachine home_state home_disk (Some home_state)
            (mkStore {["/old.txt" := ("r1", 5)]} ∅ ∅ ∅ 0 0 []) [] [].

(** the key [k] names a directory of the tree *)
Definition is_dir (fs : LocalFS) (k : string) : Prop :=
  k = "." ∨ ∃ t, nodes fs !! k = Some (Dir t).

(** the reply that gave [upload] its revision: for a file above the
    threshold the reply to the finish call that follows the session, for
    any other file the reply to the one call that sends it; [d] is the
    store after it *)
Definition upload_reply {R} `{!Client R} (path because : string) (m : Machine R)
    (rev : string) (d : R) : Prop :=
  ∃ size total,
    Os.getsize (disk m) path = Some size ∧ Os.open_rb (disk m) path = Some total
    ∧ if bool_decide (size > 140000000) then
        let data := mkBytes 0 (Z.min 10000000 total) in
        ∃ last session_cursor m1,
          upload_session (Z.to_nat (total / 10000000) + 1) total (b_len data) data
                         (bool_decide (b_len data < 10000000)) None None 0
                         (mkMachine (state m) (disk m) (pickled m) (dbx m) (stdin m)
                                    (trace m ++ [Print (Uploading path because)]))
          = (Done (last, session_cursor), m1)
          ∧ files_upload_session_finish last session_cursor
              (mkCommitInfo (Py.join "/" path) overwrite true) (dbx m1)
            = (Some rev, d)
      else
        files_upload (mkBytes 0 total) (Py.join "/" path) overwrite true (dbx m)
        = (Some rev, d).

(** a listing is drained from the page [results] on: the entries of
    every page are handled, every further page is the reply to a
    continue call with the cursor of the page before, and after the last
    page the store has no more *)
Inductive drained {R} `{!Client R} :
    ListFolderResult → gset string → Machine R → gset string → Machine R → Prop :=
| drained_last results current m current' m' :
    process_remote_entries (entries results) current m = (Done current', m') →
    has_more results = false →
    drained results current m current' m'
| drained_more results current m current1 m1 results' m2 current' m' :
    process_remote_entries (entries results) current m = (Done current1, m1) →
    has_more results = true →
    call (ListFolderContinue (cursor results))
         (files_list_folder_continue (cursor results)) m1 = (Done results', m2) →
    drained results' current1 m2 current' m' →
    drained results current m current' m'.

(** ** Writing the two tables together *)

(** the two tables hold the same keys with the same metadata *)
Definition paired (st : DropboxState) : Prop := local_files st = remote_files st.

(** the tables in memory and the tables last saved are paired *)
Definition all_paired {R} (m : Machine R) : Prop :=
  paired (state m) ∧ ∀ st, pickled m = Some st → paired st.

(** the operations that change the state, as the script performs them:
    the four methods, and the creation of a folder for a folder entry of
    a listing *)
Inductive operation :=
| DoUpload (path because : string)
| DoDownload (path because : string)
| DoDeleteLocal (path : string)
| DoDeleteRemote (path : string)
| DoFolder (path_display : string).

Definition perform {R} `{!Client R} (n : nat) (o : operation) : Prog (Machine R) unit :=
  match o with
  | DoUpload path because => upload path because
  | DoDownload path because => download_remote path because
  | DoDeleteLocal path => delete_local path
  | DoDeleteRemote path => delete_remote n path
  | DoFolder path_display =>
      process_remote_entry (FolderMetadata path_display) None ∅;; ret ()
  end.

(** one operation after the other, each from where the one before has
    left the machine, however it ended *)
Fixpoint perform_all {R} `{!Client R} (n : nat) (ops : list operation) (m : Machine R)
    : Machine R :=
  match ops with
  | [] => m
  | o :: ops => perform_all n ops (perform n o m).2
  end.

(** ** What happens to one path *)

(** how the entries of [path] in the two tables have changed, by [Q] *)
Definition entry_rel (path : string) (Q : relation (option meta))
    (st st' : DropboxState) : Prop :=
  Q (local_files st !! path) (local_files st' !! path)
  ∧ Q (remote_files st !! path) (remote_files st' !! path).

(** between [m] and [m'] the entries of [path] have changed by [Q],
    the tree has lost directories at most, and all that happened
    satisfies [P] *)
Definition framed {R} (path : string) (Q : relation (option meta)) (P : event → Prop)
    (m m' : Machine R) : Prop :=
  entry_rel path Q (state m) (state m')
  ∧ only_pruned (disk m) (disk m')
  ∧ trace_grows P m m'.

(** an entry stays, and an entry stays away *)
Definition stays_some (x y : option meta) : Prop := is_Some x → is_Some y.
Definition stays_none (x y : option meta) : Prop := x = None → y = None.

(** no upload is announced, and no upload of [path] *)
Definition no_upload (e : event) : Prop :=
  match e with Print (Uploading _ _) => False | _ => True end.
Definition no_upload_of (path : string) (e : event) : Prop :=
  match e with Print (Uploading p _) => p ≠ path | _ => True end.

(** C10 the way the claim words it: a file that a run was to delete
    locally and could not is untracked afterwards and uploaded again, by
    that run or the next *)
Definition reupload_as_stated (n : nat) (m : Machine Store) (path : string) : Prop :=
  let m1 := (main with_client n m).2 in
  let m2 := (main with_client n m1).2 in
  Print (DeletingLocally path) ∈ since m m1 →
  Os.isfile (disk m1) path = true →
  local_files (state m1) !! path = None
  ∧ remote_files (state m1) !! path = None
  ∧ ∃ because, Print (Uploading path because) ∈ since m m2.

(** a tracked hidden file that the store no longer has and the
    operating system will not unlink *)
Definition hidden_locked_machine : Machine Store :=
  mkMachine DropboxState_init
            (mkLocalFS (list_to_map [(".keep", File 5 3 true);
                                (".dropbox_state", File 5 1 false)]) 0 6)
            (Some (mkDropboxState {[".keep" := mkMeta "r1" 5]} {[".keep" := mkMeta "r1" 5]}))
            new_store [] [].



(** * Properties *)

(** ** The library models on small inputs *)

Example dirname_nested : Py.dirname "a/b/c.txt" = "a/b".
Proof. reflexivity. Qed.
Example dirname_plain : Py.dirname "c.txt" = "".
Proof. reflexivity. Qed.
Example dirname_rooted : Py.dirname "/a" = "/".
Proof. reflexivity. Qed.
Example dirname_slashes : Py.dirname "//" = "//".
Proof. reflexivity. Qed.
Example split_trailing : Py.split "a/b/" = ("a/b", "").
Proof. reflexivity. Qed.
Example join_root : Py.join "/" "a/b" = "/a/b".
Proof. reflexivity. Qed.
Example join_walk : Py.tail (Py.tail (Py.join "./a" "b.txt")) = "a/b.txt".
Proof. reflexivity. Qed.
Example segments_walk : Py.segments "./a/.git" = ["."; "a"; ".git"].
Proof. reflexivity. Qed.
Example endswith_pyc : Py.endswith "x.pyc" ".pyc" = true.
Proof. reflexivity. Qed.
Example walk_demo :
  Os.walk demo_fs =
    [(".", ["a"; ".git"], ["top.py"]); ("./a", ["b"], []);
     ("./a/b", [], ["c.txt"]); ("./.git", [], ["config"])].
Proof. vm_compute. reflexivity. Qed.
Example removedirs_demo :
  nodes <$> (Os.remove demo_fs "a/b/c.txt" ≫= λ fs, Os.removedirs fs "a/b")
  = Some (list_to_map [("top.py", File 4 20 false); (".git", Dir 5);
                       (".git/config", File 6 30 true)]).
Proof. vm_compute. reflexivity. Qed.
Example makedirs_demo :
  (λ fs, (Os.isdir fs "x", Os.isdir fs "x/y", Os.isdir fs "x/y/z"))
    <$> Os.makedirs demo_fs "x/y/z" = Some (true, true, true).
Proof. vm_compute. reflexivity. Qed.
Example remove_locked : Os.remove demo_fs ".git/config" = None.
Proof. vm_compute. reflexivity. Qed.

(** ** Reasoning about computations *)

Section Hoare.

Context {Σ : Type}.
Implicit Types m : Σ.

Lemma hoare_conseq {A} (P P' : Σ → Prop) (Q Q' : outcome A → Σ → Prop) (c : Prog Σ A) :
  hoare P' c Q' → (∀ m, P m → P' m) → (∀ o m, Q' o m → Q o m) → hoare P c Q.
Proof. intros Hc HP HQ m Hm. apply HQ, Hc, HP, Hm. Qed.

Lemma hoare_ret {A} (P : Σ → Prop) (a : A) : hoare P (ret a) (λ o m, o = Done a ∧ P m).
Proof. intros m Hm. done. Qed.

Lemma hoare_bind {A B} (P : Σ → Prop) (Mid : outcome A → Σ → Prop)
    (Q : outcome B → Σ → Prop) (c : Prog Σ A) (k : A → Prog Σ B) :
  hoare P c Mid →
  (∀ a, hoare (Mid (Done a)) (k a) Q) →
  (∀ e m, Mid (Raised e) m → Q (Raised e) m) →
  (∀ m, Mid Spinning m → Q Spinning m) →
  hoare P (bind c k) Q.
Proof.
  intros Hc Hk He Hs m Hm. specialize (Hc m Hm). unfold bind.
  destruct (c m) as [[a|e|] m']; simpl in *; [by apply Hk|by apply He|by apply Hs].
Qed.

Lemma bind_Done {A B} (c : Prog Σ A) (k : A → Prog Σ B) m a m' :
  c m = (Done a, m') → bind c k m = k a m'.
Proof. unfold bind. by intros ->. Qed.

Lemma bind_Raised {A B} (c : Prog Σ A) (k : A → Prog Σ B) m e m' :
  c m = (Raised e, m') → bind c k m = (Raised e, m').
Proof. unfold bind. by intros ->. Qed.

Lemma bind_Spinning {A B} (c : Prog Σ A) (k : A → Prog Σ B) m m' :
  c m = (Spinning, m') → bind c k m = (Spinning, m').
Proof. unfold bind. by intros ->. Qed.

Lemma bind_inv_Done {A B} (c : Prog Σ A) (k : A → Prog Σ B) m b m2 :
  bind c k m = (Done b, m2) → ∃ a m1, c m = (Done a, m1) ∧ k a m1 = (Done b, m2).
Proof.
  unfold bind. destruct (c m) as [[a|e|] m1]; [eauto|done..].
Qed.

Context (Rel : Σ → Σ → Prop) `{!PreOrder Rel}.

Lemma keeps_ret {A} (a : A) : keeps Rel (ret a).
Proof. intros m. simpl. reflexivity. Qed.

Lemma keeps_raise {A} e : keeps Rel (@raise Σ A e).
Proof. intros m. simpl. reflexivity. Qed.

Lemma keeps_spin {A} : keeps Rel (@spin Σ A).
Proof. intros m. simpl. reflexivity. Qed.

Lemma keeps_bind {A B} (c : Prog Σ A) (k : A → Prog Σ B) :
  keeps Rel c → (∀ a, keeps Rel (k a)) → keeps Rel (bind c k).
Proof.
  intros Hc Hk m. specialize (Hc m). unfold bind.
  destruct (c m) as [[a|e|] m']; simpl in *; [|done..].
  etrans; [exact Hc|apply Hk].
Qed.

(** the same, when what follows is only known to keep the relation
    after the result of the first step *)
Lemma keeps_bind_after {A B} (c : Prog Σ A) (k : A → Prog Σ B) :
  keeps Rel c →
  (∀ m a m', c m = (Done a, m') → Rel m' (k a m').2) →
  keeps Rel (bind c k).
Proof.
  intros Hc Hk m. specialize (Hc m). unfold bind.
  destruct (c m) as [[a|e|] m'] eqn:E; simpl in *; [|done..].
  etrans; [exact Hc|by eapply Hk].
Qed.

Lemma keeps_try {A} (c : Prog Σ A) : keeps Rel c → keeps Rel (try c).
Proof. intros Hc m. specialize (Hc m). unfold try. by destruct (c m) as [[a|e|] m']. Qed.

Lemma keeps_try_OSError (c : Prog Σ unit) : keeps Rel c → keeps Rel (try_OSError c).
Proof.
  intros Hc m. specialize (Hc m). unfold try_OSError.
  by destruct (c m) as [[a|[]|] m'].
Qed.

Lemma keeps_for_each {A} (l : list A) (body : A → Prog Σ unit) :
  (∀ x, x ∈ l → keeps Rel (body x)) → keeps Rel (for_each l body).
Proof.
  induction l as [|x l IH]; intros Hb; simpl.
  - apply keeps_ret.
  - apply keeps_bind; [apply Hb; left|intros _; apply IH].
    intros y Hy. apply Hb. by right.
Qed.

End Hoare.

(** ** The primitive statements *)

(** unfold the primitive statements and the plumbing of the monad, and
    nothing else *)
Ltac run :=
  cbv [bind ret raise spin try try_OSError print emit os_get os_read os_do call
       with_state in_local in_remote get_local set_local set_remote del_local del_remote
       negb andb orb];
  cbn [fst snd state disk pickled dbx stdin trace local_files remote_files].

Section Primitives.

Context {R : Type} `{!Client R}.
Implicit Types m : Machine R.

Global Instance trace_grows_preorder (P : event → Prop) : PreOrder (@trace_grows R P).
Proof.
  split.
  - intros m. exists []. by rewrite app_nil_r.
  - intros m1 m2 m3 (e1 & H1 & F1) (e2 & H2 & F2). exists (e1 ++ e2).
    rewrite H2, H1, app_assoc. split; [done|]. by apply Forall_app.
Qed.

Lemma trace_grows_since P m m' : trace_grows P m m' → Forall P (since m m').
Proof. intros (evs & E & HF). unfold since. by rewrite E, drop_app_length. Qed.

Lemma trace_grows_weaken (P Q : event → Prop) m m' :
  (∀ e, P e → Q e) → trace_grows P m m' → trace_grows Q m m'.
Proof. intros HPQ (evs & E & HF). exists evs. split; [done|]. eapply Forall_impl; eauto. Qed.

Lemma keeps_weaken {A} (Rel Rel' : Machine R → Machine R → Prop) (c : Prog (Machine R) A) :
  keeps Rel c → (∀ m m', Rel m m' → Rel' m m') → keeps Rel' c.
Proof. intros Hc Hw m. apply Hw, Hc. Qed.

Lemma call_Done {A} (r : request) (f : R → option A * R) m a m' :
  call r f m = (Done a, m') →
  m' = mkMachine (state m) (disk m) (pickled m) (dbx m') (stdin m) (trace m ++ [Request r])
  ∧ f (dbx m) = (Some a, dbx m').
Proof.
  unfold call. destruct (f (dbx m)) as [[a'|] d] eqn:E; intros [= <- <-]; simpl. done.
Qed.

Lemma call_Raised {A} (r : request) (f : R → option A * R) m e m' :
  call r f m = (Raised e, m') →
  m' = mkMachine (state m) (disk m) (pickled m) (dbx m') (stdin m) (trace m ++ [Request r])
  ∧ e = ApiError ∧ f (dbx m) = (None, dbx m').
Proof.
  unfold call. destruct (f (dbx m)) as [[a'|] d] eqn:E; intros [= <- <-]; simpl. done.
Qed.

Lemma call_not_Spinning {A} (r : request) (f : R → option A * R) m :
  (call r f m).1 ≠ Spinning.
Proof. unfold call. by destruct (f (dbx m)) as [[a'|] d]. Qed.

Lemma call_effect {A} (r : request) (f : R → option A * R) :
  keeps (λ m m', trace m' = trace m ++ [Request r] ∧ state m' = state m
                 ∧ disk m' = disk m ∧ stdin m' = stdin m ∧ pickled m' = pickled m)
        (call r f).
Proof. intros m. unfold call. by destruct (f (dbx m)) as [[a|] d]. Qed.

Lemma print_effect (l : line) :
  keeps (λ m m', trace m' = trace m ++ [Print l] ∧ state m' = state m
                 ∧ disk m' = disk m ∧ stdin m' = stdin m ∧ pickled m' = pickled m
                 ∧ dbx m' = dbx m)
        (print (R:=R) l).
Proof. by intros m. Qed.

Lemma os_do_effect (f : LocalFS → option LocalFS) :
  keeps (λ m m', trace m' = trace m ∧ state m' = state m
                 ∧ stdin m' = stdin m ∧ pickled m' = pickled m ∧ dbx m' = dbx m
                 ∧ (disk m' = disk m ∨ f (disk m) = Some (disk m')))
        (os_do (R:=R) f).
Proof. intros m. unfold os_do. destruct (f (disk m)) eqn:E; simpl; auto 10. Qed.

Lemma with_state_effect (f : DropboxState → DropboxState) :
  keeps (λ m m', trace m' = trace m ∧ state m' = f (state m) ∧ disk m' = disk m
                 ∧ stdin m' = stdin m ∧ pickled m' = pickled m ∧ dbx m' = dbx m)
        (with_state (R:=R) f).
Proof. by intros m. Qed.

Global Instance session_step_preorder : PreOrder (@session_step R).
Proof.
  split.
  - intros m. split; [reflexivity|done].
  - intros m1 m2 m3 (H1 & S1 & D1) (H2 & S2 & D2).
    split; [by etrans|split; congruence].
Qed.

End Primitives.

(** ** Uploads *)

Section Upload.

Context {R : Type} `{!Client R}.
Implicit Types m : Machine R.

Lemma keeps_at {Σ A} (Rel : Σ → Σ → Prop) (c : Prog Σ A) :
  keeps Rel c → ∀ (s : Σ) o (s' : Σ), c s = (o, s') → Rel s s'.
Proof. intros Hc s o s' E. specialize (Hc s). by rewrite E in Hc. Qed.

Lemma upload_session_step n total pos data close sid cur off :
  keeps session_step (upload_session (R:=R) n total pos data close sid cur off).
Proof.
  revert pos data close sid cur off.
  induction n as [|n IH]; intros pos data close sid cur off; simpl.
  - destruct close; [apply keeps_ret|apply keeps_spin]; apply _.
  - destruct close; [apply keeps_ret; apply _|].
    apply keeps_bind; [apply _| |intros sid'; apply IH].
    destruct sid as [sid|].
    + apply keeps_bind; [apply _| |intros; apply keeps_ret; apply _].
      eapply keeps_weaken; [apply call_effect|].
      intros m m' (Ht & Hs & Hd & _). split; [|done].
      eexists. split; [done|]. repeat constructor. by eexists.
    + eapply keeps_weaken; [apply call_effect|].
      intros m m' (Ht & Hs & Hd & _). split; [|done].
      eexists. split; [done|]. repeat constructor. by eexists.
Qed.

(** the rounds of the session loop after the first, when every call
    succeeds: chunk [k], chunk [k+1], ... are appended, each under a
    cursor that names its own offset *)
Lemma upload_session_tail n total sid k m d c m' :
  1 ≤ k → k * 10000000 ≤ total →
  let len := Z.min 10000000 (total - k * 10000000) in
  upload_session n total (k * 10000000 + len) (mkBytes (k * 10000000) len)
                 (bool_decide (len < 10000000)) (Some sid)
                 (Some (mkUploadSessionCursor sid (k * 10000000))) (k * 10000000) m
  = (Done (d, c), m') →
  let q := total / 10000000 in
  d = mkBytes (q * 10000000) (total - q * 10000000)
  ∧ c = Some (mkUploadSessionCursor sid (q * 10000000))
  ∧ trace m' = trace m ++ (Request ∘ append_at sid <$> seqZ k (q - k)).
Proof.
  revert k m. induction n as [|n IH]; intros k m Hk Hle len; subst len.
  - simpl. case_bool_decide as Hc; [|done].
    intros [= <- <- <-].
    assert (k = total / 10000000) as <- by (apply Z.div_unique with (total - k * 10000000); lia).
    rewrite seqZ_nil by lia. rewrite app_nil_r. repeat split; f_equal; lia.
  - simpl. case_bool_decide as Hc.
    + intros [= <- <- <-].
      assert (k = total / 10000000) as <- by (apply Z.div_unique with (total - k * 10000000); lia).
      rewrite seqZ_nil by lia. rewrite app_nil_r. repeat split; f_equal; lia.
    + intros Hrun. apply bind_inv_Done in Hrun as (sid' & m1 & Hcall & Hrun).
      apply bind_inv_Done in Hcall as ([] & m1' & Hcall & [= <- <-]).
      apply call_Done in Hcall as [Hm1 _].
      assert ((k + 1) * 10000000 ≤ total) as Hnext by lia.
      assert (Z.min 10000000 (total - k * 10000000) = 10000000) as Hmin by lia.
      rewrite Hmin in Hrun.
      replace (k * 10000000 + 10000000) with ((k + 1) * 10000000) in Hrun by lia.
      simpl in Hrun.
      destruct (IH (k + 1) m1' ltac:(lia) Hnext Hrun) as (-> & -> & Ht').
      assert (k + 1 ≤ total / 10000000) by (apply Z.div_le_lower_bound; lia).
      repeat split.
      rewrite Ht', Hm1, (seqZ_cons k) by lia. simpl.
      rewrite Hmin, <- app_assoc. simpl.
      by replace (Z.succ k) with (k + 1) by lia;
         replace (Z.pred (total / 10000000 - k)) with (total / 10000000 - (k + 1)) by lia.
Qed.

(** the loop stops within [total / 10000000 - k] rounds *)
Lemma upload_session_stops n total sid k m :
  1 ≤ k → k * 10000000 ≤ total → (Z.to_nat (total / 10000000 - k) ≤ n)%nat →
  let len := Z.min 10000000 (total - k * 10000000) in
  (upload_session n total (k * 10000000 + len) (mkBytes (k * 10000000) len)
                 (bool_decide (len < 10000000)) (Some sid)
                 (Some (mkUploadSessionCursor sid (k * 10000000))) (k * 10000000) m).1
  ≠ Spinning.
Proof.
  revert k m. induction n as [|n IH]; intros k m Hk Hle Hn len; subst len.
  - simpl. case_bool_decide as Hc; [done|].
    assert (k + 1 ≤ total / 10000000) by (apply Z.div_le_lower_bound; lia). lia.
  - simpl. case_bool_decide as Hc; [done|].
    assert ((k + 1) * 10000000 ≤ total) as Hnext by lia.
    assert (Z.min 10000000 (total - k * 10000000) = 10000000) as Hmin by lia.
    unfold bind at 1. unfold bind at 1.
    pose proof (call_not_Spinning
      (SessionAppend {| b_off := k * 10000000; b_len := 10000000 `min` (total - k * 10000000) |}
         (Some {| session_id := sid; offset := k * 10000000 |}) false)
      (files_upload_session_append_v2
         {| b_off := k * 10000000; b_len := 10000000 `min` (total - k * 10000000) |}
         (Some {| session_id := sid; offset := k * 10000000 |}) false) m) as Hns.
    destruct (call _ _ m) as [[[]|e|] m1]; simpl; [|done|done].
    rewrite Hmin.
    replace (k * 10000000 + 10000000) with ((k + 1) * 10000000) by lia.
    apply IH; lia.
Qed.


Lemma upload_session_tail_at n total sid k pos data close cur off m d c m' :
  1 ≤ k → k * 10000000 ≤ total →
  pos = k * 10000000 + Z.min 10000000 (total - k * 10000000) →
  data = mkBytes (k * 10000000) (Z.min 10000000 (total - k * 10000000)) →
  close = bool_decide (Z.min 10000000 (total - k * 10000000) < 10000000) →
  cur = Some (mkUploadSessionCursor sid (k * 10000000)) →
  off = k * 10000000 →
  upload_session n total pos data close (Some sid) cur off m = (Done (d, c), m') →
  let q := total / 10000000 in
  d = mkBytes (q * 10000000) (total - q * 10000000)
  ∧ c = Some (mkUploadSessionCursor sid (q * 10000000))
  ∧ trace m' = trace m ++ (Request ∘ append_at sid <$> seqZ k (q - k)).
Proof. intros ?? -> -> -> -> ->. by apply upload_session_tail. Qed.

Lemma os_get_Done {A} (f : LocalFS → option A) m a m' :
  os_get f m = (Done a, m') → f (disk m) = Some a ∧ m' = m.
Proof. unfold os_get. destruct (f (disk m)); by intros [= <- <-]. Qed.

Lemma node_at_getsize fs path t total l :
  Os.node_at fs path = Some (File t total l) → Os.getsize fs path = Some total.
Proof. unfold Os.getsize. by intros ->. Qed.

Lemma node_at_open_rb fs path t total l :
  Os.node_at fs path = Some (File t total l) → Os.open_rb fs path = Some total.
Proof. unfold Os.open_rb. by intros ->. Qed.

Lemma node_at_getmtime fs path t total l :
  Os.node_at fs path = Some (File t total l) → Os.getmtime fs path = Some t.
Proof. unfold Os.getmtime. by intros ->. Qed.

(** a chunked upload that succeeds has sent exactly [session_requests] *)
Lemma upload_chunked_Done m path because t total l m' :
  Os.node_at (disk m) path = Some (File t total l) → 140000000 < total →
  upload path because m = (Done (), m') →
  ∃ sid r,
    since m m' = Print (Uploading path because)
                 :: (Request <$> session_requests sid (Py.join "/" path) total)
    ∧ state m' = mkDropboxState (<[path := mkMeta r t]> (local_files (state m)))
                                (<[path := mkMeta r t]> (remote_files (state m)))
    ∧ disk m' = disk m.
Proof.
  intros Hnode Hbig Hrun. unfold upload in Hrun.
  apply bind_inv_Done in Hrun as ([] & m1 & [= <-] & Hrun).
  apply bind_inv_Done in Hrun as (size & m2 & Hsize & Hrun).
  apply os_get_Done in Hsize as [Hsize ->]. simpl in Hsize.
  rewrite (node_at_getsize _ _ _ _ _ Hnode) in Hsize. injection Hsize as <-.
  rewrite bool_decide_eq_true_2 in Hrun by lia.
  apply bind_inv_Done in Hrun as (r & m3 & Hsend & Hrun).
  apply bind_inv_Done in Hsend as (total' & m4 & Hopen & Hsend).
  apply os_get_Done in Hopen as [Hopen ->]. simpl in Hopen.
  rewrite (node_at_open_rb _ _ _ _ _ Hnode) in Hopen. injection Hopen as <-.
  apply bind_inv_Done in Hsend as ([d c] & m5 & Hloop & Hfinish).
  replace (Z.to_nat (total / 10000000) + 1)%nat with (S (Z.to_nat (total / 10000000))) in Hloop by lia.
  assert (Z.min 10000000 total = 10000000) as Hmin by lia.
  simpl in Hloop. rewrite Hmin in Hloop.
  rewrite bool_decide_eq_false_2 in Hloop by lia.
  apply bind_inv_Done in Hloop as (sid & m6 & Hstart & Hloop).
  apply call_Done in Hstart as [Hm6 _]. simpl in Hm6.
  destruct (keeps_at _ _ (upload_session_step _ _ _ _ _ _ _ _) _ _ _ Hloop)
    as (_ & Hs5 & Hd5).
  eapply (upload_session_tail_at _ _ _ 1) in Hloop as (-> & -> & Ht5);
    [|lia|lia|lia|f_equal; lia|f_equal; lia|by rewrite Z.mul_1_l|lia].
  apply call_Done in Hfinish as [Hm3 _].
  apply bind_inv_Done in Hrun as (mtime & m7 & Hmtime & Hrun).
  apply os_get_Done in Hmtime as [Hmtime ->].
  rewrite Hm3 in Hmtime. simpl in Hmtime. rewrite Hd5, Hm6 in Hmtime. simpl in Hmtime.
  rewrite (node_at_getmtime _ _ _ _ _ Hnode) in Hmtime. injection Hmtime as <-.
  apply bind_inv_Done in Hrun as ([] & m8 & [= <-] & [= <-]).
  exists sid, r. simpl. unfold since. simpl.
  rewrite Hm3. simpl. rewrite Ht5, Hs5, Hd5, Hm6. simpl.
  rewrite <- !app_assoc, drop_app_length. simpl.
  split; [|done]. unfold session_requests. f_equal. f_equal.
  rewrite fmap_app, list_fmap_compose. simpl. done.
Qed.

Lemma requests_fmap (rs : list request) : requests (Request <$> rs) = rs.
Proof. unfold requests. induction rs; simpl; [done|by f_equal]. Qed.

Lemma requests_app (t1 t2 : list event) : requests (t1 ++ t2) = requests t1 ++ requests t2.
Proof. unfold requests. apply omap_app. Qed.

Lemma count_if_app {A} (f : A → bool) (l1 l2 : list A) :
  count_if f (l1 ++ l2) = (count_if f l1 + count_if f l2)%nat.
Proof. unfold count_if. by rewrite filter_app, length_app. Qed.

Lemma filter_appends sid (ks : list Z) :
  filter (λ r, is_append r = true) (append_at sid <$> ks) = append_at sid <$> ks.
Proof. induction ks as [|k ks IH]; [done|]. simpl. rewrite filter_cons_True by done. by f_equal. Qed.

Lemma count_appends sid (ks : list Z) :
  count_if is_append (append_at sid <$> ks) = length ks.
Proof. unfold count_if. by rewrite filter_appends, length_fmap. Qed.

Lemma count_others sid (f : request → bool) (ks : list Z) :
  (∀ k, f (append_at sid k) = false) → count_if f (append_at sid <$> ks) = 0%nat.
Proof.
  intros Hf. unfold count_if. induction ks as [|k ks IH]; [done|]. simpl.
  rewrite filter_cons_False; [done|]. by rewrite Hf.
Qed.

Lemma session_requests_appends sid path total :
  filter (λ r, is_append r = true) (session_requests sid path total)
  = append_at sid <$> seqZ 1 (total / 10000000 - 1).
Proof.
  unfold session_requests. rewrite filter_cons_False by done.
  rewrite filter_app, filter_appends. simpl. rewrite filter_cons_False by done.
  by rewrite filter_nil, app_nil_r.
Qed.

Lemma session_requests_counts sid path total :
  count_if is_start (session_requests sid path total) = 1%nat
  ∧ count_if is_append (session_requests sid path total) = Z.to_nat (total / 10000000 - 1)
  ∧ count_if is_finish (session_requests sid path total) = 1%nat.
Proof.
  split; [|split].
  - unfold session_requests, count_if. rewrite filter_cons_True by done. simpl.
    rewrite filter_app, length_app. fold (count_if is_start (append_at sid <$> seqZ 1 (total / 10000000 - 1))).
    by rewrite count_others.
  - unfold count_if. by rewrite session_requests_appends, length_fmap, length_seqZ.
  - unfold session_requests, count_if. rewrite filter_cons_False by done.
    rewrite filter_app, length_app. fold (count_if is_finish (append_at sid <$> seqZ 1 (total / 10000000 - 1))).
    by rewrite count_others.
Qed.

Lemma session_requests_last sid path total :
  last (session_requests sid path total)
  = Some (SessionFinish (mkBytes (total / 10000000 * 10000000)
                                 (total - total / 10000000 * 10000000))
                        (Some (mkUploadSessionCursor sid (total / 10000000 * 10000000)))
                        (mkCommitInfo path overwrite true)).
Proof. unfold session_requests. by rewrite app_comm_cons, last_snoc. Qed.

Lemma offsets_exact_appends sid rest (j : nat) : ∀ k,
  offsets_exact (k * 10000000) ((append_at sid <$> seqZ k (Z.of_nat j)) ++ rest)
  = offsets_exact ((k + Z.of_nat j) * 10000000) rest.
Proof.
  induction j as [|j IH]; intros k.
  - simpl. by rewrite Z.add_0_r.
  - rewrite seqZ_cons by lia. simpl fmap. simpl app.
    replace (Z.pred (Z.of_nat (S j))) with (Z.of_nat j) by lia.
    replace (Z.succ k) with (k + 1) by lia.
    change (offsets_exact (k * 10000000) (append_at sid k :: ?l))
      with (bool_decide (Some (k * 10000000) = Some (k * 10000000))
            && offsets_exact (k * 10000000 + 10000000) l).
    rewrite bool_decide_eq_true_2 by done. simpl.
    replace (k * 10000000 + 10000000) with ((k + 1) * 10000000) by lia.
    rewrite IH. f_equal. lia.
Qed.

Lemma session_requests_offsets sid path total :
  10000000 ≤ total → offsets_exact 0 (session_requests sid path total) = true.
Proof.
  intros Hbig. unfold session_requests.
  assert (1 ≤ total / 10000000) by (apply Z.div_le_lower_bound; lia).
  change (offsets_exact 0 (SessionStart ?d ?c :: ?l)) with (offsets_exact (1 * 10000000) l).
  replace (total / 10000000 - 1) with (Z.of_nat (Z.to_nat (total / 10000000 - 1))) at 1 by lia.
  rewrite offsets_exact_appends.
  replace (1 + Z.of_nat (Z.to_nat (total / 10000000 - 1))) with (total / 10000000) by lia.
  simpl. by rewrite bool_decide_eq_true_2.
Qed.

(** C2, as the code has it.  A chunked upload that succeeds sends one
    start, then appends, then one finish, and every cursor names exactly
    the number of bytes sent before it.  A file of [N] full chunks gives
    [N - 1] appends, the last of them under the offset [N * chunk - chunk],
    and a finish that carries no data under the offset [N * chunk].  A
    file one byte short of [N] chunks gives [N - 2] appends, and its short
    last read goes out with the finish. *)
Theorem chunk_boundary m path because t total l m' :
  Os.node_at (disk m) path = Some (File t total l) →
  140000000 < total →
  upload path because m = (Done (), m') →
  ∃ sid,
    let rs := requests (since m m') in
    let commit := mkCommitInfo (Py.join "/" path) overwrite true in
    rs = session_requests sid (Py.join "/" path) total
    ∧ offsets_exact 0 rs = true
    ∧ (∀ N, total = N * 10000000 →
         count_if is_start rs = 1%nat
         ∧ count_if is_append rs = Z.to_nat (N - 1)
         ∧ count_if is_finish rs = 1%nat
         ∧ last (filter (λ r, is_append r = true) rs) = Some (append_at sid (N - 1))
         ∧ last rs = Some (SessionFinish (mkBytes (N * 10000000) 0)
                             (Some (mkUploadSessionCursor sid (N * 10000000))) commit))
    ∧ (∀ N, total = N * 10000000 - 1 →
         count_if is_start rs = 1%nat
         ∧ count_if is_append rs = Z.to_nat (N - 2)
         ∧ count_if is_finish rs = 1%nat
         ∧ last rs = Some (SessionFinish (mkBytes ((N - 1) * 10000000) 9999999)
                             (Some (mkUploadSessionCursor sid ((N - 1) * 10000000))) commit)).
Proof.
  intros Hnode Hbig Hrun.
  destruct (upload_chunked_Done _ _ _ _ _ _ _ Hnode Hbig Hrun) as (sid & r & Hsince & _).
  exists sid. cbv zeta. rewrite Hsince.
  change (requests (Print ?x :: ?t)) with (requests t). rewrite requests_fmap.
  destruct (session_requests_counts sid (Py.join "/" path) total) as (Hs & Ha & Hf).
  split; [done|]. split; [apply session_requests_offsets; lia|].
  split; intros N ->.
  - assert (N * 10000000 / 10000000 = N) as Hq by (apply Z.div_mul; lia).
    rewrite Hs, Ha, Hf, session_requests_appends, session_requests_last, Hq.
    repeat split; [|by rewrite Z.sub_diag].
    rewrite fmap_last. 
    replace (N - 1) with (Z.of_nat (S (Z.to_nat (N - 2)))) at 1 by lia.
    rewrite seqZ_S. rewrite last_snoc. simpl. f_equal. f_equal. lia.
  - assert ((N * 10000000 - 1) / 10000000 = N - 1) as Hq
      by (symmetry; apply Z.div_unique with 9999999; lia).
    rewrite Hs, Ha, Hf, session_requests_last, Hq.
    repeat split; [f_equal; lia|]. do 3 f_equal. lia.
Qed.

Lemma bind_inv {Σ A B} (c : Prog Σ A) (k : A → Prog Σ B) (s : Σ) o (s' : Σ) :
  bind c k s = (o, s') →
  (∃ a s1, c s = (Done a, s1) ∧ k a s1 = (o, s'))
  ∨ (∃ e, c s = (Raised e, s') ∧ o = Raised e)
  ∨ (c s = (Spinning, s') ∧ o = Spinning).
Proof.
  unfold bind. destruct (c s) as [[a|e|] s1]; intros E.
  - left. eauto.
  - right. left. injection E as <- <-. eauto.
  - right. right. by injection E as <- <-.
Qed.

Lemma os_get_inv {A} (f : LocalFS → option A) m o m' :
  os_get f m = (o, m') →
  m' = m ∧ ((∃ a, f (disk m) = Some a ∧ o = Done a) ∨ (f (disk m) = None ∧ o = Raised OSError)).
Proof. unfold os_get. destruct (f (disk m)); intros [= <- <-]; eauto. Qed.

Lemma call_inv {A} (r : request) (f : R → option A * R) m o m' :
  call r f m = (o, m') →
  m' = mkMachine (state m) (disk m) (pickled m) (dbx m') (stdin m) (trace m ++ [Request r])
  ∧ ((∃ a, o = Done a ∧ f (dbx m) = (Some a, dbx m'))
     ∨ (o = Raised ApiError ∧ f (dbx m) = (None, dbx m'))).
Proof.
  unfold call. destruct (f (dbx m)) as [[a'|] d] eqn:E; intros [= <- <-]; simpl; eauto.
Qed.

(** recording the outcome of a transfer: the statements of [upload] and
    [download_remote] from [os.path.getmtime] on *)
Lemma record_meta_effect path result_rev :
  keeps (λ m m', trace m' = trace m ∧ disk m' = disk m)
        (mtime ← os_get (R:=R) (λ fs, Os.getmtime fs path);
         let meta := mkMeta result_rev mtime in
         set_local path meta;; set_remote path meta).
Proof.
  intros m. unfold bind, os_get. by destruct (Os.getmtime (disk m) path).
Qed.

Lemma bind_assoc {Σ A B C} (c : Prog Σ A) (k : A → Prog Σ B) (h : B → Prog Σ C) (s : Σ) :
  bind (bind c k) h s = bind c (λ a, bind (k a) h) s.
Proof. unfold bind. by destruct (c s) as [[a|e|] s1]. Qed.

Lemma requests_Forall (Q : request → Prop) (evs : list event) :
  Forall (λ e, ∀ r, e = Request r → Q r) evs → Forall Q (requests evs).
Proof.
  unfold requests. induction 1 as [|e evs He _ IH]; simpl; [done|].
  destruct e; simpl; [constructor; auto|done..].
Qed.

Lemma upload_session_not_simple n total pos data close sid cur off :
  keeps (trace_grows not_simple) (upload_session (R:=R) n total pos data close sid cur off).
Proof.
  eapply keeps_weaken; [apply upload_session_step|].
  intros m m' [Hg _]. eapply trace_grows_weaken; [|exact Hg].
  intros e (r & -> & Hr) r' [= <-]. by destruct r.
Qed.

(** C5, as the code has it.  A file of at most 140000000 bytes is sent
    by one request with its full content, overwriting and muted; a larger
    file is sent as a session, and no such request is made for it. *)
Theorem upload_mode m path because t size l :
  Os.node_at (disk m) path = Some (File t size l) →
  let rs := requests (since m (upload path because m).2) in
  if bool_decide (size ≤ 140000000)
  then rs = [Upload (mkBytes 0 size) (Py.join "/" path) overwrite true]
  else ∃ rest, rs = SessionStart (mkBytes 0 10000000) false :: rest
               ∧ Forall (λ r, is_simple_upload r = false) rest.
Proof.
  intros Hnode. simpl.
  destruct (upload path because m) as [o m'] eqn:Hrun. simpl.
  unfold upload in Hrun. unfold bind at 1 in Hrun. simpl in Hrun.
  unfold bind at 1 in Hrun. unfold os_get at 1 in Hrun. simpl in Hrun.
  rewrite (node_at_getsize _ _ _ _ _ Hnode) in Hrun.
  assert (∀ evs, trace m' = (trace m ++ [Print (Uploading path because)]) ++ (Request <$> evs) →
                 requests (since m m') = evs) as Hsince.
  { intros evs E. unfold since. rewrite E, <- app_assoc, drop_app_length.
    simpl. apply requests_fmap. }
  destruct (decide (size ≤ 140000000)) as [Hsize|Hsize].
  - rewrite bool_decide_eq_true_2 by done.
    rewrite bool_decide_eq_false_2 in Hrun by lia.
    apply bind_inv in Hrun as [(r & m2 & Hsend & Hrec)|[(e & Hsend & ->)|[Hsend ->]]].
    + apply bind_inv_Done in Hsend as (total & m1 & Hopen & Hsend).
      apply os_get_Done in Hopen as [Hopen ->]. simpl in Hopen.
      rewrite (node_at_open_rb _ _ _ _ _ Hnode) in Hopen. injection Hopen as <-.
      apply call_Done in Hsend as [Hm2 _].
      destruct (keeps_at _ _ (record_meta_effect path r) _ _ _ Hrec) as [Ht _].
      apply Hsince. by rewrite Ht, Hm2.
    + apply bind_inv in Hsend as [(total & m1 & Hopen & Hsend)|[(e' & Hopen & _)|[Hopen _]]].
      * apply os_get_Done in Hopen as [Hopen ->]. simpl in Hopen.
        rewrite (node_at_open_rb _ _ _ _ _ Hnode) in Hopen. injection Hopen as <-.
        apply call_inv in Hsend as [Hm2 _]. apply Hsince. by rewrite Hm2.
      * apply os_get_inv in Hopen as [_ [(? & _ & ?)|[Hopen _]]]; [done|].
        simpl in Hopen. by rewrite (node_at_open_rb _ _ _ _ _ Hnode) in Hopen.
      * by apply os_get_inv in Hopen as [_ [(? & _ & ?)|[_ ?]]].
    + apply bind_inv in Hsend as [(total & m1 & Hopen & Hsend)|[(e' & Hopen & ?)|[Hopen _]]];
        [|done|by apply os_get_inv in Hopen as [_ [(? & _ & ?)|[_ ?]]]].
      by apply call_inv in Hsend as [_ [(? & ? & _)|[? _]]].
  - rewrite bool_decide_eq_false_2 by done.
    rewrite bool_decide_eq_true_2 in Hrun by lia.
    rewrite bind_assoc in Hrun. unfold bind at 1, os_get at 1 in Hrun. simpl in Hrun.
    rewrite (node_at_open_rb _ _ _ _ _ Hnode) in Hrun.
    replace (Z.to_nat (size / 10000000) + 1)%nat with (S (Z.to_nat (size / 10000000)))
      in Hrun by lia.
    assert (Z.min 10000000 size = 10000000) as Hmin by lia.
    rewrite bind_assoc in Hrun. simpl in Hrun. rewrite Hmin in Hrun.
    rewrite bool_decide_eq_false_2 in Hrun by lia.
    rewrite bind_assoc in Hrun.
    assert (∀ evs, trace m' = ((trace m ++ [Print (Uploading path because)])
                               ++ [Request (SessionStart (mkBytes 0 10000000) false)]) ++ evs →
                   Forall not_simple evs →
                   ∃ rest, requests (since m m')
                           = SessionStart (mkBytes 0 10000000) false :: rest
                           ∧ Forall (λ r, is_simple_upload r = false) rest) as Hgoal.
    { intros evs E HF. exists (requests evs). split; [|by apply requests_Forall].
      unfold since. by rewrite E, <- !app_assoc, drop_app_length. }
    apply bind_inv in Hrun as [(sid & m2 & Hstart & Hrest)|[(e & Hstart & ->)|[Hstart ->]]].
    + apply call_Done in Hstart as [Hm2 _].
      assert (trace_grows not_simple m2 m') as (evs & E & HF).
      { eapply keeps_at; [|exact Hrest].
        apply keeps_bind; [apply _|apply upload_session_not_simple|].
        intros [d c]. apply keeps_bind; [apply _| |].
        - eapply keeps_weaken; [apply call_effect|].
          intros ?? (Ht & _). eexists. split; [done|].
          repeat constructor. by intros r [= <-].
        - intros r. eapply keeps_weaken; [apply record_meta_effect|].
          intros ?? (Ht & _). exists []. by rewrite app_nil_r. }
      apply (Hgoal evs); [|done]. by rewrite E, Hm2.
    + apply call_inv in Hstart as [Hm2 _]. apply (Hgoal []); [|done].
      by rewrite Hm2, app_nil_r.
    + by apply call_inv in Hstart as [_ [(? & ? & _)|[? _]]].
Qed.
End Upload.
(** ** The chunk boundary and the threshold on concrete files *)

Lemma upload_big_150 :
  (upload "big.bin" "" (big_machine 150000000)).1 = Done ().
Proof. vm_compute. reflexivity. Qed.

Lemma chunk_boundary_witness :
  ∃ sid,
    let m := big_machine 150000000 in
    let rs := requests (since m (upload "big.bin" "" m).2) in
    let commit := mkCommitInfo (Py.join "/" "big.bin") overwrite true in
    rs = session_requests sid (Py.join "/" "big.bin") 150000000
    ∧ offsets_exact 0 rs = true
    ∧ (∀ N, 150000000 = N * 10000000 →
         count_if is_start rs = 1%nat
         ∧ count_if is_append rs = Z.to_nat (N - 1)
         ∧ count_if is_finish rs = 1%nat
         ∧ last (filter (λ r, is_append r = true) rs) = Some (append_at sid (N - 1))
         ∧ last rs = Some (SessionFinish (mkBytes (N * 10000000) 0)
                             (Some (mkUploadSessionCursor sid (N * 10000000))) commit))
    ∧ (∀ N, 150000000 = N * 10000000 - 1 →
         count_if is_start rs = 1%nat
         ∧ count_if is_append rs = Z.to_nat (N - 2)
         ∧ count_if is_finish rs = 1%nat
         ∧ last rs = Some (SessionFinish (mkBytes ((N - 1) * 10000000) 9999999)
                             (Some (mkUploadSessionCursor sid ((N - 1) * 10000000))) commit)).
Proof.
  apply (chunk_boundary (big_machine 150000000) "big.bin" "" 1 150000000 false).
  - reflexivity.
  - lia.
  - vm_compute. reflexivity.
Defined.

(** C2 as stated fails for a file of 15 chunks: 14 appends, not 15. *)
Lemma chunk_boundary_as_stated_fails :
  let m := big_machine 150000000 in
  ¬ chunk_boundary_as_stated 15 (requests (since m (upload "big.bin" "" m).2)).
Proof. intros m [Happends _]. vm_compute in Happends. discriminate. Qed.

Lemma upload_mode_witness :
  let m := big_machine 140000000 in
  requests (since m (upload "big.bin" "" m).2)
  = [Upload (mkBytes 0 140000000) (Py.join "/" "big.bin") overwrite true].
Proof.
  exact (upload_mode (big_machine 140000000) "big.bin" "" 1 140000000 false eq_refl).
Defined.

(** C5 as stated fails for a file of exactly 140000000 bytes: it is sent
    by one request. *)
Lemma upload_mode_as_stated_fails :
  let m := big_machine 140000000 in
  ¬ upload_mode_as_stated 140000000 (requests (since m (upload "big.bin" "" m).2)).
Proof. intros m (data & rest & E). vm_compute in E. discriminate. Qed.

(** ** Deleting locally, and folders over files *)

Section Deletion.

Context {R : Type} `{!Client R}.
Implicit Types m : Machine R.

Lemma inside_elem fs path x :
  nodes fs !! path = Some x → path ≠ "." → (path, x) ∈ Os.inside fs (Os.parent path).
Proof.
  intros Hx Hne. unfold Os.inside. apply list_elem_of_filter. split; [done|].
  by apply elem_of_map_to_list.
Qed.

Lemma listdir_occupied fs path x names :
  nodes fs !! path = Some x → path ≠ "." →
  Os.listdir fs (Os.parent path) = Some names → names ≠ [].
Proof.
  intros Hx Hne. unfold Os.listdir. destruct (Os.isdir _ _); [|done].
  intros [= <-] Hnil. apply fmap_nil_inv in Hnil.
  pose proof (inside_elem _ _ _ Hx Hne) as Hin. rewrite Hnil in Hin.
  by apply not_elem_of_nil in Hin.
Qed.

(** C6, what the code does instead.  A folder entry whose path is taken
    by a local file changes nothing: [os.path.exists] is true for the
    file, so [make_local_dir] is not called. *)
Theorem folder_entry_over_file m path_display prefer_remote current :
  Os.isfile (disk m) (Py.tail path_display) = true →
  process_remote_entry (FolderMetadata path_display) prefer_remote current m
  = (Done (prefer_remote, current), m).
Proof.
  intros Hfile. unfold process_remote_entry, bind, os_read, ret. simpl.
  unfold Os.exists_. unfold Os.isfile in Hfile.
  by destruct (Os.node_at (disk m) (Py.tail path_display)) as [[]|].
Qed.

(** a folder entry for a path where nothing is makes the directory, if
    the operating system lets it *)
Lemma folder_entry_on_free_path m path_display prefer_remote current fs :
  Os.exists_ (disk m) (Py.tail path_display) = false →
  Os.makedirs (disk m) (Py.tail path_display) = Some fs →
  process_remote_entry (FolderMetadata path_display) prefer_remote current m
  = (Done (prefer_remote, current),
     mkMachine (state m) fs (pickled m) (dbx m) (stdin m)
               (trace m ++ [Print (MakingDirectory (Py.tail path_display))])).
Proof.
  intros Hfree Hmk.
  unfold process_remote_entry, make_local_dir, bind, os_read, os_do, print, emit, ret. simpl.
  rewrite Hfree. simpl. rewrite Hfree. simpl. by rewrite Hmk.
Qed.

(** [make_local_dir] on its own, called for a path that a tracked,
    removable file occupies: it removes the file, deletes the entry of
    [local_files] and leaves the entry of [remote_files]; then
    [os.makedir] raises, and no directory is made.  The script does not
    call it there: its one call is for a path where nothing exists. *)
Lemma make_local_dir_splits_tables m path t n :
  nodes (disk m) !! path = Some (File t n false) → path ≠ "." →
  is_Some (local_files (state m) !! path) →
  local_files (state m) = remote_files (state m) →
  let r := make_local_dir path m in
  r.1 = Raised AttributeError
  ∧ local_files (state r.2) = delete path (local_files (state m))
  ∧ remote_files (state r.2) = remote_files (state m)
  ∧ local_files (state r.2) ≠ remote_files (state r.2)
  ∧ Os.exists_ (disk r.2) path = false.
Proof.
  intros Hnode Hne Hl Heq.
  assert (Os.node_at (disk m) path = Some (File t n false)) as Hat.
  { unfold Os.node_at. by rewrite bool_decide_eq_false_2. }
  unfold make_local_dir. run.
  unfold Os.exists_, Os.isfile. rewrite Hat. run. rewrite Hat. run.
  unfold Os.remove. rewrite Hnode. run.
  rewrite (bool_decide_eq_true_2 _ Hl). run.
  repeat split.
  - intros Hbad. rewrite <- Heq in Hbad. destruct Hl as [x Hx].
    assert (delete path (local_files (state m)) !! path = Some x) as Hc by by rewrite Hbad.
    by rewrite lookup_delete_eq in Hc.
  - unfold Os.node_at. simpl. rewrite bool_decide_eq_false_2 by done.
    by rewrite lookup_delete_eq.
Qed.

End Deletion.

(** ** Deletions and folder entries on concrete inputs *)

(** the locked file is re-uploaded by the local pass of the same run *)
Example locked_file_comes_back :
  let m := (delete_local "keep.txt" locked_machine).2 in
  Os.isfile (disk m) "keep.txt" = true
  ∧ requests (since m (check_local 1 m).2)
    = [Upload (mkBytes 0 3) "/keep.txt" overwrite true].
Proof. vm_compute. done. Qed.

Lemma folder_entry_over_file_witness :
  let m := boot DropboxState_init docs_disk new_store [] in
  process_remote_entry (FolderMetadata "/docs") None ∅ m = (Done (None, ∅), m).
Proof.
  apply (folder_entry_over_file (boot DropboxState_init docs_disk new_store []) "/docs").
  vm_compute. reflexivity.
Defined.

Lemma make_local_dir_splits_tables_witness :
  let m := (upload "docs" "" (boot DropboxState_init docs_disk new_store [])).2 in
  let r := make_local_dir "docs" m in
  r.1 = Raised AttributeError
  ∧ local_files (state r.2) = delete "docs" (local_files (state m))
  ∧ remote_files (state r.2) = remote_files (state m)
  ∧ local_files (state r.2) ≠ remote_files (state r.2)
  ∧ Os.exists_ (disk r.2) "docs" = false.
Proof.
  apply (make_local_dir_splits_tables
           (upload "docs" "" (boot DropboxState_init docs_disk new_store [])).2 "docs" 5 3).
  - vm_compute. reflexivity.
  - discriminate.
  - exists (mkMeta "rev-0" 5). vm_compute. reflexivity.
  - vm_compute. reflexivity.
Defined.

(** ** The exit status *)

Section Main.

Context {R : Type} `{!Client R}.
Implicit Types m : Machine R.

(** [init_dropbox] has a client and has changed nothing, or has none and
    has said so, or has raised what [DropboxSetup] raised *)
Lemma init_dropbox_cases setup m :
  init_dropbox setup m = (Done true, m)
  ∨ init_dropbox setup m
    = (Done false, mkMachine (state m) (disk m) (pickled m) (dbx m) (stdin m)
                             (trace m ++ [Print FailedToInitialize]))
  ∨ ∃ e, init_dropbox setup m = (Raised e, m).
Proof.
  unfold init_dropbox, setup_call, bind.
  destruct (init setup "Synchronator_Token" None) as [e|[|]]; simpl; [by eauto|by left|].
  destruct (get_access_token setup) as [e|[token|]]; simpl; [by eauto| |by right; left].
  case_bool_decide; simpl; [|by right; left].
  destruct (init setup "Synchronator_Token" (Some token)) as [e|[|]]; simpl;
    [by eauto|by left|by right; left].
Qed.

Lemma os_chdir_Done host p m m1 :
  os_chdir host p m = (Done (), m1) →
  ∃ fs saved, host_tree host p = Some (fs, saved)
              ∧ m1 = mkMachine (state m) fs saved (dbx m) (stdin m) (trace m).
Proof.
  unfold os_chdir. destruct (host_tree host p) as [[fs saved]|]; [|done].
  intros [= <-]. by exists fs, saved.
Qed.

Lemma main_passes setup n m :
  (init_dropbox setup m).1 = Done true → main setup n m = passes n m.
Proof.
  intros H. unfold main, bind.
  destruct (init_dropbox_cases setup m) as [E|[E|[e E]]]; rewrite E in H |- *; by simplify_eq.
Qed.

(** C9, as the code has it.  The status is 0 when the script runs to
    its end: when it finds no client (it says so and touches nothing) and
    when both passes complete; a remote delete that the store refuses
    does not stop the local pass, which goes on with the next file.  The
    status is 1 exactly when an exception is not caught: the working
    directory cannot be entered, [DropboxSetup] raises, or a pass
    raises. *)
Theorem exit_status_of_script host setup n m :
  let r := script host setup n m in
  (∀ m1, os_chdir host (rootdir host) m = (Done (), m1) →
     (init_dropbox setup m1).1 = Done false →
     exit_status r.1 = Some 0
     ∧ since m r.2 = [Print FailedToInitialize]
     ∧ state r.2 = state m ∧ disk r.2 = disk m1 ∧ dbx r.2 = dbx m)
  ∧ (∀ m1, os_chdir host (rootdir host) m = (Done (), m1) →
       (init_dropbox setup m1).1 = Done true → (passes n m1).1 = Done () →
       exit_status r.1 = Some 0)
  ∧ (exit_status r.1 = Some 1 ↔
       host_tree host (rootdir host) = None
       ∨ ∃ m1 e, os_chdir host (rootdir host) m = (Done (), m1)
           ∧ ((init_dropbox setup m1).1 = Raised e
              ∨ ((init_dropbox setup m1).1 = Done true ∧ (passes n m1).1 = Raised e)))
  ∧ (∀ (filelist : list string) file rest m0,
       file ∉ filelist → (files_delete ("/" +:+ file) (dbx m0)).1 = None →
       let body := λ file, if bool_decide (file ∉ filelist)
                           then delete_remote n file else ret () in
       for_each (file :: rest) body m0
       = for_each rest body
           (mkMachine (state m0) (disk m0) (pickled m0)
                      (files_delete ("/" +:+ file) (dbx m0)).2 (stdin m0)
                      (trace m0 ++ [Print (DeletingOnDropbox file);
                                    Request (Delete ("/" +:+ file));
                                    Print RemoteDeleteFailed]))).
Proof.
  cbv zeta. split_and!.
  - intros m1 Hcd Hinit. unfold script. rewrite (bind_Done _ _ _ _ _ Hcd).
    apply os_chdir_Done in Hcd as (fs & saved & _ & ->). unfold main, bind.
    destruct (init_dropbox_cases setup (mkMachine (state m) fs saved (dbx m) (stdin m)
                                                   (trace m))) as [E|[E|[e E]]];
      rewrite E in Hinit |- *; simplify_eq. simpl.
    unfold since. simpl. by rewrite drop_app_length.
  - intros m1 Hcd Hinit Hp. unfold script. rewrite (bind_Done _ _ _ _ _ Hcd).
    rewrite (main_passes _ _ _ Hinit). by destruct (passes n m1).1.
  - unfold script, bind at 1. unfold os_chdir at 1.
    destruct (host_tree host (rootdir host)) as [[fs saved]|] eqn:Et; simpl.
    + set (m1 := mkMachine (state m) fs saved (dbx m) (stdin m) (trace m)).
      assert (os_chdir host (rootdir host) m = (Done (), m1)) as Hcd
        by (unfold os_chdir; by rewrite Et).
      split.
      * intros Hs. right. exists m1. unfold main, bind in Hs.
        destruct (init_dropbox_cases setup m1) as [E|[E|[e E]]].
        -- rewrite E in Hs. change (exit_status (passes n m1).1 = Some 1) in Hs.
           destruct (passes n m1).1 as [[]|e|] eqn:Ep; simplify_eq.
           exists e. split; [done|]. right. by rewrite E.
        -- by rewrite E in Hs.
        -- exists e. split; [done|]. left. by rewrite E.
      * intros [|(m1' & e & Hcd' & H)]; [done|].
        rewrite Hcd in Hcd'. injection Hcd' as <-. destruct H as [H|[H Hp]].
        -- unfold main, bind. by destruct (init_dropbox setup m1) as [[b|e'|] m2].
        -- by rewrite (main_passes _ _ _ H), Hp.
    + split; [by left|done].
  - intros filelist file rest m0 Hout Hfail. cbv zeta. cbn [for_each]. unfold bind at 1.
    rewrite (bool_decide_eq_true_2 (file ∉ filelist)) by done.
    unfold delete_remote. run.
    destruct (files_delete ("/" +:+ file) (dbx m0)) as [[[]|] d]; [done|]. run.
    by rewrite <- !app_assoc.
Qed.

End Main.

(** no client; and a run in which the store refuses a delete *)
Lemma exit_status_of_script_witness :
  let m := boot DropboxState_init docs_disk new_store [] in
  let r := script docs_host no_client 1 m in
  (exit_status r.1 = Some 0
   ∧ since m r.2 = [Print FailedToInitialize]
   ∧ state r.2 = state m ∧ disk r.2 = docs_disk ∧ dbx r.2 = dbx m)
  ∧ (let r := script trimmed_host with_client 5 refusing_machine in
     exit_status r.1 = Some 0
     ∧ trace r.2 = [Request (ListFolder "" true); Print (DeletingOnDropbox "d/f");
                    Request (Delete "/d/f"); Print RemoteDeleteFailed;
                    Print SyncComplete]).
Proof.
  pose proof (exit_status_of_script docs_host no_client 1
                (boot DropboxState_init docs_disk new_store [])) as (H & _).
  split.
  - apply (H (boot DropboxState_init docs_disk new_store [])); vm_compute; reflexivity.
  - vm_compute. split; reflexivity.
Defined.

(** C9 as stated fails when no client can be constructed: the status
    is 0. *)
Lemma exit_status_as_stated_fails :
  let m := boot DropboxState_init docs_disk new_store [] in
  (init_dropbox no_client m).1 = Done false
  ∧ exit_status (script docs_host no_client 1 m).1 = Some 0
  ∧ ¬ exit_status_as_stated false 0.
Proof. repeat split. intros [_ H]. by apply H. Qed.

(** ** The remote pass before its listing is complete *)

Lemma isfile_nodes fs q :
  Os.isfile fs q = true ↔ q ≠ "." ∧ ∃ t n l, nodes fs !! q = Some (File t n l).
Proof.
  unfold Os.isfile, Os.node_at. destruct (decide (q = ".")) as [->|Hne].
  - rewrite bool_decide_eq_true_2 by done. split; [done|by intros [? _]].
  - rewrite bool_decide_eq_false_2 by done.
    destruct (nodes fs !! q) as [[t n l|t]|]; split;
      try done; try (by intros [_ (? & ? & ? & ?)]).
    intros _. split; [done|]. by exists t, n, l.
Qed.

Lemma exists_nodes fs q : q ≠ "." → Os.exists_ fs q = false → nodes fs !! q = None.
Proof.
  intros Hne. unfold Os.exists_, Os.node_at. rewrite bool_decide_eq_false_2 by done.
  by destruct (nodes fs !! q).
Qed.

Lemma mkdir_files_kept fs p fs' : Os.mkdir fs p = Some fs' → files_kept fs fs'.
Proof.
  unfold Os.mkdir. destruct (bool_decide (p = "") || Os.exists_ fs p) eqn:E; [done|].
  destruct (Os.isdir fs (Os.parent p)); [|done]. intros [= <-] q.
  apply orb_false_iff in E as [_ E].
  rewrite !isfile_nodes. simpl. intros [Hq (t & n & l & Hnode)]. split; [done|].
  exists t, n, l. rewrite lookup_insert_ne; [done|]. intros ->.
  by rewrite (exists_nodes _ _ Hq E) in Hnode.
Qed.

Global Instance files_kept_preorder : PreOrder files_kept.
Proof. split; [by intros fs p|]. intros f1 f2 f3 H1 H2 p Hp. by apply H2, H1. Qed.

Lemma makedirs_files_kept fs name fs' : Os.makedirs fs name = Some fs' → files_kept fs fs'.
Proof.
  unfold Os.makedirs. generalize (String.length name) as n. intros n.
  revert fs name fs'. induction n as [|n IH]; intros fs name fs'; simpl.
  - apply mkdir_files_kept.
  - destruct (Py.split name) as [h t].
    destruct (if bool_decide (t = "") then Py.split h else (h, t)) as [h' t'].
    destruct (bool_decide (h' ≠ "") && bool_decide (t' ≠ "") && negb (Os.exists_ fs h'));
      [|apply mkdir_files_kept].
    destruct (Os.makedirs_go n fs h') as [fs1|] eqn:E; [|done].
    apply IH in E. case_bool_decide.
    + by intros [= <-].
    + intros Hmk. etrans; [exact E|]. by eapply mkdir_files_kept.
Qed.

Lemma write_files_kept fs p size fs' : Os.write fs p size = Some fs' → files_kept fs fs'.
Proof.
  unfold Os.write. destruct (_ || _); [done|]. intros [= <-] q.
  rewrite !isfile_nodes. simpl. intros [Hq (t & n & l & Hnode)]. split; [done|].
  destruct (decide (p = q)) as [->|Hne].
  - rewrite lookup_insert_eq. eauto.
  - rewrite lookup_insert_ne by done. eauto.
Qed.

Section Kept.

Context {R : Type} `{!Client R}.
Implicit Types m : Machine R.

Global Instance kept_preorder P : PreOrder (@kept R P).
Proof.
  split.
  - intros m. repeat split; [done..|reflexivity].
  - intros m1 m2 m3 (L1 & R1 & F1 & T1) (L2 & R2 & F2 & T2).
    repeat split; [by intros; apply L2, L1|by intros; apply R2, R1| |by etrans].
    by etrans.
Qed.

Global Instance nothing_lost_preorder : PreOrder (@nothing_lost R).
Proof. unfold nothing_lost. apply _. Qed.

(** the transfers, for any [P] that admits the silent events *)
Context (P : event → Prop) (HP : ∀ e, silent e → P e).

Lemma keeps_unchanged {A} (Rel : Machine R → Machine R → Prop) `{!Reflexive Rel}
    (c : Prog (Machine R) A) :
  (∀ m, (c m).2 = m) → keeps Rel c.
Proof. intros Hc m. by rewrite Hc. Qed.

Lemma os_get_unchanged {A} (f : LocalFS → option A) m : (os_get f m).2 = m.
Proof. unfold os_get. by destruct (f (disk m)). Qed.

Lemma get_local_unchanged path m : (get_local path m).2 = m.
Proof. unfold get_local. by destruct (local_files (state m) !! path). Qed.

Lemma check_local_update_unchanged path m : (check_local_update path m).2 = m.
Proof.
  unfold check_local_update, bind, os_get, get_local.
  destruct (Os.getmtime (disk m) path); [|done]. simpl.
  by destruct (local_files (state m) !! path).
Qed.

Lemma kept_event m m' e :
  trace m' = trace m ++ [e] → state m' = state m → disk m' = disk m → P e →
  kept P m m'.
Proof.
  intros Ht Hs Hd He. unfold kept. rewrite Hs, Hd.
  repeat split; [done..|]. exists [e]. by repeat constructor.
Qed.

Lemma call_kept {A} r (f : R → option A * R) :
  quiet (Request r) → keeps (kept P) (call r f).
Proof.
  intros Hq. eapply keeps_weaken; [apply call_effect|].
  intros m m' (Ht & Hs & Hd & _). eapply kept_event; [done..|by apply HP].
Qed.

Lemma print_kept l : quiet (Print l) → keeps (kept P) (print (R:=R) l).
Proof.
  intros Hq. eapply keeps_weaken; [apply print_effect|].
  intros m m' (Ht & Hs & Hd & _). eapply kept_event; [done..|by apply HP].
Qed.

Lemma os_do_kept f :
  (∀ fs fs', f fs = Some fs' → files_kept fs fs') → keeps (kept P) (os_do (R:=R) f).
Proof.
  intros Hf. eapply keeps_weaken; [apply os_do_effect|].
  intros m m' (Ht & Hs & _ & _ & _ & Hd). unfold kept. rewrite Hs.
  repeat split; [done..| |exists []; by rewrite app_nil_r].
  destruct Hd as [->|Hd]; [done|by eapply Hf].
Qed.

Lemma record_meta_kept path result_rev :
  keeps (kept P)
        (mtime ← os_get (R:=R) (λ fs, Os.getmtime fs path);
         let meta := mkMeta result_rev mtime in
         set_local path meta;; set_remote path meta).
Proof.
  intros m. run. destruct (Os.getmtime (disk m) path); [|reflexivity]. run.
  repeat split; [| |done|exists []; by rewrite app_nil_r]; cbn; intros p Hp;
    (destruct (decide (path = p)) as [->|];
       [by rewrite lookup_insert_eq|by rewrite lookup_insert_ne]).
Qed.

Lemma upload_session_kept n total pos data close sid cur off :
  keeps (kept P) (upload_session (R:=R) n total pos data close sid cur off).
Proof.
  eapply keeps_weaken; [apply upload_session_step|].
  intros m m' (Ht & Hs & Hd). unfold kept. rewrite Hs, Hd.
  repeat split; [done..|]. eapply trace_grows_weaken; [|exact Ht].
  intros e (r & -> & Hr). apply HP. by destruct r.
Qed.

Lemma upload_kept path because : keeps (kept P) (upload (R:=R) path because).
Proof.
  unfold upload.
  apply keeps_bind; [apply _|by apply print_kept|intros _].
  apply keeps_bind; [apply _|apply keeps_unchanged; [apply _|apply os_get_unchanged]|intros size].
  apply keeps_bind; [apply _| |intros r; apply record_meta_kept].
  case_bool_decide.
  - apply keeps_bind; [apply _|apply keeps_unchanged; [apply _|apply os_get_unchanged]|intros total].
    apply keeps_bind; [apply _|apply upload_session_kept|intros [d c]].
    by apply call_kept.
  - apply keeps_bind; [apply _|apply keeps_unchanged; [apply _|apply os_get_unchanged]|intros total].
    by apply call_kept.
Qed.

Lemma download_remote_kept path because :
  keeps (kept P) (download_remote (R:=R) path because).
Proof.
  unfold download_remote.
  apply keeps_bind; [apply _|by apply print_kept|intros _].
  destruct (Py.split path) as [head tail].
  apply keeps_bind; [apply _|by apply keeps_unchanged; [apply _|]|intros missing].
  apply keeps_bind; [apply _| |intros _].
  { destruct (_ && _); [|apply keeps_ret; apply _].
    apply os_do_kept. intros fs fs'. apply makedirs_files_kept. }
  apply keeps_bind; [apply _|by apply call_kept|intros [r size]].
  apply keeps_bind; [apply _| |intros _; apply record_meta_kept].
  apply os_do_kept. intros fs fs'. apply write_files_kept.
Qed.

Lemma resolve_kept path side : keeps (kept P) (resolve (R:=R) path side).
Proof.
  unfold resolve.
  apply keeps_bind; [apply _| |intros _; apply keeps_ret; apply _].
  destruct side; [apply download_remote_kept|apply upload_kept].
Qed.

End Kept.

Section Listing.

Context {R : Type} `{!Client R}.
Implicit Types m : Machine R.

Lemma quiet_silent e : silent e → quiet e.
Proof. by intros [? _]. Qed.

Lemma reprompt_nothing_lost path responses :
  keeps nothing_lost (reprompt (R:=R) path responses).
Proof.
  intros m. unfold reprompt.
  destruct (reprompt_go responses (stdin m)) as [[k r] rest].
  assert (nothing_lost m (mkMachine (state m) (disk m) (pickled m) (dbx m) rest
                                    (trace m ++ replicate k (Prompt path)))) as Hm.
  { repeat split; [done..|]. eexists. split; [done|].
    apply Forall_forall. by intros e [-> _]%elem_of_replicate. }
  by destruct r.
Qed.

Lemma handle_conflict_nothing_lost path prefer_remote :
  keeps nothing_lost (handle_conflict (R:=R) path prefer_remote).
Proof.
  assert (∀ side, keeps nothing_lost (resolve (R:=R) path side)) as Hres.
  { intros side. apply resolve_kept, quiet_silent. }
  unfold handle_conflict. destruct prefer_remote as [side|]; [apply Hres|].
  apply keeps_bind; [apply _|apply reprompt_nothing_lost|intros answer].
  apply keeps_bind; [apply _|apply Hres|intros _].
  destruct (Py.endswith answer "a"); apply keeps_ret; apply _.
Qed.

Lemma process_remote_entry_nothing_lost entry prefer_remote current :
  keeps nothing_lost (process_remote_entry (R:=R) entry prefer_remote current).
Proof.
  destruct entry as [path_display rev|path_display|path_display]; simpl.
  - apply keeps_bind; [apply _|by apply keeps_unchanged; [apply _|]|intros tracked].
    apply keeps_bind; [apply _| |intros ?; apply keeps_ret; apply _].
    destruct tracked; simpl.
    + apply keeps_bind;
        [apply _|apply keeps_unchanged; [apply _|apply get_local_unchanged]|intros x].
      case_bool_decide; [|apply keeps_ret; apply _].
      apply keeps_bind;
        [apply _|apply keeps_unchanged; [apply _|apply check_local_update_unchanged]
        |intros changed].
      destruct changed; [apply handle_conflict_nothing_lost|].
      apply keeps_bind;
        [apply _|apply download_remote_kept, quiet_silent|intros _; apply keeps_ret; apply _].
    + apply keeps_bind;
        [apply _|apply download_remote_kept, quiet_silent|intros _; apply keeps_ret; apply _].
  - (* the folder branch: [make_local_dir] is entered only where nothing exists *)
    intros m. run.
    destruct (Os.exists_ (disk m) (Py.tail path_display)) eqn:Hex; run; [reflexivity|].
    unfold make_local_dir. run. rewrite Hex. run.
    destruct (Os.makedirs (disk m) (Py.tail path_display)) as [fs|] eqn:Hmk; run.
    + repeat split; [done..|by eapply makedirs_files_kept|].
      eexists. split; [done|]. by repeat constructor.
    + by eapply kept_event.
  - apply keeps_ret; apply _.
Qed.

Lemma process_remote_entries_nothing_lost entries current :
  keeps nothing_lost (process_remote_entries (R:=R) entries current).
Proof.
  unfold process_remote_entries. generalize (@None bool) as prefer_remote.
  revert current. induction entries as [|entry rest IH]; intros current prefer_remote; simpl.
  - apply keeps_ret; apply _.
  - apply keeps_bind; [apply _|apply process_remote_entry_nothing_lost|intros [p c]].
    apply IH.
Qed.

Lemma execute_delta_pages_nothing_lost n results current :
  keeps nothing_lost (execute_delta_pages (R:=R) n results current).
Proof.
  revert results current. induction n as [|n IH]; intros results current; simpl.
  - apply keeps_bind; [apply _|apply process_remote_entries_nothing_lost|intros c].
    destruct (has_more results); [apply keeps_spin|apply keeps_ret]; apply _.
  - apply keeps_bind; [apply _|apply process_remote_entries_nothing_lost|intros c].
    destruct (has_more results); simpl; [|apply keeps_ret; apply _].
    apply keeps_bind; [apply _|by apply call_kept; [apply quiet_silent|]|intros r]. apply IH.
Qed.

Lemma execute_delta_listing_nothing_lost n :
  keeps nothing_lost (execute_delta_listing (R:=R) n).
Proof.
  unfold execute_delta_listing.
  apply keeps_bind; [apply _|by apply call_kept; [apply quiet_silent|]|intros r].
  apply execute_delta_pages_nothing_lost.
Qed.

Lemma execute_delta_pages_drained n results current m current' m' :
  execute_delta_pages n results current m = (Done current', m') →
  drained results current m current' m'.
Proof.
  revert results current m. induction n as [|n IH]; intros results current m H; simpl in H.
  - apply bind_inv_Done in H as (cur1 & m1 & H1 & H).
    destruct (has_more results) eqn:Hm; simpl in H; [done|].
    injection H as <- <-. by apply drained_last.
  - apply bind_inv_Done in H as (cur1 & m1 & H1 & H).
    destruct (has_more results) eqn:Hm; simpl in H.
    + apply bind_inv_Done in H as (results' & m2 & H2 & H).
      eapply drained_more; [done..|]. by apply IH.
    + injection H as <- <-. by apply drained_last.
Qed.

(** C1.  Deletions come only after a listing that was drained.  Up to
    the end of the listing no entry has left either table, no local file
    has disappeared and no deletion has been announced or requested.  A
    listing that does not run to its last page (a call for a page
    raises, or anything else stops it) ends the pass there, as a
    failure.  A listing that returns has handled every page, fetched
    each further page by a continue call with the cursor of the page
    before, and stopped at a page after which the store has no more;
    only then does the loop over the tracked paths run. *)
Theorem no_deletion_from_partial_listing n m :
  let l := execute_delta_listing n m in
  let r := execute_delta n m in
  nothing_lost m l.2
  ∧ ((∀ current, l.1 ≠ Done current) →
       r.1 ≠ Done () ∧ r.2 = l.2 ∧ nothing_lost m r.2)
  ∧ (∀ current, l.1 = Done current →
       r = execute_delta_deletions current l.2
       ∧ ∃ results m1,
           call (ListFolder "" true) (files_list_folder "" true) m = (Done results, m1)
           ∧ drained results ∅ m1 current l.2).
Proof.
  cbv zeta. pose proof (execute_delta_listing_nothing_lost n m) as Hkept.
  split; [done|]. unfold execute_delta, bind.
  destruct (execute_delta_listing n m) as [[current|e|] m'] eqn:E; simpl in *.
  - split; [by intros Hp; destruct (Hp current)|]. intros ? [= <-]. split; [done|].
    unfold execute_delta_listing in E.
    apply bind_inv_Done in E as (results & m1 & H1 & E). exists results, m1.
    split; [done|]. by eapply execute_delta_pages_drained.
  - split; [done|]. by intros.
  - split; [done|]. by intros.
Qed.

(** a page that cannot be fetched is such a failure *)
Lemma continue_failure_stops_listing n results current m m1 current1 :
  process_remote_entries (entries results) current m = (Done current1, m1) →
  has_more results = true →
  (files_list_folder_continue (cursor results) (dbx m1)).1 = None →
  (execute_delta_pages (S n) results current m).1 = Raised ApiError.
Proof.
  intros Hpage Hmore Hfail. simpl. unfold bind. rewrite Hpage, Hmore. simpl.
  unfold call. by destruct (files_list_folder_continue _ _) as [[]?].
Qed.

End Listing.

(** the listing of [stale_machine] breaks at its second page: the file
    that the store no longer has stays tracked and on disk; and the
    listing that returns has been through both pages *)
Lemma no_deletion_from_partial_listing_witness :
  (let m := stale_machine [false; false; true] in
   let r := execute_delta 5 m in
   r.1 ≠ Done ()
   ∧ r.2 = (execute_delta_listing 5 m).2
   ∧ nothing_lost m r.2)
  ∧ (let m := stale_machine [] in
     let l := execute_delta_listing 5 m in
     execute_delta 5 m = execute_delta_deletions {["a.txt"; "b.txt"]} l.2
     ∧ ∃ results m1,
         call (ListFolder "" true) (files_list_folder "" true) m = (Done results, m1)
         ∧ drained results ∅ m1 {["a.txt"; "b.txt"]} l.2).
Proof.
  split.
  - apply (no_deletion_from_partial_listing 5 (stale_machine [false; false; true])).
    intros current. vm_compute. discriminate.
  - apply (no_deletion_from_partial_listing 5 (stale_machine [])).
    vm_compute. reflexivity.
Defined.

Example partial_listing_keeps_old_file :
  let r := execute_delta 5 (stale_machine [false; false; true]) in
  r.1 = Raised ApiError
  ∧ last (trace r.2) = Some (Request (ListFolderContinue "cursor-0"))
  ∧ is_Some (local_files (state r.2) !! "old.txt")
  ∧ Os.isfile (disk r.2) "old.txt" = true.
Proof. vm_compute. repeat split; by eexists. Qed.

(** with the whole listing in hand the same file is deleted *)
Example complete_listing_deletes_old_file :
  let r := execute_delta 5 (stale_machine []) in
  r.1 = Done ()
  ∧ local_files (state r.2) !! "old.txt" = None
  ∧ Os.isfile (disk r.2) "old.txt" = false
  ∧ Print (DeletingLocally "old.txt") ∈ trace r.2.
Proof. vm_compute. repeat split. set_solver. Qed.

(** ** Conflicts *)

Section Conflicts.

Context {R : Type} `{!Client R}.
Implicit Types m : Machine R.

(** a tracked file whose revision differs from the recorded one and
    whose local copy is newer than the recorded time goes to
    [handle_conflict], once, and nowhere else *)
Lemma conflict_reaches_resolver m path_display rev x mtime prefer_remote current :
  local_files (state m) !! Py.tail path_display = Some x →
  rev ≠ meta_rev x →
  Os.getmtime (disk m) (Py.tail path_display) = Some mtime →
  mtime > modified x →
  process_remote_entry (FileMetadata path_display rev) prefer_remote current m
  = (side ← handle_conflict (Py.tail path_display) prefer_remote;
     ret (side, {[Py.tail path_display]} ∪ current)) m.
Proof.
  intros Hx Hrev Hmtime Hnewer. unfold process_remote_entry, check_local_update. run.
  rewrite (bool_decide_eq_true_2 (is_Some _)) by by eexists. run.
  rewrite Hx. run. rewrite (bool_decide_eq_true_2 _ Hrev). run.
  rewrite Hmtime. run. rewrite Hx. run.
  by rewrite (bool_decide_eq_true_2 _ Hnewer).
Qed.

(** with a side in hand the resolver does not ask *)
Lemma handle_conflict_decided path side :
  keeps (trace_grows (λ e, is_prompt e = false))
        (handle_conflict (R:=R) path (Some side)).
Proof.
  eapply keeps_weaken; [apply (resolve_kept silent); auto|].
  intros m m' (_ & _ & _ & Ht). eapply trace_grows_weaken; [|exact Ht]. by intros e [_ ?].
Qed.

(** an answer that ends in "a" is handed to the rest of the page *)
Lemma handle_conflict_for_all path answer rest m :
  stdin m = answer :: rest → answer ∈ ["la"; "ra"] →
  ∀ side m', handle_conflict path None m = (Done side, m') →
  side = Some (Py.startswith answer "r").
Proof.
  intros Hin Hans side m' Hrun. unfold handle_conflict in Hrun.
  apply bind_inv_Done in Hrun as (answer' & m1 & Hask & Hrun).
  unfold reprompt in Hask. rewrite Hin in Hask. simpl in Hask.
  assert (answer ∈ ["l"; "r"; "la"; "ra"] ∧ Py.endswith answer "a" = true) as [Hok Hend].
  { apply elem_of_cons in Hans as [->|Hans]; [split; [|done]; repeat constructor|].
    apply elem_of_cons in Hans as [->|Hans]; [split; [|done]; repeat constructor|].
    by apply not_elem_of_nil in Hans. }
  rewrite (bool_decide_eq_true_2 _ Hok) in Hask. injection Hask as <- <-.
  apply bind_inv_Done in Hrun as (s & m2 & _ & Hrun).
  rewrite Hend in Hrun. by injection Hrun as <- <-.
Qed.

End Conflicts.

(** C3, where the code breaks it.  Two conflicted files on two pages,
    and the user answers "la" to the first: the second page starts with
    no preferred side again, so the second conflict is put to the user
    as well, whose answer "r" then goes the other way. *)
Theorem preferred_side_forgotten_on_next_page :
  let m := conflict_machine 0 ["la"; "r"] in
  let r := execute_delta 5 m in
  r.1 = Done ()
  ∧ filter (λ e, is_prompt e = true) (since m r.2) = [Prompt "a.txt"; Prompt "b.txt"]
  ∧ requests (since m r.2)
    = [ListFolder "" true;
       Upload (mkBytes 0 5) "/a.txt" overwrite true;
       ListFolderContinue "cursor-0";
       DownloadToFile "b.txt" "/b.txt"].
Proof. vm_compute. done. Qed.

(** on one page the same answer settles both *)
Example preferred_side_kept_within_page :
  let m := conflict_machine 1 ["la"; "r"] in
  let r := execute_delta 5 m in
  r.1 = Done ()
  ∧ filter (λ e, is_prompt e = true) (since m r.2) = [Prompt "a.txt"]
  ∧ requests (since m r.2)
    = [ListFolder "" true;
       Upload (mkBytes 0 5) "/a.txt" overwrite true;
       Upload (mkBytes 0 7) "/b.txt" overwrite true].
Proof. vm_compute. done. Qed.

(** ** Transfers that fail *)

Section Failures.

Context {R : Type} `{!Client R}.
Implicit Types m : Machine R.

Global Instance state_kept_preorder : PreOrder (@state_kept R).
Proof. split; [done|]. intros m1 m2 m3. unfold state_kept. congruence. Qed.

Lemma record_meta_outcome path result_rev m :
  let r := (mtime ← os_get (R:=R) (λ fs, Os.getmtime fs path);
            let meta := mkMeta result_rev mtime in
            set_local path meta;; set_remote path meta) m in
  (r.1 = Done () ∧ ∃ x, state r.2 = mkDropboxState (<[path := x]> (local_files (state m)))
                                                   (<[path := x]> (remote_files (state m))))
  ∨ ((∀ u, r.1 ≠ Done u) ∧ state r.2 = state m).
Proof.
  run. destruct (Os.getmtime (disk m) path) as [mtime|]; run; [left; eauto|by right].
Qed.

Lemma call_state_kept {A} r (f : R → option A * R) : keeps state_kept (call r f).
Proof. eapply keeps_weaken; [apply call_effect|]. by intros ?? (_ & ? & _). Qed.

(** a computation that keeps the state, followed by the recording of
    the result *)
Lemma transfer_outcome (send : Prog (Machine R) string) path m :
  keeps state_kept send →
  let r := (result_rev ← send;
            mtime ← os_get (R:=R) (λ fs, Os.getmtime fs path);
            let meta := mkMeta result_rev mtime in
            set_local path meta;; set_remote path meta) m in
  (r.1 = Done () ∧ ∃ x, state r.2 = mkDropboxState (<[path := x]> (local_files (state m)))
                                                   (<[path := x]> (remote_files (state m))))
  ∨ ((∀ u, r.1 ≠ Done u) ∧ state r.2 = state m).
Proof.
  intros Hsend. cbv zeta. specialize (Hsend m). unfold state_kept in Hsend.
  destruct (send m) as [[rev|e|] m1] eqn:E; cbn [fst snd] in *.
  - rewrite (bind_Done _ _ _ _ _ E), <- Hsend.
    apply (record_meta_outcome path rev m1).
  - rewrite (bind_Raised _ _ _ _ _ E). by right.
  - rewrite (bind_Spinning _ _ _ _ E). by right.
Qed.

(** an upload either records its result in both tables or leaves both
    as they were *)
Lemma upload_outcome path because m :
  let r := upload path because m in
  (r.1 = Done () ∧ ∃ x, state r.2 = mkDropboxState (<[path := x]> (local_files (state m)))
                                                   (<[path := x]> (remote_files (state m))))
  ∨ ((∀ u, r.1 ≠ Done u) ∧ state r.2 = state m).
Proof.
  cbv zeta. unfold upload.
  set (m1 := mkMachine (state m) (disk m) (pickled m) (dbx m) (stdin m)
                       (trace m ++ [Print (Uploading path because)])).
  assert (print (Uploading path because) m = (Done (), m1)) as Hp by done.
  rewrite (bind_Done _ _ _ _ _ Hp).
  destruct (os_get (λ fs, Os.getsize fs path) m1) as [[size|e|] m2] eqn:Hg.
  - rewrite (bind_Done _ _ _ _ _ Hg).
    apply os_get_Done in Hg as [_ ->]. change (state m) with (state m1).
    apply transfer_outcome.
    assert (keeps state_kept (os_get (R:=R) (λ fs, Os.open_rb fs path))) as Ho.
    { apply keeps_unchanged; [apply _|apply os_get_unchanged]. }
    case_bool_decide.
    + apply keeps_bind; [apply _|by apply Ho|intros total].
      apply keeps_bind; [apply _| |intros [d c]; apply call_state_kept].
      eapply keeps_weaken; [apply upload_session_step|]. by intros ?? (_ & ? & _).
    + apply keeps_bind; [apply _|by apply Ho|intros total]. apply call_state_kept.
  - rewrite (bind_Raised _ _ _ _ _ Hg). right. split; [done|].
    by apply os_get_inv in Hg as [-> _].
  - by apply os_get_inv in Hg as [_ [(? & _ & ?)|[_ ?]]].
Qed.

(** and so does a download *)
Lemma download_remote_outcome path because m :
  let r := download_remote path because m in
  (r.1 = Done () ∧ ∃ x, state r.2 = mkDropboxState (<[path := x]> (local_files (state m)))
                                                   (<[path := x]> (remote_files (state m))))
  ∨ ((∀ u, r.1 ≠ Done u) ∧ state r.2 = state m).
Proof.
  cbv zeta. unfold download_remote. destruct (Py.split path) as [head tail]. run.
  destruct (bool_decide (head ≠ "")); run;
    [destruct (Os.exists_ (disk m) head); run;
       [|destruct (Os.makedirs (disk m) head); run; [|by right]]|];
    (destruct (files_download (Py.join "/" path) (dbx m)) as [[[rev size]|] d]; run;
       [|by right]);
    (match goal with |- context [Os.write ?fs path size] =>
       destruct (Os.write fs path size) as [fs'|]; run; [|by right] end);
    (destruct (Os.getmtime fs' path); run; [left; eauto|by right]).
Qed.

(** X5.  A remote delete that the store refuses is skipped: the failure
    is printed, nothing else is requested, the tables and the tree stay
    as they are, and the method returns. *)
Lemma delete_remote_refused n path m :
  (files_delete ("/" +:+ path) (dbx m)).1 = None →
  let r := delete_remote n path m in
  r.1 = Done () ∧ state r.2 = state m ∧ disk r.2 = disk m
  ∧ since m r.2 = [Print (DeletingOnDropbox path); Request (Delete ("/" +:+ path));
                   Print RemoteDeleteFailed].
Proof.
  intros Hfail. cbv zeta. unfold delete_remote. run.
  destruct (files_delete ("/" +:+ path) (dbx m)) as [[[]|] d]; [done|]. run.
  repeat split. unfold since. cbn. rewrite <- !app_assoc. by rewrite drop_app_length.
Qed.

(** C4, where the code breaks it.  The loop over the local files has no
    handler: when the upload of the first candidate raises, [check_local]
    ends there with the same exception, the tables as they were, and
    the remaining candidates are not looked at. *)
Theorem failed_upload_aborts_local_pass n m path rest e m' :
  check_local_walk (Os.walk (disk m)) [] ∅ = path :: rest →
  check_state path m = (Raised e, m') →
  check_local n m = (Raised e, m') ∧ state m' = state m.
Proof.
  intros Hwalk Hfirst. split.
  - unfold check_local. unfold bind at 1, os_read at 1. cbn [fst snd]. rewrite Hwalk.
    apply bind_Raised. cbn [for_each]. by apply bind_Raised.
  - unfold check_state in Hfirst. unfold bind at 1, in_remote at 1 in Hfirst.
    destruct (negb _).
    + pose proof (upload_outcome path "-- Not Found Remotely" m) as Ho.
      rewrite Hfirst in Ho. by destruct Ho as [[? _]|[_ ?]].
    + pose proof (check_local_update_unchanged path m) as Hu.
      apply bind_inv in Hfirst as [(changed & m1 & Hc & Hrun)|[(e' & Hc & _)|[Hc ?]]];
        [|by rewrite Hc in Hu; subst|done].
      rewrite Hc in Hu. cbn in Hu. subst m1. destruct changed; [|done].
      pose proof (upload_outcome path "-- Local File Changed" m) as Ho.
      rewrite Hrun in Ho. by destruct Ho as [[? _]|[_ ?]].
Qed.

End Failures.

Lemma failed_upload_aborts_local_pass_witness :
  let m := fresh_machine [true] in
  let m' := (check_state "a.txt" m).2 in
  check_local 5 m = (Raised ApiError, m') ∧ state m' = state m.
Proof.
  apply (failed_upload_aborts_local_pass 5 (fresh_machine [true]) "a.txt" ["b.txt"]).
  - vm_compute. reflexivity.
  - vm_compute. reflexivity.
Defined.

(** the second file is never offered to the store *)
Example failed_upload_leaves_rest_alone :
  let m := fresh_machine [true] in
  requests (since m (check_local 5 m).2) = [Upload (mkBytes 0 5) "/a.txt" overwrite true]
  ∧ exit_status (check_local 5 m).1 = Some 1.
Proof. vm_compute. done. Qed.

(** a download that fails ends the remote pass the same way *)
Example failed_download_aborts_remote_pass :
  let m := boot DropboxState_init (mkLocalFS ∅ 0 1) (two_page_store [false; true]) [] in
  let r := execute_delta 5 m in
  r.1 = Raised ApiError ∧ state r.2 = state m
  ∧ requests (since m r.2) = [ListFolder "" true; DownloadToFile "a.txt" "/a.txt"].
Proof. vm_compute. done. Qed.

(** ** Paths *)

Lemma app_cons c s1 s2 : String c s1 +:+ s2 = String c (s1 +:+ s2).
Proof. reflexivity. Qed.

Lemma app_nil_l s : "" +:+ s = s.
Proof. reflexivity. Qed.

Ltac sapp := rewrite ?app_cons, ?app_nil_l in *; simpl in *.

Section Paths.

Implicit Types s p d name pre : string.

Lemma append_assoc s1 s2 s3 : (s1 +:+ s2) +:+ s3 = s1 +:+ (s2 +:+ s3).
Proof. induction s1 as [|c s1 IH]; sapp; [done|]. by f_equal. Qed.

Lemma append_nil_r s : s +:+ "" = s.
Proof. induction s as [|c s IH]; sapp; [done|]. by f_equal. Qed.

Lemma append_length s1 s2 :
  String.length (s1 +:+ s2) = (String.length s1 + String.length s2)%nat.
Proof. induction s1 as [|c s1 IH]; sapp; [done|]. by f_equal. Qed.

Lemma append_inv_head pre s1 s2 : pre +:+ s1 = pre +:+ s2 → s1 = s2.
Proof. induction pre as [|c pre IH]; sapp; [done|]. intros [= H]. auto. Qed.

Lemma cut_slash_free s : slash_free s = true → Py.cut s = ("", s).
Proof.
  induction s as [|c s IH]; simpl; [done|].
  intros [Hc Hs]%andb_prop. rewrite (IH Hs).
  apply negb_true_iff in Hc. by rewrite Hc.
Qed.

Lemma cut_app pre name :
  slash_free name = true → Py.cut (pre +:+ "/" +:+ name) = (pre +:+ "/", name).
Proof.
  intros Hn. induction pre as [|c pre IH]; sapp.
  - rewrite (cut_slash_free _ Hn). done.
  - rewrite IH. destruct pre; sapp; done.
Qed.

Lemma rstrip_app_slash s : Py.rstrip (s +:+ "/") = Py.rstrip s.
Proof. induction s as [|c s IH]; sapp; [done|]. by rewrite IH. Qed.

Lemma rstrip_slash_free s : slash_free s = true → Py.rstrip s = s.
Proof.
  induction s as [|c s IH]; simpl; [done|].
  intros [Hc Hs]%andb_prop. rewrite (IH Hs).
  apply negb_true_iff in Hc. rewrite Hc. by destruct s.
Qed.

Lemma rstrip_clean pre name :
  slash_free name = true → name ≠ "" → Py.rstrip (pre +:+ name) = pre +:+ name.
Proof.
  intros Hn Hne. induction pre as [|c pre IH]; sapp.
  - by apply rstrip_slash_free.
  - rewrite IH. destruct (pre +:+ name) eqn:E; [|done].
    destruct pre; sapp; [done|discriminate].
Qed.

Lemma all_slashes_clean pre name :
  slash_free name = true → name ≠ "" → Py.all_slashes (pre +:+ name) = false.
Proof.
  intros Hn Hne. induction pre as [|c pre IH]; sapp.
  - destruct name as [|c r]; [done|]. simpl in *.
    apply andb_prop in Hn as [Hc _]. apply negb_true_iff in Hc. by rewrite Hc.
  - rewrite IH. apply andb_false_r.
Qed.

Lemma all_slashes_app s1 s2 :
  Py.all_slashes (s1 +:+ s2) = Py.all_slashes s1 && Py.all_slashes s2.
Proof. induction s1 as [|c s1 IH]; sapp; [done|]. rewrite IH. by rewrite andb_assoc. Qed.

Lemma split_clean d name :
  clean d → slash_free name = true → Py.split (d +:+ "/" +:+ name) = (d, name).
Proof.
  intros (pre & n & -> & Hn & Hne) Hname. unfold Py.split.
  rewrite (cut_app _ _ Hname).
  rewrite all_slashes_app, (all_slashes_clean _ _ Hn Hne). simpl.
  by rewrite rstrip_app_slash, (rstrip_clean _ _ Hn Hne).
Qed.

Lemma split_slash_free name : slash_free name = true → Py.split name = ("", name).
Proof. intros Hn. unfold Py.split. by rewrite (cut_slash_free _ Hn). Qed.

Lemma split_root name : slash_free name = true → Py.split ("/" +:+ name) = ("/", name).
Proof.
  intros Hn. unfold Py.split. change ("/" +:+ name) with ("" +:+ "/" +:+ name).
  by rewrite (cut_app "" _ Hn).
Qed.

Lemma rev_app_app s1 s2 acc :
  String.rev_app (s1 +:+ s2) acc = String.rev_app s2 (String.rev_app s1 acc).
Proof. revert acc. induction s1 as [|c s1 IH]; intros acc; sapp; [done|]. by rewrite IH. Qed.

Lemma snoc_inv s : s ≠ "" → ∃ s' c, s = s' +:+ String c "".
Proof.
  induction s as [|c s IH]; [done|]. intros _.
  destruct s as [|c' s'].
  - by exists "", c.
  - destruct IH as (s0 & c0 & E); [done|]. exists (String c s0), c0. sapp. by rewrite <- E.
Qed.

Lemma slash_free_app s1 s2 :
  slash_free (s1 +:+ s2) = slash_free s1 && slash_free s2.
Proof. induction s1 as [|c s1 IH]; sapp; [done|]. rewrite IH. by rewrite andb_assoc. Qed.

Lemma prefix_slash c r : c ≠ "/"%char → String.prefix "/" (String c r) = false.
Proof.
  intros Hc.
  change (String.prefix "/" (String c r))
    with (if Ascii.ascii_dec "/" c then String.prefix "" r else false).
  destruct (Ascii.ascii_dec "/" c) as [E|E]; [by subst|done].
Qed.

Lemma not_slash c : negb (Py.is_slash c) = true → c ≠ "/"%char.
Proof. intros Hc%negb_true_iff. by apply bool_decide_eq_false in Hc. Qed.

Lemma endswith_slash_clean s : clean s → Py.endswith s "/" = false.
Proof.
  intros (pre & name & -> & Hn & Hne).
  destruct (snoc_inv name Hne) as (n' & c & ->).
  rewrite slash_free_app in Hn. apply andb_prop in Hn as [_ Hc]. simpl in Hc.
  rewrite andb_true_r in Hc. apply not_slash in Hc.
  unfold Py.endswith, String.rev. rewrite <- append_assoc, rev_app_app.
  change (String.rev_app "/" "") with "/".
  change (String.rev_app (String c "") ?a) with (String c a).
  by apply prefix_slash.
Qed.

Lemma startswith_slash_free name :
  slash_free name = true → Py.startswith name "/" = false.
Proof.
  destruct name as [|c r]; [done|]. simpl. intros [Hc%not_slash _]%andb_prop.
  by apply prefix_slash.
Qed.

Lemma wf_name_clean name : wf_name name → clean name.
Proof. intros (Hne & _ & Hs). by exists "", name. Qed.

Lemma wf_path_clean p : wf_path p → clean p.
Proof.
  intros [name Hn|d name Hd (Hne & _ & Hs)]; [by apply wf_name_clean|].
  exists (d +:+ "/"), name. by rewrite append_assoc.
Qed.

Lemma clean_cons c s : clean s → clean (String c s).
Proof. intros (pre & name & -> & H). by exists (String c pre), name. Qed.

Lemma clean_app s1 s2 : clean s2 → clean (s1 +:+ s2).
Proof.
  intros (pre & name & -> & H). exists (s1 +:+ pre), name. by rewrite append_assoc.
Qed.

Lemma clean_ne s : clean s → s ≠ "".
Proof. intros (pre & name & -> & _ & Hne). destruct pre; sapp; done. Qed.

Lemma wf_path_head p : wf_path p → ∃ c r, p = String c r ∧ c ≠ "/"%char.
Proof.
  induction 1 as [name (Hne & _ & Hs)|d name Hd IH Hn].
  - destruct name as [|c r]; [done|]. simpl in Hs.
    apply andb_prop in Hs as [Hc%not_slash _]. eauto.
  - destruct IH as (c & r & -> & Hc). sapp. eauto.
Qed.

Lemma wf_path_ne p : wf_path p → p ≠ "".
Proof. intros (c & r & -> & _)%wf_path_head. done. Qed.

Lemma wf_path_not_dot p : wf_path p → p ≠ ".".
Proof.
  intros [name (_ & Hd & _)|d name Hd Hn]; [done|].
  apply wf_path_head in Hd as (c & r & -> & _). sapp. destruct r; sapp; done.
Qed.

Lemma startswith_wf p : wf_path p → Py.startswith p "/" = false.
Proof. intros (c & r & -> & Hc)%wf_path_head. by apply prefix_slash. Qed.

Lemma split_name name : wf_name name → Py.split name = ("", name).
Proof. intros (_ & _ & Hs). by apply split_slash_free. Qed.

Lemma split_sub d name :
  wf_path d → wf_name name → Py.split (d +:+ "/" +:+ name) = (d, name).
Proof. intros Hd (_ & _ & Hs). apply split_clean; [by apply wf_path_clean|done]. Qed.

Lemma parent_name name : wf_name name → Os.parent name = ".".
Proof. intros Hn. unfold Os.parent, Py.dirname. by rewrite (split_name _ Hn). Qed.

Lemma parent_sub d name :
  wf_path d → wf_name name → Os.parent (d +:+ "/" +:+ name) = d.
Proof.
  intros Hd Hn. unfold Os.parent, Py.dirname. rewrite (split_sub _ _ Hd Hn). simpl.
  rewrite bool_decide_eq_false_2; [done|by apply wf_path_ne].
Qed.

Lemma basename_name name : wf_name name → Py.basename name = name.
Proof. intros Hn. unfold Py.basename. by rewrite (split_name _ Hn). Qed.

Lemma basename_sub d name :
  wf_path d → wf_name name → Py.basename (d +:+ "/" +:+ name) = name.
Proof. intros Hd Hn. unfold Py.basename. by rewrite (split_sub _ _ Hd Hn). Qed.

(** the entry [name] of the directory with key [k] *)
Lemma wf_path_inv p :
  wf_path p →
  wf_name (Py.basename p) ∧
  ((Os.parent p = "." ∧ p = Py.basename p ∧ Py.dirname p = "") ∨
   (wf_path (Os.parent p) ∧ p = Os.parent p +:+ "/" +:+ Py.basename p
    ∧ Py.dirname p = Os.parent p)).
Proof.
  intros [name Hn|d name Hd Hn].
  - rewrite (parent_name _ Hn), (basename_name _ Hn). split; [done|left].
    unfold Py.dirname. by rewrite (split_name _ Hn).
  - rewrite (parent_sub _ _ Hd Hn), (basename_sub _ _ Hd Hn). split; [done|right].
    unfold Py.dirname. by rewrite (split_sub _ _ Hd Hn).
Qed.

Lemma join_sub d name : clean d → wf_name name → Py.join d name = d +:+ "/" +:+ name.
Proof.
  intros Hd (_ & _ & Hs). unfold Py.join.
  rewrite (startswith_slash_free _ Hs), (endswith_slash_clean _ Hd).
  rewrite bool_decide_eq_false_2; [done|by apply clean_ne].
Qed.

Lemma join_root_wf p : wf_path p → Py.join "/" p = "/" +:+ p.
Proof. intros Hp. unfold Py.join. by rewrite (startswith_wf _ Hp). Qed.

Lemma clean_dot : clean ".".
Proof. by exists "", ".". Qed.

Lemma join_top k name :
  k = "." ∨ wf_path k → wf_name name →
  Py.join (top_of k) name = top_of (if bool_decide (k = ".") then name
                                    else k +:+ "/" +:+ name).
Proof.
  intros Hk Hn. unfold top_of at 1. case_bool_decide as Ek.
  - rewrite (join_sub _ _ clean_dot Hn). unfold top_of.
    rewrite bool_decide_eq_false_2; [done|]. by destruct Hn as (_ & ? & _).
  - destruct Hk as [|Hk]; [done|].
    rewrite join_sub; [|by apply (clean_app "./"), wf_path_clean|done].
    unfold top_of. rewrite bool_decide_eq_false_2; [|by apply wf_path_not_dot, wf_path_sub].
    by rewrite append_assoc.
Qed.

Lemma top_of_tail k : k ≠ "." → Py.tail (Py.tail (top_of k)) = k.
Proof. intros Hk. unfold top_of. by rewrite bool_decide_eq_false_2. Qed.

Lemma top_of_inj k1 k2 : top_of k1 = top_of k2 → k1 = k2.
Proof.
  unfold top_of. repeat case_bool_decide; subst; try done.
  intros E. by apply append_inv_head in E.
Qed.

Lemma measure_parent p : wf_path p → (measure (Os.parent p) < measure p)%nat.
Proof.
  intros Hp. destruct (wf_path_inv p Hp) as (Hn & [(E & _)|(Hd & E & _)]).
  - rewrite E. unfold measure at 1. simpl. unfold measure.
    rewrite bool_decide_eq_false_2; [|by apply wf_path_not_dot].
    apply wf_path_head in Hp as (c & r & -> & _). simpl. lia.
  - unfold measure. rewrite (bool_decide_eq_false_2 (p = ".")); [|by apply wf_path_not_dot].
    rewrite (bool_decide_eq_false_2 (Os.parent p = ".")); [|by apply wf_path_not_dot].
    rewrite E at 2. rewrite !append_length. simpl. lia.
Qed.

Lemma dirname_root_name name : wf_name name → Py.dirname ("/" +:+ name) = "/".
Proof. intros (_ & _ & Hs). unfold Py.dirname. by rewrite (split_root _ Hs). Qed.

Lemma dirname_root_sub d name :
  wf_path d → wf_name name → Py.dirname ("/" +:+ d +:+ "/" +:+ name) = "/" +:+ d.
Proof.
  intros Hd (_ & _ & Hs). unfold Py.dirname.
  rewrite <- (append_assoc "/" d), split_clean; [done| |done].
  by apply (clean_app "/"), wf_path_clean.
Qed.

(** a key that starts with the key of a folder and a separator lies
    below it *)
Lemma prefix_app s1 s2 : String.prefix s1 s2 = true → ∃ r, s2 = s1 +:+ r.
Proof.
  revert s2. induction s1 as [|c s1 IH]; intros s2; [by exists s2|].
  destruct s2 as [|c' s2]; [done|].
  change (String.prefix (String c s1) (String c' s2))
    with (if Ascii.ascii_dec c c' then String.prefix s1 s2 else false).
  destruct (Ascii.ascii_dec c c') as [->|]; [|done].
  intros (r & ->)%IH. by exists r.
Qed.

Lemma last_name s : ∃ pre name, s = pre +:+ name ∧ slash_free name = true
  ∧ (pre = "" ∨ ∃ pre', pre = pre' +:+ "/").
Proof.
  induction s as [|c s (pre & name & -> & Hn & Hpre)].
  - exists "", "". by split_and!; [|  |left].
  - destruct pre as [|c' pre'].
    + destruct (Py.is_slash c) eqn:Ec.
      * apply bool_decide_eq_true in Ec. subst c. exists "/", name.
        split_and!; [done|done|right]. by exists "".
      * exists "", (String c name). split_and!; [done| |by left].
        simpl. by rewrite Ec.
    + exists (String c (String c' pre')), name. split_and!; [done|done|right].
      destruct Hpre as [?|[pre'' E]]; [done|]. exists (String c pre''). by rewrite E.
Qed.

Lemma append_inv_tail a b r : a +:+ r = b +:+ r → a = b.
Proof.
  revert b. induction a as [|c a IH]; intros [|c' b] E; sapp.
  - done.
  - apply (f_equal String.length) in E. simpl in E. rewrite append_length in E. lia.
  - apply (f_equal String.length) in E. simpl in E. rewrite append_length in E. lia.
  - injection E as -> E. f_equal. by apply IH.
Qed.

Lemma app_slash_inj a n b m :
  slash_free n = true → slash_free m = true →
  a +:+ "/" +:+ n = b +:+ "/" +:+ m → a = b ∧ n = m.
Proof.
  intros Hn Hm E. pose proof (cut_app a n Hn) as E1. rewrite E, (cut_app b m Hm) in E1.
  injection E1 as E1 E2. split; [|done]. by apply append_inv_tail in E1.
Qed.

Lemma startswith_root p : Py.startswith ("/" +:+ p) "/" = true.
Proof.
  unfold Py.startswith.
  change (String.prefix "/" ("/" +:+ p))
    with (if Ascii.ascii_dec "/" "/" then String.prefix "" p else false).
  destruct (Ascii.ascii_dec "/" "/"); [by destruct p|done].
Qed.

Lemma slash_free_no_slash a r : slash_free (a +:+ "/" +:+ r) = false.
Proof.
  rewrite slash_free_app. change ("/" +:+ r) with (String "/" r). simpl.
  apply andb_false_r.
Qed.

End Paths.

(** ** The tree [os.walk] walks, and what [check_local] lists *)

Section Below.

Implicit Types k j a b c d p : string.

Lemma below_measure k j : below k j → k = j ∨ (measure k < measure j)%nat.
Proof.
  induction 1 as [|j Hj _ IH]; [by left|right].
  pose proof (measure_parent j Hj). destruct IH as [->|]; lia.
Qed.

Lemma below_antisym k j : below k j → below j k → j = k.
Proof.
  intros H1 H2. apply below_measure in H1, H2.
  destruct H1 as [H1|H1]; [done|]. destruct H2 as [H2|H2]; [done|lia].
Qed.

Lemma below_trans a b c : below a b → below b c → below a c.
Proof. intros Hab. induction 1; [done|]. by apply below_step. Qed.

Lemma below_chain a b d : below a d → below b d → below a b ∨ below b a.
Proof.
  induction 1 as [|j Hj Ha IH]; [by right|].
  inversion 1 as [|? ? Hb]; subst.
  - left. by apply below_step.
  - by apply IH.
Qed.

Lemma below_child k d :
  below k d → d ≠ k → ∃ c, wf_path c ∧ Os.parent c = k ∧ below c d.
Proof.
  induction 1 as [|j Hj Hk IH]; [done|]. intros _.
  destruct (decide (Os.parent j = k)) as [E|E].
  - exists j. split_and!; [done|done|constructor].
  - destruct (IH E) as (c & Hc & Hp & Hb). exists c. split_and!; [done|done|].
    by apply below_step.
Qed.

Lemma below_parent k j : wf_path j → below (Os.parent j) j.
Proof. intros Hj. apply below_step; [done|constructor]. Qed.

Lemma below_siblings k c1 c2 :
  wf_path c1 → wf_path c2 → Os.parent c1 = k → Os.parent c2 = k →
  below c1 c2 → c1 = c2.
Proof.
  intros H1 H2 <- E2. inversion 1 as [|? ? Hb]; [done|]. subst.
  rewrite E2 in Hb.
  pose proof (below_antisym _ _ Hb (below_parent c1 c1 H1)) as E.
  pose proof (measure_parent c1 H1). rewrite E in *. lia.
Qed.

Lemma below_dot j : wf_path j ∨ j = "." → below "." j.
Proof.
  remember (measure j) as n eqn:En. revert j En.
  induction n as [n IH] using lt_wf_ind. intros j -> [Hj| ->]; [|constructor].
  apply below_step; [done|].
  destruct (wf_path_inv j Hj) as (_ & [(E & _)|(Hd & _)]).
  - rewrite E. constructor.
  - eapply IH; [|done|by left]. by apply measure_parent.
Qed.

Lemma below_dot_inv d : below d "." → d = ".".
Proof. inversion 1 as [|? Hw]; [done|]. by apply wf_path_not_dot in Hw. Qed.

(** a path that continues [d] behind a separator lies below [d] *)
Lemma sub_below p : wf_path p → ∀ d r, p = d +:+ "/" +:+ r → below d p ∧ p ≠ d.
Proof.
  induction 1 as [name (_ & _ & Hs)|d0 n0 Hd0 IH Hn0]; intros d r E.
  - rewrite E in Hs. by rewrite slash_free_no_slash in Hs.
  - assert (d0 +:+ "/" +:+ n0 ≠ d) as Hne.
    { intros E'. rewrite E' in E. apply (f_equal String.length) in E.
      rewrite !append_length in E. simpl in E. lia. }
    split; [|done].
    destruct (last_name r) as (pre & name & -> & Hname & [->|[pre' ->]]).
    + rewrite app_nil_l in E. destruct Hn0 as (? & ? & Hs0).
      apply app_slash_inj in E as [<- <-]; [|done..].
      rewrite <- (parent_sub d0 n0) at 1; [|done|by split_and!].
      apply below_parent; [done|]. apply wf_path_sub; [done|by split_and!].
    + destruct Hn0 as (? & ? & Hs0).
      assert (d +:+ "/" +:+ (pre' +:+ "/") +:+ name
              = (d +:+ "/" +:+ pre') +:+ "/" +:+ name) as E' by (by rewrite !append_assoc).
      rewrite E' in E.
      apply app_slash_inj in E as [E <-]; [|done..].
      destruct (IH _ _ E) as [Hb _].
      apply below_step; [apply wf_path_sub; [done|by split_and!]|].
      rewrite parent_sub; [done|done|by split_and!].
Qed.

End Below.

Lemma union_shuffle (a inv l inv' : gset string) :
  a ∪ inv ∪ l ∪ inv' = inv ∪ (a ∪ l ∪ inv').
Proof. apply set_eq. intros x. rewrite !elem_of_union. tauto. Qed.

Section Tree.

Context (fs : LocalFS) (Hwf : wf_fs fs).

Implicit Types k j a b c d p : string.

Lemma isdir_spec k : Os.isdir fs k = true ↔ is_dir fs k.
Proof.
  unfold Os.isdir, Os.node_at, is_dir. case_bool_decide as E.
  - split; [by left|done].
  - destruct (nodes fs !! k) as [[]|]; split; try done.
    + intros [?|[? ?]]; done.
    + intros _. right. eauto.
    + intros [?|[? ?]]; done.
Qed.

Lemma node_wf k x : nodes fs !! k = Some x → wf_path k.
Proof. intros H. by apply (Hwf k x). Qed.

Lemma node_parent k x : nodes fs !! k = Some x → is_dir fs (Os.parent k).
Proof. intros H. apply isdir_spec. by apply (Hwf k x). Qed.

Lemma is_dir_wf k : is_dir fs k → k = "." ∨ wf_path k.
Proof. intros [?|[t H]]; [by left|right]. by eapply node_wf. Qed.

Lemma below_is_dir c d : is_dir fs d → below c d → is_dir fs c.
Proof.
  intros Hd Hb. induction Hb as [|j Hj Hb IH]; [done|].
  apply IH. destruct Hd as [->|[t Ht]].
  - by apply wf_path_not_dot in Hj.
  - by eapply node_parent.
Qed.

Lemma node_at_key k : k ≠ "." → Os.node_at fs k = nodes fs !! k.
Proof. intros. unfold Os.node_at. by rewrite bool_decide_eq_false_2. Qed.

Lemma inside_spec k j x :
  (j, x) ∈ Os.inside fs k ↔ nodes fs !! j = Some x ∧ Os.parent j = k.
Proof.
  unfold Os.inside. rewrite list_elem_of_filter, elem_of_map_to_list. simpl.
  split; [by intros [[? ?] ?]|]. intros [H E]. split_and!; [done| |done].
  by eapply wf_path_not_dot, node_wf.
Qed.

Lemma dirkeys_spec k j :
  j ∈ dirkeys fs k ↔ (∃ t, nodes fs !! j = Some (Dir t)) ∧ Os.parent j = k.
Proof.
  unfold dirkeys. rewrite list_elem_of_omap. split.
  - intros ([j' x] & Hin & E). apply inside_spec in Hin as [H Hp].
    simpl in E. destruct x; simplify_eq. eauto.
  - intros [[t H] Hp]. exists (j, Dir t). split; [|done]. by apply inside_spec.
Qed.

Lemma filekeys_spec k j :
  j ∈ filekeys fs k ↔ (∃ t s l, nodes fs !! j = Some (File t s l)) ∧ Os.parent j = k.
Proof.
  unfold filekeys. rewrite list_elem_of_omap. split.
  - intros ([j' x] & Hin & E). apply inside_spec in Hin as [H Hp].
    simpl in E. destruct x; simplify_eq. eauto 10.
  - intros [(t & s & l & H) Hp]. exists (j, File t s l). split; [|done].
    by apply inside_spec.
Qed.

Lemma inside_NoDup k : NoDup (Os.inside fs k).*1.
Proof.
  unfold Os.inside. 
  assert (NoDup (map_to_list (nodes fs)).*1) as H by apply NoDup_fst_map_to_list.
  revert H. generalize (map_to_list (nodes fs)). intros l. induction l as [|[j x] l IH].
  - done.
  - rewrite fmap_cons, NoDup_cons. intros [Hni Hnd]. rewrite filter_cons.
    case_decide; [|by auto]. rewrite fmap_cons, NoDup_cons. split; [|by auto].
    intros Hin. apply Hni. apply list_elem_of_fmap in Hin as (y & E & Hy).
    apply list_elem_of_filter in Hy as [_ Hy]. apply list_elem_of_fmap. eauto.
Qed.

Lemma omap_fst_NoDup {A B} (f : string * A → option B) (g : B → string)
    (l : list (string * A)) :
  (∀ kv y, f kv = Some y → g y = kv.1) → NoDup l.*1 → NoDup (g <$> omap f l).
Proof.
  intros Hf. induction l as [|kv l IH]; [constructor|].
  rewrite fmap_cons, NoDup_cons. intros [Hni Hnd]. simpl.
  destruct (f kv) as [y|] eqn:E; [|by auto].
  rewrite fmap_cons, NoDup_cons. split; [|by auto].
  rewrite (Hf _ _ E). intros Hin. apply Hni.
  apply list_elem_of_fmap in Hin as (y' & E' & Hy').
  apply list_elem_of_omap in Hy' as (kv' & Hkv' & E'').
  apply list_elem_of_fmap. exists kv'. split; [|done].
  rewrite E'. by apply Hf.
Qed.

Lemma dirkeys_NoDup k : NoDup (dirkeys fs k).
Proof.
  rewrite <- (list_fmap_id (dirkeys fs k)). apply omap_fst_NoDup; [|apply inside_NoDup].
  intros [j x] y. simpl. destruct x; [done|]. by intros [= <-].
Qed.

(** names and keys of the entries of a directory *)
Lemma child_key k j :
  is_dir fs k → wf_path j → Os.parent j = k →
  j = (if bool_decide (k = ".") then Py.basename j else k +:+ "/" +:+ Py.basename j)
  ∧ wf_name (Py.basename j).
Proof.
  intros Hk Hj Hp. destruct (wf_path_inv j Hj) as (Hn & [(E & Ej & _)|(Hd & Ej & _)]).
  - rewrite Hp in E. subst k. by rewrite bool_decide_eq_true_2.
  - rewrite Hp in *. rewrite bool_decide_eq_false_2; [done|by apply wf_path_not_dot].
Qed.

Lemma omap_basename {A} (f : string * A → option string) (l : list (string * A)) :
  omap (λ kv, Py.basename <$> f kv) l = Py.basename <$> omap f l.
Proof. by rewrite list_fmap_omap. Qed.

Lemma walk_go_S n k :
  is_dir fs k →
  walk_at fs (S n) k
  = (top_of k, Py.basename <$> dirkeys fs k, Py.basename <$> filekeys fs k)
      :: mjoin (walk_at fs n <$> dirkeys fs k).
Proof.
  intros Hk. unfold walk_at. cbn [Os.walk_go]. unfold dirkeys, filekeys.
  assert (∀ l : list (string * node),
    omap (λ kv, match kv.2 with Dir _ => Some (Py.basename kv.1) | _ => None end) l
    = Py.basename <$> omap (λ kv, match kv.2 with Dir _ => Some kv.1 | _ => None end) l) as E1.
  { intros l. rewrite list_fmap_omap. apply list_omap_ext.
    induction l as [|[j [ | ]] l IH]; constructor; done. }
  assert (∀ l : list (string * node),
    omap (λ kv, match kv.2 with File _ _ _ => Some (Py.basename kv.1) | _ => None end) l
    = Py.basename <$> omap (λ kv, match kv.2 with File _ _ _ => Some kv.1 | _ => None end) l)
    as E2.
  { intros l. rewrite list_fmap_omap. apply list_omap_ext.
    induction l as [|[j [ | ]] l IH]; constructor; done. }
  rewrite E1, E2. f_equal. f_equal. rewrite <- list_fmap_compose.
  apply Forall_fmap_ext_1, Forall_forall. intros j Hj. simpl.
  apply dirkeys_spec in Hj as [[t Hj] Hp].
  destruct (child_key k j Hk (node_wf _ _ Hj) Hp) as [Ej Hn].
  rewrite (join_top k _ (is_dir_wf _ Hk) Hn), <- Ej.
  f_equal. case_bool_decide as Ek; [done|].
  destruct (is_dir_wf _ Hk) as [?|Hw]; [done|].
  by rewrite (join_sub _ _ (wf_path_clean _ Hw) Hn).
Qed.

Lemma longest_spec k x : nodes fs !! k = Some x → (String.length k ≤ Os.longest fs)%nat.
Proof.
  unfold Os.longest. revert k x.
  apply (map_fold_weak_ind (λ r (m : gmap string node),
           ∀ k x, m !! k = Some x → (String.length k ≤ r)%nat)).
  - intros k x. by rewrite lookup_empty.
  - intros i y m r Hi IH k x. rewrite lookup_insert_Some.
    intros [[-> _]|[_ H]]; [lia|]. specialize (IH _ _ H). lia.
Qed.

Lemma is_dir_measure k : is_dir fs k → (measure k ≤ Os.longest fs)%nat.
Proof.
  intros [->|[t H]]; [unfold measure; simpl; lia|].
  apply longest_spec in H. unfold measure. case_bool_decide; lia.
Qed.

Local Abbreviation W := (walk_at fs).

(** the three cases of the loop body of [check_local] *)
Lemma check_local_walk_cons root dirnames filenames rest fl inv :
  check_local_walk ((root, dirnames, filenames) :: rest) fl inv
  = if bool_decide (root ∈ inv) then
      check_local_walk rest fl (inv ∪ list_to_set (Py.join root <$> dirnames))
    else if valid_dir_for_upload root then
      check_local_walk rest
        (fl ++ ((λ filename, Py.tail (Py.tail (Py.join root filename)))
                  <$> filter (λ filename, valid_filename_for_upload filename = true)
                             filenames))
        inv
    else
      check_local_walk rest fl
        (({[root]} ∪ inv) ∪ list_to_set (Py.join root <$> dirnames)).
Proof. reflexivity. Qed.

Lemma join_child k j :
  is_dir fs k → j ∈ dirkeys fs k ∨ j ∈ filekeys fs k →
  Py.join (top_of k) (Py.basename j) = top_of j.
Proof.
  intros Hk Hj.
  assert (wf_path j ∧ Os.parent j = k) as [Hw Hp].
  { destruct Hj as [Hj|Hj].
    - apply dirkeys_spec in Hj as [[t Hj] Hp]. split; [by eapply node_wf|done].
    - apply filekeys_spec in Hj as [(t & s & l & Hj) Hp]. split; [by eapply node_wf|done]. }
  destruct (child_key k j Hk Hw Hp) as [Ej Hn].
  by rewrite (join_top k _ (is_dir_wf _ Hk) Hn), <- Ej.
Qed.

Lemma tops_of_children k :
  is_dir fs k →
  Py.join (top_of k) <$> (Py.basename <$> dirkeys fs k) = top_of <$> dirkeys fs k.
Proof.
  intros Hk. rewrite <- list_fmap_compose. apply Forall_fmap_ext_1, Forall_forall.
  intros j Hj. simpl. apply join_child; auto.
Qed.

Lemma files_of_dir k p :
  is_dir fs k →
  p ∈ (λ filename, Py.tail (Py.tail (Py.join (top_of k) filename)))
        <$> filter (λ filename, valid_filename_for_upload filename = true)
                   (Py.basename <$> filekeys fs k)
  ↔ p ∈ filekeys fs k ∧ valid_filename_for_upload (Py.basename p) = true.
Proof.
  intros Hk. rewrite list_elem_of_fmap. split.
  - intros (f & -> & Hf). apply list_elem_of_filter in Hf as [Hv Hf].
    apply list_elem_of_fmap in Hf as (j & -> & Hj).
    rewrite (join_child k j Hk (or_intror Hj)).
    assert (j ≠ ".") as Hne.
    { apply filekeys_spec in Hj as [(t & s & l & Hj) _]. by eapply wf_path_not_dot, node_wf. }
    by rewrite (top_of_tail _ Hne).
  - intros [Hj Hv]. exists (Py.basename p). split.
    + rewrite (join_child k p Hk (or_intror Hj)).
      assert (p ≠ ".") as Hne.
      { apply filekeys_spec in Hj as [(t & s & l & Hj) _]. by eapply wf_path_not_dot, node_wf. }
      by rewrite (top_of_tail _ Hne).
    + apply list_elem_of_filter. split; [done|]. by apply list_elem_of_fmap_2.
Qed.

Lemma child_is_dir k c : c ∈ dirkeys fs k → is_dir fs c ∧ wf_path c ∧ Os.parent c = k.
Proof.
  intros [[t H] Hp]%dirkeys_spec. split_and!; [right; eauto|by eapply node_wf|done].
Qed.

Lemma below_strict k c j :
  wf_path c → Os.parent c = k → below c j → below k j ∧ j ≠ k.
Proof.
  intros Hc Hp Hb. pose proof (below_parent k c Hc) as Hkc. rewrite Hp in Hkc. split.
  - by eapply below_trans.
  - intros ->. pose proof (below_antisym _ _ Hb Hkc) as E.
    pose proof (measure_parent c Hc). rewrite Hp, E in *. lia.
Qed.

(** the directories [cs] of one parent, walked one after the other *)
Lemma scan_children n k (IH : ∀ c rest fl (inv : gset string),
    is_dir fs c → (Os.longest fs < n + measure c)%nat →
    (∀ j, below c j → j ≠ c → top_of j ∉ inv) →
    ∃ fl' (inv' : gset string),
      check_local_walk (W n c ++ rest) fl inv = check_local_walk rest (fl ++ fl') (inv ∪ inv')
      ∧ (∀ r, r ∈ inv' → ∃ j, r = top_of j ∧ below c j)
      ∧ (∀ p, p ∈ fl' ↔ (top_of c ∉ inv) ∧ found fs c p)) :
  ∀ cs rest fl (inv : gset string),
    NoDup cs → (∀ c, c ∈ cs → c ∈ dirkeys fs k) →
    (Os.longest fs < S n + measure k)%nat →
    (∀ j c, c ∈ cs → below c j → j ≠ c → top_of j ∉ inv) →
    ∃ fl' (inv' : gset string),
      check_local_walk (mjoin (W n <$> cs) ++ rest) fl inv
      = check_local_walk rest (fl ++ fl') (inv ∪ inv')
      ∧ (∀ r, r ∈ inv' → ∃ j c, c ∈ cs ∧ r = top_of j ∧ below c j)
      ∧ (∀ p, p ∈ fl' ↔ ∃ c, c ∈ cs ∧ (top_of c ∉ inv) ∧ found fs c p).
Proof.
  induction cs as [|c cs IHcs]; intros rest fl inv Hnd Hcs Hfuel Hinv.
  - exists [], ∅. simpl. split_and!.
    + by rewrite app_nil_r, (right_id_L ∅ (∪)).
    + intros r Hr. by apply elem_of_empty in Hr.
    + intros p. split; [by intros ?%elem_of_nil|]. intros (c & Hc%elem_of_nil & _). done.
  - apply NoDup_cons in Hnd as [Hni Hnd].
    destruct (child_is_dir k c) as (Hd & Hw & Hp); [apply Hcs; left|].
    rewrite fmap_cons. simpl. rewrite <- app_assoc.
    destruct (IH c (mjoin (W n <$> cs) ++ rest) fl inv) as (fl1 & inv1 & E1 & Hinv1 & Hfl1).
    { done. }
    { pose proof (measure_parent c Hw). rewrite Hp in *. lia. }
    { intros j. apply Hinv. left. }
    assert (∀ c', c' ∈ cs → ∀ j, below c j → c' ≠ j ∧ ¬ below c' j) as Hsep.
    { intros c' Hc' j Hj.
      destruct (child_is_dir k c') as (_ & Hw' & Hp'); [apply Hcs; by right|].
      assert (¬ below c' j) as Hnb.
      { intros Hj'. destruct (below_chain _ _ _ Hj Hj') as [Hb|Hb].
        - apply (below_siblings k) in Hb; [|done..]. by subst.
        - apply (below_siblings k) in Hb; [|done..]. by subst. }
      split; [|done]. intros ->. apply Hnb. constructor. }
    destruct (IHcs rest (fl ++ fl1) (inv ∪ inv1)) as (fl2 & inv2 & E2 & Hinv2 & Hfl2).
    { done. }
    { intros c' Hc'. apply Hcs. by right. }
    { done. }
    { intros j c' Hc' Hj Hne. apply not_elem_of_union. split.
      - apply (Hinv j c'); [by right|done..].
      - intros (j1 & Ej & Hj1)%Hinv1. apply top_of_inj in Ej. subst j1.
        by destruct (Hsep c' Hc' j Hj1). }
    exists (fl1 ++ fl2), (inv1 ∪ inv2). split_and!.
    + rewrite E1, E2. by rewrite !app_assoc, (assoc_L (∪)).
    + intros r [Hr|Hr]%elem_of_union.
      * destruct (Hinv1 r Hr) as (j & -> & Hj). exists j, c. split_and!; [left|done..].
      * destruct (Hinv2 r Hr) as (j & c' & Hc' & -> & Hj). exists j, c'.
        split_and!; [by right|done..].
    + intros p. rewrite elem_of_app, Hfl1, Hfl2. split.
      * intros [[Hc Hf]|(c' & Hc' & Ht & Hf)].
        -- exists c. split_and!; [left|done..].
        -- exists c'. split_and!; [by right| |done].
           intros Hin. apply Ht. apply elem_of_union. by left.
      * intros (c' & [->|Hc']%elem_of_cons & Ht & Hf); [by left|right].
        exists c'. split_and!; [done| |done].
        intros [Hin|Hin]%elem_of_union; [done|].
        destruct (Hinv1 _ Hin) as (j1 & Ej & Hj1). apply top_of_inj in Ej. subst j1.
        by destruct (Hsep c' Hc' c' Hj1).
Qed.

Lemma found_here k p :
  is_dir fs k → p ∈ filekeys fs k → valid_filename_for_upload (Py.basename p) = true →
  valid_dir_for_upload (top_of k) = true → found fs k p.
Proof.
  intros Hk [Hp E]%filekeys_spec Hv Hd. split_and!; [done|done| |].
  - rewrite E. constructor.
  - rewrite E. intros a Ha Ha'. by rewrite (below_antisym _ _ Ha Ha').
Qed.

Lemma found_child k c p :
  c ∈ dirkeys fs k → valid_dir_for_upload (top_of k) = true →
  found fs c p → found fs k p.
Proof.
  intros (Hd & Hw & Hp)%child_is_dir Hv (Hf & Hn & Hb & Ho).
  destruct (below_strict k c _ Hw Hp Hb) as [Hkb Hne].
  split_and!; [done|done|done|].
  intros a Ha Ha'. destruct (decide (a = k)) as [->|Hak]; [done|].
  destruct (below_chain _ _ _ Ha' Hb) as [Hac|Hca]; [|by apply Ho].
  destruct (decide (a = c)) as [->|Hne']; [apply Ho; [constructor|done]|].
  inversion Hac as [|? ? Hac']; [by subst|]. subst.
  by destruct Hak; apply below_antisym.
Qed.

Lemma found_inv k p :
  is_dir fs k → found fs k p →
  valid_dir_for_upload (top_of k) = true
  ∧ (p ∈ filekeys fs k ∨ ∃ c, c ∈ dirkeys fs k ∧ found fs c p).
Proof.
  intros Hk (Hf & Hn & Hb & Ho). split; [apply Ho; [constructor|done]|].
  destruct (decide (Os.parent p = k)) as [E|E]; [left; by apply filekeys_spec|right].
  destruct (below_child _ _ Hb E) as (c & Hw & Hp & Hc). exists c.
  destruct Hf as (t & s & l & Hf).
  assert (is_dir fs c) as Hd by (eapply below_is_dir; [by eapply node_parent|done]).
  split.
  - apply dirkeys_spec. split; [|done].
    destruct Hd as [->|?]; [by apply wf_path_not_dot in Hw|done].
  - split_and!; [eauto|done|done|].
    intros a Ha Ha'. apply Ho; [|done]. by destruct (below_strict k c a Hw Hp Ha).
Qed.

(** what the loop of [check_local] makes of the walk of one directory *)
Lemma scan n : ∀ k rest fl (inv : gset string),
  is_dir fs k → (Os.longest fs < n + measure k)%nat →
  (∀ j, below k j → j ≠ k → top_of j ∉ inv) →
  ∃ fl' (inv' : gset string),
    check_local_walk (walk_at fs n k ++ rest) fl inv
    = check_local_walk rest (fl ++ fl') (inv ∪ inv')
    ∧ (∀ r, r ∈ inv' → ∃ j, r = top_of j ∧ below k j)
    ∧ (∀ p, p ∈ fl' ↔ (top_of k ∉ inv) ∧ found fs k p).
Proof.
  induction n as [|n IH]; intros k rest fl inv Hk Hfuel Hinv.
  { pose proof (is_dir_measure k Hk). lia. }
  rewrite (walk_go_S n k Hk). rewrite <- app_comm_cons, check_local_walk_cons.
  rewrite (tops_of_children k Hk).
  pose proof (scan_children n k IH (dirkeys fs k)) as Hch.
  assert (∀ r, r ∈ (list_to_set (top_of <$> dirkeys fs k) : gset string) →
               ∃ c, c ∈ dirkeys fs k ∧ r = top_of c) as Htops.
  { intros r (c & -> & Hc)%elem_of_list_to_set%list_elem_of_fmap. eauto. }
  assert (∀ j c, c ∈ dirkeys fs k → below c j → j ≠ c →
                 top_of j ∉ (list_to_set (top_of <$> dirkeys fs k) : gset string)) as Hdeep.
  { intros j c Hc Hj Hne (c' & Hc' & Ej%top_of_inj)%Htops. subst c'.
    apply child_is_dir in Hc as (_ & Hw & Hp), Hc' as (_ & Hw' & Hp').
    apply Hne. symmetry. by apply (below_siblings k). }
  assert (∀ j c, c ∈ dirkeys fs k → below c j → j ≠ c → top_of j ∉ inv) as Hdeep'.
  { intros j c Hc Hj Hne. apply child_is_dir in Hc as (_ & Hw & Hp).
    destruct (below_strict k c j Hw Hp Hj). by apply Hinv. }
  case_bool_decide as Hin; [|destruct (valid_dir_for_upload (top_of k)) eqn:Hv].
  - destruct (Hch rest fl (inv ∪ list_to_set (top_of <$> dirkeys fs k)))
      as (fl' & inv' & E & Hinv' & Hfl'); [apply dirkeys_NoDup|done|done| |].
    { intros j c Hc Hj Hne. apply not_elem_of_union. split; eauto. }
    exists fl', (list_to_set (top_of <$> dirkeys fs k) ∪ inv'). split_and!.
    + by rewrite E, (assoc_L (∪)).
    + intros r [Hr|Hr]%elem_of_union.
      * destruct (Htops r Hr) as (c & Hc & ->). exists c. split; [done|].
        apply child_is_dir in Hc as (_ & Hw & Hp). rewrite <- Hp. by apply below_parent.
      * destruct (Hinv' r Hr) as (j & c & Hc & -> & Hj). exists j. split; [done|].
        apply child_is_dir in Hc as (_ & Hw & Hp). by destruct (below_strict k c j Hw Hp Hj).
    + intros p. rewrite Hfl'. split; [|by intros [? _]].
      intros (c & Hc & Hni & _). destruct Hni. apply elem_of_union. right.
      apply elem_of_list_to_set, list_elem_of_fmap. eauto.
  - destruct (Hch rest (fl ++ ((λ filename, Py.tail (Py.tail (Py.join (top_of k) filename)))
               <$> filter (λ filename, valid_filename_for_upload filename = true)
                          (Py.basename <$> filekeys fs k))) inv)
      as (fl' & inv' & E & Hinv' & Hfl'); [apply dirkeys_NoDup|done|done|done|].
    eexists (_ ++ fl'), inv'. split_and!.
    + by rewrite E, app_assoc.
    + intros r Hr. destruct (Hinv' r Hr) as (j & c & Hc & -> & Hj). exists j. split; [done|].
      apply child_is_dir in Hc as (_ & Hw & Hp). by destruct (below_strict k c j Hw Hp Hj).
    + intros p. rewrite elem_of_app, (files_of_dir k p Hk), Hfl'. split.
      * intros [[Hp Hn]|(c & Hc & Hni & Hf)]; (split; [done|]).
        -- by apply found_here.
        -- by eapply found_child.
      * intros [_ Hf]. destruct (found_inv k p Hk Hf) as [_ [Hp|(c & Hc & Hf')]].
        -- left. split; [done|]. by destruct Hf as (_ & ? & _).
        -- right. exists c. split_and!; [done| |done].
           apply child_is_dir in Hc as (_ & Hw & Hp).
           apply Hinv; [rewrite <- Hp; by apply below_parent|].
           intros ->. pose proof (measure_parent k Hw). rewrite Hp in *. lia.
  - destruct (Hch rest fl (({[top_of k]} ∪ inv) ∪ list_to_set (top_of <$> dirkeys fs k)))
      as (fl' & inv' & E & Hinv' & Hfl'); [apply dirkeys_NoDup|done|done| |].
    { intros j c Hc Hj Hne. apply not_elem_of_union. split; [|by eauto].
      apply not_elem_of_union. split; [|by eauto].
      intros Ej%elem_of_singleton%top_of_inj. subst j.
      apply child_is_dir in Hc as (_ & Hw & Hp).
      by destruct (below_strict k c k Hw Hp Hj). }
    exists fl', (({[top_of k]} ∪ list_to_set (top_of <$> dirkeys fs k)) ∪ inv'). split_and!.
    + rewrite E. f_equal. apply union_shuffle.
    + intros r [[Hr%elem_of_singleton|Hr]%elem_of_union|Hr]%elem_of_union.
      * subst r. exists k. split; [done|constructor].
      * destruct (Htops r Hr) as (c & Hc & ->). exists c. split; [done|].
        apply child_is_dir in Hc as (_ & Hw & Hp). rewrite <- Hp. by apply below_parent.
      * destruct (Hinv' r Hr) as (j & c & Hc & -> & Hj). exists j. split; [done|].
        apply child_is_dir in Hc as (_ & Hw & Hp). by destruct (below_strict k c j Hw Hp Hj).
    + intros p. rewrite Hfl'. split.
      * intros (c & Hc & Hni & _). destruct Hni. apply elem_of_union. right.
        apply elem_of_list_to_set, list_elem_of_fmap. eauto.
      * intros [_ Hf]. destruct (found_inv k p Hk Hf) as [Hv' _]. congruence.
Qed.

End Tree.

(** [check_local] hands to [check_state] exactly the files that are
    [listed] *)
Lemma walk_listed fs p :
  wf_fs fs → p ∈ check_local_walk (Os.walk fs) [] ∅ ↔ listed fs p.
Proof.
  intros Hwf.
  destruct (scan fs Hwf (S (Os.longest fs)) "." [] [] ∅) as (fl' & inv' & E & _ & Hfl').
  { by left. }
  { lia. }
  { intros j _ _. apply not_elem_of_empty. }
  rewrite app_nil_r in E. change (walk_at fs (S (Os.longest fs)) ".") with (Os.walk fs) in E.
  rewrite E. simpl. rewrite Hfl'. unfold found, listed. split.
  - intros (_ & ? & ? & ? & ?). done.
  - intros (Hf & ? & ?). split; [apply not_elem_of_empty|]. split_and!; [done..| |done].
    destruct Hf as (t & s & l & Hf). apply below_dot.
    destruct (is_dir_wf fs Hwf _ (node_parent fs Hwf _ _ Hf)); auto.
Qed.

(** ** What the operations on the tree keep *)

Global Instance files_same_equiv : Equivalence files_same.
Proof.
  split.
  - by intros fs p Hp t s l.
  - intros fs fs' H p Hp t s l. by rewrite (H p Hp).
  - intros fs1 fs2 fs3 H12 H23 p Hp t s l. by rewrite (H12 p Hp), (H23 p Hp).
Qed.

Lemma state_file_invalid : valid_filename_for_upload (Py.basename STATE_FILENAME) = false.
Proof. reflexivity. Qed.

Lemma state_file_wf : wf_path STATE_FILENAME.
Proof. apply wf_path_name. by split_and!. Qed.

Lemma listed_same fs fs' p : files_same fs fs' → listed fs p → listed fs' p.
Proof.
  intros H ((t & s & l & Hf) & Hv & Ho). split_and!; [|done..].
  exists t, s, l. apply H; [|done]. intros ->. by rewrite state_file_invalid in Hv.
Qed.

Lemma listed_mtime fs p :
  wf_fs fs → listed fs p →
  ∃ t s l, nodes fs !! p = Some (File t s l) ∧ Os.getmtime fs p = Some t.
Proof.
  intros Hwf ((t & s & l & Hf) & _). exists t, s, l. split; [done|].
  unfold Os.getmtime. rewrite (node_at_key fs); [by rewrite Hf|].
  by eapply wf_path_not_dot, node_wf.
Qed.

Lemma mtime_same fs fs' p :
  wf_fs fs → wf_fs fs' → files_same fs fs' → listed fs p →
  Os.getmtime fs' p = Os.getmtime fs p.
Proof.
  intros Hwf Hwf' H Hl. pose proof (listed_same _ _ _ H Hl) as Hl'.
  destruct (listed_mtime fs p Hwf Hl) as (t & s & l & Hf & ->).
  destruct (listed_mtime fs' p Hwf' Hl') as (t' & s' & l' & Hf' & ->).
  apply H in Hf; [congruence|]. intros ->.
  destruct Hl as (_ & Hv & _). by rewrite state_file_invalid in Hv.
Qed.

Section Ops.

Implicit Types fs : LocalFS.

Lemma isdir_insert_dir fs k p t :
  Os.isdir fs k = true →
  Os.isdir (mkLocalFS (<[p := Dir t]> (nodes fs)) (root_mtime fs) (now fs + 1)) k = true.
Proof.
  unfold Os.isdir, Os.node_at. simpl. case_bool_decide; [done|].
  destruct (decide (k = p)) as [->|]; [by rewrite lookup_insert_eq|].
  by rewrite lookup_insert_ne.
Qed.

Lemma mkdir_wf fs p fs' :
  Os.mkdir fs p = Some fs' → wf_path p → wf_fs fs → wf_fs fs' ∧ files_same fs fs'.
Proof.
  unfold Os.mkdir. intros H Hp Hwf.
  destruct (bool_decide (p = "") || Os.exists_ fs p) eqn:E; [done|].
  apply orb_false_elim in E as [_ Hex].
  destruct (Os.isdir fs (Os.parent p)) eqn:Hd; [|done]. simplify_eq. split.
  - intros k x. simpl. rewrite lookup_insert_Some.
    intros [[<- <-]|[Hne Hk]].
    + split; [done|]. by apply isdir_insert_dir.
    + destruct (Hwf k x Hk). split; [done|]. by apply isdir_insert_dir.
  - intros k _ t s l. simpl. destruct (decide (k = p)) as [->|Hne].
    + rewrite lookup_insert_eq. unfold Os.exists_ in Hex.
      rewrite node_at_key in Hex by (by apply wf_path_not_dot).
      destruct (nodes fs !! p); [done|]. split; done.
    + by rewrite lookup_insert_ne.
Qed.

Lemma makedirs_go_wf n fs name fs' :
  Os.makedirs_go n fs name = Some fs' → wf_path name → wf_fs fs →
  wf_fs fs' ∧ files_same fs fs'.
Proof.
  revert fs name fs'. induction n as [|n IH]; intros fs name fs'; simpl.
  { apply mkdir_wf. }
  intros H Hp Hwf. destruct (wf_path_inv name Hp) as (Hn & [(E & Ej & Ed)|(Hd & Ej & Ed)]).
  - assert (Py.split name = ("", name)) as Es.
    { apply split_name. by rewrite Ej. }
    rewrite Es in H.
    rewrite bool_decide_eq_false_2 in H by (by apply wf_path_ne).
    simpl in H. by eapply mkdir_wf.
  - assert (Py.split name = (Os.parent name, Py.basename name)) as Es.
    { rewrite Ej at 1. by apply split_sub. }
    rewrite Es in H.
    rewrite (bool_decide_eq_false_2 (Py.basename name = "")) in H by (by destruct Hn).
    destruct (_ && _ && _) in H; [|by eapply mkdir_wf].
    destruct (Os.makedirs_go n fs (Os.parent name)) as [fs1|] eqn:E1; [|done].
    destruct (IH _ _ _ E1 Hd Hwf) as [Hwf1 Hs1].
    rewrite bool_decide_eq_false_2 in H by (by destruct Hn as (_ & ? & _)).
    destruct (mkdir_wf _ _ _ H Hp Hwf1) as [Hwf2 Hs2]. split; [done|]. by etrans.
Qed.

Lemma makedirs_wf fs name fs' :
  Os.makedirs fs name = Some fs' → wf_path name → wf_fs fs →
  wf_fs fs' ∧ files_same fs fs'.
Proof. apply makedirs_go_wf. Qed.

Lemma isdir_delete fs k p :
  Os.isdir fs k = true → k ≠ p →
  Os.isdir (mkLocalFS (delete p (nodes fs)) (root_mtime fs) (now fs)) k = true.
Proof.
  unfold Os.isdir, Os.node_at. simpl. case_bool_decide; [done|].
  intros Hk Hne. by rewrite lookup_delete_ne.
Qed.

Lemma rmdir_wf fs d fs' :
  Os.rmdir fs d = Some fs' → wf_fs fs → wf_fs fs' ∧ files_same fs fs'.
Proof.
  unfold Os.rmdir. intros H Hwf.
  destruct (nodes fs !! d) as [[|t]|] eqn:Hd; [done| |done].
  case_bool_decide; [done|].
  destruct (Os.inside fs d) eqn:Hin; [|done]. simplify_eq. split.
  - intros k x. simpl. rewrite lookup_delete_Some. intros [Hne Hk].
    destruct (Hwf k x Hk). split; [done|]. apply isdir_delete; [done|].
    intros E. assert ((k, x) ∈ Os.inside fs d) as Hi by (by apply inside_spec).
    rewrite Hin in Hi. by apply elem_of_nil in Hi.
  - intros k _ t' s l. simpl. destruct (decide (k = d)) as [->|Hne].
    + rewrite lookup_delete_eq, Hd. split; done.
    + by rewrite lookup_delete_ne.
Qed.

Lemma prune_wf n fs head tail :
  wf_fs fs → wf_fs (Os.prune n fs head tail) ∧ files_same fs (Os.prune n fs head tail).
Proof.
  revert fs head tail. induction n as [|n IH]; intros fs head tail Hwf; simpl; [done|].
  destruct (_ && _); [|done].
  destruct (Os.rmdir fs head) as [fs1|] eqn:E; [|done].
  destruct (rmdir_wf _ _ _ E Hwf) as [Hwf1 Hs1].
  destruct (Py.split head) as [h t].
  destruct (IH fs1 h t Hwf1) as [Hwf2 Hs2]. split; [done|]. by etrans.
Qed.

Lemma removedirs_wf fs name fs' :
  Os.removedirs fs name = Some fs' → wf_fs fs → wf_fs fs' ∧ files_same fs fs'.
Proof.
  unfold Os.removedirs. intros H Hwf.
  destruct (Os.rmdir fs name) as [fs1|] eqn:E; [|done].
  destruct (rmdir_wf _ _ _ E Hwf) as [Hwf1 Hs1].
  destruct (Py.split name) as [h t].
  destruct (if bool_decide (t = "") then Py.split h else (h, t)) as [h' t'].
  simplify_eq. destruct (prune_wf (String.length name) fs1 h' t' Hwf1) as [Hwf2 Hs2].
  split; [done|]. by etrans.
Qed.

Lemma remove_wf fs p fs' : Os.remove fs p = Some fs' → wf_fs fs → wf_fs fs'.
Proof.
  unfold Os.remove. intros H Hwf.
  destruct (nodes fs !! p) as [[t s [|]|]|] eqn:Hp; simplify_eq.
  intros k x. simpl. rewrite lookup_delete_Some. intros [Hne Hk].
  destruct (Hwf k x Hk) as [Hw Hd]. split; [done|]. apply isdir_delete; [done|].
  intros E. apply isdir_spec in Hd. destruct Hd as [Hd|[t' Hd]].
  - rewrite <- E, Hd in Hp. destruct (Hwf _ _ Hp) as [Hw' _]. by apply wf_path_not_dot in Hw'.
  - congruence.
Qed.

Lemma write_wf fs p size fs' :
  Os.write fs p size = Some fs' → wf_path p → wf_fs fs → wf_fs fs'.
Proof.
  unfold Os.write. intros H Hp Hwf.
  destruct (_ || _ || _) eqn:E; [done|]. simplify_eq.
  apply orb_false_elim in E as [E Hpar]. apply orb_false_elim in E as [_ Hnd].
  apply negb_false_iff in Hpar.
  assert (∀ k, Os.isdir fs k = true →
    Os.isdir (mkLocalFS (<[p := File (now fs) size
        match nodes fs !! p with Some (File _ _ l) => l | _ => false end]> (nodes fs))
      (root_mtime fs) (now fs + 1)) k = true) as Hkeep.
  { intros k Hk. destruct (decide (k = p)) as [->|Hne]; [congruence|].
    revert Hk. unfold Os.isdir, Os.node_at. simpl. case_bool_decide; [done|].
    by rewrite lookup_insert_ne. }
  intros k x. simpl. rewrite lookup_insert_Some. intros [[<- <-]|[Hne Hk]].
  - split; [done|]. by apply Hkeep.
  - destruct (Hwf k x Hk). split; [done|]. by apply Hkeep.
Qed.

Lemma write_state_same fs size fs' :
  Os.write fs STATE_FILENAME size = Some fs' → files_same fs fs'.
Proof.
  unfold Os.write. intros H. destruct (_ || _ || _); [done|]. simplify_eq.
  intros k Hk t s l. simpl. by rewrite lookup_insert_ne.
Qed.

End Ops.

(** ** The store *)

Section StoreLemmas.

Implicit Types s : Store.
Implicit Types p d q : string.

Lemma guarded_no_faults {A} (f : Store → option A * Store) s :
  faults s = [] → Store.guarded f s = f s.
Proof. unfold Store.guarded. by intros ->. Qed.

Lemma remote_key_inj p q : "/" +:+ p = "/" +:+ q → p = q.
Proof. by intros [=]. Qed.

Lemma tail_remote p : Py.tail ("/" +:+ p) = p.
Proof. reflexivity. Qed.

(** the folders a path lies in *)
Lemma ancestors_go_spec n p a :
  wf_path p → (String.length p < n)%nat →
  a ∈ Store.ancestors_go n ("/" +:+ p)
  ↔ ∃ d, a = "/" +:+ d ∧ wf_path d ∧ below d (Os.parent p).
Proof.
  revert p. induction n as [|n IH]; intros p Hp Hn; [lia|]. simpl.
  destruct (wf_path_inv p Hp) as (Hb & [(E & Ej & _)|(Hd & Ej & _)]).
  - assert (Py.dirname ("/" +:+ p) = "/") as ->.
    { rewrite Ej. by apply dirname_root_name. }
    simpl. rewrite E. split.
    + by intros ?%elem_of_nil.
    + intros (d & _ & Hw & ->%below_dot_inv). by apply wf_path_not_dot in Hw.
  - assert (Py.dirname ("/" +:+ p) = "/" +:+ Os.parent p) as Ed.
    { rewrite Ej at 1. by apply dirname_root_sub. }
    rewrite Ed. 
    assert (Py.all_slashes ("/" +:+ Os.parent p) = false) as ->.
    { destruct (wf_path_clean _ Hd) as (pre & name & -> & ? & ?).
      rewrite <- append_assoc. by apply all_slashes_clean. }
    rewrite bool_decide_eq_false_2 by done. simpl.
    rewrite elem_of_cons, IH; [|done|].
    2:{ rewrite Ej in Hn. rewrite !append_length in Hn. simpl in Hn. lia. }
    split.
    + intros [->|(d & -> & Hw & Hbl)].
      * exists (Os.parent p). split_and!; [done|done|constructor].
      * exists d. split_and!; [done|done|]. by apply below_step.
    + intros (d & -> & Hw & Hbl). inversion Hbl as [|? ? Hbl']; subst.
      * by left.
      * right. eauto.
Qed.

Lemma ancestors_spec p a :
  wf_path p →
  a ∈ Store.ancestors ("/" +:+ p) ↔ ∃ d, a = "/" +:+ d ∧ wf_path d ∧ below d (Os.parent p).
Proof. intros Hp. apply ancestors_go_spec; [done|]. rewrite append_length. simpl. lia. Qed.

Lemma under_below d p :
  wf_path p → Store.under ("/" +:+ d) ("/" +:+ p) = true → below d p ∧ p ≠ d.
Proof.
  intros Hp Hu. unfold Store.under, Py.startswith in Hu.
  apply prefix_app in Hu as [r E]. rewrite !append_assoc in E.
  apply remote_key_inj in E. by eapply sub_below.
Qed.

(** whatever is stored has all the folders above it *)
Lemma stored_above s p c :
  wf_store s → stored s p → wf_path p → below c p → wf_path c → stored s c.
Proof.
  intros (_ & _ & _ & Hhyg & _) Hs Hp Hb Hc. induction Hb as [|j Hj Hb IH]; [done|].
  destruct (decide (Os.parent j = ".")) as [E|E].
  - rewrite E in Hb. apply below_dot_inv in Hb. subst. by apply wf_path_not_dot in Hc.
  - apply IH.
    + right. by apply Hhyg.
    + by destruct (wf_path_inv j Hj) as (_ & [(? & _)|(? & _)]).
Qed.

(** a folder without entries has nothing below it *)
Lemma childless_under s d p :
  wf_store s → (∀ c, wf_path c → stored s c → Os.parent c ≠ d) →
  wf_path p → stored s p → Store.under ("/" +:+ d) ("/" +:+ p) = false.
Proof.
  intros Hwf Hno Hp Hs. destruct (Store.under _ _) eqn:Hu; [|done].
  destruct (under_below d p Hp Hu) as [Hb Hne].
  destruct (below_child _ _ Hb Hne) as (c & Hc & Hpc & Hcp).
  destruct (Hno c Hc); [|done]. by eapply stored_above.
Qed.

Lemma paginate_go_join {A} n k (l : list A) :
  (length l ≤ n)%nat → mjoin (Store.paginate_go n k l) = l.
Proof.
  revert l. induction n as [|n IH]; intros l Hn.
  - destruct l; [done|simpl in Hn; lia].
  - destruct l as [|x l]; [done|]. cbn [Store.paginate_go].
    cbn [mjoin list_join]. rewrite IH.
    + apply take_drop.
    + rewrite length_drop. simpl in *. lia.
Qed.

Lemma paginate_join {A} k (l : list A) : mjoin (Store.paginate k l) = l.
Proof. by apply paginate_go_join. Qed.

Lemma paginate_no_empty {A} k (l : list A) : [] ∉ Store.paginate k l.
Proof.
  unfold Store.paginate. generalize (length l). intros n. revert l.
  induction n as [|n IH]; intros l; [by intros ?%elem_of_nil|].
  destruct l as [|x l]; [by intros ?%elem_of_nil|]. cbn [Store.paginate_go].
  intros [E|Hin]%elem_of_cons; [done|]. by eapply IH.
Qed.

Lemma wf_store_same s s' :
  objects s' = objects s → folders s' = folders s → faults s' = faults s →
  wf_store s → wf_store s'.
Proof. unfold wf_store, stored. by intros -> -> ->. Qed.

Lemma parent_wf p : wf_path p → Os.parent p ≠ "." → wf_path (Os.parent p).
Proof. intros Hp Hne. by destruct (wf_path_inv p Hp) as (_ & [(? & _)|(? & _)]). Qed.

Lemma commit_spec s p size r s' :
  wf_store s → wf_path p → Store.commit ("/" +:+ p) size s = (Some r, s') →
  objects s' = <["/" +:+ p := (r, size)]> (objects s)
  ∧ listings s' = listings s ∧ page_size s' = page_size s ∧ wf_store s'.
Proof.
  intros Hwf Hp. unfold Store.commit.
  destruct (bool_decide ("/" +:+ p ∈ folders s)
            || bool_decide (Exists (λ d, is_Some (objects s !! d))
                                   (Store.ancestors ("/" +:+ p)))) eqn:E; [done|].
  apply orb_false_elim in E as [Hnf Hno].
  apply bool_decide_eq_false in Hnf, Hno. rewrite Exists_exists in Hno.
  intros [= <- <-]. cbn [objects folders listings page_size]. split_and!; [done..|].
  destruct Hwf as (Hok & Hfk & Hdis & Hhyg & Hfl). split_and!; cbn [objects folders faults].
  - intros pd x [[E _]|[_ H]]%lookup_insert_Some; [|by eapply Hok].
    subst pd. by exists p.
  - intros pd [Hin%elem_of_list_to_set|Hin]%elem_of_union; [|by apply Hfk].
    apply ancestors_spec in Hin as (d & -> & Hd & _); [by exists d|done].
  - intros pd Hin. apply lookup_insert_None.
    apply elem_of_union in Hin as [Hin%elem_of_list_to_set|Hin].
    + split.
      * destruct (objects s !! pd) eqn:Ho; [|done]. destruct Hno. exists pd. eauto.
      * apply ancestors_spec in Hin as (d & -> & Hd & Hb); [|done].
        intros E%remote_key_inj. subst d.
        pose proof (below_antisym _ _ Hb (below_parent p p Hp)) as Epp.
        pose proof (measure_parent p Hp). rewrite Epp in *. lia.
    + split; [by apply Hdis|]. by intros <-.
  - intros q Hq Hwq Hpq. apply elem_of_union.
    assert (stored s q ∨ q = p ∨ "/" +:+ q ∈ Store.ancestors ("/" +:+ p)) as Hcases.
    { destruct Hq as [[x Hq]|Hq]; cbn [objects folders] in Hq.
      - apply lookup_insert_Some in Hq as [[E%remote_key_inj _]|[_ Hq]]; [by auto|].
        left. left. eauto.
      - apply elem_of_union in Hq as [Hq%elem_of_list_to_set|Hq]; [by auto|].
        left. by right. }
    destruct Hcases as [Hs|[E|Hin]]; [right; by apply Hhyg|left..];
      apply elem_of_list_to_set, ancestors_spec; try done.
    + subst q. exists (Os.parent p). split_and!; [done|by apply parent_wf|constructor].
    + apply ancestors_spec in Hin as (d & E%remote_key_inj & Hd & Hb); [|done].
      subst d. exists (Os.parent q). split_and!; [done|by apply parent_wf|].
      eapply below_trans; [|done]. by apply below_parent.
  - done.
Qed.

Lemma remove_object_spec s pd :
  wf_store s → is_Some (objects s !! pd) →
  ∃ s', Store.remove pd s = (Some (), s')
    ∧ objects s' = delete pd (objects s) ∧ listings s' = listings s
    ∧ page_size s' = page_size s ∧ wf_store s'.
Proof.
  intros Hwf Hpd. unfold Store.remove. rewrite bool_decide_eq_true_2 by done.
  eexists. split; [done|]. cbn [objects folders listings page_size]. split_and!; [done..|].
  destruct Hwf as (Hok & Hfk & Hdis & Hhyg & Hfl). split_and!; cbn [objects folders faults].
  - intros k x [_ H]%lookup_delete_Some. by eapply Hok.
  - done.
  - intros k Hk. apply lookup_delete_None. right. by apply Hdis.
  - intros q Hq Hwq Hpq. apply Hhyg; [|done..].
    destruct Hq as [[x Hq]|Hq]; cbn [objects folders] in Hq; [left|by right].
    apply lookup_delete_Some in Hq as [_ Hq]. eauto.
  - done.
Qed.

Lemma remove_folder_spec s d :
  wf_store s → wf_path d → "/" +:+ d ∈ folders s →
  (∀ c, wf_path c → stored s c → Os.parent c ≠ d) →
  ∃ s', Store.remove ("/" +:+ d) s = (Some (), s')
    ∧ objects s' = objects s ∧ listings s' = listings s
    ∧ page_size s' = page_size s ∧ wf_store s'.
Proof.
  intros Hwf Hd Hin Hno. pose proof Hwf as (Hok & Hfk & Hdis & Hhyg & Hfl).
  unfold Store.remove. rewrite bool_decide_eq_false_2.
  2:{ rewrite (Hdis _ Hin). by intros [? ?]. }
  rewrite bool_decide_eq_true_2 by done.
  eexists. split; [done|]. cbn [objects folders listings page_size].
  assert (filter (λ kv : string * (string * Z), Store.under ("/" +:+ d) kv.1 = false) (objects s)
          = objects s) as Eo.
  { apply map_filter_id. intros pd x Hpd. simpl.
    destruct (Hok _ _ Hpd) as (q & -> & Hq). apply (childless_under s); [done..|].
    left. eauto. }
  rewrite Eo. split_and!; [done..|].
  split_and!; cbn [objects folders faults]; [done| | | |done].
  - intros pd [_ Hpd]%elem_of_filter. by apply Hfk.
  - intros pd [_ Hpd]%elem_of_filter. by apply Hdis.
  - intros q Hq Hwq Hpq.
    assert (stored s q) as Hsq.
    { destruct Hq as [Hq|Hq]; [by left|right]. by apply elem_of_filter in Hq as [_ Hq]. }
    apply elem_of_filter. split; [|by apply Hhyg]. split.
    + intros E%remote_key_inj. by apply (Hno q).
    + apply (childless_under s); [done..|by apply parent_wf|].
      right. by apply Hhyg.
Qed.

Lemma contents_entry_of s dir recursive e :
  e ∈ Store.contents s dir recursive → entry_of s e.
Proof.
  unfold Store.contents. intros [Hin|Hin]%elem_of_app.
  - apply list_elem_of_fmap in Hin as (pd & -> & Hpd).
    apply list_elem_of_filter in Hpd as [_ Hpd]. simpl. by apply elem_of_elements.
  - apply list_elem_of_fmap in Hin as ([pd [rev sz]] & -> & Hpd).
    apply list_elem_of_filter in Hpd as [_ Hpd]. simpl.
    apply elem_of_map_to_list in Hpd. eauto.
Qed.

Lemma contents_root_complete s pd rev sz :
  wf_store s → objects s !! pd = Some (rev, sz) →
  FileMetadata pd rev ∈ Store.contents s "" true.
Proof.
  intros (Hok & _) Hpd. unfold Store.contents. apply elem_of_app. right.
  apply list_elem_of_fmap. exists (pd, (rev, sz)). split; [done|].
  apply list_elem_of_filter. split; [|by apply elem_of_map_to_list].
  destruct (Hok _ _ Hpd) as (q & -> & _). apply startswith_root.
Qed.

Lemma contents_empty_childless s d :
  wf_store s → wf_path d → Store.contents s ("/" +:+ d) false = [] →
  ∀ c, wf_path c → stored s c → Os.parent c ≠ d.
Proof.
  intros Hwf Hd Hnil c Hc Hs Hp.
  assert (Store.selected ("/" +:+ d) false ("/" +:+ c) = true) as Hsel.
  { unfold Store.selected. apply bool_decide_eq_true.
    rewrite (bool_decide_eq_false_2 ("/" +:+ d = "")) by done.
    destruct (wf_path_inv c Hc) as (Hn & [(E & _)|(Hw & Ej & _)]).
    - rewrite Hp in E. subst d. by apply wf_path_not_dot in Hd.
    - rewrite Ej at 1. rewrite dirname_root_sub; [by rewrite Hp|done..]. }
  unfold Store.contents in Hnil. apply app_eq_nil in Hnil as [Hf Ho].
  apply fmap_nil_inv in Hf, Ho. destruct Hs as [[x Hs]|Hs].
  - assert (("/" +:+ c, x) ∈ filter
      (λ kv : string * (string * Z), Store.selected ("/" +:+ d) false kv.1 = true)
      (map_to_list (objects s))) as Hin.
    { apply list_elem_of_filter. split; [done|]. by apply elem_of_map_to_list. }
    rewrite Ho in Hin. by apply elem_of_nil in Hin.
  - assert ("/" +:+ c ∈ filter (λ p, Store.selected ("/" +:+ d) false p = true)
                               (elements (folders s))) as Hin.
    { apply list_elem_of_filter. split; [done|]. by apply elem_of_elements. }
    rewrite Hf in Hin. by apply elem_of_nil in Hin.
Qed.

Global Instance same_content_preorder : PreOrder same_content.
Proof.
  split; [done|]. intros s1 s2 s3 (? & ? & ? & ?) (? & ? & ? & ?).
  split_and!; congruence.
Qed.

Lemma same_content_wf s s' : same_content s s' → wf_store s → wf_store s'.
Proof. intros (? & ? & ? & ?). by apply wf_store_same. Qed.

Lemma serve_spec s cur pages res s' :
  Store.serve s cur pages = (Some res, s') →
  same_content s s' ∧ cursor res = cur
  ∧ (∃ left, entries res :: left = pages ∧ listing_state s' res left
     ∨ pages = [] ∧ entries res = [] ∧ left = [] ∧ listing_state s' res left).
Proof.
  unfold Store.serve, listing_state. destruct pages as [|page rest]; intros [= <- <-]; simpl.
  - split_and!; [done..|]. exists []. by right.
  - split_and!; [done..|]. exists rest. left. split; [done|]. case_bool_decide.
    + by rewrite lookup_insert_eq.
    + destruct rest; [done|]. by destruct H.
Qed.

Lemma list_folder_spec s dir recursive r s' :
  Store.list_folder dir recursive s = (r, s') →
  same_content s s'
  ∧ ∀ res, r = Some res →
      (entries res = [] → Store.contents s dir recursive = [])
      ∧ ∃ left, entries res ++ mjoin left = Store.contents s dir recursive
                ∧ listing_state s' res left.
Proof.
  unfold Store.list_folder. destruct (_ || _); [|by intros [= <- <-]].
  destruct (Store.serve _ _ _) as [r0 s0] eqn:E. intros [= <- <-].
  destruct r0 as [res|]; [|by destruct (Store.paginate _ _)].
  apply serve_spec in E as (Hs & _ & left & H). split; [done|].
  intros ? [= <-].
  pose proof (paginate_join (page_size s) (Store.contents s dir recursive)) as Ej.
  pose proof (paginate_no_empty (page_size s) (Store.contents s dir recursive)) as Hne.
  destruct H as [[E Hl]|(E & E' & -> & Hl)].
  - rewrite <- E in Ej, Hne. split.
    + intros E0. destruct Hne. rewrite E0. left.
    + exists left. by split.
  - rewrite E in Ej. split; [done|]. exists []. split; [|done]. by rewrite E', <- Ej.
Qed.

Lemma list_folder_continue_spec s cur left :
  listings s !! cur = Some left → left ≠ [] →
  ∃ res left' s', Store.list_folder_continue cur s = (Some res, s')
    ∧ same_content s s' ∧ cursor res = cur
    ∧ entries res ++ mjoin left' = mjoin left ∧ listing_state s' res left'.
Proof.
  intros Hl Hne. unfold Store.list_folder_continue. rewrite Hl.
  destruct left as [|page rest]; [done|].
  destruct (Store.serve s cur (page :: rest)) as [r s'] eqn:E.
  destruct r as [res|]; [|done].
  apply serve_spec in E as (Hs & Hc & left' & [[E Hls]|(? & _)]); [|done].
  exists res, left', s'. split_and!; [done..| |done]. by rewrite <- E.
Qed.

Lemma contents_selected_wf s dir recursive e :
  wf_store s → e ∈ Store.contents s dir recursive →
  match e with
  | FileMetadata pd _ | FolderMetadata pd => remote_key pd
  | DeletedMetadata _ => False
  end.
Proof.
  intros (Hok & Hfk & _) He. apply contents_entry_of in He.
  destruct e as [pd rev|pd|pd]; simpl in He; [|by apply Hfk|done].
  destruct He as [sz He]. by eapply Hok.
Qed.

Lemma list_folder_some s dir recursive res s' :
  Store.list_folder dir recursive s = (Some res, s') → dir = "" ∨ dir ∈ folders s.
Proof.
  unfold Store.list_folder. destruct (bool_decide (dir = "")) eqn:E1; simpl.
  - apply bool_decide_eq_true in E1. by left.
  - destruct (bool_decide (dir ∈ folders s)) eqn:E2; [|done].
    apply bool_decide_eq_true in E2. by right.
Qed.

Lemma stored_same s s' p : same_content s s' → stored s' p → stored s p.
Proof. intros (Eo & Ef & _). unfold stored. by rewrite Eo, Ef. Qed.

End StoreLemmas.

(** ** Runs that return *)

Section Triples.

Context {Σ : Type}.

Lemma triple_ret {A} (P : Σ → Prop) (a : A) : triple P (ret a) (λ b m, b = a ∧ P m).
Proof. by intros m b m' HP [= <- <-]. Qed.

Lemma triple_bind {A B} (P : Σ → Prop) (Mid : A → Σ → Prop) (Q : B → Σ → Prop)
    (c : Prog Σ A) (k : A → Prog Σ B) :
  triple P c Mid → (∀ a, triple (Mid a) (k a) Q) → triple P (bind c k) Q.
Proof.
  intros Hc Hk m b m' HP H. apply bind_inv_Done in H as (a & m1 & H1 & H2).
  eapply Hk; [|done]. by eapply Hc.
Qed.

Lemma triple_conseq {A} (P P' : Σ → Prop) (Q Q' : A → Σ → Prop) (c : Prog Σ A) :
  triple P' c Q' → (∀ m, P m → P' m) → (∀ a m, Q' a m → Q a m) → triple P c Q.
Proof. intros Hc HP HQ m a m' Hm H. eapply HQ, Hc; [by apply HP|done]. Qed.

Lemma triple_for_each {A} (I : list A → Σ → Prop) (l : list A) (body : A → Prog Σ unit) :
  (∀ x rest, triple (I (x :: rest)) (body x) (λ _, I rest)) →
  triple (I l) (for_each l body) (λ _, I []).
Proof.
  intros Hb. induction l as [|x l IH]; simpl.
  - intros m a m' HI E. unfold ret in E. by simplify_eq.
  - eapply triple_bind; [apply Hb|]. intros ?. apply IH.
Qed.

Lemma stays_ret {A} (I : Σ → Prop) (a : A) : stays I (ret a).
Proof. by intros m. Qed.

Lemma stays_raise {A} (I : Σ → Prop) e : stays I (@raise Σ A e).
Proof. by intros m. Qed.

Lemma stays_spin {A} (I : Σ → Prop) : stays I (@spin Σ A).
Proof. by intros m. Qed.

Lemma stays_bind {A B} (I : Σ → Prop) (c : Prog Σ A) (k : A → Prog Σ B) :
  stays I c → (∀ a, stays I (k a)) → stays I (bind c k).
Proof.
  intros Hc Hk m Hm. specialize (Hc m Hm). unfold bind.
  destruct (c m) as [[a|e|] m1]; simpl in *; [by apply Hk|done..].
Qed.

Lemma stays_bind_with {A B} (I : Σ → Prop) (Q : A → Σ → Prop)
    (c : Prog Σ A) (k : A → Prog Σ B) :
  stays_with I c Q → (∀ a m, I m → Q a m → I (k a m).2) → stays I (bind c k).
Proof.
  intros Hc Hk m Hm. destruct (Hc m Hm) as [HI HQ]. unfold bind.
  destruct (c m) as [[a|e|] m1]; simpl in *; [|done..]. apply Hk; [done|]. by apply HQ.
Qed.

Lemma stays_try {A} (I : Σ → Prop) (c : Prog Σ A) : stays I c → stays I (try c).
Proof. intros Hc m Hm. specialize (Hc m Hm). unfold try. by destruct (c m) as [[a|e|] m1]. Qed.

Lemma stays_for_each {A} (I : Σ → Prop) (l : list A) (body : A → Prog Σ unit) :
  (∀ x, x ∈ l → stays I (body x)) → stays I (for_each l body).
Proof.
  induction l as [|x l IH]; intros Hb; simpl; [apply stays_ret|].
  apply stays_bind; [apply Hb; left|]. intros _. apply IH. intros y Hy. apply Hb. by right.
Qed.

End Triples.

Section Statements.

Context {R : Type} `{!Client R}.
Implicit Types m : Machine R.

Lemma print_Done l m a m' :
  print l m = (Done a, m') →
  m' = mkMachine (state m) (disk m) (pickled m) (dbx m) (stdin m) (trace m ++ [Print l]).
Proof. by intros [= <-]. Qed.

Lemma os_read_Done {A} (f : LocalFS → A) m a m' :
  os_read f m = (Done a, m') → a = f (disk m) ∧ m' = m.
Proof. by intros [= <- <-]. Qed.

Lemma os_do_Done (f : LocalFS → option LocalFS) m a m' :
  os_do f m = (Done a, m') →
  ∃ fs, f (disk m) = Some fs
        ∧ m' = mkMachine (state m) fs (pickled m) (dbx m) (stdin m) (trace m).
Proof. unfold os_do. destruct (f (disk m)) as [fs|]; intros [= <-]; eauto. Qed.

Lemma os_get_Done' {A} (f : LocalFS → option A) m a m' :
  os_get f m = (Done a, m') → f (disk m) = Some a ∧ m' = m.
Proof. unfold os_get. destruct (f (disk m)) as [x|]; by intros [= <- <-]. Qed.

Lemma in_local_Done path m a m' :
  in_local path m = (Done a, m') →
  a = bool_decide (is_Some (local_files (state m) !! path)) ∧ m' = m.
Proof. by intros [= <- <-]. Qed.

Lemma in_remote_Done path m a m' :
  in_remote path m = (Done a, m') →
  a = bool_decide (is_Some (remote_files (state m) !! path)) ∧ m' = m.
Proof. by intros [= <- <-]. Qed.

Lemma get_local_Done path m x m' :
  get_local path m = (Done x, m') → local_files (state m) !! path = Some x ∧ m' = m.
Proof. unfold get_local. destruct (_ !! _); by intros [= <- <-]. Qed.

Lemma set_local_Done path x m a m' :
  set_local path x m = (Done a, m') →
  m' = mkMachine (mkDropboxState (<[path := x]> (local_files (state m)))
                                 (remote_files (state m)))
                 (disk m) (pickled m) (dbx m) (stdin m) (trace m).
Proof. by intros [= <-]. Qed.

Lemma set_remote_Done path x m a m' :
  set_remote path x m = (Done a, m') →
  m' = mkMachine (mkDropboxState (local_files (state m))
                                 (<[path := x]> (remote_files (state m))))
                 (disk m) (pickled m) (dbx m) (stdin m) (trace m).
Proof. by intros [= <-]. Qed.

Lemma del_local_Done path m a m' :
  del_local path m = (Done a, m') →
  is_Some (local_files (state m) !! path)
  ∧ m' = mkMachine (mkDropboxState (delete path (local_files (state m)))
                                   (remote_files (state m)))
                   (disk m) (pickled m) (dbx m) (stdin m) (trace m).
Proof.
  unfold del_local. run. case_bool_decide; [|done]. by intros [= <-].
Qed.

Lemma del_remote_Done path m a m' :
  del_remote path m = (Done a, m') →
  is_Some (remote_files (state m) !! path)
  ∧ m' = mkMachine (mkDropboxState (local_files (state m))
                                   (delete path (remote_files (state m))))
                   (disk m) (pickled m) (dbx m) (stdin m) (trace m).
Proof.
  unfold del_remote. run. case_bool_decide; [|done]. by intros [= <-].
Qed.

Lemma try_Done {A} (c : Prog (Machine R) A) m r m' :
  try c m = (Done r, m') →
  (∃ a, r = Some a ∧ c m = (Done a, m')) ∨ (∃ e, r = None ∧ c m = (Raised e, m')).
Proof.
  unfold try. destruct (c m) as [[a|e|] m1]; intros [= <- <-]; eauto.
Qed.

Lemma try_OSError_Done (c : Prog (Machine R) unit) m a m' :
  try_OSError c m = (Done a, m') → c m = (Done a, m') ∨ c m = (Raised OSError, m').
Proof.
  unfold try_OSError. destruct (c m) as [[[]|[]|] m1]; intros [= <-]; subst; auto.
Qed.

End Statements.

(** ** What the methods do when they return *)

Section Methods.

Implicit Types m : Machine Store.

Global Instance session_like_preorder : PreOrder session_like.
Proof.
  split.
  - intros m. by split_and!.
  - intros m1 m2 m3 (? & ? & ? & ? & ?) (? & ? & ? & ? & ?).
    split_and!; try congruence. by etrans.
Qed.

Lemma agree_track p x st : agree st → agree (track p x st).
Proof.
  intros H q. unfold track. simpl. rewrite !lookup_insert_is_Some'. by rewrite (H q).
Qed.

Lemma agree_untrack p st : agree st → agree (untrack p st).
Proof.
  intros H q. unfold untrack. simpl. rewrite !lookup_delete_is_Some. by rewrite (H q).
Qed.

Lemma session_like_call {A} r (f : Store → option A * Store) m :
  (∀ s, faults s = [] → same_content s (f s).2 ∧ listings (f s).2 = listings s) →
  faults (dbx m) = [] →
  session_like m (call r (Store.guarded f) m).2.
Proof.
  intros Hf Hm. unfold call. rewrite (guarded_no_faults _ _ Hm).
  destruct (Hf (dbx m) Hm) as [Hs Hl]. destruct (f (dbx m)) as [[a|] s]; by split_and!.
Qed.

Lemma session_like_faults m m' : session_like m m' → faults (dbx m) = [] → faults (dbx m') = [].
Proof. intros (_ & _ & _ & (_ & _ & E & _) & _). by rewrite E. Qed.

Lemma session_start_same data close s :
  same_content s (Store.session_start data close s).2
  ∧ listings (Store.session_start data close s).2 = listings s.
Proof. by split. Qed.

Lemma session_append_same data c close s :
  same_content s (Store.session_append data c close s).2
  ∧ listings (Store.session_append data c close s).2 = listings s.
Proof. unfold Store.session_append. by destruct (Store.session_at c s). Qed.

Lemma upload_session_like n total pos data close sid cur off m :
  faults (dbx m) = [] →
  session_like m (upload_session n total pos data close sid cur off m).2.
Proof.
  revert pos data close sid cur off m.
  induction n as [|n IH]; intros pos data close sid cur off m Hm; simpl.
  - destruct close; reflexivity.
  - destruct close; [reflexivity|].
    destruct sid as [sid|].
    + pose proof (session_like_call (SessionAppend data cur false)
        (Store.session_append data cur false) m
        (λ s _, session_append_same data cur false s) Hm) as Hc.
      unfold bind at 1. unfold bind at 1.
      change (files_upload_session_append_v2 data cur false)
        with (Store.guarded (Store.session_append data cur false)).
      destruct (call _ _ m) as [[[]|e|] m1]; simpl in *; [|done..].
      etrans; [exact Hc|]. apply IH. by eapply session_like_faults.
    + pose proof (session_like_call (SessionStart data false)
        (Store.session_start data false) m
        (λ s _, session_start_same data false s) Hm) as Hc.
      unfold bind at 1.
      change (files_upload_session_start data false)
        with (Store.guarded (Store.session_start data false)).
      destruct (call _ _ m) as [[sid|e|] m1]; simpl in *; [|done..].
      etrans; [exact Hc|]. apply IH. by eapply session_like_faults.
Qed.

Lemma at_end {A} (c : Prog (Machine Store) A) m o m' (Rel : Machine Store → Machine Store → Prop) :
  c m = (o, m') → Rel m (c m).2 → Rel m m'.
Proof. by intros ->. Qed.

(** the request or requests of [upload], when they succeed, commit the
    file and leave the rest of the store alone *)
Lemma session_finish_spec s p data c rev s' :
  wf_store s → wf_path p →
  Store.session_finish data c (mkCommitInfo ("/" +:+ p) overwrite true) s = (Some rev, s') →
  ∃ sz, objects s' = <["/" +:+ p := (rev, sz)]> (objects s)
        ∧ listings s' = listings s ∧ page_size s' = page_size s ∧ wf_store s'.
Proof.
  intros Hwf Hp. unfold Store.session_finish.
  destruct (Store.session_at c s) as [sid|]; [|done]. cbn [commit_path].
  intros Hc. apply commit_spec in Hc as (Ho & Hl & Hps & Hwf'); [|by eapply wf_store_same|done].
  eexists. by split_and!.
Qed.

Lemma upload_Done path because m m' :
  sound m → wf_path path →
  upload path because m = (Done (), m') →
  transferred path m m' ∧ disk m' = disk m.
Proof.
  intros (Hfs & Hst & Hag) Hp H. unfold upload in H.
  apply bind_inv_Done in H as (? & m1 & H1 & H). apply print_Done in H1.
  apply bind_inv_Done in H as (size & m2 & H2 & H). apply os_get_Done' in H2 as [Hsize ->].
  apply bind_inv_Done in H as (rev & m3 & H3 & H).
  apply bind_inv_Done in H as (mtime & m4 & H4 & H). apply os_get_Done' in H4 as [Hmt ->].
  apply bind_inv_Done in H as (? & m5 & H5 & H).
  apply set_local_Done in H5. apply set_remote_Done in H.
  assert (wf_store (dbx m1) ∧ state m1 = state m ∧ disk m1 = disk m ∧ pickled m1 = pickled m
          ∧ dbx m1 = dbx m) as (Hst1 & Es1 & Ed1 & Ep1 & Ex1) by (by subst m1).
  assert (∃ sz, objects (dbx m3) = <["/" +:+ path := (rev, sz)]> (objects (dbx m1))
            ∧ listings (dbx m3) = listings (dbx m1) ∧ wf_store (dbx m3)
            ∧ state m3 = state m1 ∧ disk m3 = disk m1 ∧ pickled m3 = pickled m1)
    as (sz & Ho & Hl & Hst3 & Es3 & Ed3 & Ep3).
  { clear H H5 H1 Hsize Hmt. rewrite (join_root_wf _ Hp) in H3.
    pose proof Hst1 as (_ & _ & _ & _ & Hfl).
    destruct (bool_decide (size > 140000000)).
    - apply bind_inv_Done in H3 as (total & m2 & H2 & H3).
      apply os_get_Done' in H2 as [_ ->].
      apply bind_inv_Done in H3 as ([data cur] & m2 & H2 & H3).
      pose proof (at_end _ _ _ _ session_like H2 (upload_session_like _ _ _ _ _ _ _ _ _ Hfl))
        as (Es & Ed & Ep & Hsc & Hls).
      apply call_Done in H3 as [Em3 Hc].
      change (files_upload_session_finish data cur (mkCommitInfo ("/" +:+ path) overwrite true))
        with (Store.guarded (Store.session_finish data cur
                               (mkCommitInfo ("/" +:+ path) overwrite true))) in Hc.
      rewrite guarded_no_faults in Hc by (destruct Hsc as (_ & _ & -> & _); done).
      apply session_finish_spec in Hc as (sz & Ho & Hl' & _ & Hwf');
        [|by eapply same_content_wf|done].
      exists sz. rewrite Em3. simpl. destruct Hsc as (Eo & _).
      split_and!; [by rewrite Ho, Eo|congruence|done..].
    - apply bind_inv_Done in H3 as (total & m2 & H2 & H3).
      apply os_get_Done' in H2 as [_ ->].
      apply call_Done in H3 as [Em3 Hc].
      change (files_upload (mkBytes 0 total) ("/" +:+ path) overwrite true)
        with (Store.guarded (Store.upload (mkBytes 0 total) ("/" +:+ path) overwrite true)) in Hc.
      rewrite guarded_no_faults in Hc by done.
      apply commit_spec in Hc as (Ho & Hl' & _ & Hwf'); [|done..].
      exists (b_len (mkBytes 0 total)). rewrite Em3. simpl. by split_and!. }
  subst m' m5. simpl. split; [|congruence].
  exists (mkMeta rev mtime), sz. simpl. split_and!.
  - unfold track. by rewrite Es3, Es1.
  - by rewrite Ho, lookup_insert_eq.
  - intros pd Hpd. rewrite Ho, lookup_insert_ne by done. by rewrite Ex1.
  - by rewrite Hl, Ex1.
  - by rewrite Ed3, Ed1, <- Ed1, <- Ed3.
  - congruence.
  - split_and!; simpl; [by rewrite Ed3, Ed1|done|].
    rewrite Es3, Es1. by apply (agree_track path (mkMeta rev mtime)).
Qed.

Lemma split_wf p :
  wf_path p →
  Py.split p = (Py.dirname p, Py.basename p)
  ∧ (Py.dirname p = "" ∨ wf_path (Py.dirname p)).
Proof.
  intros Hp. split; [unfold Py.dirname, Py.basename; by destruct (Py.split p)|].
  destruct (wf_path_inv p Hp) as (_ & [(_ & _ & E)|(Hd & _ & E)]); [by left|right].
  by rewrite E.
Qed.

Lemma download_remote_Done path because m m' :
  sound m → wf_path path →
  download_remote path because m = (Done (), m') →
  transferred path m m'.
Proof.
  intros (Hfs & Hst & Hag) Hp H. unfold download_remote in H.
  apply bind_inv_Done in H as (? & m1 & H1 & H). apply print_Done in H1.
  destruct (split_wf path Hp) as [Es Hhead]. rewrite Es in H.
  apply bind_inv_Done in H as (missing & m2 & H2 & H). apply os_read_Done in H2 as [_ ->].
  apply bind_inv_Done in H as (? & m2 & H2 & H).
  assert (wf_fs (disk m2) ∧ state m2 = state m ∧ dbx m2 = dbx m ∧ pickled m2 = pickled m)
    as (Hfs2 & Es2 & Ex2 & Ep2).
  { destruct (bool_decide (Py.dirname path ≠ "") && missing) eqn:Ec.
    - apply os_do_Done in H2 as (fs & Hmk & ->). subst m1. simpl in *.
      split_and!; [|done..]. apply andb_prop in Ec as [Hne%bool_decide_eq_true _].
      destruct Hhead as [?|Hw]; [done|]. by destruct (makedirs_wf _ _ _ Hmk Hw Hfs).
    - unfold ret in H2. simplify_eq. by split_and!. }
  clear H2 H1.
  apply bind_inv_Done in H as ([rev size] & m3 & H3 & H).
  apply call_Done in H3 as [Em3 Hc]. rewrite (join_root_wf _ Hp) in Hc.
  change (files_download ("/" +:+ path))
    with (Store.guarded (Store.download ("/" +:+ path))) in Hc.
  rewrite guarded_no_faults in Hc by (rewrite Ex2; by destruct Hst as (_ & _ & _ & _ & ?)).
  unfold Store.download in Hc. injection Hc as Hobj Ex3.
  apply bind_inv_Done in H as (? & m4 & H4 & H).
  apply os_do_Done in H4 as (fs & Hw & Em4).
  apply bind_inv_Done in H as (mtime & m5 & H5 & H). apply os_get_Done' in H5 as [Hmt ->].
  apply bind_inv_Done in H as (? & m5 & H5 & H).
  apply set_local_Done in H5. apply set_remote_Done in H.
  assert (state m3 = state m2 ∧ disk m3 = disk m2 ∧ pickled m3 = pickled m2)
    as (Es3 & Ed3 & Ep3) by (by rewrite Em3).
  clear Em3. rewrite Ed3 in Hw. pose proof (write_wf _ _ _ _ Hw Hp Hfs2) as Hfs4.
  subst m' m5 m4. simpl in *.
  exists (mkMeta rev mtime), size. simpl. split_and!.
  - unfold track. by rewrite Es3, Es2.
  - by rewrite <- Ex3, <- Hobj.
  - intros pd _. by rewrite <- Ex3, Ex2.
  - by rewrite <- Ex3, Ex2.
  - done.
  - congruence.
  - split_and!; simpl; [done|by rewrite <- Ex3, Ex2|].
    rewrite Es3, Es2. by apply (agree_track path (mkMeta rev mtime)).
Qed.

(** [delete_local], when it returns, has dropped the path from both
    tables and left the store alone *)
Lemma delete_local_Done path m m' :
  sound m → delete_local path m = (Done (), m') →
  state m' = untrack path (state m) ∧ dbx m' = dbx m ∧ pickled m' = pickled m
  ∧ sound m'.
Proof.
  intros (Hfs & Hst & Hag) H. unfold delete_local in H.
  apply bind_inv_Done in H as (? & m1 & H1 & H). apply print_Done in H1.
  apply bind_inv_Done in H as (? & m2 & H2 & H).
  assert (wf_fs (disk m2) ∧ state m2 = state m ∧ dbx m2 = dbx m ∧ pickled m2 = pickled m)
    as (Hfs2 & Es2 & Ex2 & Ep2).
  { apply try_OSError_Done in H2 as [H2|H2].
    - apply os_do_Done in H2 as (fs & Hrm & ->). subst m1. simpl in *.
      split_and!; [|done..]. by eapply remove_wf.
    - unfold os_do in H2. destruct (Os.remove (disk m1) path); [done|].
      simplify_eq. by split_and!. }
  clear H1 H2.
  apply bind_inv_Done in H as (? & m3 & H3 & H). apply del_local_Done in H3 as [Hl Em3].
  apply bind_inv_Done in H as (? & m4 & H4 & H). apply del_remote_Done in H4 as [Hr Em4].
  apply bind_inv_Done in H as (there & m5 & H5 & H). apply os_read_Done in H5 as [_ ->].
  apply bind_inv_Done in H as (empty & m5 & H5 & H).
  assert (m5 = m4) as ->.
  { destruct there.
    - apply bind_inv_Done in H5 as (names & m6 & H6 & H5).
      apply os_get_Done' in H6 as [_ ->]. unfold ret in H5. by simplify_eq.
    - unfold ret in H5. by simplify_eq. }
  assert (wf_fs (disk m') ∧ state m' = state m4 ∧ dbx m' = dbx m4 ∧ pickled m' = pickled m4)
    as (Hfs' & Es' & Ex' & Ep').
  { assert (wf_fs (disk m4)) as Hfs4 by (by subst m4 m3).
    destruct empty.
    - apply bind_inv_Done in H as (? & m6 & H6 & H). apply print_Done in H6.
      apply os_do_Done in H as (fs & Hrd & ->). subst m6. simpl in *.
      split_and!; [|done..]. by destruct (removedirs_wf _ _ _ Hrd Hfs4).
    - unfold ret in H. simplify_eq. by split_and!. }
  subst m4 m3. simpl in *. rewrite Es', Ex', Ep', Es2, Ex2, Ep2.
  split_and!; [done..|]. split_and!; [done|by rewrite Ex', Ex2|].
  rewrite Es', Es2. by apply (agree_untrack path).
Qed.

End Methods.

Section Entries.

Implicit Types m : Machine Store.

Lemma transferred_from p m0 m m' :
  state m = state m0 → dbx m = dbx m0 → pickled m = pickled m0 →
  transferred p m m' → transferred p m0 m'.
Proof.
  intros Es Ex Ep (x & sz & H). exists x, sz. by rewrite <- Es, <- Ex, <- Ep.
Qed.

Lemma sound_from m0 m :
  state m = state m0 → dbx m = dbx m0 → disk m = disk m0 → sound m0 → sound m.
Proof. unfold sound. by intros -> -> ->. Qed.

Lemma reprompt_Done path responses m a m' :
  reprompt path responses m = (Done a, m') →
  state m' = state m ∧ dbx m' = dbx m ∧ disk m' = disk m ∧ pickled m' = pickled m.
Proof.
  unfold reprompt. destruct (reprompt_go responses (stdin m)) as [[k r] rest].
  destruct r; [|done]. by intros [= <- <-].
Qed.

Lemma resolve_Done path side m r m' :
  sound m → wf_path path → resolve path side m = (Done r, m') → transferred path m m'.
Proof.
  intros Hs Hp H. unfold resolve in H.
  apply bind_inv_Done in H as ([] & m1 & H1 & H). unfold ret in H. simplify_eq.
  destruct side.
  - by eapply download_remote_Done.
  - by eapply upload_Done.
Qed.

Lemma handle_conflict_Done path pr m r m' :
  sound m → wf_path path → handle_conflict path pr m = (Done r, m') → transferred path m m'.
Proof.
  intros Hs Hp H. unfold handle_conflict in H. destruct pr as [side|].
  - by eapply resolve_Done.
  - apply bind_inv_Done in H as (answer & m1 & H1 & H).
    apply reprompt_Done in H1 as (Es & Ex & Ed & Ep).
    apply bind_inv_Done in H as (r' & m2 & H2 & H).
    assert (m' = m2) as -> by (destruct (Py.endswith answer "a"); unfold ret in H; by simplify_eq).
    eapply transferred_from; [done..|]. eapply resolve_Done; [|done..]. by eapply sound_from.
Qed.

Lemma make_local_dir_Done path m m' :
  sound m → wf_path path → make_local_dir path m = (Done (), m') →
  state m' = state m ∧ dbx m' = dbx m ∧ pickled m' = pickled m ∧ sound m'
  ∧ files_same (disk m) (disk m').
Proof.
  intros (Hfs & Hst & Hag) Hp H. unfold make_local_dir in H.
  apply bind_inv_Done in H as (there & m1 & H1 & H). apply os_read_Done in H1 as [_ ->].
  destruct there; simpl in H.
  - apply bind_inv_Done in H as (isfile & m1 & H1 & H). apply os_read_Done in H1 as [_ ->].
    destruct isfile.
    + apply bind_inv_Done in H as (? & m1 & _ & H).
      apply bind_inv_Done in H as (? & m2 & _ & H). done.
    + unfold ret in H. by simplify_eq.
  - apply os_do_Done in H as (fs & Hmk & ->). simpl.
    destruct (makedirs_wf _ _ _ Hmk Hp Hfs). by split_and!.
Qed.

Lemma process_remote_entry_Done e pr cur m r m' :
  sound m → entry_wf e →
  process_remote_entry e pr cur m = (Done r, m') →
  entry_effect e cur r.2 m m'.
Proof.
  intros Hs He H. destruct e as [pd rev|pd|pd]; simpl in *.
  - destruct He as (path & -> & Hp). rewrite tail_remote in *.
    apply bind_inv_Done in H as (tracked & m1 & H1 & H). apply in_local_Done in H1 as [-> ->].
    apply bind_inv_Done in H as (pr' & m1 & H1 & H). unfold ret in H. simplify_eq. simpl.
    split; [done|]. case_bool_decide as Ht; simpl in H1.
    + apply bind_inv_Done in H1 as (x & m2 & H2 & H1). apply get_local_Done in H2 as [Hx ->].
      case_bool_decide as Hrev.
      * right. apply bind_inv_Done in H1 as (changed & m2 & H2 & H1).
        assert (m2 = m) as ->.
        { unfold check_local_update in H2.
          apply bind_inv_Done in H2 as (? & m3 & H3 & H2). apply os_get_Done' in H3 as [_ ->].
          apply bind_inv_Done in H2 as (? & m3 & H3 & H2). apply get_local_Done in H3 as [_ ->].
          unfold ret in H2. by simplify_eq. }
        destruct changed.
        -- by eapply handle_conflict_Done.
        -- apply bind_inv_Done in H1 as ([] & m2 & H2' & H1). unfold ret in H1. simplify_eq.
           by eapply download_remote_Done.
      * left. unfold ret in H1. simplify_eq. do 4 (split; [done|]). by exists x.
    + right. apply bind_inv_Done in H1 as ([] & m2 & H2 & H1). unfold ret in H1. simplify_eq.
      by eapply download_remote_Done.
  - destruct He as (path & -> & Hp). rewrite tail_remote in *.
    apply bind_inv_Done in H as (there & m1 & H1 & H). apply os_read_Done in H1 as [_ ->].
    apply bind_inv_Done in H as ([] & m1 & H1 & H). unfold ret in H. simplify_eq. simpl.
    split; [done|]. destruct there; simpl in H1.
    + unfold ret in H1. by simplify_eq.
    + apply bind_inv_Done in H1 as (? & m2 & H2 & H1). apply print_Done in H2.
      apply make_local_dir_Done in H1 as (Es & Ex & Ep & Hs' & _); [|by subst m2|done].
      subst m2. by split_and!.
  - unfold ret in H. by simplify_eq.
Qed.

End Entries.

Section Deleting.

Implicit Types m : Machine Store.

Lemma wf_store_faults s : wf_store s → faults s = [].
Proof. by intros (_ & _ & _ & _ & ?). Qed.

(** the loop over the folders above a deleted file removes folders
    without entries and nothing else *)
Lemma delete_remote_folders_Done n : ∀ dir m m',
  wf_store (dbx m) → delete_remote_folders n dir m = (Done (), m') →
  state m' = state m ∧ disk m' = disk m ∧ pickled m' = pickled m
  ∧ objects (dbx m') = objects (dbx m) ∧ wf_store (dbx m').
Proof.
  induction n as [|n IH]; intros dir m m' Hwf H; simpl in H.
  { case_bool_decide; [done|]. unfold ret in H. by simplify_eq. }
  case_bool_decide as Hlen; [|unfold ret in H; by simplify_eq].
  apply bind_inv_Done in H as (listing & m1 & H1 & H).
  apply call_Done in H1 as [Em1 Hc].
  change (files_list_folder dir false) with (Store.guarded (Store.list_folder dir false)) in Hc.
  rewrite guarded_no_faults in Hc by (by apply wf_store_faults).
  pose proof (list_folder_some _ _ _ _ _ Hc) as Hdir.
  apply list_folder_spec in Hc as [Hsame Hres].
  destruct (Hres listing eq_refl) as [Hnil _].
  assert (wf_store (dbx m1)) as Hwf1 by (by eapply same_content_wf).
  assert (state m1 = state m ∧ disk m1 = disk m ∧ pickled m1 = pickled m) as (Es1 & Ed1 & Ep1)
    by (by rewrite Em1).
  assert (objects (dbx m1) = objects (dbx m)) as Eo1 by (by destruct Hsame).
  clear Em1.
  case_bool_decide as Hempty; [|unfold ret in H; simplify_eq; by split_and!].
  apply bind_inv_Done in H as ([] & m2 & H2 & H). apply print_Done in H2.
  destruct Hdir as [->|Hdir]; [done|].
  pose proof Hwf as (Hok & Hfk & Hrest). destruct (Hfk _ Hdir) as (d & -> & Hd).
  assert ("/" +:+ d ∈ folders (dbx m1)) as Hin1.
  { destruct Hsame as (_ & -> & _). done. }
  assert (∀ c, wf_path c → stored (dbx m1) c → Os.parent c ≠ d) as Hno.
  { intros c Hc Hsc. apply (contents_empty_childless (dbx m)); [done|done|auto|done|].
    by eapply stored_same. }
  destruct (remove_folder_spec (dbx m1) d Hwf1 Hd Hin1 Hno) as (s' & Hrm & Eo' & _ & _ & Hwf').
  apply bind_inv_Done in H as (deleted & m3 & H3 & H).
  assert (dbx m2 = dbx m1) as Ex2 by (by subst m2).
  apply try_Done in H3 as [(a & -> & H3)|(e & -> & H3)].
  - apply call_Done in H3 as [Em3 Hc].
    change (files_delete ("/" +:+ d)) with (Store.guarded (Store.remove ("/" +:+ d))) in Hc.
    rewrite guarded_no_faults in Hc by (rewrite Ex2; by apply wf_store_faults).
    rewrite Ex2, Hrm in Hc. injection Hc as _ Hc.
    apply IH in H as (Es & Ed & Ep & Eo & Hwf3); [|by rewrite <- Hc].
    rewrite Es, Ed, Ep, Eo, Em3. simpl. rewrite <- Hc, Eo', H2. simpl. by split_and!.
  - apply call_Raised in H3 as (_ & _ & Hc).
    change (files_delete ("/" +:+ d)) with (Store.guarded (Store.remove ("/" +:+ d))) in Hc.
    rewrite guarded_no_faults in Hc by (rewrite Ex2; by apply wf_store_faults).
    rewrite Ex2, Hrm in Hc. done.
Qed.

(** [delete_remote] of a tracked file that the store holds: the file
    leaves the store and both tables *)
Lemma delete_remote_Done n path m m' :
  sound m → is_Some (local_files (state m) !! path) →
  is_Some (objects (dbx m) !! ("/" +:+ path)) →
  delete_remote n path m = (Done (), m') →
  state m' = untrack path (state m)
  ∧ objects (dbx m') = delete ("/" +:+ path) (objects (dbx m))
  ∧ pickled m' = pickled m ∧ sound m' ∧ files_same (disk m) (disk m').
Proof.
  intros (Hfs & Hst & Hag) Hl Ho H. unfold delete_remote in H.
  apply bind_inv_Done in H as ([] & m1 & H1 & H). apply print_Done in H1.
  apply bind_inv_Done in H as (deleted & m2 & H2 & H).
  destruct (remove_object_spec _ _ Hst Ho) as (s' & Hrm & Eo' & _ & _ & Hwf').
  assert (Hr : is_Some (remote_files (state m) !! path)) by (by apply Hag).
  assert ((call (Delete ("/" +:+ path)) (files_delete ("/" +:+ path));;
           del_local path;; del_remote path) m1
          = (Done (), mkMachine (untrack path (state m)) (disk m) (pickled m) s' (stdin m)
                                (trace m1 ++ [Request (Delete ("/" +:+ path))]))) as Hinner.
  { unfold bind at 1. unfold call.
    change (files_delete ("/" +:+ path)) with (Store.guarded (Store.remove ("/" +:+ path))).
    rewrite guarded_no_faults by (subst m1; by apply wf_store_faults).
    replace (dbx m1) with (dbx m) by (by subst m1). rewrite Hrm.
    unfold del_local, del_remote. run. subst m1. simpl.
    rewrite bool_decide_eq_true_2 by done. simpl.
    rewrite bool_decide_eq_true_2 by done. done. }
  unfold try in H2. rewrite Hinner in H2. injection H2 as <- <-. clear Hinner.
  apply bind_inv_Done in H as (there & m3 & H3 & H). apply os_read_Done in H3 as [_ ->].
  apply bind_inv_Done in H as (empty & m3 & H3 & H).
  match type of H3 with _ ?mm = _ => assert (m3 = mm) as -> end.
  { destruct there.
    - apply bind_inv_Done in H3 as (names & m6 & H6 & H3).
      apply os_get_Done' in H6 as [_ ->]. unfold ret in H3. by simplify_eq.
    - unfold ret in H3. by simplify_eq. }
  clear H3.
  apply bind_inv_Done in H as ([] & m4 & H4 & H).
  assert (wf_fs (disk m4) ∧ files_same (disk m) (disk m4)
          ∧ state m4 = untrack path (state m) ∧ dbx m4 = s' ∧ pickled m4 = pickled m)
    as (Hfs4 & Hsame4 & Es4 & Ex4 & Ep4).
  { destruct empty.
    - apply bind_inv_Done in H4 as ([] & m6 & H6 & H4). apply print_Done in H6.
      apply os_do_Done in H4 as (fs & Hrd & ->). subst m6. simpl in *.
      destruct (removedirs_wf _ _ _ Hrd Hfs). by split_and!.
    - unfold ret in H4. simplify_eq. simpl. by split_and!. }
  clear H4.
  apply delete_remote_folders_Done in H as (Es & Ed & Ep & Eo & Hwf5); [|by rewrite Ex4].
  rewrite Es, Ep, Eo, Es4, Ep4, Ex4. split_and!; [done..| |by rewrite Ed].
  split_and!; [by rewrite Ed|done|]. rewrite Es, Es4. by apply (agree_untrack path).
Qed.

(** [check_state], when it returns, has either sent the file or found
    it tracked and not newer than recorded *)
Lemma check_state_Done path m m' :
  sound m → wf_path path → check_state path m = (Done (), m') →
  (transferred path m m' ∧ disk m' = disk m)
  ∨ (m' = m ∧ is_Some (remote_files (state m) !! path)
     ∧ ∃ x t, local_files (state m) !! path = Some x
              ∧ Os.getmtime (disk m) path = Some t ∧ t ≤ modified x).
Proof.
  intros Hs Hp H. unfold check_state in H.
  apply bind_inv_Done in H as (tracked & m1 & H1 & H). apply in_remote_Done in H1 as [-> ->].
  case_bool_decide as Ht; simpl in H.
  - apply bind_inv_Done in H as (changed & m1 & H1 & H).
    unfold check_local_update in H1.
    apply bind_inv_Done in H1 as (t & m2 & H2 & H1). apply os_get_Done' in H2 as [Hmt ->].
    apply bind_inv_Done in H1 as (x & m2 & H2 & H1). apply get_local_Done in H2 as [Hx ->].
    unfold ret in H1. simplify_eq.
    case_bool_decide as Hnew.
    + left. by apply upload_Done in H.
    + right. unfold ret in H. simplify_eq. split_and!; [done..|].
      exists x, t. split_and!; [done..|lia].
  - left. by apply upload_Done in H.
Qed.

End Deleting.

(** ** A run that completes *)

Section Listing1.

Implicit Types m : Machine Store.

Lemma ok_key_same m m' pd :
  state m' = state m → objects (dbx m') = objects (dbx m) → ok_key m pd → ok_key m' pd.
Proof. unfold ok_key. by intros -> ->. Qed.

Lemma sound_store m : sound m → wf_store (dbx m).
Proof. by intros (_ & ? & _). Qed.

Lemma object_key m pd : sound m → is_Some (objects (dbx m) !! pd) → remote_key pd.
Proof. intros (_ & (Hok & _) & _) [x Hx]. by eapply Hok. Qed.

(** a transfer of [path] settles its key and disturbs no other *)
Lemma transferred_ok_key path m m' :
  transferred path m m' → ok_key m' ("/" +:+ path).
Proof.
  intros (x & sz & Es & Ho & _) rev sz' H. rewrite Ho in H. simplify_eq.
  exists x. split; [|done]. rewrite Es, tail_remote. unfold track. simpl.
  by rewrite lookup_insert_eq.
Qed.

Lemma transferred_other path m m' pd :
  sound m → transferred path m m' → pd ≠ "/" +:+ path → ok_key m pd → ok_key m' pd.
Proof.
  intros Hs (x & sz & Es & _ & Hoth & _) Hne Hok rev sz' H.
  rewrite (Hoth _ Hne) in H. destruct (Hok _ _ H) as (y & Hy & Hrev).
  exists y. split; [|done]. rewrite Es. unfold track. simpl.
  rewrite lookup_insert_ne; [done|].
  destruct (object_key m pd Hs) as (q & -> & _); [eauto|]. rewrite tail_remote.
  by intros ->.
Qed.

Lemma transferred_objects path m m' pd :
  transferred path m m' →
  is_Some (objects (dbx m') !! pd) ↔ pd = "/" +:+ path ∨ is_Some (objects (dbx m) !! pd).
Proof.
  intros (x & sz & _ & Ho & Hoth & _). destruct (decide (pd = "/" +:+ path)) as [->|Hne].
  - rewrite Ho. split; [by left|eauto].
  - rewrite (Hoth _ Hne). split; [by right|]. by intros [?|?].
Qed.

Lemma listing_inv_step e rest cur cur' m m' :
  listing_inv m (e :: rest) cur → entry_effect e cur cur' m m' →
  listing_inv m' rest cur'
  ∧ listings (dbx m') = listings (dbx m) ∧ pickled m' = pickled m.
Proof.
  intros (Hs & J1 & J2 & J4 & J5) He.
  destruct (J4 e) as [Hwf Hin]; [left|].
  destruct e as [pd0 rev0|pd0|pd0]; simpl in He, Hwf, Hin.
  - destruct Hwf as (path & -> & Hp). rewrite tail_remote in He.
    destruct He as [-> [(Es & Ex & Ed & Ep & x & Hx & Hrev)|Ht]].
    + split; [|by rewrite Ex, Ep].
      assert (ok_key m ("/" +:+ path)) as Hok0.
      { destruct (J2 ("/" +:+ path) rev0) as [[sz Hp0]|?]; [left|..|done].
        intros rev sz' H. rewrite Hp0 in H. simplify_eq. rewrite tail_remote. eauto. }
      split_and!.
      * by eapply sound_from.
      * intros pd Hpd. rewrite Ex in Hpd.
        destruct (decide (pd = "/" +:+ path)) as [->|Hne].
        -- left. split; [eapply ok_key_same; [done|by rewrite Ex|done]|].
           rewrite tail_remote. apply elem_of_union. left. by apply elem_of_singleton.
        -- destruct (J1 pd Hpd) as [[Hok Hc]|[rev Hrem]].
           ++ left. split; [eapply ok_key_same; [done|by rewrite Ex|done]|].
              apply elem_of_union. by right.
           ++ right. exists rev. apply elem_of_cons in Hrem as [[= ? ?]|?]; done.
      * intros pd rev Hrem. rewrite Ex.
        destruct (J2 pd rev) as [?|Hok]; [by right|by left|right].
        eapply ok_key_same; [done|by rewrite Ex|done].
      * intros e He. destruct (J4 e) as [? ?]; [by right|]. by rewrite Ex.
      * intros p [->%elem_of_singleton|Hp']%elem_of_union; rewrite Ex; [done|by apply J5].
    + pose proof Ht as (x & sz & Es & Ho & Hoth & Hl & _ & Ep & Hs').
      split; [|done]. split_and!.
      * done.
      * intros pd Hpd. apply (transferred_objects _ _ _ _ Ht) in Hpd.
        destruct (decide (pd = "/" +:+ path)) as [->|Hne].
        -- left. split; [by eapply transferred_ok_key|]. rewrite tail_remote.
           apply elem_of_union. left. by apply elem_of_singleton.
        -- destruct Hpd as [?|Hpd]; [done|].
           destruct (J1 pd Hpd) as [[Hok Hc]|[rev Hrem]].
           ++ left. split; [by apply (transferred_other path m m' pd)|].
              apply elem_of_union. by right.
           ++ right. exists rev. apply elem_of_cons in Hrem as [[= ? ?]|?]; done.
      * intros pd rev Hrem. destruct (decide (pd = "/" +:+ path)) as [->|Hne].
        -- right. by eapply transferred_ok_key.
        -- rewrite (Hoth _ Hne). destruct (J2 pd rev) as [?|Hok]; [by right|by left|right].
           by apply (transferred_other path m m' pd).
      * intros e He. destruct (J4 e) as [? He']; [by right|]. split; [done|].
        destruct e; [|done..]. apply (transferred_objects _ _ _ _ Ht). by right.
      * intros p Hp'. apply (transferred_objects _ _ _ _ Ht).
        apply elem_of_union in Hp' as [->%elem_of_singleton|Hp']; [by left|right; by apply J5].
  - destruct He as (-> & Es & Ex & Ep & Hs'). split; [|by rewrite Ex, Ep]. split_and!.
    + done.
    + intros pd Hpd. rewrite Ex in Hpd. destruct (J1 pd Hpd) as [[Hok Hc]|[rev Hrem]].
      * left. split; [eapply ok_key_same; [done|by rewrite Ex|done]|done].
      * right. exists rev. apply elem_of_cons in Hrem as [[=]|?]; done.
    + intros pd rev Hrem. rewrite Ex.
      destruct (J2 pd rev) as [?|Hok]; [by right|by left|right].
      eapply ok_key_same; [done|by rewrite Ex|done].
    + intros e He. destruct (J4 e) as [? ?]; [by right|]. by rewrite Ex.
    + intros p Hp'. rewrite Ex. by apply J5.
  - destruct He as (-> & Es & Ex & Ep & Hs'). split; [|by rewrite Ex, Ep]. split_and!.
    + done.
    + intros pd Hpd. rewrite Ex in Hpd. destruct (J1 pd Hpd) as [[Hok Hc]|[rev Hrem]].
      * left. split; [eapply ok_key_same; [done|by rewrite Ex|done]|done].
      * right. exists rev. apply elem_of_cons in Hrem as [[=]|?]; done.
    + intros pd rev Hrem. rewrite Ex.
      destruct (J2 pd rev) as [?|Hok]; [by right|by left|right].
      eapply ok_key_same; [done|by rewrite Ex|done].
    + intros e He. destruct (J4 e) as [? ?]; [by right|]. by rewrite Ex.
    + intros p Hp'. rewrite Ex. by apply J5.
Qed.

End Listing1.

Section Listing2.

Implicit Types m : Machine Store.

Lemma entries_loop es : ∀ pr cur m cur' m' rest,
  listing_inv m (es ++ rest) cur →
  process_remote_entries_from es pr cur m = (Done cur', m') →
  listing_inv m' rest cur'
  ∧ listings (dbx m') = listings (dbx m) ∧ pickled m' = pickled m.
Proof.
  induction es as [|e es IH]; intros pr cur m cur' m' rest Hinv H; simpl in H.
  - unfold ret in H. by simplify_eq.
  - apply bind_inv_Done in H as ([pr1 cur1] & m1 & H1 & H).
    pose proof Hinv as (Hs & _ & _ & J4 & _).
    destruct (J4 e) as [Hwf _]; [left|].
    apply process_remote_entry_Done in H1; [|done..]. simpl in H1.
    destruct (listing_inv_step _ _ _ _ _ _ Hinv H1) as (Hinv1 & El & Ep).
    destruct (IH _ _ _ _ _ _ Hinv1 H) as (Hinv' & El' & Ep').
    split; [done|]. split; congruence.
Qed.

Lemma listing_inv_same m m' rem cur :
  state m' = state m → disk m' = disk m → same_content (dbx m) (dbx m') →
  listing_inv m rem cur → listing_inv m' rem cur.
Proof.
  intros Es Ed Hsame (Hs & J1 & J2 & J4 & J5). pose proof Hsame as (Eo & _).
  unfold listing_inv. rewrite Eo. split_and!; [|intros pd Hpd| |done..].
  - destruct Hs as (? & ? & ?). split_and!; [by rewrite Ed|by eapply same_content_wf|by rewrite Es].
  - destruct (J1 pd Hpd) as [[Hok ?]|?]; [left|by right]. split; [|done].
    by eapply ok_key_same.
  - intros pd rev Hrem. destruct (J2 pd rev Hrem) as [?|Hok]; [by left|right].
    by eapply ok_key_same.
Qed.

Lemma pages_loop n : ∀ res cur m left cur' m',
  listing_inv m (entries res ++ mjoin left) cur →
  listing_state (dbx m) res left →
  execute_delta_pages n res cur m = (Done cur', m') →
  listing_inv m' [] cur' ∧ pickled m' = pickled m.
Proof.
  induction n as [|n IH]; intros res cur m left cur' m' Hinv Hls H; simpl in H.
  - apply bind_inv_Done in H as (cur1 & m1 & H1 & H).
    apply entries_loop with (rest := mjoin left) in H1 as (Hinv1 & El & Ep); [|done].
    unfold listing_state in Hls. destruct (has_more res); simpl in H; [done|].
    unfold ret in H. simplify_eq. done.
  - apply bind_inv_Done in H as (cur1 & m1 & H1 & H).
    apply entries_loop with (rest := mjoin left) in H1 as (Hinv1 & El & Ep); [|done].
    unfold listing_state in Hls. destruct (has_more res); simpl in H.
    + destruct Hls as [Hl Hne]. rewrite <- El in Hl.
      apply bind_inv_Done in H as (res' & m2 & H2 & H).
      apply call_Done in H2 as [Em2 Hc].
      change (files_list_folder_continue (cursor res))
        with (Store.guarded (Store.list_folder_continue (cursor res))) in Hc.
      pose proof Hinv1 as (Hs1 & _).
      rewrite guarded_no_faults in Hc by (by apply wf_store_faults, sound_store).
      destruct (list_folder_continue_spec _ _ _ Hl Hne) as (r & left' & s' & Hc' & Hsame & _ & Ej & Hls').
      rewrite Hc' in Hc. injection Hc as -> ->.
      apply IH with (left := left') in H as (Hinv' & Ep'); [|..|done].
      * split; [done|]. rewrite Ep', Em2. simpl. done.
      * rewrite Ej. eapply listing_inv_same; [..|done]; by rewrite Em2.
    + subst left. unfold ret in H. simplify_eq. done.
Qed.

Lemma listing_Done n m cur m' :
  sound m → execute_delta_listing n m = (Done cur, m') →
  listing_inv m' [] cur ∧ pickled m' = pickled m.
Proof.
  intros Hs H. unfold execute_delta_listing in H.
  apply bind_inv_Done in H as (res & m1 & H1 & H).
  apply call_Done in H1 as [Em1 Hc].
  change (files_list_folder "" true) with (Store.guarded (Store.list_folder "" true)) in Hc.
  rewrite guarded_no_faults in Hc by (by apply wf_store_faults, sound_store).
  apply list_folder_spec in Hc as [Hsame Hres].
  destruct (Hres res eq_refl) as (_ & left & Ej & Hls).
  apply pages_loop with (left := left) in H as (Hinv & Ep); [| |done].
  { split; [done|]. by rewrite Ep, Em1. }
  rewrite Ej. eapply (listing_inv_same m); [by rewrite Em1..|done|].
  pose proof (sound_store _ Hs) as Hwf.
  split_and!; [done| | | |].
  - intros pd [[rev sz] Hpd]. right. exists rev. by eapply contents_root_complete.
  - intros pd rev Hin. left. by apply contents_entry_of in Hin.
  - intros e Hin. split.
    + pose proof (contents_selected_wf _ _ _ _ Hwf Hin). by destruct e.
    + apply contents_entry_of in Hin. destruct e; [|done..]. destruct Hin as [sz Hin]. eauto.
  - intros p Hp. by apply elem_of_empty in Hp.
Qed.

(** the loop that deletes what the listing no longer shows *)
Lemma deletions_Done cur m m' :
  listing_inv m [] cur → execute_delta_deletions cur m = (Done (), m') →
  sound m' ∧ mirror m' ∧ pickled m' = pickled m.
Proof.
  intros (Hs & J1 & _ & _ & J5) H. unfold execute_delta_deletions in H.
  apply bind_inv_Done in H as (keys & m1 & H1 & H). injection H1 as <- <-.
  pose (I := λ (rest : list string) m1,
    sound m1 ∧ pickled m1 = pickled m
    ∧ (∀ pd, is_Some (objects (dbx m1) !! pd) → ok_key m1 pd ∧ Py.tail pd ∈ cur)
    ∧ (∀ p, p ∈ cur → is_Some (objects (dbx m1) !! ("/" +:+ p)))
    ∧ (∀ p, is_Some (remote_files (state m1) !! p) → p ∈ cur ∨ p ∈ rest)).
  assert (I [] m') as (Hs' & Ep & K1 & K5 & K6).
  { eapply (triple_for_each I); [|..|exact H].
    - intros x rest m1 [] m2 (Hs1 & Ep1 & K1 & K5 & K6) Hb. unfold I.
      case_bool_decide as Hx.
      + apply bind_inv_Done in Hb as (tracked & m3 & H3 & Hb).
        apply in_local_Done in H3 as [-> ->]. case_bool_decide as Ht.
        * apply delete_local_Done in Hb as (Es & Ex & Ep2 & Hs2); [|done].
          split_and!; [done|congruence|..].
          -- intros pd Hpd. rewrite Ex in Hpd. destruct (K1 pd Hpd) as [Hok Hc].
             split; [|done]. intros rev sz Ho. rewrite Ex in Ho.
             destruct (Hok _ _ Ho) as (y & Hy & Hrev). exists y. split; [|done].
             rewrite Es. unfold untrack. simpl. rewrite lookup_delete_ne; [done|].
             by intros ->.
          -- intros p Hp. rewrite Ex. by apply K5.
          -- intros p Hp. rewrite Es in Hp. unfold untrack in Hp. simpl in Hp.
             apply lookup_delete_is_Some in Hp as [Hne Hp].
             destruct (K6 p Hp) as [?|[->|?]%elem_of_cons]; [by left|done|by right].
        * unfold ret in Hb. simplify_eq. do 4 (split; [done|]).
          intros p Hp. destruct (K6 p Hp) as [?|[->|?]%elem_of_cons]; [by left| |by right].
          destruct Hs1 as (_ & _ & Hag). destruct Ht. by apply Hag.
      + unfold ret in Hb. simplify_eq. do 4 (split; [done|]).
        intros p Hp. destruct (K6 p Hp) as [?|[->|?]%elem_of_cons]; [by left| |by right].
        by left.
    - unfold I. split_and!; [done|done| |done|].
      + intros pd Hpd. destruct (J1 pd Hpd) as [?|[rev Hin]]; [done|].
        by apply elem_of_nil in Hin.
      + intros p [x Hp]. right. apply list_elem_of_fmap. exists (p, x). split; [done|].
        by apply elem_of_map_to_list. }
  split_and!; [done| |done]. split.
  - intros pd rev sz Ho. destruct (K1 pd) as [Hok _]; [eauto|]. by eapply Hok.
  - intros p Hp. apply K5. destruct (K6 p Hp) as [?|Hin]; [done|]. by apply elem_of_nil in Hin.
Qed.

Lemma check_remote_Done n m m' :
  sound m → check_remote n m = (Done (), m') →
  sound m' ∧ mirror m' ∧ pickled m' = pickled m.
Proof.
  intros Hs H. unfold check_remote, execute_delta in H.
  apply bind_inv_Done in H as (cur & m1 & H1 & H).
  apply listing_Done in H1 as [Hinv Ep]; [|done].
  apply deletions_Done in H as (? & ? & ?); [|done]. split_and!; [done..|congruence].
Qed.

End Listing2.

Section LocalPass.

Implicit Types m : Machine Store.

Lemma mirror_transferred p m m' : sound m → mirror m → transferred p m m' → mirror m'.
Proof.
  intros Hs [Hok Hrem] Ht. split.
  - intros pd. destruct (decide (pd = "/" +:+ p)) as [->|Hne].
    + by eapply transferred_ok_key.
    + by apply (transferred_other p m m' pd).
  - intros q Hq. apply (transferred_objects _ _ _ _ Ht).
    destruct Ht as (x & sz & Es & _). rewrite Es in Hq. unfold track in Hq. simpl in Hq.
    apply lookup_insert_is_Some' in Hq as [->|Hq]; [by left|right; by apply Hrem].
Qed.

Lemma mirror_untrack p m m' :
  sound m → mirror m → state m' = untrack p (state m) →
  objects (dbx m') = delete ("/" +:+ p) (objects (dbx m)) → mirror m'.
Proof.
  intros Hs [Hok Hrem] Es Eo. split.
  - intros pd rev sz Ho. rewrite Eo in Ho. apply lookup_delete_Some in Ho as [Hne Ho].
    destruct (Hok _ _ _ Ho) as (y & Hy & Hrev). exists y. split; [|done].
    rewrite Es. unfold untrack. simpl. rewrite lookup_delete_ne; [done|].
    destruct (object_key m pd Hs) as (q & -> & _); [eauto|]. rewrite tail_remote.
    by intros ->.
  - intros q Hq. rewrite Es in Hq. unfold untrack in Hq. simpl in Hq.
    apply lookup_delete_is_Some in Hq as [Hne Hq]. rewrite Eo.
    apply lookup_delete_is_Some. split; [|by apply Hrem].
    intros E%remote_key_inj. by subst.
Qed.

Lemma up_to_date_transferred fs p q m m' :
  transferred p m m' → q ≠ p → up_to_date fs m q → up_to_date fs m' q.
Proof.
  intros (x & sz & Es & _) Hne (Hr & y & t & Hy & Ht). unfold up_to_date.
  rewrite Es. unfold track. simpl. rewrite !lookup_insert_ne by done. eauto 10.
Qed.

Lemma up_to_date_untrack fs p q m m' :
  state m' = untrack p (state m) → q ≠ p → up_to_date fs m q → up_to_date fs m' q.
Proof.
  intros Es Hne (Hr & y & t & Hy & Ht). unfold up_to_date.
  rewrite Es. unfold untrack. simpl. rewrite !lookup_delete_ne by done. eauto 10.
Qed.

Lemma write_isfile fs p size fs' :
  Os.write fs p size = Some fs' → p ≠ "." → Os.isfile fs' p = true.
Proof.
  unfold Os.write. destruct (_ || _ || _); [done|]. intros [= <-] Hp.
  unfold Os.isfile, Os.node_at. simpl. rewrite bool_decide_eq_false_2 by done.
  by rewrite lookup_insert_eq.
Qed.

Lemma save_state_Done m m' :
  sound m → save_state m = (Done (), m') →
  state m' = state m ∧ dbx m' = dbx m ∧ pickled m' = Some (state m)
  ∧ Os.isfile (disk m') STATE_FILENAME = true
  ∧ files_same (disk m) (disk m') ∧ sound m'.
Proof.
  intros (Hfs & Hst & Hag) H. unfold save_state in H.
  apply bind_inv_Done in H as (s & m1 & H1 & H). injection H1 as <- <-.
  apply bind_inv_Done in H as ([] & m1 & H1 & H).
  apply os_do_Done in H1 as (fs & Hw & ->). injection H as <-. simpl.
  split_and!; [done..|by eapply write_isfile|by eapply write_state_same|].
  split_and!; simpl; [|done..]. eapply write_wf; [done| |done]. apply state_file_wf.
Qed.

Lemma listed_wf fs p : wf_fs fs → listed fs p → wf_path p.
Proof. intros Hwf ((t & s & l & Hf) & _). by eapply node_wf. Qed.

(** [check_local], when it returns *)
Lemma check_local_Done n m m' :
  sound m → mirror m → check_local n m = (Done (), m') →
  sound m' ∧ mirror m' ∧ pickled m' = pickled m ∧ files_same (disk m) (disk m')
  ∧ (∀ p, is_Some (local_files (state m') !! p) → listed (disk m) p)
  ∧ (∀ p, listed (disk m) p → up_to_date (disk m) m' p).
Proof.
  intros Hs Hmir H. unfold check_local in H.
  apply bind_inv_Done in H as (walk & m1 & H1 & H). apply os_read_Done in H1 as [-> ->].
  pose proof Hs as (Hfs & _).
  set (filelist := check_local_walk (Os.walk (disk m)) [] ∅) in *.
  assert (∀ p, p ∈ filelist ↔ listed (disk m) p) as Hlist by (intros p; by apply walk_listed).
  apply bind_inv_Done in H as ([] & m1 & H1 & H).
  pose (IC := λ (rest : list string) m1,
    sound m1 ∧ mirror m1 ∧ disk m1 = disk m ∧ pickled m1 = pickled m
    ∧ (∀ p, p ∈ rest → listed (disk m) p)
    ∧ (∀ p, listed (disk m) p → p ∈ rest ∨ up_to_date (disk m) m1 p)).
  assert (IC [] m1) as (Hs1 & Hmir1 & Ed1 & Ep1 & _ & Hdone).
  { eapply (triple_for_each IC); [|..|exact H1].
    - intros x rest m2 [] m3 (Hs2 & Hmir2 & Ed2 & Ep2 & Hrest & Hd) Hb. unfold IC.
      assert (listed (disk m) x) as Hx by (apply Hrest; left).
      pose proof (listed_wf _ _ Hfs Hx) as Hwx.
      apply check_state_Done in Hb as [[Ht Ed]|(-> & Hr & y & t & Hy & Hmt & Hle)]; [| |done..].
      + pose proof Ht as (y & sz & Es & _ & _ & _ & Hmt & Ep & Hs3).
        split; [done|]. split; [by apply (mirror_transferred x m2 m3)|].
        split; [congruence|]. split; [congruence|]. split.
        * intros p Hp. apply Hrest. by right.
        * intros p Hp. destruct (decide (p = x)) as [->|Hne].
          -- right. split.
             ++ rewrite Es. unfold track. simpl. by rewrite lookup_insert_eq.
             ++ exists y, (modified y). rewrite Es. unfold track. simpl.
                rewrite lookup_insert_eq. split_and!; [done| |lia]. by rewrite <- Ed2, <- Ed.
          -- destruct (Hd p Hp) as [[?|?]%elem_of_cons|?]; [done|by left|right].
             by eapply up_to_date_transferred.
      + do 4 (split; [done|]). split.
        * intros p Hp. apply Hrest. by right.
        * intros p Hp. destruct (decide (p = x)) as [->|Hne].
          -- right. split; [done|]. exists y, t. by rewrite <- Ed2.
          -- destruct (Hd p Hp) as [[?|?]%elem_of_cons|?]; [done|by left|by right].
    - unfold IC. do 4 (split; [done|]). split.
      + intros p Hp. by apply Hlist.
      + intros p Hp. left. by apply Hlist. }
  assert (∀ p, listed (disk m) p → up_to_date (disk m) m1 p) as Hup.
  { intros p Hp. destruct (Hdone p Hp) as [Hin|?]; [|done]. by apply elem_of_nil in Hin. }
  clear Hdone H1.
  apply bind_inv_Done in H as (oldlist & m2 & H2 & H). injection H2 as <- <-.
  pose (ID := λ (rest : list string) m2,
    sound m2 ∧ mirror m2 ∧ files_same (disk m) (disk m2) ∧ pickled m2 = pickled m
    ∧ NoDup rest
    ∧ (∀ p, p ∈ rest → is_Some (local_files (state m2) !! p))
    ∧ (∀ p, is_Some (local_files (state m2) !! p) → listed (disk m) p ∨ p ∈ rest)
    ∧ (∀ p, listed (disk m) p → up_to_date (disk m) m2 p)).
  assert (ID [] m') as (Hs' & Hmir' & Hsame' & Ep' & _ & _ & Hkeys & Hup').
  { eapply (triple_for_each ID); [|..|exact H].
    - intros x rest m2 [] m3 (Hs2 & Hmir2 & Hsame2 & Ep2 & Hnd & Hrest & Hkeys & Hup2) Hb.
      unfold ID. apply NoDup_cons in Hnd as [Hni Hnd].
      case_bool_decide as Hx.
      + assert (is_Some (local_files (state m2) !! x)) as Htx by (apply Hrest; left).
        assert (is_Some (objects (dbx m2) !! ("/" +:+ x))) as Hox.
        { destruct Hmir2 as [_ Hrem]. apply Hrem. destruct Hs2 as (_ & _ & Hag). by apply Hag. }
        apply delete_remote_Done in Hb as (Es & Eo & Ep & Hs3 & Hsame3); [|done..].
        split; [done|]. split; [by apply (mirror_untrack x m2 m3)|].
        split; [by etrans|]. split; [congruence|]. split; [done|]. split_and!.
        * intros p Hp. rewrite Es. unfold untrack. simpl.
          apply lookup_delete_is_Some. split; [by intros ->|]. apply Hrest. by right.
        * intros p Hp. rewrite Es in Hp. unfold untrack in Hp. simpl in Hp.
          apply lookup_delete_is_Some in Hp as [Hne Hp].
          destruct (Hkeys p Hp) as [?|[?|?]%elem_of_cons]; [by left|done|by right].
        * intros p Hp. eapply up_to_date_untrack; [done| |by apply Hup2].
          intros ->. apply Hx. by apply Hlist.
      + unfold ret in Hb. simplify_eq. do 4 (split; [done|]). split; [done|]. split_and!.
        * intros p Hp. apply Hrest. by right.
        * intros p Hp. destruct (Hkeys p Hp) as [?|[->|?]%elem_of_cons]; [by left| |by right].
          left. by apply Hlist.
        * done.
    - unfold ID. split_and!; [done|done|by rewrite Ed1|done| | | |done].
      + apply NoDup_fst_map_to_list.
      + intros p (kv & -> & Hkv)%list_elem_of_fmap. destruct kv as [k v].
        apply elem_of_map_to_list in Hkv. simpl. eauto.
      + intros p [v Hp]. right. apply list_elem_of_fmap. exists (p, v). split; [done|].
        by apply elem_of_map_to_list. }
  split_and!; [done..| |done].
  intros p Hp. destruct (Hkeys p Hp) as [?|Hin]; [done|]. by apply elem_of_nil in Hin.
Qed.

End LocalPass.

Section FirstRun.

Implicit Types m : Machine Store.

Lemma mirror_same m m' :
  state m' = state m → objects (dbx m') = objects (dbx m) → mirror m → mirror m'.
Proof. unfold mirror, ok_key. by intros -> ->. Qed.

Lemma agree_init : agree DropboxState_init.
Proof. intros p. simpl. by rewrite !lookup_empty. Qed.

Lemma load_state_Done m m' :
  world_ok m → load_state m = (Done (), m') →
  sound m' ∧ disk m' = disk m ∧ dbx m' = dbx m ∧ pickled m' = pickled m.
Proof.
  intros (Hfs & Hst & Hag). unfold load_state.
  destruct (if Os.isfile (disk m) STATE_FILENAME then pickled m else None) as [s|] eqn:E;
    intros [= <-]; simpl; (split_and!; [|done..]); (split_and!; simpl; [done|done|]).
  - apply Hag. by destruct (Os.isfile (disk m) STATE_FILENAME).
  - apply agree_init.
Qed.

(** a run that has a client and completes ends settled *)
Lemma main_settles setup n m m' :
  world_ok m → (init_dropbox setup m).1 = Done true →
  main setup n m = (Done (), m') → settled m'.
Proof.
  intros Hw Hinit H. rewrite (main_passes _ _ _ Hinit) in H. unfold passes in H.
  apply bind_inv_Done in H as ([] & m1 & H1 & H).
  apply load_state_Done in H1 as (Hs1 & Ed1 & Ex1 & Ep1); [|done].
  apply bind_inv_Done in H as ([] & m2 & H2 & H).
  apply check_remote_Done in H2 as (Hs2 & Hmir2 & Ep2); [|done].
  apply bind_inv_Done in H as ([] & m3 & H3 & H).
  apply save_state_Done in H3 as (Es3 & Ex3 & Ep3 & _ & _ & Hs3); [|done].
  apply bind_inv_Done in H as ([] & m4 & H4 & H).
  assert (mirror m3) as Hmir3 by (apply (mirror_same m2); [done|by rewrite Ex3|done]).
  apply check_local_Done in H4 as (Hs4 & Hmir4 & Ep4 & Hsame4 & Hkeys4 & Hup4); [|done..].
  apply bind_inv_Done in H as ([] & m5 & H5 & H).
  apply save_state_Done in H5 as (Es5 & Ex5 & Ep5 & Hfile5 & Hsame5 & Hs5); [|done].
  apply print_Done in H. subst m'. unfold settled. simpl.
  assert (files_same (disk m3) (disk m5)) as Hsame by (by etrans).
  destruct Hs3 as (Hfs3 & _). pose proof Hs5 as (Hfs5 & _).
  split_and!.
  - done.
  - apply (mirror_same m4); [done|by rewrite Ex5|done].
  - by rewrite Ep5, Es5.
  - done.
  - intros p Hp. rewrite Es5 in Hp. eapply listed_same; [done|]. by apply Hkeys4.
  - intros p Hp. assert (listed (disk m3) p) as Hp3.
    { eapply listed_same; [|done]. by symmetry. }
    destruct (Hup4 p Hp3) as (Hr & x & t & Hx & Hmt & Hle). split; simpl.
    + by rewrite Es5.
    + exists x, t. rewrite Es5. split_and!; [done| |done].
      by rewrite (mtime_same (disk m3) (disk m5)).
Qed.

End FirstRun.

(** ** The run after a completed run *)

Section SecondRun.

Context (m0 : Machine Store).
Implicit Types m : Machine Store.

Lemma steady_refl : settled m0 → steady m0 m0.
Proof.
  intros Hs. pose proof Hs as ((Hfs & _) & _). by split_and!.
Qed.

(** one quiet step *)
Lemma steady_step m m' evs :
  steady m0 m → state m' = state m → pickled m' = pickled m →
  same_content (dbx m) (dbx m') →
  (disk m' = disk m
   ∨ (files_same (disk m) (disk m') ∧ files_kept (disk m) (disk m') ∧ wf_fs (disk m'))) →
  trace m' = trace m ++ evs → Forall calm evs →
  steady m0 m'.
Proof.
  intros (Hs & Es & Ep & Hx & Hsame & Hkept & Hfs & Ht) Es' Ep' Hx' Hd Et Hevs.
  assert (files_same (disk m0) (disk m') ∧ files_kept (disk m0) (disk m') ∧ wf_fs (disk m'))
    as (? & ? & ?).
  { destruct Hd as [->|(? & ? & ?)]; [done|]. split_and!; [by etrans| |done].
    intros p Hp. auto. }
  split_and!; try done; try congruence.
  - by etrans.
  - etrans; [exact Ht|]. by exists evs.
Qed.

Lemma steady_faults m : steady m0 m → faults (dbx m) = [].
Proof.
  intros (((_ & Hwf & _) & _) & _ & _ & (_ & _ & -> & _) & _). by apply wf_store_faults.
Qed.

Lemma steady_wf_store m : steady m0 m → wf_store (dbx m).
Proof.
  intros (((_ & Hwf & _) & _) & _ & _ & Hx & _). by eapply same_content_wf.
Qed.

Lemma entry_of_same s s' e : same_content s s' → entry_of s e → entry_of s' e.
Proof. intros (Eo & Ef & _). destruct e; simpl; by rewrite ?Eo, ?Ef. Qed.

(** handling an entry of a listing of the settled store *)
Lemma entry_quiet e pr cur m :
  steady m0 m → entry_of (dbx m0) e →
  let r := process_remote_entry e pr cur m in
  steady m0 r.2 ∧ dbx r.2 = dbx m
  ∧ ∀ a, r.1 = Done a →
      a.2 = match e with FileMetadata pd _ => {[Py.tail pd]} ∪ cur | _ => cur end.
Proof.
  intros Hst He. pose proof Hst as (Hs & Es & Ep & Hx & Hsame & Hkept & Hfs & Ht).
  destruct e as [pd rev|pd|pd]; simpl in He; [| |done].
  - destruct He as [sz Ho]. destruct Hs as (_ & [Hok _] & _).
    destruct (Hok pd _ _ Ho) as (x & Hx0 & Hrev).
    assert (process_remote_entry (FileMetadata pd rev) pr cur m
            = (Done (pr, {[Py.tail pd]} ∪ cur), m)) as ->.
    { cbn [process_remote_entry]. unfold bind, in_local, get_local, ret. rewrite Es, Hx0.
      rewrite bool_decide_eq_true_2 by eauto. cbn [negb]. rewrite Es, Hx0.
      rewrite bool_decide_eq_false_2; [done|]. intros Hne. by apply Hne. }
    simpl. split_and!; [done..|]. by intros a [= <-].
  - destruct Hs as ((_ & Hwf & _) & _). destruct Hwf as (_ & Hfk & _).
    destruct (Hfk _ He) as (path & -> & Hp).
    cbn [process_remote_entry]. rewrite tail_remote. unfold make_local_dir. run.
    destruct (Os.exists_ (disk m) path) eqn:Hex; simpl.
    { split_and!; [done..|]. by intros a [= <-]. }
    rewrite Hex. simpl. destruct (Os.makedirs (disk m) path) as [fs|] eqn:Hmk; simpl.
    + split_and!; [|done|by intros a [= <-]].
      destruct (makedirs_wf _ _ _ Hmk Hp Hfs) as [Hfs' Hsame'].
      eapply (steady_step m _ [Print (MakingDirectory path)]); try done.
      * right. split_and!; [done| |done]. by eapply makedirs_files_kept.
      * by repeat constructor.
    + split_and!; [|done..].
      eapply (steady_step m _ [Print (MakingDirectory path)]); try done.
      * by left.
      * by repeat constructor.
Qed.

Lemma entries_quiet es : ∀ pr cur m,
  steady m0 m → (∀ e, e ∈ es → entry_of (dbx m0) e) →
  let r := process_remote_entries_from es pr cur m in
  steady m0 r.2 ∧ dbx r.2 = dbx m
  ∧ ∀ cur', r.1 = Done cur' →
      ∀ p, (p ∈ cur ∨ ∃ rev, FileMetadata ("/" +:+ p) rev ∈ es) → p ∈ cur'.
Proof.
  induction es as [|e es IH]; intros pr cur m Hst Hes; simpl.
  - split_and!; [done..|]. intros cur' [= <-] p [?|[rev Hin]]; [done|].
    by apply elem_of_nil in Hin.
  - destruct (entry_quiet e pr cur m Hst) as (Hst1 & Ex1 & Hcur1); [apply Hes; left|].
    destruct (process_remote_entry e pr cur m) as [[[pr1 cur1]|err|] m1] eqn:E; simpl in *.
    + rewrite (bind_Done _ _ _ _ _ E).
      destruct (IH pr1 cur1 m1 Hst1) as (Hst2 & Ex2 & Hcur2).
      { intros e' He'. apply Hes. by right. }
      split_and!; [done|congruence|].
      intros cur' Hd p Hp. apply (Hcur2 cur' Hd). specialize (Hcur1 _ eq_refl). simpl in Hcur1.
      destruct Hp as [Hp|[rev [E'|Hin]%elem_of_cons]].
      * left. rewrite Hcur1. destruct e; [apply elem_of_union; by right|done..].
      * left. subst e. rewrite Hcur1, tail_remote. apply elem_of_union. left.
        by apply elem_of_singleton.
      * right. eauto.
    + rewrite (bind_Raised _ _ _ _ _ E). simpl. by split_and!.
    + rewrite (bind_Spinning _ _ _ _ E). simpl. by split_and!.
Qed.

End SecondRun.

Section SecondRun2.

Context (m0 : Machine Store).
Implicit Types m : Machine Store.

Lemma steady_call {A} (r : request) (f : Store → option A * Store) m :
  steady m0 m → calm (Request r) →
  (∀ s, same_content s (f s).2) →
  steady m0 (call r (Store.guarded f) m).2.
Proof.
  intros Hst Hr Hf. unfold call. rewrite (guarded_no_faults _ _ (steady_faults m0 m Hst)).
  specialize (Hf (dbx m)). destruct (f (dbx m)) as [[a|] s]; simpl in *;
    (eapply (steady_step m0 m _ [Request r]); [done..|by left|done|by repeat constructor]).
Qed.

Lemma list_folder_same dir recursive s :
  same_content s (Store.list_folder dir recursive s).2.
Proof.
  destruct (Store.list_folder dir recursive s) as [r s'] eqn:E.
  by apply list_folder_spec in E as [? _].
Qed.

Lemma list_folder_continue_same cur s :
  same_content s (Store.list_folder_continue cur s).2.
Proof.
  unfold Store.list_folder_continue. destruct (listings s !! cur) as [[|page rest]|]; [done| |done].
  destruct (Store.serve s cur (page :: rest)) as [r s'] eqn:E. simpl.
  unfold Store.serve in E. by injection E as <- <-.
Qed.

Lemma pages_quiet n : ∀ res cur m left,
  steady m0 m → listing_state (dbx m) res left →
  (∀ e, e ∈ entries res ++ mjoin left → entry_of (dbx m0) e) →
  let r := execute_delta_pages n res cur m in
  steady m0 r.2
  ∧ ∀ cur', r.1 = Done cur' →
      ∀ p, (p ∈ cur ∨ ∃ rev, FileMetadata ("/" +:+ p) rev ∈ entries res ++ mjoin left) →
           p ∈ cur'.
Proof.
  induction n as [|n IH]; intros res cur m left Hst Hls Hes.
  - cbn [execute_delta_pages]. unfold process_remote_entries.
    destruct (entries_quiet m0 (entries res) None cur m Hst) as (Hst1 & Ex1 & Hcur1).
    { intros e He. apply Hes, elem_of_app. by left. }
    destruct (process_remote_entries_from (entries res) None cur m) as [[cur1|err|] m1] eqn:E;
      simpl in *.
    + rewrite (bind_Done _ _ _ _ _ E). unfold listing_state in Hls.
      destruct (has_more res); simpl; [done|]. subst left. split; [done|].
      intros cur' [= <-] p Hp. apply (Hcur1 _ eq_refl).
      by rewrite app_nil_r in Hp.
    + rewrite (bind_Raised _ _ _ _ _ E). by split.
    + rewrite (bind_Spinning _ _ _ _ E). by split.
  - cbn [execute_delta_pages]. unfold process_remote_entries.
    destruct (entries_quiet m0 (entries res) None cur m Hst) as (Hst1 & Ex1 & Hcur1).
    { intros e He. apply Hes, elem_of_app. by left. }
    destruct (process_remote_entries_from (entries res) None cur m) as [[cur1|err|] m1] eqn:E;
      simpl in *.
    + rewrite (bind_Done _ _ _ _ _ E). unfold listing_state in Hls.
      destruct (has_more res); simpl.
      * destruct Hls as [Hl Hne]. rewrite <- Ex1 in Hl.
        change (files_list_folder_continue (cursor res))
          with (Store.guarded (Store.list_folder_continue (cursor res))).
        pose proof (steady_call (ListFolderContinue (cursor res))
          (Store.list_folder_continue (cursor res)) m1 Hst1 eq_refl
          (list_folder_continue_same (cursor res))) as Hst2.
        destruct (list_folder_continue_spec _ _ _ Hl Hne)
          as (r & left' & s' & Hc' & Hsame & _ & Ej & Hls').
        destruct (call _ _ m1) as [[res'|err|] m2] eqn:Ec; simpl in Hst2.
        -- rewrite (bind_Done _ _ _ _ _ Ec).
           apply call_Done in Ec as [Em2 Hc].
           rewrite guarded_no_faults in Hc by (by eapply steady_faults).
           rewrite Hc' in Hc. injection Hc as -> ->.
           destruct (IH res' cur1 m2 left' Hst2 Hls') as (Hst3 & Hcur3).
           { intros e He. apply Hes. rewrite elem_of_app. right. by rewrite <- Ej. }
           split; [done|]. intros cur' Hd p Hp. apply (Hcur3 _ Hd).
           destruct Hp as [Hp|[rev Hin]].
           ++ left. apply (Hcur1 _ eq_refl). by left.
           ++ apply elem_of_app in Hin as [Hin|Hin].
              ** left. apply (Hcur1 _ eq_refl). right. eauto.
              ** right. exists rev. by rewrite Ej.
        -- rewrite (bind_Raised _ _ _ _ _ Ec). by split.
        -- rewrite (bind_Spinning _ _ _ _ Ec). by split.
      * subst left. split; [done|]. intros cur' [= <-] p Hp. apply (Hcur1 _ eq_refl).
        by rewrite app_nil_r in Hp.
    + rewrite (bind_Raised _ _ _ _ _ E). by split.
    + rewrite (bind_Spinning _ _ _ _ E). by split.
Qed.

Lemma listing_quiet n m :
  steady m0 m →
  let r := execute_delta_listing n m in
  steady m0 r.2
  ∧ ∀ cur, r.1 = Done cur → ∀ p, is_Some (remote_files (state m0) !! p) → p ∈ cur.
Proof.
  intros Hst. unfold execute_delta_listing.
  change (files_list_folder "" true) with (Store.guarded (Store.list_folder "" true)).
  pose proof (steady_call (ListFolder "" true) (Store.list_folder "" true) m Hst eq_refl
                (list_folder_same "" true)) as Hst1.
  destruct (call _ _ m) as [[res|err|] m1] eqn:Ec; simpl in Hst1.
  - rewrite (bind_Done _ _ _ _ _ Ec). apply call_Done in Ec as [Em1 Hc].
    rewrite guarded_no_faults in Hc by (by eapply steady_faults).
    apply list_folder_spec in Hc as [Hsame Hres].
    destruct (Hres res eq_refl) as (_ & left & Ej & Hls).
    pose proof Hst as (Hs & Es & Ep & Hx & _).
    destruct (pages_quiet n res ∅ m1 left Hst1 Hls) as (Hst2 & Hcur).
    { intros e He. rewrite Ej in He. apply contents_entry_of in He.
      eapply entry_of_same; [|done]. destruct Hx as (Eo & Ef & Efl & Eps).
      by split_and!. }
    split; [done|]. intros cur Hd p Hp. apply (Hcur _ Hd). right.
    destruct Hs as (_ & [_ Hrem] & _). destruct (Hrem p Hp) as [[rev sz] Ho].
    exists rev. rewrite Ej. eapply contents_root_complete; [by eapply steady_wf_store|].
    destruct Hx as (-> & _). done.
  - rewrite (bind_Raised _ _ _ _ _ Ec). by split.
  - rewrite (bind_Spinning _ _ _ _ Ec). by split.
Qed.

Lemma for_each_skip {A} (l : list A) (body : A → Prog (Machine Store) unit) m :
  (∀ x, x ∈ l → body x m = (Done (), m)) → for_each l body m = (Done (), m).
Proof.
  induction l as [|x l IH]; intros Hb; simpl; [done|].
  rewrite (bind_Done _ _ _ _ _ (Hb x ltac:(left))). apply IH. intros y Hy. apply Hb. by right.
Qed.

Lemma deletions_quiet cur m :
  steady m0 m → (∀ p, is_Some (remote_files (state m0) !! p) → p ∈ cur) →
  execute_delta_deletions cur m = (Done (), m).
Proof.
  intros (_ & Es & _) Hcur. unfold execute_delta_deletions. unfold bind at 1.
  apply for_each_skip. intros p (kv & -> & Hkv)%list_elem_of_fmap. destruct kv as [k v].
  apply elem_of_map_to_list in Hkv. simpl. rewrite Es in Hkv.
  rewrite bool_decide_eq_false_2; [done|]. intros Hn. apply Hn, Hcur. eauto.
Qed.

Lemma check_remote_quiet n m : steady m0 m → steady m0 (check_remote n m).2.
Proof.
  intros Hst. unfold check_remote, execute_delta.
  destruct (listing_quiet n m Hst) as [Hst1 Hcur].
  destruct (execute_delta_listing n m) as [[cur|err|] m1] eqn:E; simpl in *.
  - rewrite (bind_Done _ _ _ _ _ E). rewrite deletions_quiet; [done..|].
    by apply Hcur.
  - by rewrite (bind_Raised _ _ _ _ _ E).
  - by rewrite (bind_Spinning _ _ _ _ E).
Qed.

Lemma save_state_quiet m : steady m0 m → steady m0 (save_state m).2.
Proof.
  intros Hst. pose proof Hst as (Hs & Es & Ep & Hx & Hsame & Hkept & Hfs & Ht).
  unfold save_state. run.
  destruct (Os.write (disk m) STATE_FILENAME _) as [fs|] eqn:Hw; simpl; [|done].
  eapply (steady_step m0 m _ []); simpl; try done.
  - destruct Hs as (_ & _ & Hp & _). rewrite Ep, Hp. by rewrite Es.
  - right. split_and!.
    + by eapply write_state_same.
    + by eapply write_files_kept.
    + eapply write_wf; [done|apply state_file_wf|done].
  - by rewrite app_nil_r.
Qed.

Lemma steady_listed m p : steady m0 m → listed (disk m) p ↔ listed (disk m0) p.
Proof.
  intros (_ & _ & _ & _ & Hsame & _). split; apply listed_same; [by symmetry|done].
Qed.

Lemma check_state_quiet m p :
  steady m0 m → listed (disk m) p → check_state p m = (Done (), m).
Proof.
  intros Hst Hp. pose proof Hst as (Hs & Es & Ep & Hx & Hsame & Hkept & Hfs & Ht).
  pose proof Hs as ((Hfs0 & _) & _ & _ & _ & _ & Hup).
  apply (steady_listed m p Hst) in Hp.
  destruct (Hup p Hp) as (Hr & x & t & Hxp & Hmt & Hle).
  rewrite <- (mtime_same (disk m0) (disk m)) in Hmt by done.
  unfold check_state, check_local_update. run. rewrite Es.
  rewrite bool_decide_eq_true_2 by done. simpl. rewrite Hmt. simpl. rewrite Es, Hxp.
  simpl. rewrite bool_decide_eq_false_2 by lia. done.
Qed.

Lemma check_local_quiet n m : steady m0 m → check_local n m = (Done (), m).
Proof.
  intros Hst. pose proof Hst as (Hs & Es & Ep & Hx & Hsame & Hkept & Hfs & Ht).
  unfold check_local. unfold bind at 1. unfold os_read.
  assert (∀ p, p ∈ check_local_walk (Os.walk (disk m)) [] ∅ ↔ listed (disk m) p) as Hlist
    by (intros p; by apply walk_listed).
  rewrite (bind_Done _ _ m () m).
  2:{ apply for_each_skip. intros p Hp. apply check_state_quiet; [done|]. by apply Hlist. }
  unfold bind at 1. apply for_each_skip.
  intros p (kv & -> & Hkv)%list_elem_of_fmap. destruct kv as [k v].
  apply elem_of_map_to_list in Hkv. simpl. rewrite Es in Hkv.
  rewrite bool_decide_eq_false_2; [done|]. intros Hn. apply Hn, Hlist, (steady_listed m k Hst).
  destruct Hs as (_ & _ & _ & _ & Hkeys & _). apply Hkeys. eauto.
Qed.

Lemma load_state_quiet m : steady m0 m → steady m0 (load_state m).2.
Proof.
  intros Hst. pose proof Hst as (Hs & Es & Ep & Hx & Hsame & Hkept & Hfs & Ht).
  pose proof Hs as (_ & _ & Hp & Hfile & _).
  unfold load_state. rewrite (Hkept _ Hfile), Ep, Hp. simpl.
  eapply (steady_step m0 m _ []); simpl; try done.
  - by rewrite Ep, Hp.
  - by left.
  - by rewrite app_nil_r.
Qed.

Lemma print_quiet l m : calm (Print l) → steady m0 m → steady m0 (print l m).2.
Proof.
  intros Hl Hst. eapply (steady_step m0 m _ [Print l]); simpl;
    first [done|by left|by repeat constructor].
Qed.

(** a whole run from where a settled machine has got to *)
Lemma main_quiet setup n m : steady m0 m → steady m0 (main setup n m).2.
Proof.
  intros Hst. unfold main.
  destruct (init_dropbox_cases setup m) as [Hb|[Hb|[e Hb]]];
    [|rewrite (bind_Done _ _ _ _ _ Hb); simpl; by apply print_quiet
     |by rewrite (bind_Raised _ _ _ _ _ Hb)].
  rewrite (bind_Done _ _ _ _ _ Hb). clear Hb. revert m Hst.
  change (stays (steady m0) (load_state;; check_remote n;; save_state;; check_local n;;
                             save_state;; print SyncComplete)).
  apply stays_bind; [intros m; apply load_state_quiet|intros _].
  apply stays_bind; [intros m; apply check_remote_quiet|intros _].
  apply stays_bind; [intros m; apply save_state_quiet|intros _].
  apply stays_bind; [intros m Hm; by rewrite check_local_quiet|intros _].
  apply stays_bind; [intros m; apply save_state_quiet|intros _].
  intros m. by apply print_quiet.
Qed.

End SecondRun2.

Lemma init_dropbox_value {R} `{!Client R} setup (m : Machine R) :
  (init_dropbox setup m).1 = Done true ↔ has_client setup = true.
Proof.
  unfold init_dropbox, has_client, setup_call, bind.
  destruct (init setup "Synchronator_Token" None) as [e|[|]]; cbn [negb fst]; [done..|].
  destruct (get_access_token setup) as [e|[token|]]; cbn [negb fst]; [done| |done].
  destruct (bool_decide (token ≠ "")); cbn [andb negb fst]; [|done].
  rewrite bool_decide_eq_true.
  destruct (init setup "Synchronator_Token" (Some token)) as [e|[|]]; cbn [negb fst];
    split; intros; by simplify_eq.
Qed.

Lemma steady_outcome (m0 m : Machine Store) :
  steady m0 m →
  Forall calm (since m0 m) ∧ files_kept (disk m0) (disk m)
  ∧ objects (dbx m) = objects (dbx m0).
Proof.
  intros (_ & _ & _ & (Eo & _) & _ & Hk & _ & Ht). split_and!; [|done..].
  by apply trace_grows_since.
Qed.

(** X17.  The run after a completed run transfers nothing: started
    where a run of the script has completed, the script sends no upload,
    download or delete request and announces none, whether or not it runs
    to its end; every local file stays and the files of the store are the
    same. *)
Theorem second_run_transfers_nothing setup n n' (m m1 : Machine Store) :
  world_ok m → main setup n m = (Done (), m1) →
  let m2 := (main setup n' m1).2 in
  Forall calm (since m1 m2) ∧ files_kept (disk m1) (disk m2)
  ∧ objects (dbx m2) = objects (dbx m1).
Proof.
  intros Hw H. simpl. destruct (has_client setup) eqn:Hc.
  - apply steady_outcome, main_quiet, steady_refl.
    eapply main_settles; [done| |done]. by apply init_dropbox_value.
  - clear H Hw. unfold main.
    destruct (init_dropbox_cases setup m1) as [Hb|[Hb|[e Hb]]].
    + assert (has_client setup = true) as Hc' by (apply (init_dropbox_value setup m1); by rewrite Hb).
      congruence.
    + rewrite (bind_Done _ _ _ _ _ Hb). simpl.
      unfold since. simpl. rewrite drop_app_length. split_and!; [|done..].
      by repeat constructor.
    + rewrite (bind_Raised _ _ _ _ _ Hb). simpl.
      unfold since. rewrite drop_all. split_and!; [by constructor|done..].
Qed.

(** ** The checks are sound *)

Lemma wf_nameb_sound s : wf_nameb s = true → wf_name s.
Proof.
  unfold wf_nameb. intros [[H1 H2]%andb_prop H3]%andb_prop.
  apply negb_true_iff, bool_decide_eq_false in H1, H2. by split_and!.
Qed.

Lemma segments_ne s : Py.segments s ≠ [].
Proof.
  destruct s as [|c r]; [done|]. simpl. destruct (Py.is_slash c); [done|].
  by destruct (Py.segments r).
Qed.

Lemma unsegments_cons x l : l ≠ [] → unsegments (x :: l) = x +:+ "/" +:+ unsegments l.
Proof. by destruct l. Qed.

Lemma segments_unsegments s : unsegments (Py.segments s) = s.
Proof.
  induction s as [|c r IH]; [done|]. simpl. destruct (Py.is_slash c) eqn:Ec.
  - rewrite unsegments_cons by apply segments_ne. rewrite IH.
    apply bool_decide_eq_true in Ec. by subst c.
  - pose proof (segments_ne r) as Hne. destruct (Py.segments r) as [|x xs]; [done|].
    destruct xs as [|y ys]; simpl in *; by rewrite <- IH.
Qed.

Lemma wf_path_prepend x q : wf_name x → wf_path q → wf_path (x +:+ "/" +:+ q).
Proof.
  intros Hx. induction 1 as [name Hn|d name Hd IH Hn].
  - apply wf_path_sub; [by apply wf_path_name|done].
  - replace (x +:+ "/" +:+ d +:+ "/" +:+ name)
      with ((x +:+ "/" +:+ d) +:+ "/" +:+ name) by (by rewrite !append_assoc).
    by apply wf_path_sub.
Qed.

Lemma unsegments_wf l : l ≠ [] → Forall wf_name l → wf_path (unsegments l).
Proof.
  induction l as [|x l IH]; [done|]. intros _ [Hx Hl]%Forall_cons.
  destruct l as [|y l]; [by apply wf_path_name|].
  rewrite unsegments_cons by done. apply wf_path_prepend; [done|]. by apply IH.
Qed.

Lemma forallb_Forall {A} (f : A → bool) (P : A → Prop) (l : list A) :
  (∀ x, f x = true → P x) → forallb f l = true → Forall P l.
Proof.
  intros Hf. induction l as [|x l IH]; simpl; [constructor|].
  intros [? ?]%andb_prop. constructor; auto.
Qed.

Lemma wf_pathb_sound p : wf_pathb p = true → wf_path p.
Proof.
  intros H. rewrite <- (segments_unsegments p).
  apply unsegments_wf; [apply segments_ne|].
  eapply forallb_Forall; [apply wf_nameb_sound|done].
Qed.

Lemma wf_fsb_sound fs : wf_fsb fs = true → wf_fs fs.
Proof.
  intros H k x Hk.
  apply (forallb_Forall _ (λ kv, wf_path kv.1 ∧ Os.isdir fs (Os.parent kv.1) = true)) in H.
  - rewrite Forall_forall in H. apply (H (k, x)). by apply elem_of_map_to_list.
  - intros kv [? ?]%andb_prop. split; [by apply wf_pathb_sound|done].
Qed.

Lemma startswith_slash_inv pd : Py.startswith pd "/" = true → pd = "/" +:+ Py.tail pd.
Proof. intros [r ->]%prefix_app. done. Qed.

Lemma remote_keyb_sound s pd :
  remote_keyb s pd = true →
  remote_key pd
  ∧ (Os.parent (Py.tail pd) ≠ "." → "/" +:+ Os.parent (Py.tail pd) ∈ folders s).
Proof.
  unfold remote_keyb. intros [[H1 H2]%andb_prop H3]%andb_prop. split.
  - exists (Py.tail pd). split; [by apply startswith_slash_inv|by apply wf_pathb_sound].
  - intros Hne. apply orb_prop in H3 as [H3|H3]; apply bool_decide_eq_true in H3; done.
Qed.

Lemma wf_storeb_sound s : wf_storeb s = true → wf_store s.
Proof.
  unfold wf_storeb. intros [[Ho Hf]%andb_prop Hfl]%andb_prop.
  apply bool_decide_eq_true in Hfl.
  apply (forallb_Forall _ (λ kv, remote_keyb s kv.1 = true)) in Ho; [|done].
  assert (Forall (λ pd, remote_keyb s pd = true ∧ objects s !! pd = None)
                 (elements (folders s))) as Hf2.
  { eapply forallb_Forall; [|exact Hf].
    intros pd [? ?%bool_decide_eq_true]%andb_prop. done. }
  clear Hf. rename Hf2 into Hf.
  rewrite Forall_forall in Ho. rewrite Forall_forall in Hf.
  assert (∀ pd x, objects s !! pd = Some x → remote_keyb s pd = true) as Ho'.
  { intros pd x Hpd. apply (Ho (pd, x)). by apply elem_of_map_to_list. }
  assert (∀ pd, pd ∈ folders s → remote_keyb s pd = true ∧ objects s !! pd = None) as Hf'.
  { intros pd Hpd. apply Hf. by apply elem_of_elements. }
  split_and!; [| | | |done].
  - intros pd x Hpd. by apply (remote_keyb_sound s), (Ho' pd x).
  - intros pd Hpd. by apply (remote_keyb_sound s), Hf'.
  - intros pd Hpd. by apply Hf'.
  - intros p Hp _ Hne.
    assert (remote_keyb s ("/" +:+ p) = true) as Hk.
    { destruct Hp as [[x Hp]|Hp]; [by eapply Ho'|by apply Hf']. }
    apply remote_keyb_sound in Hk as [_ Hk]. by apply Hk.
Qed.

Lemma agreeb_sound st : agreeb st = true → agree st.
Proof.
  unfold agreeb. intros E%bool_decide_eq_true p.
  by rewrite <- !elem_of_dom, E.
Qed.

Lemma world_okb_sound m : world_okb m = true → world_ok m.
Proof.
  unfold world_okb. intros [[H1 H2]%andb_prop H3]%andb_prop.
  split_and!; [by apply wf_fsb_sound|by apply wf_storeb_sound|].
  intros st E. rewrite E in H3. by apply agreeb_sound.
Qed.

Lemma soundb_sound m : soundb m = true → sound m.
Proof.
  unfold soundb. intros [[H1 H2]%andb_prop H3]%andb_prop.
  split_and!; [by apply wf_fsb_sound|by apply wf_storeb_sound|by apply agreeb_sound].
Qed.

(** * Further properties of the script *)

(** ** With any client *)

Section AnyClient.

Context {R : Type} `{!Client R}.
Implicit Types m : Machine R.

Lemma upload_disk path because :
  keeps (λ m m', disk m' = disk m) (upload (R:=R) path because).
Proof.
  assert (PreOrder (λ m m' : Machine R, disk m' = disk m)) as Hpre.
  { split; [done|]. intros m1 m2 m3. congruence. }
  assert (∀ A r (f : R → option A * R), keeps (λ m m', disk m' = disk m) (call r f)) as Hcall.
  { intros A r f. eapply keeps_weaken; [apply call_effect|]. by intros ?? (_ & _ & ? & _). }
  assert (∀ A (f : LocalFS → option A), keeps (λ m m', disk m' = disk m) (os_get (R:=R) f))
    as Hget.
  { intros A f m. by rewrite os_get_unchanged. }
  unfold upload.
  apply keeps_bind; [done|by intros m|intros _].
  apply keeps_bind; [done|apply Hget|intros size].
  apply keeps_bind; [done| |intros rev].
  - case_bool_decide.
    + apply keeps_bind; [done|apply Hget|intros total].
      apply keeps_bind; [done| |intros [d c]; apply Hcall].
      eapply keeps_weaken; [apply upload_session_step|]. by intros ?? (_ & _ & ?).
    + apply keeps_bind; [done|apply Hget|intros total]. apply Hcall.
  - apply keeps_bind; [done|apply Hget|intros mtime].
    apply keeps_bind; [done|by intros m|intros _]. by intros m.
Qed.

Lemma upload_records path because m m' :
  upload path because m = (Done (), m') →
  ∃ rev t, Os.getmtime (disk m) path = Some t
           ∧ state m' = track path (mkMeta rev t) (state m)
           ∧ upload_reply path because m rev (dbx m').
Proof.
  intros H. unfold upload in H.
  apply bind_inv_Done in H as ([] & m1 & H1 & H). injection H1 as <-.
  apply bind_inv_Done in H as (size & m2 & H2 & H). apply os_get_Done in H2 as [Hsize ->].
  apply bind_inv_Done in H as (rev & m2 & H2 & H).
  assert (state m2 = state m ∧ disk m2 = disk m
          ∧ upload_reply path because m rev (dbx m2)) as (Es & Ed & Hrep).
  { clear H. unfold upload_reply. simpl in Hsize.
    destruct (bool_decide (size > 140000000)) eqn:Eb.
    - apply bind_inv_Done in H2 as (total & m3 & H3 & H2). apply os_get_Done in H3 as [Ht ->].
      apply bind_inv_Done in H2 as ([d c] & m3 & H3 & H2).
      pose proof (keeps_at _ _ (upload_session_step _ _ _ _ _ _ _ _) _ _ _ H3) as (_ & Es & Ed).
      apply call_Done in H2 as [-> Hc]. simpl. rewrite Es, Ed. split_and!; [done..|].
      exists size, total. rewrite Eb. split_and!; [done..|]. by exists d, c, m3.
    - apply bind_inv_Done in H2 as (total & m3 & H3 & H2). apply os_get_Done in H3 as [Ht ->].
      apply call_Done in H2 as [-> Hc]. split_and!; [done..|].
      exists size, total. rewrite Eb. by split_and!. }
  apply bind_inv_Done in H as (t & m3 & H3 & H). apply os_get_Done in H3 as [Ht ->].
  apply bind_inv_Done in H as ([] & m3 & H3 & H). injection H3 as <-. injection H as <-.
  exists rev, t. rewrite <- Ed. split_and!; [done| |done]. simpl. unfold track. by rewrite Es.
Qed.

(** X2.  [upload] never touches the local tree, however it ends; and
    when it returns, both tables hold, under the path, one and the same
    entry: the revision the client returned (in reply to the finish call
    of the session for a file above the threshold, to the one upload
    call for any other) and the modification time the file has. *)
Theorem upload_reads_and_records path because m :
  let r := upload path because m in
  disk r.2 = disk m
  ∧ (r.1 = Done () →
     ∃ rev t, Os.getmtime (disk m) path = Some t
              ∧ state r.2 = track path (mkMeta rev t) (state m)
              ∧ upload_reply path because m rev (dbx r.2)).
Proof.
  cbv zeta. split; [apply upload_disk|].
  destruct (upload path because m) as [o m'] eqn:H. simpl. intros ->.
  by apply upload_records in H.
Qed.

Lemma write_node fs p size fs' :
  Os.write fs p size = Some fs' →
  ∃ l, nodes fs' !! p = Some (File (now fs) size l) ∧ Os.getmtime fs' p = Some (now fs).
Proof.
  unfold Os.write. destruct (bool_decide (p = "")); [done|]. simpl.
  destruct (Os.isdir fs p) eqn:E2; [done|]. simpl.
  destruct (negb _); [done|]. intros [= <-]. simpl. eexists.
  rewrite lookup_insert_eq. split; [done|].
  unfold Os.getmtime, Os.node_at. cbn [nodes]. destruct (decide (p = ".")) as [->|Ep].
  - unfold Os.isdir, Os.node_at in E2. by rewrite bool_decide_eq_true_2 in E2.
  - by rewrite bool_decide_eq_false_2, lookup_insert_eq.
Qed.

Lemma download_records path because m m' :
  download_remote path because m = (Done (), m') →
  ∃ rev size t l,
    (files_download (Py.join "/" path) (dbx m)).1 = Some (rev, size)
    ∧ nodes (disk m') !! path = Some (File t size l)
    ∧ Os.getmtime (disk m') path = Some t
    ∧ state m' = track path (mkMeta rev t) (state m).
Proof.
  intros H. unfold download_remote in H.
  apply bind_inv_Done in H as ([] & m1 & H1 & H). injection H1 as <-.
  destruct (Py.split path) as [head tail].
  apply bind_inv_Done in H as (missing & m2 & H2 & H). injection H2 as <- <-.
  apply bind_inv_Done in H as ([] & m2 & H2 & H).
  assert (state m2 = state m ∧ dbx m2 = dbx m) as [Es Ex].
  { destruct (_ && _).
    - unfold os_do in H2. simpl in H2. destruct (Os.makedirs (disk m) head); by simplify_eq.
    - by injection H2 as <-. }
  clear H2.
  apply bind_inv_Done in H as ([rev size] & m3 & H3 & H). apply call_Done in H3 as [Em3 Hc].
  apply bind_inv_Done in H as ([] & m4 & H4 & H).
  unfold os_do in H4. destruct (Os.write (disk m3) path size) as [fs|] eqn:Hw; [|done].
  injection H4 as <-.
  apply bind_inv_Done in H as (t & m5 & H5 & H). apply os_get_Done in H5 as [Ht ->].
  apply bind_inv_Done in H as ([] & m5 & H5 & H). injection H5 as <-. injection H as <-.
  simpl in *. destruct (write_node _ _ _ _ Hw) as (l & Hn & Hmt).
  rewrite Hmt in Ht. injection Ht as <-.
  exists rev, size, (now (disk m3)), l. split_and!; [|done..|].
  - by rewrite <- Ex, Hc.
  - unfold track. rewrite Em3. simpl. by rewrite Es.
Qed.

(** X3.  When [download_remote] returns, the file is on disk with the
    size the client delivered, and both tables hold, under the path, the
    revision the client delivered and the modification time of the file
    just written. *)
Theorem download_writes_and_records path because m m' :
  download_remote path because m = (Done (), m') →
  ∃ rev size t l,
    (files_download (Py.join "/" path) (dbx m)).1 = Some (rev, size)
    ∧ nodes (disk m') !! path = Some (File t size l)
    ∧ state m' = track path (mkMeta rev t) (state m).
Proof.
  intros (rev & size & t & l & ? & ? & _ & ?)%download_records. by exists rev, size, t, l.
Qed.

(** X4.  What was just sent or fetched is up to date: after an
    [upload] or a [download_remote] of a path that returned, [check_state]
    of the path does nothing. *)
Theorem transferred_file_is_current path because m m' :
  upload path because m = (Done (), m') ∨ download_remote path because m = (Done (), m') →
  check_state path m' = (Done (), m').
Proof.
  intros H.
  assert (∃ rev t, Os.getmtime (disk m') path = Some t
                   ∧ state m' = track path (mkMeta rev t) (state m)) as (rev & t & Ht & Es).
  { destruct H as [H|H].
    - pose proof (upload_disk path because m) as Ed. rewrite H in Ed. simpl in Ed.
      apply upload_records in H as (rev & t & Ht & Es & _). exists rev, t. by rewrite Ed.
    - apply download_records in H as (rev & size & t & l & _ & _ & Ht & Es). by exists rev, t. }
  assert (local_files (state m') !! path = Some (mkMeta rev t)) as Hl
    by (rewrite Es; apply lookup_insert_eq).
  assert (is_Some (remote_files (state m') !! path)) as Hr
    by (rewrite Es; eexists; apply lookup_insert_eq).
  unfold check_state, check_local_update. run.
  rewrite bool_decide_eq_true_2 by done. run. rewrite Ht. run. rewrite Hl. run.
  cbn [modified]. by rewrite bool_decide_eq_false_2 by lia.
Qed.

(** X11.  What [save_state] has written, [load_state] reads back: after
    a [save_state] that returned, [load_state] yields the tables that
    were saved, whatever the tables in memory are by then, and does not
    report a missing state file. *)
Theorem saved_state_is_read_back m m1 m2 :
  save_state m = (Done (), m1) →
  disk m2 = disk m1 → pickled m2 = pickled m1 →
  load_state m2 = (Done (), mkMachine (state m) (disk m2) (pickled m2) (dbx m2) (stdin m2)
                                      (trace m2)).
Proof.
  intros H Ed Ep. unfold save_state in H.
  apply bind_inv_Done in H as (s & m3 & H3 & H). injection H3 as <- <-.
  apply bind_inv_Done in H as ([] & m3 & H3 & H).
  unfold os_do in H3. destruct (Os.write (disk m) STATE_FILENAME _) as [fs|] eqn:Hw; [|done].
  injection H3 as <-. injection H as <-. simpl in *.
  destruct (write_node _ _ _ _ Hw) as (l & Hn & _).
  unfold load_state. rewrite Ed, Ep. unfold Os.isfile, Os.node_at. simpl.
  rewrite Hn. simpl. by rewrite <- Ed, <- Ep.
Qed.

Lemma reprompt_go_spec responses lines k r rest :
  reprompt_go responses lines = (k, r, rest) →
  match r with
  | Some answer =>
      answer ∈ responses
      ∧ ∃ rejected, lines = rejected ++ answer :: rest
                    ∧ Forall (λ l, l ∉ responses) rejected ∧ k = S (length rejected)
  | None => Forall (λ l, l ∉ responses) lines ∧ k = S (length lines) ∧ rest = []
  end.
Proof.
  revert k r rest. induction lines as [|answer lines IH]; intros k r rest; simpl.
  - intros [= <- <- <-]. by split_and!.
  - case_bool_decide as Hin.
    + intros [= <- <- <-]. split; [done|]. exists []. by split_and!.
    + destruct (reprompt_go responses lines) as [[k' r'] rest'] eqn:E.
      intros [= <- <- <-]. specialize (IH _ _ _ eq_refl). destruct r' as [a|].
      * destruct IH as (Ha & rejected & -> & Hrej & ->). split; [done|].
        exists (answer :: rejected). split_and!; [done|by constructor|done].
      * destruct IH as (Hrej & -> & ->). split_and!; [by constructor|done..].
Qed.

(** X12.  [reprompt] asks until it gets an answer it accepts: the answer
    it returns is one of [responses], every line it read before was not,
    and it has shown the prompt once for every line it read. *)
Theorem reprompt_asks_until_accepted path responses m answer m' :
  reprompt path responses m = (Done answer, m') →
  answer ∈ responses
  ∧ ∃ rejected, stdin m = rejected ++ answer :: stdin m'
                ∧ Forall (λ l, l ∉ responses) rejected
                ∧ trace m' = trace m ++ replicate (S (length rejected)) (Prompt path).
Proof.
  unfold reprompt. destruct (reprompt_go responses (stdin m)) as [[k r] rest] eqn:E.
  apply reprompt_go_spec in E. destruct r as [a|]; [|done]. intros [= <- <-]. simpl.
  destruct E as (Ha & rejected & E & Hrej & ->). split; [done|]. by exists rejected.
Qed.

(** X10.  A path that is in [remote_files] only stops [check_state]
    with a [KeyError] from [check_local_update], before anything is
    sent. *)
Theorem check_state_misses_the_local_entry path m t :
  is_Some (remote_files (state m) !! path) →
  local_files (state m) !! path = None →
  Os.getmtime (disk m) path = Some t →
  check_state path m = (Raised KeyError, m).
Proof.
  intros Hr Hx Ht. unfold check_state, check_local_update. run.
  rewrite bool_decide_eq_true_2 by done. run. rewrite Ht. run. by rewrite Hx.
Qed.

End AnyClient.

Section Sparing.

Context {R : Type} `{!Client R}.
Implicit Types m : Machine R.

Global Instance spared_preorder (keep : string → Prop) : PreOrder (@spared R keep).
Proof.
  split.
  - intros m. split; [by intros p _|reflexivity].
  - intros m1 m2 m3 [H1 T1] [H2 T2]. split; [|by etrans].
    intros p Hp. destruct (H1 p Hp) as (L1 & R1 & F1), (H2 p Hp) as (L2 & R2 & F2).
    split_and!; [congruence..|]. intros t s l Hn. by apply F2, F1.
Qed.

Lemma spared_print keep l :
  deletes_only (λ p, ¬ keep p) (Print l) → keeps (spared keep) (print (R:=R) l).
Proof.
  intros Hl m. split; [by intros p _|]. exists [Print l]. split; [done|]. by constructor.
Qed.

Lemma spared_disk keep (f : LocalFS → option LocalFS) :
  (∀ fs fs' p t s l, f fs = Some fs' → keep p →
     nodes fs !! p = Some (File t s l) → nodes fs' !! p = Some (File t s l)) →
  keeps (spared keep) (os_do (R:=R) f).
Proof.
  intros Hf m. unfold os_do. destruct (f (disk m)) as [fs|] eqn:E; simpl; [|reflexivity].
  split; [|by exists []; rewrite app_nil_r]. intros p Hp. split_and!; [done..|].
  intros t s l. by apply Hf.
Qed.

Lemma spared_state keep (f : DropboxState → DropboxState) :
  (∀ st p, keep p → local_files (f st) !! p = local_files st !! p
                    ∧ remote_files (f st) !! p = remote_files st !! p) →
  keeps (spared keep) (with_state (R:=R) f).
Proof.
  intros Hf m. split; [|by exists []; rewrite app_nil_r]. intros p Hp. simpl.
  destruct (Hf (state m) p Hp). by split_and!.
Qed.

Lemma spared_same {A} keep (c : Prog (Machine R) A) :
  (∀ m, (c m).2 = m) → keeps (spared keep) c.
Proof. intros Hc m. rewrite Hc. reflexivity. Qed.

Lemma remove_others fs path fs' p x :
  Os.remove fs path = Some fs' → p ≠ path → nodes fs !! p = Some x → nodes fs' !! p = Some x.
Proof.
  unfold Os.remove. destruct (nodes fs !! path) as [[t s [|]|]|]; intros; simplify_eq.
  simpl. by rewrite lookup_delete_ne.
Qed.

Lemma rmdir_files fs d fs' p t s l :
  Os.rmdir fs d = Some fs' →
  nodes fs !! p = Some (File t s l) → nodes fs' !! p = Some (File t s l).
Proof.
  unfold Os.rmdir. destruct (nodes fs !! d) as [[|t']|] eqn:Hd; [done| |done].
  case_bool_decide; [done|]. destruct (Os.inside fs d); [|done]. intros [= <-] Hp. simpl.
  rewrite lookup_delete_ne; [done|]. intros ->. congruence.
Qed.

Lemma prune_files n fs head tail p t s l :
  nodes fs !! p = Some (File t s l) →
  nodes (Os.prune n fs head tail) !! p = Some (File t s l).
Proof.
  revert fs head tail. induction n as [|n IH]; intros fs head tail Hp; simpl; [done|].
  destruct (_ && _); [|done]. destruct (Os.rmdir fs head) as [fs1|] eqn:E; [|done].
  destruct (Py.split head) as [h t']. apply IH. by eapply rmdir_files.
Qed.

Lemma removedirs_files fs name fs' p t s l :
  Os.removedirs fs name = Some fs' →
  nodes fs !! p = Some (File t s l) → nodes fs' !! p = Some (File t s l).
Proof.
  unfold Os.removedirs. destruct (Os.rmdir fs name) as [fs1|] eqn:E; [|done].
  destruct (Py.split name) as [h t'].
  destruct (if bool_decide (t' = "") then Py.split h else (h, t')) as [h' t''].
  intros [= <-] Hp. apply prune_files. by eapply rmdir_files.
Qed.

Lemma delete_local_spares path (keep : string → Prop) :
  ¬ keep path → keeps (spared keep) (delete_local (R:=R) path).
Proof.
  intros Hpath.
  assert (∀ p, keep p → p ≠ path) as Hne by (intros p ? ->; done).
  unfold delete_local.
  apply keeps_bind; [apply _|by apply spared_print|intros _].
  apply keeps_bind; [apply _| |intros _].
  { apply keeps_try_OSError. apply spared_disk.
    intros fs fs' p t s l Hrm Hp. eapply remove_others; [done|by apply Hne]. }
  apply keeps_bind; [apply _| |intros _].
  { unfold del_local. apply keeps_bind; [apply _|by apply spared_same|intros [|]].
    - apply spared_state. intros st p Hp. simpl. by rewrite lookup_delete_ne by (symmetry; auto).
    - apply keeps_raise, _. }
  apply keeps_bind; [apply _| |intros _].
  { unfold del_remote. apply keeps_bind; [apply _|by apply spared_same|intros [|]].
    - apply spared_state. intros st p Hp. simpl. by rewrite lookup_delete_ne by (symmetry; auto).
    - apply keeps_raise, _. }
  apply keeps_bind; [apply _|by apply spared_same|intros there].
  apply keeps_bind; [apply _| |intros empty].
  { destruct there; [|by apply spared_same].
    apply keeps_bind; [apply _| |intros names; by apply spared_same].
    apply spared_same. intros m. apply os_get_unchanged. }
  destruct empty; [|by apply spared_same].
  apply keeps_bind; [apply _|by apply spared_print|intros _].
  apply spared_disk. intros fs fs' p t s l Hrm _. by eapply removedirs_files.
Qed.

(** X9.  The deletion loop of [execute_delta] spares every path of the
    listing it is given: whatever the loop does and however it ends, such
    a path keeps its entries in both tables and its file, no local
    deletion of it is announced, and nothing is sent to the store. *)
Theorem deletions_spare_the_listed (current_remote_file_paths : gset string) :
  keeps (spared (λ p, p ∈ current_remote_file_paths))
        (execute_delta_deletions (R:=R) current_remote_file_paths).
Proof.
  unfold execute_delta_deletions.
  apply keeps_bind; [apply _|by apply spared_same|intros keys].
  apply keeps_for_each; [apply _|]. intros path _.
  case_bool_decide as Hin; [|by apply spared_same].
  apply keeps_bind; [apply _|by apply spared_same|intros [|]]; [|by apply spared_same].
  by apply delete_local_spares.
Qed.

Lemma prune_gone n fs head tail k :
  nodes fs !! k = None → nodes (Os.prune n fs head tail) !! k = None.
Proof.
  revert fs head tail. induction n as [|n IH]; intros fs head tail Hk; simpl; [done|].
  destruct (_ && _); [|done]. destruct (Os.rmdir fs head) as [fs1|] eqn:E; [|done].
  destruct (Py.split head) as [h t']. apply IH.
  unfold Os.rmdir in E. destruct (nodes fs !! head) as [[|t]|]; [done| |done].
  case_bool_decide; [done|]. destruct (Os.inside fs head); [|done]. injection E as <-.
  simpl. by apply lookup_delete_None; right.
Qed.

Lemma removedirs_gone fs name fs' :
  Os.removedirs fs name = Some fs' → Os.exists_ fs' name = false.
Proof.
  unfold Os.removedirs. destruct (Os.rmdir fs name) as [fs1|] eqn:E; [|done].
  destruct (Py.split name) as [h t'].
  destruct (if bool_decide (t' = "") then Py.split h else (h, t')) as [h' t''].
  intros [= <-]. unfold Os.rmdir in E.
  destruct (nodes fs !! name) as [[|t]|]; [done| |done].
  case_bool_decide as Hdot; [done|]. destruct (Os.inside fs name); [|done]. injection E as <-.
  unfold Os.exists_, Os.node_at. rewrite bool_decide_eq_false_2 by done.
  rewrite prune_gone; [done|]. simpl. apply lookup_delete_eq.
Qed.

(** X8.  [delete_local] leaves no empty directory where the file was:
    when it returns, the directory of the path is gone or has something
    in it. *)
Theorem delete_local_leaves_no_empty_directory path m m' :
  delete_local path m = (Done (), m') →
  Os.exists_ (disk m') (Os.parent path) = false
  ∨ ∃ names, Os.listdir (disk m') (Os.parent path) = Some names ∧ names ≠ [].
Proof.
  intros H. unfold delete_local in H. fold (Os.parent path) in H.
  apply bind_inv_Done in H as (? & m1 & _ & H).
  apply bind_inv_Done in H as (? & m2 & _ & H).
  apply bind_inv_Done in H as (? & m3 & _ & H).
  apply bind_inv_Done in H as (? & m4 & _ & H).
  apply bind_inv_Done in H as (there & m5 & H5 & H). injection H5 as <- <-.
  apply bind_inv_Done in H as (empty & m5 & H5 & H).
  destruct (Os.exists_ (disk m4) (Os.parent path)) eqn:Hthere.
  - apply bind_inv_Done in H5 as (names & m6 & H6 & H5). apply os_get_Done in H6 as [Hl ->].
    injection H5 as <- <-. case_bool_decide as Hnames.
    + apply bind_inv_Done in H as ([] & m6 & H6 & H). injection H6 as <-.
      unfold os_do in H. simpl in H.
      destruct (Os.removedirs (disk m4) (Os.parent path)) as [fs|] eqn:Hrm; [|done].
      injection H as <-. left. by apply removedirs_gone in Hrm.
    + injection H as <-. right. by exists names.
  - injection H5 as <- <-. injection H as <-. by left.
Qed.

End Sparing.

(** ** Which files [check_local] looks at *)

Lemma segments_slash_free s : slash_free s = true → Py.segments s = [s].
Proof.
  induction s as [|c r IH]; [done|]. simpl. intros [Hc Hr]%andb_prop.
  apply negb_true_iff in Hc. rewrite Hc, (IH Hr). done.
Qed.

Lemma segments_sub a b : Py.segments (a +:+ "/" +:+ b) = Py.segments a ++ Py.segments b.
Proof.
  induction a as [|c r IH]; [done|]. sapp. rewrite IH.
  destruct (Py.is_slash c); [done|].
  pose proof (segments_ne r). by destruct (Py.segments r).
Qed.

Lemma segments_wf_sub d name :
  wf_name name → Py.segments (d +:+ "/" +:+ name) = Py.segments d ++ [name].
Proof. intros (_ & _ & Hs). by rewrite segments_sub, (segments_slash_free name). Qed.

Lemma segments_top d : Py.segments ("./" +:+ d) = "." :: Py.segments d.
Proof. done. Qed.

(** [valid_dir_for_upload] on the name the walk has for a directory:
    the first directory decides on [site], [temp] and [Examples], the
    last one on hidden *)
Lemma valid_dir_top d :
  wf_path d →
  valid_dir_for_upload (top_of d)
  = negb (Py.startswith (first_dir d) "site")
    && negb (bool_decide (first_dir d ∈ ["temp"; "Examples"]))
    && negb (Py.startswith (Py.basename d) ".").
Proof.
  intros Hd. unfold top_of. rewrite (bool_decide_eq_false_2 (d = ".")) by by apply wf_path_not_dot.
  unfold valid_dir_for_upload, first_dir.
  rewrite bool_decide_eq_false_2.
  2:{ intros E. assert (String.length ("./" +:+ d) = 1%nat) as El by (by rewrite E).
      sapp. lia. }
  rewrite segments_top. pose proof (segments_ne d) as Hne.
  assert (last ("." :: Py.segments d) = Some (Py.basename d)) as Hlast.
  { destruct Hd as [name Hn|d0 name Hd0 Hn].
    - destruct Hn as (? & ? & Hs). rewrite (segments_slash_free _ Hs).
      by rewrite basename_name.
    - rewrite segments_wf_sub, basename_sub by done.
      change ("." :: Py.segments d0 ++ [name]) with (("." :: Py.segments d0) ++ [name]).
      apply last_snoc. }
  rewrite Hlast. destruct (Py.segments d) as [|x l] eqn:Es; [done|].
  rewrite bool_decide_eq_true_2 by (simpl; lia).
  cbn [lookup list_lookup head default].
  assert (Py.basename d ≠ ".") as Hb.
  { by destruct (wf_path_inv d Hd) as [(_ & ? & _) _]. }
  rewrite (bool_decide_eq_true_2 (Py.basename d ≠ ".")) by done.
  unfold id. destruct (Py.startswith x "site"); [done|].
  destruct (bool_decide (x ∈ _)); [done|].
  by destruct (Py.startswith (Py.basename d) ".").
Qed.

Lemma first_dir_sub d name : first_dir (d +:+ "/" +:+ name) = first_dir d.
Proof.
  unfold first_dir. rewrite segments_sub. pose proof (segments_ne d).
  by destruct (Py.segments d).
Qed.

Lemma open_dirs_snoc l name :
  l ≠ [] →
  open_dirs (l ++ [name]) = open_dirs l && negb (Py.startswith name ".").
Proof.
  destruct l as [|x l]; [done|]. intros _. simpl.
  rewrite forallb_app. simpl. rewrite andb_true_r.
  destruct (negb (Py.startswith x "site")), (negb (bool_decide _)),
    (negb (Py.startswith x ".")), (forallb _ l); simpl; done.
Qed.

Lemma open_dirs_first l :
  open_dirs l = true → l ≠ [] →
  negb (Py.startswith (default "" (head l)) "site")
  && negb (bool_decide (default "" (head l) ∈ ["temp"; "Examples"])) = true.
Proof.
  destruct l as [|x l]; [done|]. simpl. intros [H _]%andb_prop _. done.
Qed.

Lemma open_from_sub d name :
  wf_path d → wf_name name →
  open_from "." (d +:+ "/" +:+ name)
  ↔ open_from "." d ∧ valid_dir_for_upload (top_of (d +:+ "/" +:+ name)) = true.
Proof.
  intros Hd Hn. assert (wf_path (d +:+ "/" +:+ name)) as Hp by (by apply wf_path_sub).
  split.
  - intros Ho. split.
    + intros a Ha Had. apply Ho; [done|]. apply below_step; [done|]. by rewrite parent_sub.
    + apply Ho; [apply below_dot; by left|constructor].
  - intros [Ho Hv] a Ha Hap. inversion Hap as [|? _ Hb]; subst; [done|].
    rewrite parent_sub in Hb by done. by apply Ho.
Qed.

Lemma open_from_name name :
  wf_name name → open_from "." name ↔ valid_dir_for_upload (top_of name) = true.
Proof.
  intros Hn. assert (wf_path name) as Hp by (by apply wf_path_name). split.
  - intros Ho. apply Ho; [apply below_dot; by left|constructor].
  - intros Hv a Ha Hap. inversion Hap as [|? _ Hb]; subst; [done|].
    rewrite parent_name in Hb by done. apply below_dot_inv in Hb as ->. done.
Qed.

Lemma open_from_dirs d :
  wf_path d → open_from "." d ↔ open_dirs (Py.segments d) = true.
Proof.
  induction 1 as [name Hn|d name Hd IH Hn].
  - rewrite (open_from_name _ Hn), valid_dir_top by by apply wf_path_name.
    destruct Hn as (H1 & H2 & Hs). unfold first_dir.
    rewrite (segments_slash_free _ Hs), basename_name by done. simpl.
    by rewrite andb_true_r.
  - rewrite (open_from_sub _ _ Hd Hn), IH, valid_dir_top by by apply wf_path_sub.
    rewrite segments_wf_sub, open_dirs_snoc, first_dir_sub, basename_sub
      by (done || apply segments_ne).
    pose proof (open_dirs_first (Py.segments d)) as Hfirst. fold (first_dir d) in Hfirst.
    rewrite !andb_true_iff in *. split.
    + intros [Ho [_ Hh]]. by split.
    + intros [Ho Hh]. split; [done|]. split; [|done].
      apply Hfirst; [done|apply segments_ne].
Qed.

Lemma open_from_root : open_from "." ".".
Proof. intros a _ ->%below_dot_inv. done. Qed.

Lemma open_from_parent p :
  wf_path p → open_from "." (Os.parent p) ↔ open_dirs (dirs_of p) = true.
Proof.
  intros [name Hn|d name Hd Hn]; unfold dirs_of.
  - rewrite parent_name by done. destruct Hn as (? & ? & Hs).
    rewrite (segments_slash_free _ Hs). simpl. split; [done|]. intros _. apply open_from_root.
  - rewrite parent_sub, segments_wf_sub, removelast_last by done. by apply open_from_dirs.
Qed.

(** X1.  What [check_local] hands to [check_state]: the regular files
    of the tree whose name [valid_filename_for_upload] accepts and that
    lie in no hidden directory, at any depth, and not under a top-level
    directory named [site...], [temp] or [Examples]. *)
Theorem check_local_looks_at fs p :
  wf_fs fs →
  p ∈ check_local_walk (Os.walk fs) [] ∅
  ↔ (∃ t s l, nodes fs !! p = Some (File t s l))
    ∧ valid_filename_for_upload (Py.basename p) = true
    ∧ open_dirs (dirs_of p) = true.
Proof.
  intros Hwf. rewrite walk_listed by done. unfold listed.
  split; intros ((t & s & l & Hp) & Hv & Ho); (split; [by eauto|split; [done|]]).
  - apply open_from_parent; [|done]. by destruct (Hwf _ _ Hp).
  - apply open_from_parent; [|done]. by destruct (Hwf _ _ Hp).
Qed.

(** ** What the two passes never do *)

Section Passes.

Context {R : Type} `{!Client R}.
Implicit Types m : Machine R.

(** X13.  The remote pass never deletes anything in the store: however
    [check_remote] ends, it has sent no delete request and announced no
    deletion on Dropbox. *)
Theorem remote_pass_deletes_nothing_remote n :
  keeps (trace_grows no_remote_delete) (check_remote (R:=R) n).
Proof.
  unfold check_remote, execute_delta.
  apply keeps_bind; [apply _| |intros current].
  - eapply keeps_weaken; [apply execute_delta_listing_nothing_lost|].
    intros m m' (_ & _ & _ & Ht). eapply trace_grows_weaken; [|exact Ht].
    by intros [[]|[]|].
  - apply (keeps_weaken (spared (λ _, False))).
    + unfold execute_delta_deletions.
      apply keeps_bind; [apply _|by apply spared_same|intros keys].
      apply keeps_for_each; [apply _|]. intros path _.
      destruct (bool_decide _); [|by apply spared_same].
      apply keeps_bind; [apply _|by apply spared_same|intros [|]]; [|by apply spared_same].
      apply (delete_local_spares path (λ _, False)). by intros [].
    + intros m m' [_ Ht]. eapply trace_grows_weaken; [|exact Ht].
      by intros [[]|[]|].
Qed.

Global Instance only_pruned_preorder : PreOrder only_pruned.
Proof.
  split.
  - by intros fs.
  - intros fs1 fs2 fs3 [N1 F1] [N2 F2]. split.
    + intros p x Hp. by apply N1, N2.
    + intros p t s l Hp. by apply F2, F1.
Qed.

Global Instance tree_pruned_preorder : PreOrder (@tree_pruned R).
Proof.
  split.
  - intros m. unfold tree_pruned. reflexivity.
  - intros m1 m2 m3. unfold tree_pruned. intros. by etrans.
Qed.

Lemma tree_pruned_same {A} (c : Prog (Machine R) A) :
  keeps (λ m m', disk m' = disk m) c → keeps tree_pruned c.
Proof. intros Hc m. unfold tree_pruned. rewrite (Hc m). reflexivity. Qed.

Lemma rmdir_pruned fs d fs' : Os.rmdir fs d = Some fs' → only_pruned fs fs'.
Proof.
  intros H. split; [|intros p t s l; by eapply rmdir_files].
  unfold Os.rmdir in H. destruct (nodes fs !! d) as [[|t']|]; [done| |done].
  case_bool_decide; [done|]. destruct (Os.inside fs d); [|done]. injection H as <-.
  intros p x. simpl. by intros [_ ?]%lookup_delete_Some.
Qed.

Lemma prune_pruned n fs head tail : only_pruned fs (Os.prune n fs head tail).
Proof.
  revert fs head tail. induction n as [|n IH]; intros fs head tail; simpl; [done|].
  destruct (_ && _); [|done]. destruct (Os.rmdir fs head) as [fs1|] eqn:E; [|done].
  destruct (Py.split head) as [h t']. etrans; [by eapply rmdir_pruned|apply IH].
Qed.

Lemma removedirs_pruned fs name fs' : Os.removedirs fs name = Some fs' → only_pruned fs fs'.
Proof.
  unfold Os.removedirs. destruct (Os.rmdir fs name) as [fs1|] eqn:E; [|done].
  destruct (Py.split name) as [h t'].
  destruct (if bool_decide (t' = "") then Py.split h else (h, t')) as [h' t''].
  intros [= <-]. etrans; [by eapply rmdir_pruned|apply prune_pruned].
Qed.

Global Instance disk_same_preorder : PreOrder (λ m m' : Machine R, disk m' = disk m).
Proof. split; [done|]. intros m1 m2 m3. congruence. Qed.

Lemma call_disk {A} r (f : R → option A * R) : keeps (λ m m', disk m' = disk m) (call r f).
Proof. eapply keeps_weaken; [apply call_effect|]. by intros ?? (_ & _ & ? & _). Qed.

Lemma delete_remote_folders_disk n dir :
  keeps (λ m m', disk m' = disk m) (delete_remote_folders (R:=R) n dir).
Proof.
  revert dir. induction n as [|n IH]; intros dir; simpl.
  - by destruct (bool_decide _).
  - destruct (bool_decide _); [|done].
    apply keeps_bind; [apply _|apply call_disk|intros listing].
    destruct (bool_decide _); [|done].
    apply keeps_bind; [apply _|done|intros _].
    apply keeps_bind; [apply _| |intros [[]|]; [apply IH|done]].
    apply keeps_try; try apply _. apply call_disk.
Qed.

Lemma delete_remote_pruned n path : keeps tree_pruned (delete_remote (R:=R) n path).
Proof.
  unfold delete_remote.
  apply keeps_bind; [apply _|by apply tree_pruned_same|intros _].
  apply keeps_bind; [apply _| |intros [[]|]; [|by apply tree_pruned_same]].
  { apply tree_pruned_same, keeps_try; try apply _.
    apply keeps_bind; [apply _|apply call_disk|intros _].
    apply keeps_bind; [apply _| |intros _].
    - intros m. unfold del_local. run. by destruct (bool_decide _).
    - intros m. unfold del_remote. run. by destruct (bool_decide _). }
  apply keeps_bind; [apply _|by apply tree_pruned_same|intros there].
  apply keeps_bind; [apply _| |intros empty].
  { apply tree_pruned_same. destruct there; [|done].
    apply keeps_bind; [apply _| |by intros names].
    intros m. by rewrite os_get_unchanged. }
  apply keeps_bind; [apply _| |intros _].
  - destruct empty; [|by apply tree_pruned_same].
    apply keeps_bind; [apply _|by apply tree_pruned_same|intros _].
    intros m. unfold os_do, tree_pruned.
    destruct (Os.removedirs (disk m) _) as [fs|] eqn:E; simpl; [|reflexivity].
    by eapply removedirs_pruned.
  - apply tree_pruned_same, delete_remote_folders_disk.
Qed.

(** X14.  The local pass changes no local file: however [check_local]
    ends, every regular file is as it was and nothing is new in the
    tree; all it may have removed are directories. *)
Theorem local_pass_keeps_local_files n :
  keeps tree_pruned (check_local (R:=R) n).
Proof.
  unfold check_local.
  apply keeps_bind; [apply _|by apply tree_pruned_same|intros walk].
  apply keeps_bind; [apply _| |intros _].
  { apply keeps_for_each; [apply _|]. intros path _. apply tree_pruned_same.
    unfold check_state.
    apply keeps_bind; [apply _|done|intros tracked].
    destruct tracked; simpl; [|intros m; apply upload_disk].
    apply keeps_bind; [apply _| |intros [|]; [intros m; apply upload_disk|done]].
    intros m. by rewrite check_local_update_unchanged. }
  apply keeps_bind; [apply _|by apply tree_pruned_same|intros oldlist].
  apply keeps_for_each; [apply _|]. intros file _.
  destruct (bool_decide _); [apply delete_remote_pruned|by apply tree_pruned_same].
Qed.

(** X7.  After deleting a file at the top of the sync root from the
    store, [delete_remote] asks the store for the listing of ["/."]; if
    the store refuses that, [delete_remote] ends with the [ApiError],
    the file gone from the store and from both tables. *)
Theorem top_level_remote_delete_lists_dot n path m names :
  Py.dirname path = "" →
  is_Some (local_files (state m) !! path) →
  is_Some (remote_files (state m) !! path) →
  (files_delete ("/" +:+ path) (dbx m)).1 = Some () →
  Os.listdir (disk m) "." = Some names → names ≠ [] →
  (files_list_folder "/." false (files_delete ("/" +:+ path) (dbx m)).2).1 = None →
  let r := delete_remote (S n) path m in
  r.1 = Raised ApiError
  ∧ state r.2 = untrack path (state m)
  ∧ since m r.2 = [Print (DeletingOnDropbox path); Request (Delete ("/" +:+ path));
                   Request (ListFolder "/." false)].
Proof.
  intros Hdir Hl Hr Hdel Hnames Hne Hlist. cbv zeta. unfold delete_remote.
  rewrite Hdir. run.
  destruct (files_delete ("/" +:+ path) (dbx m)) as [[[]|] d] eqn:Ed; [|done].
  simpl in Hlist. run.
  rewrite (bool_decide_eq_true_2 _ Hl). run.
  rewrite (bool_decide_eq_true_2 (is_Some (remote_files (state m) !! path)) Hr). run.
  rewrite (bool_decide_eq_true_2 ("" = "")) by done.
  change (Os.exists_ (disk m) ".") with true. cbv beta iota. run. rewrite Hnames. run.
  rewrite (bool_decide_eq_false_2 (names = [])) by done. run.
  simpl. run.
  change ("/" +:+ ".") with "/.".
  destruct (files_list_folder "/." false d) as [[res|] d']; [done|]. run.
  split_and!; [done..|]. unfold since. cbn. rewrite <- !app_assoc. by rewrite drop_app_length.
Qed.

End Passes.

Lemma top_level_remote_delete_lists_dot_witness :
  let m := home_top in
  let r := delete_remote 5 "old.txt" m in
  r.1 = Raised ApiError
  ∧ state r.2 = untrack "old.txt" (state m)
  ∧ since m r.2 = [Print (DeletingOnDropbox "old.txt"); Request (Delete ("/" +:+ "old.txt"));
                   Request (ListFolder "/." false)].
Proof.
  apply (top_level_remote_delete_lists_dot 4 "old.txt" home_top
           (default [] (Os.listdir home_disk "."))).
  - reflexivity.
  - exists (mkMeta "r1" 3). vm_compute. reflexivity.
  - exists (mkMeta "r1" 3). vm_compute. reflexivity.
  - vm_compute. reflexivity.
  - vm_compute. reflexivity.
  - vm_compute. discriminate.
  - vm_compute. reflexivity.
Defined.

(** ** What the local pass deletes in the store *)

Lemma for_each_Done {Σ A} (Rel : Σ → Σ → Prop) `{!PreOrder Rel} (l : list A)
    (body : A → Prog Σ unit) m m' x :
  (∀ y, keeps Rel (body y)) →
  for_each l body m = (Done (), m') → x ∈ l →
  ∃ m1 m2, Rel m m1 ∧ body x m1 = (Done (), m2) ∧ Rel m2 m'.
Proof.
  intros Hb. revert m. induction l as [|y l IH]; intros m H Hx; [by apply elem_of_nil in Hx|].
  simpl in H. apply bind_inv_Done in H as ([] & m2 & H2 & H).
  apply elem_of_cons in Hx as [->|Hx].
  - exists m, m2. split_and!; [reflexivity|done|].
    pose proof (keeps_for_each Rel l body (λ z _, Hb z) m2) as Hk. by rewrite H in Hk.
  - destruct (IH m2 H Hx) as (m3 & m4 & H3 & H4 & H5). exists m3, m4. split_and!; [|done..].
    etrans; [|exact H3]. pose proof (Hb y m) as Hk. by rewrite H2 in Hk.
Qed.

Section Unlisted.

Context {R : Type} `{!Client R}.
Implicit Types m : Machine R.

Local Abbreviation any := (λ _ : event, True).

Lemma grows_same {A} (c : Prog (Machine R) A) :
  (∀ m, (c m).2 = m) → keeps (trace_grows any) c.
Proof. intros Hc m. rewrite Hc. reflexivity. Qed.

Lemma grows_call {A} r (f : R → option A * R) : keeps (trace_grows any) (call r f).
Proof.
  eapply keeps_weaken; [apply call_effect|]. intros m m' (Ht & _).
  exists [Request r]. by split; [|repeat constructor].
Qed.

Lemma grows_print l : keeps (trace_grows any) (print (R:=R) l).
Proof. intros m. exists [Print l]. by split; [|repeat constructor]. Qed.

Lemma grows_os_do f : keeps (trace_grows any) (os_do (R:=R) f).
Proof.
  intros m. unfold os_do. destruct (f (disk m)); simpl; [|reflexivity].
  exists []. by rewrite app_nil_r.
Qed.

Lemma grows_del_local path : keeps (trace_grows any) (del_local (R:=R) path).
Proof.
  intros m. unfold del_local. run. destruct (bool_decide _); simpl; [|reflexivity].
  exists []. by rewrite app_nil_r.
Qed.

Lemma grows_del_remote path : keeps (trace_grows any) (del_remote (R:=R) path).
Proof.
  intros m. unfold del_remote. run. destruct (bool_decide _); simpl; [|reflexivity].
  exists []. by rewrite app_nil_r.
Qed.

Lemma grows_delete_remote_folders n dir :
  keeps (trace_grows any) (delete_remote_folders (R:=R) n dir).
Proof.
  revert dir. induction n as [|n IH]; intros dir; simpl.
  - destruct (bool_decide _); [apply keeps_spin|apply keeps_ret]; apply _.
  - destruct (bool_decide _); [|apply keeps_ret; apply _].
    apply keeps_bind; [apply _|apply grows_call|intros listing].
    destruct (bool_decide _); [|apply keeps_ret; apply _].
    apply keeps_bind; [apply _|apply grows_print|intros _].
    apply keeps_bind; [apply _| |intros [[]|]; [apply IH|apply grows_print]].
    apply keeps_try; try apply _. apply grows_call.
Qed.

Lemma grows_delete_remote_tail path n (deleted : option unit) :
  keeps (trace_grows any)
        (match deleted with
         | None => print (R:=R) RemoteDeleteFailed
         | Some _ =>
             let dir := Py.dirname path in
             let dir := if bool_decide (dir = "") then "." else dir in
             there ← os_read (λ fs, Os.exists_ fs dir);
             empty ← (if there then
                        names ← os_get (λ fs, Os.listdir fs dir);
                        ret (bool_decide (names = []))
                      else ret false);
             (if empty then
                print (FolderEmpty dir);;
                os_do (λ fs, Os.removedirs fs dir)
              else ret ());;
             let dir := "/" +:+ dir in
             delete_remote_folders n dir
         end).
Proof.
  destruct deleted as [[]|]; [|apply grows_print]. cbv zeta.
  apply keeps_bind; [apply _|by apply grows_same|intros there].
  apply keeps_bind; [apply _| |intros empty].
  { destruct there; [|by apply grows_same].
    apply keeps_bind; [apply _| |intros names; by apply grows_same].
    apply grows_same. intros m. apply os_get_unchanged. }
  apply keeps_bind; [apply _| |intros _; apply grows_delete_remote_folders].
  destruct empty; [|by apply grows_same].
  apply keeps_bind; [apply _|apply grows_print|intros _]. apply grows_os_do.
Qed.

(** a [delete_remote] that returns has announced the deletion and sent
    the request *)
Lemma delete_remote_events n path m m' :
  delete_remote n path m = (Done (), m') →
  ∃ evs, trace m' = trace m ++ Print (DeletingOnDropbox path)
                               :: Request (Delete ("/" +:+ path)) :: evs.
Proof.
  intros H. unfold delete_remote in H.
  apply bind_inv_Done in H as ([] & m1 & H1 & H). injection H1 as <-.
  apply bind_inv_Done in H as (deleted & m2 & H2 & H).
  pose proof (grows_delete_remote_tail path n deleted m2) as Hk.
  cbv zeta in Hk, H. rewrite H in Hk. destruct Hk as (e3 & E3 & _). simpl in E3.
  assert (∃ e2, trace m2 = (trace m ++ [Print (DeletingOnDropbox path)])
                           ++ Request (Delete ("/" +:+ path)) :: e2) as (e2 & E2).
  { unfold try in H2.
    destruct ((call (Delete ("/" +:+ path)) (files_delete ("/" +:+ path));;
               del_local path;; del_remote path) _) as [[a|e|] m3] eqn:E;
      [injection H2 as <- <-|injection H2 as <- <-|done].
    - apply bind_inv_Done in E as ([] & m4 & E4 & E). apply call_Done in E4 as [E4 _].
      assert (trace_grows any m4 m3) as (e5 & E5 & _).
      { pose proof (keeps_bind (trace_grows any) _ _ (grows_del_local path)
                      (λ _, grows_del_remote path) m4) as Hk. by rewrite E in Hk. }
      exists e5. rewrite E5, E4. simpl. by rewrite <- app_assoc.
    - unfold bind at 1 in E.
      destruct (call (Delete ("/" +:+ path)) (files_delete ("/" +:+ path)) _)
        as [[[]|e'|] m4] eqn:E4.
      + apply call_Done in E4 as [E4 _].
        assert (trace_grows any m4 m3) as (e5 & E5 & _).
        { pose proof (keeps_bind (trace_grows any) _ _ (grows_del_local path)
                        (λ _, grows_del_remote path) m4) as Hk. by rewrite E in Hk. }
        exists e5. rewrite E5, E4. simpl. by rewrite <- app_assoc.
      + apply call_Raised in E4 as (E4 & _). injection E as _ <-. exists [].
        rewrite E4. done.
      + by pose proof (call_not_Spinning (Delete ("/" +:+ path))
                         (files_delete ("/" +:+ path))
                         (mkMachine (state m) (disk m) (pickled m) (dbx m) (stdin m)
                                    (trace m ++ [Print (DeletingOnDropbox path)]))) as Hn;
           rewrite E4 in Hn. }
  exists (e2 ++ e3). rewrite E3, E2. by rewrite <- !app_assoc.
Qed.

Lemma grows_delete_remote n path : keeps (trace_grows any) (delete_remote (R:=R) n path).
Proof.
  unfold delete_remote.
  apply keeps_bind; [apply _|apply grows_print|intros _].
  apply keeps_bind; [apply _| |intros deleted; apply grows_delete_remote_tail].
  apply keeps_try; try apply _.
  apply keeps_bind; [apply _|apply grows_call|intros _].
  apply keeps_bind; [apply _|apply grows_del_local|intros _]. apply grows_del_remote.
Qed.

Lemma check_state_kept path : keeps (kept any) (check_state (R:=R) path).
Proof.
  unfold check_state.
  apply keeps_bind; [apply _|by apply keeps_unchanged; [apply _|]|intros tracked].
  destruct tracked; simpl; [|by apply upload_kept].
  apply keeps_bind; [apply _| |intros [|]; [by apply upload_kept|apply keeps_ret, _]].
  apply keeps_unchanged; [apply _|]. apply check_local_update_unchanged.
Qed.

(** X15.  The local pass deletes from the store what it does not list:
    when [check_local] returns, it has announced and requested the
    deletion from the store of every path that was tracked when it
    started and is not among the files it looks at, whether or not the
    file is still on disk. *)
Theorem unlisted_tracked_file_is_deleted_remotely n m m' p :
  check_local n m = (Done (), m') →
  is_Some (local_files (state m) !! p) →
  p ∉ check_local_walk (Os.walk (disk m)) [] ∅ →
  Print (DeletingOnDropbox p) ∈ since m m'
  ∧ Request (Delete ("/" +:+ p)) ∈ since m m'.
Proof.
  intros H Hp Hout. unfold check_local in H.
  apply bind_inv_Done in H as (walk & m1 & H1 & H). injection H1 as <- <-.
  apply bind_inv_Done in H as ([] & m1 & H1 & H).
  assert (kept any m m1) as (Hl & _ & _ & (e1 & E1 & _)).
  { pose proof (keeps_for_each (kept any) (check_local_walk (Os.walk (disk m)) [] ∅)
                  (λ path, check_state path) (λ x _, check_state_kept x) m) as Hk.
    by rewrite H1 in Hk. }
  apply bind_inv_Done in H as (oldlist & m2 & H2 & H). injection H2 as <- <-.
  assert (p ∈ (map_to_list (local_files (state m1))).*1) as Hin.
  { destruct (Hl p Hp) as [x Hx]. apply list_elem_of_fmap. exists (p, x).
    split; [done|]. by apply elem_of_map_to_list. }
  assert (∀ file, keeps (trace_grows any)
            (if bool_decide (file ∉ check_local_walk (Os.walk (disk m)) [] ∅)
             then delete_remote (R:=R) n file else ret ())) as Hbody.
  { intros file. destruct (bool_decide _); [apply grows_delete_remote|apply keeps_ret, _]. }
  destruct (for_each_Done (trace_grows any) _ _ _ _ p Hbody H Hin)
    as (m3 & m4 & (e3 & E3 & _) & H34 & (e5 & E5 & _)).
  rewrite bool_decide_eq_true_2 in H34 by done.
  apply delete_remote_events in H34 as (e4 & E4).
  assert (since m m' = e1 ++ e3 ++ Print (DeletingOnDropbox p)
                                   :: Request (Delete ("/" +:+ p)) :: e4 ++ e5) as ->.
  { unfold since. rewrite E5, E4, E3, E1. rewrite <- !app_assoc. simpl.
    by rewrite drop_app_length. }
  split.
  - apply elem_of_app; right. apply elem_of_app; right. by left.
  - apply elem_of_app; right. apply elem_of_app; right. right. by left.
Qed.

End Unlisted.

(** ** With the store *)

(** X6.  [delete_remote] of a tracked file that the store holds: when
    it returns, the file has left the store and both tables, the saved
    state and the local files are as they were, and the tree, the store
    and the tables are still well-formed. *)
Theorem remote_delete_untracks n path (m m' : Machine Store) :
  sound m → is_Some (local_files (state m) !! path) →
  is_Some (objects (dbx m) !! ("/" +:+ path)) →
  delete_remote n path m = (Done (), m') →
  state m' = untrack path (state m)
  ∧ objects (dbx m') = delete ("/" +:+ path) (objects (dbx m))
  ∧ pickled m' = pickled m ∧ sound m' ∧ files_same (disk m) (disk m').
Proof. apply delete_remote_Done. Qed.

(** X16.  A run that completes leaves the two sides in step: the state
    is saved as it is in memory, the tables hold exactly the files of
    the store, each at the revision the store holds, and exactly the
    files [check_local] lists, none of them newer than recorded. *)
Theorem completed_run_settles setup n (m m' : Machine Store) :
  world_ok m → (init_dropbox setup m).1 = Done true →
  main setup n m = (Done (), m') → settled m'.
Proof. apply main_settles. Qed.

(** ** On a concrete sync root *)

Lemma check_local_looks_at_witness :
  "notes/new.txt" ∈ check_local_walk (Os.walk home_disk) [] ∅
  ↔ (∃ t s l, nodes home_disk !! "notes/new.txt" = Some (File t s l))
    ∧ valid_filename_for_upload (Py.basename "notes/new.txt") = true
    ∧ open_dirs (dirs_of "notes/new.txt") = true.
Proof.
  apply (check_local_looks_at home_disk "notes/new.txt"), wf_fsb_sound.
  vm_compute. reflexivity.
Defined.

Lemma upload_reads_and_records_witness :
  ∃ rev t, Os.getmtime (disk home_loaded) "notes/new.txt" = Some t
           ∧ state (upload "notes/new.txt" "" home_loaded).2
             = track "notes/new.txt" (mkMeta rev t) (state home_loaded)
           ∧ upload_reply "notes/new.txt" "" home_loaded rev
                          (dbx (upload "notes/new.txt" "" home_loaded).2).
Proof.
  apply (upload_reads_and_records "notes/new.txt" "" home_loaded).
  vm_compute. reflexivity.
Defined.

Lemma download_writes_and_records_witness :
  let m := home_loaded in
  let m' := (download_remote "docs/r.txt" "" m).2 in
  ∃ rev size t l,
    (files_download (Py.join "/" "docs/r.txt") (dbx m)).1 = Some (rev, size)
    ∧ nodes (disk m') !! "docs/r.txt" = Some (File t size l)
    ∧ state m' = track "docs/r.txt" (mkMeta rev t) (state m).
Proof.
  apply (download_writes_and_records "docs/r.txt" "" home_loaded).
  vm_compute. reflexivity.
Defined.

Lemma delete_remote_refused_witness :
  let m := home_refusing in
  let r := delete_remote 5 "gone/x.txt" m in
  r.1 = Done () ∧ state r.2 = state m ∧ disk r.2 = disk m
  ∧ since m r.2 = [Print (DeletingOnDropbox "gone/x.txt");
                   Request (Delete ("/" +:+ "gone/x.txt")); Print RemoteDeleteFailed].
Proof.
  apply (delete_remote_refused 5 "gone/x.txt" home_refusing).
  vm_compute. reflexivity.
Defined.

Lemma remote_delete_untracks_witness :
  let m := home_loaded in
  let m' := (delete_remote 5 "gone/x.txt" m).2 in
  state m' = untrack "gone/x.txt" (state m)
  ∧ objects (dbx m') = delete ("/" +:+ "gone/x.txt") (objects (dbx m))
  ∧ pickled m' = pickled m ∧ sound m' ∧ files_same (disk m) (disk m').
Proof.
  apply (remote_delete_untracks 5 "gone/x.txt" home_loaded).
  - apply soundb_sound. vm_compute. reflexivity.
  - exists (mkMeta "r2" 4). vm_compute. reflexivity.
  - exists ("r2", 6). vm_compute. reflexivity.
  - vm_compute. reflexivity.
Defined.

Lemma saved_state_is_read_back_witness :
  let m := home_loaded in
  let m1 := (save_state m).2 in
  load_state m1 = (Done (), mkMachine (state m) (disk m1) (pickled m1) (dbx m1) (stdin m1)
                                      (trace m1)).
Proof.
  apply (saved_state_is_read_back home_loaded (save_state home_loaded).2).
  - vm_compute. reflexivity.
  - reflexivity.
  - reflexivity.
Defined.

Lemma reprompt_asks_until_accepted_witness :
  let m := home_asked in
  let m' := (reprompt "old.txt" ["l"; "r"; "la"; "ra"] m).2 in
  "la" ∈ ["l"; "r"; "la"; "ra"]
  ∧ ∃ rejected, stdin m = rejected ++ "la" :: stdin m'
                ∧ Forall (λ l, l ∉ ["l"; "r"; "la"; "ra"]) rejected
                ∧ trace m' = trace m ++ replicate (S (length rejected)) (Prompt "old.txt").
Proof.
  apply (reprompt_asks_until_accepted "old.txt" ["l"; "r"; "la"; "ra"] home_asked).
  vm_compute. reflexivity.
Defined.

Lemma check_state_misses_the_local_entry_witness :
  check_state "old.txt" home_lopsided = (Raised KeyError, home_lopsided).
Proof.
  apply (check_state_misses_the_local_entry "old.txt" home_lopsided 3).
  - exists (mkMeta "r1" 3). vm_compute. reflexivity.
  - vm_compute. reflexivity.
  - vm_compute. reflexivity.
Defined.

Lemma delete_local_leaves_no_empty_directory_witness :
  let m' := (delete_local "notes/new.txt" (upload "notes/new.txt" "" home_loaded).2).2 in
  Os.exists_ (disk m') (Os.parent "notes/new.txt") = false
  ∨ ∃ names, Os.listdir (disk m') (Os.parent "notes/new.txt") = Some names ∧ names ≠ [].
Proof.
  apply (delete_local_leaves_no_empty_directory "notes/new.txt"
           (upload "notes/new.txt" "" home_loaded).2).
  vm_compute. reflexivity.
Defined.

Lemma completed_run_settles_witness : settled (main with_client 10 home_machine).2.
Proof.
  apply (completed_run_settles with_client 10 home_machine).
  - apply world_okb_sound. vm_compute. reflexivity.
  - vm_compute. reflexivity.
  - vm_compute. reflexivity.
Defined.

Lemma second_run_transfers_nothing_witness :
  let m1 := (main with_client 10 home_machine).2 in
  let m2 := (main with_client 10 m1).2 in
  Forall calm (since m1 m2) ∧ files_kept (disk m1) (disk m2)
  ∧ objects (dbx m2) = objects (dbx m1).
Proof.
  apply (second_run_transfers_nothing with_client 10 10 home_machine).
  - apply world_okb_sound. vm_compute. reflexivity.
  - vm_compute. reflexivity.
Defined.

Lemma unlisted_tracked_file_is_deleted_remotely_witness :
  let m := home_loaded in
  let m' := (check_local 5 m).2 in
  Print (DeletingOnDropbox "gone/x.txt") ∈ since m m'
  ∧ Request (Delete ("/" +:+ "gone/x.txt")) ∈ since m m'.
Proof.
  apply (unlisted_tracked_file_is_deleted_remotely 5 home_loaded (check_local 5 home_loaded).2
           "gone/x.txt").
  - vm_compute. reflexivity.
  - exists (mkMeta "r2" 4). vm_compute. reflexivity.
  - apply (bool_decide_unpack _). vm_compute. exact I.
Defined.

Lemma transferred_file_is_current_witness :
  let m' := (download_remote "docs/r.txt" "" home_loaded).2 in
  check_state "docs/r.txt" m' = (Done (), m').
Proof.
  apply (transferred_file_is_current "docs/r.txt" "" home_loaded).
  right. vm_compute. reflexivity.
Defined.

(** * The claims that need the whole script *)

(** ** What happens to one path *)

Section Framed.

Context {R : Type} `{!Client R}.
Implicit Types m : Machine R.

Context (path : string) (Q : relation (option meta)) `{!PreOrder Q} (P : event → Prop).

Global Instance framed_preorder : PreOrder (@framed R path Q P).
Proof.
  split.
  - intros m. split_and!; [split; reflexivity|reflexivity|reflexivity].
  - intros m1 m2 m3 ([L1 R1] & D1 & T1) ([L2 R2] & D2 & T2).
    split_and!; [split; by etrans|by etrans|by etrans].
Qed.

Lemma framed_same {A} (c : Prog (Machine R) A) :
  (∀ m, (c m).2 = m) → keeps (framed path Q P) c.
Proof. intros Hc m. rewrite Hc. reflexivity. Qed.

Lemma framed_event m m' e :
  trace m' = trace m ++ [e] → state m' = state m → disk m' = disk m → P e →
  framed path Q P m m'.
Proof.
  intros Ht Hs Hd He. unfold framed. rewrite Hs, Hd.
  split_and!; [split; reflexivity|reflexivity|]. exists [e]. by repeat constructor.
Qed.

Lemma framed_call {A} r (f : R → option A * R) :
  P (Request r) → keeps (framed path Q P) (call r f).
Proof.
  intros Hr. eapply keeps_weaken; [apply call_effect|].
  intros m m' (Ht & Hs & Hd & _). by eapply framed_event.
Qed.

Lemma framed_print l : P (Print l) → keeps (framed path Q P) (print (R:=R) l).
Proof.
  intros Hl. eapply keeps_weaken; [apply print_effect|].
  intros m m' (Ht & Hs & Hd & _). by eapply framed_event.
Qed.

Lemma framed_os_get {A} (f : LocalFS → option A) : keeps (framed path Q P) (os_get (R:=R) f).
Proof. apply framed_same. intros m. apply os_get_unchanged. Qed.

Lemma framed_removedirs dir :
  keeps (framed path Q P) (os_do (R:=R) (λ fs, Os.removedirs fs dir)).
Proof.
  intros m. unfold os_do. destruct (Os.removedirs (disk m) dir) as [fs|] eqn:E; simpl;
    [|reflexivity].
  split_and!; [split; reflexivity|by eapply removedirs_pruned|]. simpl.
  exists []. by rewrite app_nil_r.
Qed.

Lemma framed_state (f : DropboxState → DropboxState) :
  (∀ st, entry_rel path Q st (f st)) → keeps (framed path Q P) (with_state (R:=R) f).
Proof.
  intros Hf m. split_and!; [apply Hf|reflexivity|]. exists []. simpl. by rewrite app_nil_r.
Qed.

Lemma framed_del_local file :
  (∀ tbl : gmap string meta, Q (tbl !! path) (delete file tbl !! path)) →
  keeps (framed path Q P) (del_local (R:=R) file).
Proof.
  intros Hq. unfold del_local.
  apply keeps_bind; [apply _|by apply framed_same|intros [|]]; [|apply keeps_raise, _].
  apply framed_state. intros st. split; simpl; [apply Hq|reflexivity].
Qed.

Lemma framed_del_remote file :
  (∀ tbl : gmap string meta, Q (tbl !! path) (delete file tbl !! path)) →
  keeps (framed path Q P) (del_remote (R:=R) file).
Proof.
  intros Hq. unfold del_remote.
  apply keeps_bind; [apply _|by apply framed_same|intros [|]]; [|apply keeps_raise, _].
  apply framed_state. intros st. split; simpl; [reflexivity|apply Hq].
Qed.

Lemma framed_delete_remote_folders n dir :
  (∀ e, no_upload e → P e) →
  keeps (framed path Q P) (delete_remote_folders (R:=R) n dir).
Proof.
  intros HP. revert dir. induction n as [|n IH]; intros dir; simpl.
  - destruct (bool_decide _); [apply keeps_spin|apply keeps_ret]; apply _.
  - destruct (bool_decide _); [|apply keeps_ret; apply _].
    apply keeps_bind; [apply _|by apply framed_call, HP|intros listing].
    destruct (bool_decide _); [|apply keeps_ret; apply _].
    apply keeps_bind; [apply _|by apply framed_print, HP|intros _].
    apply keeps_bind; [apply _| |intros [[]|]; [apply IH|by apply framed_print, HP]].
    apply keeps_try; try apply _. by apply framed_call, HP.
Qed.

Lemma framed_delete_remote n file :
  (∀ tbl : gmap string meta, Q (tbl !! path) (delete file tbl !! path)) →
  (∀ e, no_upload e → P e) →
  keeps (framed path Q P) (delete_remote (R:=R) n file).
Proof.
  intros Hq HP. unfold delete_remote.
  apply keeps_bind; [apply _|by apply framed_print, HP|intros _].
  apply keeps_bind; [apply _| |intros [[]|]; [|by apply framed_print, HP]].
  { apply keeps_try; try apply _.
    apply keeps_bind; [apply _|by apply framed_call, HP|intros _].
    apply keeps_bind; [apply _|by apply framed_del_local|intros _].
    by apply framed_del_remote. }
  apply keeps_bind; [apply _|by apply framed_same|intros there].
  apply keeps_bind; [apply _| |intros empty].
  { destruct there; [|by apply framed_same].
    apply keeps_bind; [apply _|apply framed_os_get|intros names; by apply framed_same]. }
  apply keeps_bind; [apply _| |intros _; by apply framed_delete_remote_folders].
  destruct empty; [|by apply framed_same].
  apply keeps_bind; [apply _|by apply framed_print, HP|intros _]. apply framed_removedirs.
Qed.

Lemma framed_upload_session n total pos data close sid cur off :
  (∀ r, P (Request r)) →
  keeps (framed path Q P) (upload_session (R:=R) n total pos data close sid cur off).
Proof.
  intros HP. eapply keeps_weaken; [apply upload_session_step|].
  intros m m' (Ht & Hs & Hd). unfold framed. rewrite Hs, Hd.
  split_and!; [split; reflexivity|reflexivity|]. eapply trace_grows_weaken; [|exact Ht].
  intros e (r & -> & _). apply HP.
Qed.

Lemma framed_upload file because :
  (∀ (tbl : gmap string meta) x, Q (tbl !! path) (<[file := x]> tbl !! path)) →
  P (Print (Uploading file because)) → (∀ r, P (Request r)) →
  keeps (framed path Q P) (upload (R:=R) file because).
Proof.
  intros Hq Hp Hr. unfold upload.
  apply keeps_bind; [apply _|by apply framed_print|intros _].
  apply keeps_bind; [apply _|apply framed_os_get|intros size].
  apply keeps_bind; [apply _| |intros rev].
  - case_bool_decide.
    + apply keeps_bind; [apply _|apply framed_os_get|intros total].
      apply keeps_bind; [apply _|by apply framed_upload_session|intros [d c]].
      by apply framed_call.
    + apply keeps_bind; [apply _|apply framed_os_get|intros total]. by apply framed_call.
  - apply keeps_bind; [apply _|apply framed_os_get|intros mtime].
    apply keeps_bind; [apply _| |intros _].
    + apply framed_state. intros st. split; simpl; [apply Hq|reflexivity].
    + apply framed_state. intros st. split; simpl; [reflexivity|apply Hq].
Qed.

Lemma framed_check_state file :
  (∀ (tbl : gmap string meta) x, Q (tbl !! path) (<[file := x]> tbl !! path)) →
  (∀ because, P (Print (Uploading file because))) → (∀ r, P (Request r)) →
  keeps (framed path Q P) (check_state (R:=R) file).
Proof.
  intros Hq Hp Hr. unfold check_state.
  apply keeps_bind; [apply _|by apply framed_same|intros tracked].
  destruct tracked; simpl; [|by apply framed_upload].
  apply keeps_bind; [apply _| |intros [|]; [by apply framed_upload|apply keeps_ret, _]].
  apply framed_same. apply check_local_update_unchanged.
Qed.

End Framed.

Section LocalDeletion.

Context {R : Type} `{!Client R}.
Implicit Types m : Machine R.

Global Instance stays_some_preorder : PreOrder stays_some.
Proof. split; [by intros x Hx|]. intros x y z Hxy Hyz Hx. by apply Hyz, Hxy. Qed.

Global Instance stays_none_preorder : PreOrder stays_none.
Proof. split; [by intros x Hx|]. intros x y z Hxy Hyz Hx. by apply Hyz, Hxy. Qed.

Lemma for_each_app_Done {Σ A} (l1 l2 : list A) (body : A → Prog Σ unit) (s s' : Σ) :
  for_each (l1 ++ l2) body s = (Done (), s') →
  ∃ s1, for_each l1 body s = (Done (), s1) ∧ for_each l2 body s1 = (Done (), s').
Proof.
  revert s. induction l1 as [|x l1 IH]; intros s H; simpl in *; [by exists s|].
  apply bind_inv_Done in H as ([] & s2 & H2 & H).
  destruct (IH _ H) as (s1 & H1 & H'). exists s1. split; [|done].
  by rewrite (bind_Done _ _ _ _ _ H2).
Qed.

Lemma keeps_for_each_at {Σ A} (Rel : Σ → Σ → Prop) `{!PreOrder Rel} (l : list A)
    (body : A → Prog Σ unit) (s : Σ) o s' :
  (∀ x, x ∈ l → keeps Rel (body x)) → for_each l body s = (o, s') → Rel s s'.
Proof. intros Hb H'. pose proof (keeps_for_each Rel l body Hb s) as Hk. by rewrite H' in Hk. Qed.

(** an upload that returns has announced itself *)
Lemma upload_announced file because m m' :
  upload file because m = (Done (), m') →
  ∃ evs, trace m' = trace m ++ Print (Uploading file because) :: evs.
Proof.
  intros H'. unfold upload in H'.
  apply bind_inv_Done in H' as ([] & m1 & H1 & H'). injection H1 as <-.
  apply bind_inv_Done in H' as (size & m2 & H2 & H'). apply os_get_Done in H2 as [_ ->].
  apply bind_inv_Done in H' as (rev & m2 & H2 & H').
  assert (∃ e2, trace m2 = (trace m ++ [Print (Uploading file because)]) ++ e2) as (e2 & E2).
  { destruct (bool_decide _).
    - apply bind_inv_Done in H2 as (total & m3 & H3 & H2). apply os_get_Done in H3 as [_ ->].
      apply bind_inv_Done in H2 as ([d c] & m3 & H3 & H2).
      pose proof (keeps_at _ _ (upload_session_step _ _ _ _ _ _ _ _) _ _ _ H3)
        as ((e3 & E3 & _) & _).
      apply call_Done in H2 as [-> _]. simpl. rewrite E3. eexists. by rewrite <- app_assoc.
    - apply bind_inv_Done in H2 as (total & m3 & H3 & H2). apply os_get_Done in H3 as [_ ->].
      apply call_Done in H2 as [-> _]. simpl. by eexists. }
  apply bind_inv_Done in H' as (t & m3 & H3 & H'). apply os_get_Done in H3 as [_ ->].
  apply bind_inv_Done in H' as ([] & m3 & H3 & H'). injection H3 as <-. injection H' as <-.
  exists e2. simpl. rewrite E2. simpl. by rewrite <- app_assoc.
Qed.

(** what the local pass does with a path that is not tracked *)
Lemma check_local_untracked n path mc m2 :
  remote_files (state mc) !! path = None →
  check_local n mc = (Done (), m2) →
  (path ∈ check_local_walk (Os.walk (disk mc)) [] ∅ →
     Print (Uploading path "-- Not Found Remotely") ∈ since mc m2
     ∧ is_Some (local_files (state m2) !! path)
     ∧ is_Some (remote_files (state m2) !! path))
  ∧ (path ∉ check_local_walk (Os.walk (disk mc)) [] ∅ →
     local_files (state mc) !! path = None →
     (∀ because, Print (Uploading path because) ∉ since mc m2)
     ∧ local_files (state m2) !! path = None
     ∧ remote_files (state m2) !! path = None
     ∧ ∀ t s l, nodes (disk mc) !! path = Some (File t s l) →
                nodes (disk m2) !! path = Some (File t s l)).
Proof.
  intros Hr H'. unfold check_local in H'.
  apply bind_inv_Done in H' as (walk & m1 & H1 & H'). injection H1 as <- <-.
  set (filelist := check_local_walk (Os.walk (disk mc)) [] ∅) in *.
  apply bind_inv_Done in H' as ([] & m1 & H1 & H').
  apply bind_inv_Done in H' as (oldlist & m1' & Ho & H'). injection Ho as <- <-.
  split.
  - intros Hin. apply list_elem_of_split_l in Hin as (l1 & l2 & El & Hl1).
    rewrite El in H1. apply for_each_app_Done in H1 as (ma & Ha & H1).
    simpl in H1. apply bind_inv_Done in H1 as ([] & mb & Hb & H1).
    (* up to the first visit of [path] its entries are as they were *)
    assert (framed path eq (λ _, True) mc ma) as ([_ Era] & _ & (ea & Ea & _)).
    { eapply (keeps_for_each_at (framed path eq (λ _, True))); [|exact Ha].
      intros q Hq. apply framed_check_state; [apply _| |done..].
      intros tbl x. rewrite lookup_insert_ne; [done|]. by intros ->. }
    (* there it is uploaded *)
    unfold check_state in Hb. apply bind_inv_Done in Hb as (tracked & mb' & Hb' & Hb).
    injection Hb' as <- <-. rewrite <- Era, Hr in Hb.
    rewrite bool_decide_eq_false_2 in Hb by (by intros [? ?]). simpl in Hb.
    destruct (upload_announced _ _ _ _ Hb) as (eb & Eb).
    pose proof (upload_outcome path "-- Not Found Remotely" ma) as Hup.
    rewrite Hb in Hup. simpl in Hup. destruct Hup as [[_ [x Hx]]|[Hup _]];
      [|by destruct (Hup ())].
    (* and from there on it stays tracked *)
    assert (framed path stays_some (λ _, True) mb m1) as ([Hl1' Hr1'] & _ & (e1 & E1 & _)).
    { eapply (keeps_for_each_at (framed path stays_some (λ _, True))); [|exact H1].
      intros q Hq. apply framed_check_state; [apply _| |done..].
      intros tbl y. unfold stays_some. destruct (decide (q = path)) as [->|Hne].
      - rewrite lookup_insert_eq. by eexists.
      - by rewrite lookup_insert_ne by done. }
    assert (framed path stays_some (λ _, True) m1 m2) as ([Hl2 Hr2] & _ & (e2 & E2 & _)).
    { eapply (keeps_for_each_at (framed path stays_some (λ _, True))); [|exact H'].
      intros file Hf. cbv beta. case_bool_decide as Hout; [|apply keeps_ret, _].
      apply framed_delete_remote; [apply _| |done].
      intros tbl. unfold stays_some. rewrite lookup_delete_ne; [done|].
      intros ->. apply Hout. rewrite El. apply elem_of_app; right. by left. }
    split_and!.
    + unfold since. rewrite E2, E1, Eb, Ea. rewrite <- !app_assoc. rewrite drop_app_length.
      apply elem_of_app; right. by left.
    + apply Hl2, Hl1'. rewrite Hx. simpl. rewrite lookup_insert_eq. by eexists.
    + apply Hr2, Hr1'. rewrite Hx. simpl. rewrite lookup_insert_eq. by eexists.
  - intros Hout Hl.
    assert (framed path stays_none (no_upload_of path) mc m1)
      as ([Hl1 Hr1] & [_ Hf1] & T1).
    { eapply (keeps_for_each_at (framed path stays_none (no_upload_of path))); [|exact H1].
      intros q Hq. assert (q ≠ path) as Hne by (by intros ->).
      apply framed_check_state; [apply _| |done..].
      intros tbl x. unfold stays_none. by rewrite lookup_insert_ne. }
    assert (framed path stays_none (no_upload_of path) m1 m2)
      as ([Hl2 Hr2] & [_ Hf2] & T2).
    { eapply (keeps_for_each_at (framed path stays_none (no_upload_of path))); [|exact H'].
      intros file Hf. cbv beta. case_bool_decide; [|apply keeps_ret, _].
      apply framed_delete_remote; [apply _| |].
      - intros tbl. unfold stays_none. intros Hn. apply lookup_delete_None. by right.
      - by intros [[]|[]|]. }
    split_and!.
    + intros because Hin.
      assert (trace_grows (no_upload_of path) mc m2) as Ht by (by etrans).
      apply trace_grows_since in Ht. rewrite Forall_forall in Ht.
      by apply (Ht _ Hin).
    + by apply Hl2, Hl1.
    + by apply Hr2, Hr1.
    + intros t s l Hn. by apply Hf2, Hf1.
Qed.

(** the deletion loop passes over a path that is not tracked *)
Lemma deletions_skip_untracked current path (mc : Machine R) :
  remote_files (state mc) !! path = None →
  spared (λ p, p = path) mc (execute_delta_deletions current mc).2.
Proof.
  intros Hr. unfold execute_delta_deletions.
  set (keys := (map_to_list (remote_files (state mc))).*1).
  assert ((λ m, (Done (map_to_list (remote_files (state m))).*1, m)) mc = (Done keys, mc))
    as Hk by done.
  rewrite (bind_Done _ _ _ _ _ Hk).
  apply (keeps_for_each (spared (λ p, p = path))). intros q Hq. cbv beta.
  destruct (bool_decide _); [|by apply spared_same].
  apply keeps_bind; [apply _|by apply spared_same|intros [|]]; [|by apply spared_same].
  apply delete_local_spares. intros ->.
  apply list_elem_of_fmap in Hq as ([k x] & -> & Hq). apply elem_of_map_to_list in Hq.
  simpl in Hr. congruence.
Qed.

(** C10, as the code has it.  [delete_local] forgets the path in both
    tables whether or not [os.remove] succeeds, and a file that could
    not be removed is still there afterwards.  The deletion is not tried
    again: the deletion loop passes over a path that is not tracked.
    What a local pass that returns does with such a path depends on
    whether it looks at it: a file among those [check_local] lists is
    uploaded as "not found remotely" and tracked again; any other stays
    on disk, untracked, and is not uploaded. *)
Theorem delete_local_untracks m path :
  is_Some (local_files (state m) !! path) →
  is_Some (remote_files (state m) !! path) →
  let m1 := (delete_local path m).2 in
  state m1 = mkDropboxState (delete path (local_files (state m)))
                            (delete path (remote_files (state m)))
  ∧ (Os.remove (disk m) path = None → is_Some (nodes (disk m) !! path) → path ≠ "." →
     disk m1 = disk m)
  ∧ (∀ current (mc : Machine R),
       remote_files (state mc) !! path = None →
       Forall (deletes_only (λ p, p ≠ path))
              (since mc (execute_delta_deletions current mc).2))
  ∧ (∀ n (mc m2 : Machine R),
       local_files (state mc) !! path = None →
       remote_files (state mc) !! path = None →
       check_local n mc = (Done (), m2) →
       if bool_decide (path ∈ check_local_walk (Os.walk (disk mc)) [] ∅)
       then Print (Uploading path "-- Not Found Remotely") ∈ since mc m2
            ∧ is_Some (local_files (state m2) !! path)
            ∧ is_Some (remote_files (state m2) !! path)
       else (∀ because, Print (Uploading path because) ∉ since mc m2)
            ∧ local_files (state m2) !! path = None
            ∧ remote_files (state m2) !! path = None
            ∧ ∀ t s l, nodes (disk mc) !! path = Some (File t s l) →
                       nodes (disk m2) !! path = Some (File t s l)).
Proof.
  intros Hl Hr.
  assert (state (delete_local path m).2
          = mkDropboxState (delete path (local_files (state m)))
                           (delete path (remote_files (state m)))) as Hstate.
  { unfold delete_local. run.
    destruct (Os.remove (disk m) path); run;
      rewrite (bool_decide_eq_true_2 _ Hl); run;
      rewrite (bool_decide_eq_true_2 _ Hr); run;
      repeat (case_match; simplify_eq; run; try done). }
  simpl. split; [done|]. split; [|split].
  - intros Hrm [x Hx] Hne.
    unfold delete_local. run.
    rewrite Hrm; run. rewrite (bool_decide_eq_true_2 _ Hl); run.
    rewrite (bool_decide_eq_true_2 _ Hr); run.
    fold (Os.parent path).
    destruct (Os.exists_ (disk m) (Os.parent path)); run; [|done].
    destruct (Os.listdir (disk m) (Os.parent path)) as [names|] eqn:Hls; run; [|done].
    rewrite bool_decide_eq_false_2; [done|]. by eapply listdir_occupied.
  - intros current mc Hn.
    destruct (deletions_skip_untracked current path mc Hn) as [_ Ht].
    by apply trace_grows_since.
  - intros n mc m2 Hln Hrn Hrun.
    destruct (check_local_untracked n path mc m2 Hrn Hrun) as [Hin Hout].
    case_bool_decide; [by apply Hin|by apply Hout].
Qed.

End LocalDeletion.

(** a locked file that [check_local] lists *)
Lemma delete_local_untracks_witness :
  let m := locked_machine in
  let path := "keep.txt" in
  let m1 := (delete_local path m).2 in
  state m1 = mkDropboxState (delete path (local_files (state m)))
                            (delete path (remote_files (state m)))
  ∧ (Os.remove (disk m) path = None → is_Some (nodes (disk m) !! path) → path ≠ "." →
     disk m1 = disk m)
  ∧ (∀ current (mc : Machine Store),
       remote_files (state mc) !! path = None →
       Forall (deletes_only (λ p, p ≠ path))
              (since mc (execute_delta_deletions current mc).2))
  ∧ (∀ n (mc m2 : Machine Store),
       local_files (state mc) !! path = None →
       remote_files (state mc) !! path = None →
       check_local n mc = (Done (), m2) →
       if bool_decide (path ∈ check_local_walk (Os.walk (disk mc)) [] ∅)
       then Print (Uploading path "-- Not Found Remotely") ∈ since mc m2
            ∧ is_Some (local_files (state m2) !! path)
            ∧ is_Some (remote_files (state m2) !! path)
       else (∀ because, Print (Uploading path because) ∉ since mc m2)
            ∧ local_files (state m2) !! path = None
            ∧ remote_files (state m2) !! path = None
            ∧ ∀ t s l, nodes (disk mc) !! path = Some (File t s l) →
                       nodes (disk m2) !! path = Some (File t s l)).
Proof.
  apply (delete_local_untracks locked_machine "keep.txt");
    exists (mkMeta "r1" 5); vm_compute; reflexivity.
Defined.

(** C10 as stated fails for a file [check_local] does not look at: the
    hidden file that could not be removed is untracked, still on disk,
    and neither this run nor the next uploads it. *)
Lemma reupload_as_stated_fails : ¬ reupload_as_stated 5 hidden_locked_machine ".keep".
Proof.
  unfold reupload_as_stated. cbv zeta. intros H.
  assert (since hidden_locked_machine (main with_client 5 hidden_locked_machine).2
          = [Request (ListFolder "" true); Print (DeletingLocally ".keep");
             Print SyncComplete]) as E1 by (vm_compute; reflexivity).
  assert (since hidden_locked_machine
                (main with_client 5 (main with_client 5 hidden_locked_machine).2).2
          = [Request (ListFolder "" true); Print (DeletingLocally ".keep");
             Print SyncComplete; Request (ListFolder "" true); Print SyncComplete]) as E2
    by (vm_compute; reflexivity).
  rewrite E1, E2 in H. destruct H as (_ & _ & because & Hin).
  - by right; left.
  - vm_compute. reflexivity.
  - repeat (apply elem_of_cons in Hin as [Hin|Hin]; [discriminate Hin|]).
    by apply elem_of_nil in Hin.
Qed.

(** ** Writing the two tables together *)

Section Paired.

Context {R : Type} `{!Client R}.
Implicit Types m : Machine R.

Lemma paired_same {A} (c : Prog (Machine R) A) :
  (∀ m, state (c m).2 = state m ∧ pickled (c m).2 = pickled m) → stays all_paired c.
Proof. intros Hc m [Hs Hp]. destruct (Hc m) as [Es Ep]. split; by rewrite ?Es, ?Ep. Qed.

Lemma paired_call {A} r (f : R → option A * R) : stays all_paired (call r f).
Proof. apply paired_same. intros m. unfold call. by destruct (f (dbx m)) as [[a|] d]. Qed.

Lemma paired_print l : stays all_paired (print (R:=R) l).
Proof. by apply paired_same. Qed.

Lemma paired_os_do f : stays all_paired (os_do (R:=R) f).
Proof. apply paired_same. intros m. unfold os_do. by destruct (f (disk m)). Qed.

Lemma paired_os_get {A} (f : LocalFS → option A) : stays all_paired (os_get (R:=R) f).
Proof. apply paired_same. intros m. by rewrite os_get_unchanged. Qed.

Lemma paired_os_read {A} (f : LocalFS → A) : stays all_paired (os_read (R:=R) f).
Proof. by apply paired_same. Qed.

Lemma paired_try_OSError (c : Prog (Machine R) unit) :
  stays all_paired c → stays all_paired (try_OSError c).
Proof.
  intros Hc m Hm. specialize (Hc m Hm). unfold try_OSError.
  by destruct (c m) as [[a|[]|] m1].
Qed.

(** [self.local_files[path] = meta; self.remote_files[path] = meta] *)
Lemma paired_record path x :
  stays all_paired (set_local (R:=R) path x;; set_remote path x).
Proof. intros m [Hs Hp]. run. split; [|done]. unfold paired in *. simpl. by rewrite Hs. Qed.

(** [del self.local_files[path]; del self.remote_files[path]] *)
Lemma paired_forget {A} path (k : Prog (Machine R) A) :
  stays all_paired k → stays all_paired (del_local path;; del_remote path;; k).
Proof.
  intros Hk m [Hs Hp]. unfold del_local, del_remote. run. unfold paired in Hs.
  destruct (bool_decide (is_Some (local_files (state m) !! path))) eqn:E; run; [|done].
  rewrite <- Hs, E. run. apply Hk. split; [|done]. unfold paired. simpl. by rewrite Hs.
Qed.

Lemma paired_forget_last path :
  stays all_paired (del_local (R:=R) path;; del_remote path).
Proof.
  intros m [Hs Hp]. unfold del_local, del_remote. run. unfold paired in Hs.
  destruct (bool_decide (is_Some (local_files (state m) !! path))) eqn:E; run; [|done].
  rewrite <- Hs, E. run. split; [|done]. unfold paired. simpl. by rewrite Hs.
Qed.

Lemma paired_upload_session n total pos data close sid cur off :
  stays all_paired (upload_session (R:=R) n total pos data close sid cur off).
Proof.
  revert pos data close sid cur off.
  induction n as [|n IH]; intros pos data close sid cur off; simpl.
  - destruct close; [apply stays_ret|apply stays_spin].
  - destruct close; [apply stays_ret|].
    apply stays_bind; [|intros s; apply IH].
    destruct sid as [s|]; [|apply paired_call].
    apply stays_bind; [apply paired_call|intros _; apply stays_ret].
Qed.

Lemma paired_upload path because : stays all_paired (upload (R:=R) path because).
Proof.
  unfold upload.
  apply stays_bind; [apply paired_print|intros _].
  apply stays_bind; [apply paired_os_get|intros size].
  apply stays_bind; [|intros rev].
  - destruct (bool_decide _).
    + apply stays_bind; [apply paired_os_get|intros total].
      apply stays_bind; [apply paired_upload_session|intros [d c]]. apply paired_call.
    + apply stays_bind; [apply paired_os_get|intros total]. apply paired_call.
  - apply stays_bind; [apply paired_os_get|intros mtime]. apply paired_record.
Qed.

Lemma paired_download_remote path because :
  stays all_paired (download_remote (R:=R) path because).
Proof.
  unfold download_remote.
  apply stays_bind; [apply paired_print|intros _].
  destruct (Py.split path) as [head tail].
  apply stays_bind; [apply paired_os_read|intros missing].
  apply stays_bind; [|intros _].
  { destruct (_ && _); [apply paired_os_do|apply stays_ret]. }
  apply stays_bind; [apply paired_call|intros [rev size]].
  apply stays_bind; [apply paired_os_do|intros _].
  apply stays_bind; [apply paired_os_get|intros mtime]. apply paired_record.
Qed.

Lemma paired_delete_local path : stays all_paired (delete_local (R:=R) path).
Proof.
  unfold delete_local.
  apply stays_bind; [apply paired_print|intros _].
  apply stays_bind; [apply paired_try_OSError, paired_os_do|intros _].
  apply paired_forget.
  apply stays_bind; [apply paired_os_read|intros there].
  apply stays_bind; [|intros empty].
  { destruct there; [|apply stays_ret].
    apply stays_bind; [apply paired_os_get|intros names; apply stays_ret]. }
  destruct empty; [|apply stays_ret].
  apply stays_bind; [apply paired_print|intros _]. apply paired_os_do.
Qed.

Lemma paired_delete_remote_folders n dir :
  stays all_paired (delete_remote_folders (R:=R) n dir).
Proof.
  revert dir. induction n as [|n IH]; intros dir; simpl.
  - destruct (bool_decide _); [apply stays_spin|apply stays_ret].
  - destruct (bool_decide _); [|apply stays_ret].
    apply stays_bind; [apply paired_call|intros listing].
    destruct (bool_decide _); [|apply stays_ret].
    apply stays_bind; [apply paired_print|intros _].
    apply stays_bind; [apply stays_try, paired_call|intros [[]|]];
      [apply IH|apply paired_print].
Qed.

Lemma paired_delete_remote n path : stays all_paired (delete_remote (R:=R) n path).
Proof.
  unfold delete_remote.
  apply stays_bind; [apply paired_print|intros _].
  apply stays_bind; [|intros [[]|]; [|apply paired_print]].
  { apply stays_try. apply stays_bind; [apply paired_call|intros _].
    apply paired_forget_last. }
  apply stays_bind; [apply paired_os_read|intros there].
  apply stays_bind; [|intros empty].
  { destruct there; [|apply stays_ret].
    apply stays_bind; [apply paired_os_get|intros names; apply stays_ret]. }
  apply stays_bind; [|intros _; apply paired_delete_remote_folders].
  destruct empty; [|apply stays_ret].
  apply stays_bind; [apply paired_print|intros _]. apply paired_os_do.
Qed.

(** a folder entry: [make_local_dir] is called where nothing exists,
    and there it only makes the directories *)
Lemma paired_folder_entry path_display prefer_remote current :
  stays all_paired
        (process_remote_entry (R:=R) (FolderMetadata path_display) prefer_remote current).
Proof.
  intros m Hm. unfold process_remote_entry, make_local_dir. run.
  destruct (Os.exists_ (disk m) (Py.tail path_display)) eqn:E; run; [done|].
  rewrite E. run. by destruct (Os.makedirs (disk m) (Py.tail path_display)).
Qed.

Lemma paired_reprompt path responses : stays all_paired (reprompt (R:=R) path responses).
Proof.
  apply paired_same. intros m. unfold reprompt.
  by destruct (reprompt_go responses (stdin m)) as [[k [a|]] rest].
Qed.

Lemma paired_resolve path side : stays all_paired (resolve (R:=R) path side).
Proof.
  unfold resolve. apply stays_bind; [|intros _; apply stays_ret].
  destruct side; [apply paired_download_remote|apply paired_upload].
Qed.

Lemma paired_handle_conflict path prefer_remote :
  stays all_paired (handle_conflict (R:=R) path prefer_remote).
Proof.
  unfold handle_conflict. destruct prefer_remote as [side|]; [apply paired_resolve|].
  apply stays_bind; [apply paired_reprompt|intros answer].
  apply stays_bind; [apply paired_resolve|intros _].
  destruct (Py.endswith answer "a"); apply stays_ret.
Qed.

Lemma paired_check_local_update path : stays all_paired (check_local_update (R:=R) path).
Proof. apply paired_same. intros m. by rewrite check_local_update_unchanged. Qed.

Lemma paired_get_local path : stays all_paired (get_local (R:=R) path).
Proof. apply paired_same. intros m. by rewrite get_local_unchanged. Qed.

Lemma paired_entry entry prefer_remote current :
  stays all_paired (process_remote_entry (R:=R) entry prefer_remote current).
Proof.
  destruct entry as [path_display rev|path_display|path_display];
    [|apply paired_folder_entry|apply stays_ret].
  unfold process_remote_entry.
  apply stays_bind; [by apply paired_same|intros tracked].
  apply stays_bind; [|intros side; apply stays_ret].
  destruct tracked; simpl.
  - apply stays_bind; [apply paired_get_local|intros x].
    destruct (bool_decide _); [|apply stays_ret].
    apply stays_bind; [apply paired_check_local_update|intros [|]].
    + apply paired_handle_conflict.
    + apply stays_bind; [apply paired_download_remote|intros _; apply stays_ret].
  - apply stays_bind; [apply paired_download_remote|intros _; apply stays_ret].
Qed.

Lemma paired_entries entries prefer_remote current :
  stays all_paired (process_remote_entries_from (R:=R) entries prefer_remote current).
Proof.
  revert prefer_remote current.
  induction entries as [|entry rest IH]; intros prefer_remote current; simpl;
    [apply stays_ret|].
  apply stays_bind; [apply paired_entry|intros [side cur]]. apply IH.
Qed.

Lemma paired_pages n results current :
  stays all_paired (execute_delta_pages (R:=R) n results current).
Proof.
  revert results current. induction n as [|n IH]; intros results current; simpl.
  - apply stays_bind; [apply paired_entries|intros cur].
    destruct (negb _); [apply stays_ret|apply stays_spin].
  - apply stays_bind; [apply paired_entries|intros cur].
    destruct (negb _); [apply stays_ret|].
    apply stays_bind; [apply paired_call|intros results']. apply IH.
Qed.

Lemma paired_check_remote n : stays all_paired (check_remote (R:=R) n).
Proof.
  unfold check_remote, execute_delta.
  apply stays_bind; [|intros current].
  - unfold execute_delta_listing.
    apply stays_bind; [apply paired_call|intros results]. apply paired_pages.
  - unfold execute_delta_deletions.
    apply stays_bind; [by apply paired_same|intros keys].
    apply stays_for_each. intros path _.
    destruct (bool_decide _); [|apply stays_ret].
    apply stays_bind; [by apply paired_same|intros [|]];
      [apply paired_delete_local|apply stays_ret].
Qed.

Lemma paired_check_state path : stays all_paired (check_state (R:=R) path).
Proof.
  unfold check_state.
  apply stays_bind; [by apply paired_same|intros tracked].
  destruct tracked; simpl; [|apply paired_upload].
  apply stays_bind; [apply paired_check_local_update|intros [|]];
    [apply paired_upload|apply stays_ret].
Qed.

Lemma paired_check_local n : stays all_paired (check_local (R:=R) n).
Proof.
  unfold check_local.
  apply stays_bind; [apply paired_os_read|intros walk].
  apply stays_bind; [|intros _].
  { apply stays_for_each. intros path _. apply paired_check_state. }
  apply stays_bind; [by apply paired_same|intros oldlist].
  apply stays_for_each. intros file _.
  destruct (bool_decide _); [apply paired_delete_remote|apply stays_ret].
Qed.

Lemma paired_load_state : stays all_paired (load_state (R:=R)).
Proof.
  intros m [Hs Hp]. unfold load_state.
  destruct (Os.isfile (disk m) STATE_FILENAME); [|by split].
  destruct (pickled m) as [st|] eqn:E; [|by split]. split; [by apply Hp|done].
Qed.

Lemma paired_save_state : stays all_paired (save_state (R:=R)).
Proof.
  intros m [Hs Hp]. unfold save_state. run.
  destruct (Os.write (disk m) STATE_FILENAME _); run; [|done].
  split; [done|]. by intros st [= <-].
Qed.

Lemma paired_main setup n : stays all_paired (main (R:=R) setup n).
Proof.
  unfold main. apply stays_bind; [|intros [|]; [|apply stays_ret]].
  - apply paired_same. intros m.
    by destruct (init_dropbox_cases setup m) as [E|[E|[e E]]]; rewrite E.
  - apply stays_bind; [apply paired_load_state|intros _].
    apply stays_bind; [apply paired_check_remote|intros _].
    apply stays_bind; [apply paired_save_state|intros _].
    apply stays_bind; [apply paired_check_local|intros _].
    apply stays_bind; [apply paired_save_state|intros _]. apply paired_print.
Qed.

Lemma paired_perform n o : stays all_paired (perform (R:=R) n o).
Proof.
  destruct o; simpl;
    [apply paired_upload|apply paired_download_remote|apply paired_delete_local
    |apply paired_delete_remote|].
  apply stays_bind; [apply paired_folder_entry|intros _; apply stays_ret].
Qed.

(** C7.  The two tables are written together: whatever operations the
    script performs, in whatever order and however each of them ends,
    tables that held the same keys with the same metadata still do; so
    they do after any sequence of operations from the empty state, and
    at the end of every run of the script, however it ends. *)
Theorem tables_written_together n setup (ops : list operation) m :
  all_paired m →
  paired (state (perform_all n ops m))
  ∧ all_paired (main setup n m).2.
Proof.
  intros Hm. split; [|by apply paired_main].
  revert m Hm. induction ops as [|o ops IH]; intros m Hm; simpl; [by destruct Hm|].
  apply IH. by apply paired_perform.
Qed.

End Paired.

(** from the empty state: an upload, a folder entry for the path of the
    uploaded file, deletions and a download; and a whole run *)
Lemma tables_written_together_witness :
  let m := boot DropboxState_init docs_disk new_store [] in
  let ops := [DoUpload "docs" ""; DoFolder "/docs"; DoDeleteLocal "docs";
              DoDownload "a.txt" ""; DoDeleteRemote "docs"] in
  paired (state (perform_all 3 ops m)) ∧ all_paired (main with_client 3 m).2.
Proof.
  apply (tables_written_together 3 with_client
           [DoUpload "docs" ""; DoFolder "/docs"; DoDeleteLocal "docs";
            DoDownload "a.txt" ""; DoDeleteRemote "docs"]
           (boot DropboxState_init docs_disk new_store [])).
  split; [reflexivity|]. intros st. simpl. discriminate.
Defined.

(** ** Two runs in a row *)



